(* ===== verification/_CoqProject ===== *)
-Q . S2P
Prelude.v
Bitwise.v
BitwiseProofs.v
Subvalue.v
Expr.v
ExprLemmas.v
ExprSimplify.v
ExprSupersets.v
ExprCrush.v
ExprNormalize.v
ExprProofs.v
Reconnect.v
ReconnectProofs.v
Stp.v
StpLemmas.v
StpInvariant.v
StpRoles.v
StpPreserve.v
StpProofs.v
StpProtocol.v
StpClock.v
Strings.v
CString.v
Binary64.v
OvsJson.v
OvsJsonSafe.v
OvsJsonLex.v
OvsJsonReads.v
OvsJsonRoundtrip.v
OvsJsonChunks.v
OvsJsonArray.v
OvnLex.v
OvnLexNumbers.v
OvnLexAddresses.v
OvnLexInet.v
OvnLexTokens.v
OvnLexRoundtrip.v
OvnLexTemplates.v
ExprParse.v
ExprParseProofs.v
ExprAnnotate.v
LogicalFields.v
ExprMeaning.v
ExprCertificate.v
ExprAnnotateProofs.v
ExprGrammar.v
ExprGrammarTrees.v
ExprGrammarProofs.v
ExprGrammarUnique.v
LogicalFieldsProofs.v
ExprExamples.v
Python.v
Procfs.v
CpuMonitor.v
CpuMeasures.v
CpuMonitorProofs.v
CanaryService.v
CanaryModels.v
CanaryExample.v
CanaryServiceProofs.v
CanaryPrepare.v
CanaryStore.v
CanaryJson.v
CanaryManager.v
CanaryManagerProofs.v
CanaryFaults.v
