(* ===== verification/Prelude.v ===== *)
(** * A verification development of Open vSwitch, OVN and their services

    The repository holds Open vSwitch (src/ovs), OVN (src/ovn), which programs
    it, and Python services around them (src/ovn_api, src/ovn_cpu).  OVN turns a
    logical network into logical flows whose matches are expressions over packet
    fields; ovn-controller parses each match with a table of symbols, brings the
    expression into a normal form and installs OpenFlow flows.  Its connections to
    databases and switches are kept by the reconnect state machine of Open
    vSwitch, whose bridges run the spanning tree protocol, and what they carry to
    the databases is JSON.  The API service measures how long a change takes to
    reach the switches: it creates a small resource (a canary) in the northbound
    database, watches for its traces in the southbound database and in the flows
    of a bridge, and deletes it again; a store keeps the runs and a manager
    queues them.  The CPU monitor samples /proc and shows how much processor time
    the processes and threads of the system use.  The development models these
    parts of the code as Rocq functions and proves what makes them correct.

    ** Files

    - [Prelude]: record updates, machine integers at their width, big-endian
      byte strings, tactics and hint databases.
    - [Bitwise], [BitwiseProofs]: the functions of ovs/lib/util.c that treat an
      array of bytes as one big-endian integer ([bitwise_copy], [bitwise_zero],
      [bitwise_one], [bitwise_scan], [bitwise_rscan], [bitwise_put],
      [bitwise_get], ...), byte by byte, and their equivalence with operations
      on the bits of that integer.
    - [Subvalue]: [union mf_subvalue], the value or mask of a packet field, as
      the integer it holds, with the operations of util.c, bitmap.h and
      meta-flow.c on it; a refinement theorem from the byte functions.
    - [Expr]: the abstract syntax of match expressions (ovn/lib/expr.c,
      ovn/include/ovn/expr.h) and the passes over it: [expr_simplify],
      [expr_evaluate_condition], [expr_normalize] with [expr_sort],
      [crush_cmps] and [crush_or_supersets], the checks of invariants and
      [expr_evaluate].  [ExprLemmas] has the specification [denote] and the
      shapes that the passes establish, [ExprSimplify], [ExprSupersets],
      [ExprCrush] and [ExprNormalize] the proofs about one pass each, and
      [ExprProofs] the theorems.
    - [Reconnect], [ReconnectProofs]: ovs/lib/reconnect.c, the whole state
      machine; its state is the record [reconnect] with the members of
      [struct reconnect].
    - [Stp] to [StpClock]: ovs/lib/stp.c, the 802.1D spanning tree entity of a
      bridge.  [Stp] has the records [stp] and [stp_port] and all operations,
      the other files invariants ([StpInvariant], [StpRoles], [StpPreserve]),
      the theorems about reachable states ([StpProofs]), about protocol messages
      ([StpProtocol]) and about time ([StpClock]).
    - [Strings], [CString], [Binary64]: strings, the characters and C strings of
      the C library, and its floating point numbers.
    - [OvsJson]: ovs/lib/json.c with what it uses of unicode.c, util.c and
      dynamic-string.c: the lexer, the parser with its stack, [json_equal] and
      the serializer.  [OvsJsonSafe] proves that parsing is safe, [OvsJsonLex]
      what becomes of strings and numbers, [OvsJsonReads] and
      [OvsJsonRoundtrip] that the text of a value is read back, and
      [OvsJsonChunks] that the boundaries of the input do not matter.
      [OvsJsonArray] has the storage of arrays, inline or in a block, and its
      refinement of lists.
    - [OvnLex]: ovn/lib/lex.c, the lexer of match expressions and actions, with
      the addresses of packets.c.  [OvnLexNumbers] and [OvnLexAddresses] are
      about numbers, addresses and masks, [OvnLexTokens] about the tokens the
      lexer returns, [OvnLexRoundtrip] and [OvnLexTemplates] have the theorems,
      and [OvnLexInet] an implementation of the text of addresses.
    - [ExprParse]: the parser of ovn/lib/expr.c, [expr_parse_string] and what it
      calls, as functions over a context with the lexer; [ExprParseProofs] shows
      that it ends and what it returns.  [ExprAnnotate]: symbol tables and
      [expr_annotate].  [LogicalFields]: ovn/lib/logical-fields.c, the symbols of
      OVN, with the fields of meta-flow.h.  [ExprMeaning] specifies when a
      comparison of any symbol holds and when a table can be annotated,
      [ExprCertificate] computes the latter, [ExprAnnotateProofs] relates
      annotation to the specification.  [ExprGrammar] describes the language of
      matches without the parser: a grammar over tokens, and what its expressions
      mean.  [ExprGrammarTrees] and [ExprGrammarProofs] show that what the parser
      accepts is in the language and that the tree has its meaning,
      [ExprGrammarUnique] that the grammar is unambiguous, and
      [LogicalFieldsProofs] puts the passes together for the tables of OVN.
      [ExprExamples] evaluates where the code differs from its documentation.
    - [Python]: what the service uses of Python: exceptions, a monad of state
      and exceptions, strings, the values of database columns, binary64 floating
      point numbers, and uuids.
    - [Procfs]: ovn_cpu/app/services/procfs.py, the parsers of /proc, with the
      theorem about stat lines.  [CpuMonitor]: services/cpu_monitor.py, the
      attributes of the service as the record [monitor], the collection of a
      sample and the queries; [CpuMeasures] says what a measurement between two
      readings is, without the functions of the monitor, and [CpuMonitorProofs]
      has the theorems.
    - [CanaryService]: ovn_api/app/services/trace_service.py, with the data of
      models/traces.py and the command clients of core/.  [CanaryServiceProofs]
      has the theorems about the run of a probe, [CanaryPrepare] that about its
      preparation, [CanaryExample] a simulated world to evaluate probes in.
    - [CanaryModels]: how the models of models/traces.py and the prepared probe are
      written as JSON values and checked when they are read.
    - [CanaryStore]: services/trace_store.py, the table of runs and its
      transactions, with their theorems; [CanaryJson] an encoding that satisfies
      the laws assumed of JSON, and examples.
    - [CanaryManager]: services/trace_manager.py, the worker and the requests as
      threads over a shared store and queue.  [CanaryManagerProofs] has the
      theorems about all interleavings, [CanaryFaults] what fails when the
      database does, and examples.

    ** How the code is represented

    A C integer is a [Z]; where the code stores a result at a width, the model
    wraps it ([u32], [i32], [i64], ...).  A struct is a record, updated member by
    member with [r <| f := v |>].  A function that changes a struct through a
    pointer takes and returns the record.  An expression tree, whose nodes have
    one owner and are changed in place, is a value: a loop over a list that
    replaces nodes builds the list of results.  A failing assertion, a null
    pointer or an access out of bounds is [None].  Messages that a bridge sends
    are recorded in its state in the order of the calls of [send_bpdu], which is
    assumed not to call back into the bridge.

    A Python method is a function in the monad [M S] of a state and an exception,
    [HTTPException] or another one.  What a probe meets outside the program (the
    clock, subprocesses, the database replicas, uuid4) is the class [World], and
    the commands it issues are recorded in order.  A thread of the manager is a
    value of [thread], the point it has reached with its local variables; one
    step of it is one access to shared state, and [pool_step] lets the threads
    interleave in any order.  A database error, the time and the way a probe ends
    are choices of the environment in each step.

    Parameters stand for what is outside: the clock, the callbacks
    [lookup_port] and [is_chassis_resident], the fields of a packet, and the C
    library's [qsort], a class [Qsort] with its documented laws and insertion
    sort as an instance, so that no theorem depends on the order of elements
    that compare equal.  Likewise the SQL engine's order of rows is the class
    [OrderBy] with merge sort as an instance, and the text of JSON values, as
    Python's json and pydantic write and read it, the class [Json] with the laws
    [JsonLaws]: finite values are read back, and a number that is not finite is
    written as null.  The C library's [strtod] and [printf] are the class [Libc], the
    order in which a hash table is visited the class [ShashOrder], and
    [inet_pton] and [inet_ntop] the class [Inet] with the laws [InetLaws].

    ** What the theorems show

    - Matches: with the symbol tables of OVN, every text is parsed to an expression
      or an error; annotation of the expression ends, and together with the later
      passes gives a normal form that holds of the packets that the text means by
      the grammar of the language, which is unambiguous.
      The exceptions are the fields of actions and relational operators on
      address sets with masks, for which [ExprExamples] shows what happens.
      Parsing and annotation have theorems for other tables too; a table is
      certified by a ranking of its symbols, without which annotation may not
      end.
    - Expressions: for every annotated expression the passes that
      ovn-controller runs end, fail no assertion, and give an expression in
      the form OR(AND(clause)) that evaluates like the original on every packet.
      Each pass has its own theorem; the removal of redundant disjuncts, an
      in-place algorithm over a linked array with an index, is shown memory
      safe, correct and complete.
    - Bits: each byte function equals its description on bits; put and get are
      inverse.
    - Reconnect: an invariant of all reachable states, a refinement of an
      abstract connection history, exactness of the timeouts and the backoff.
    - Spanning tree: an invariant of all reachable states, the election of root
      and designated ports, the adoption of a better root, failover, the gradual
      way to forwarding, BPDU encoding and error handling, and the precision of
      the timers, with the overflow and the drift that the code has.
    - JSON: whatever the input is, parsing ends in a well-formed value or an
      error; the text of a value is read back to an equal value; the sorted text
      is the same for equal values; how the input is cut makes no difference; a
      number is the integer it denotes if that has 64 bits, except for the four
      that wrap around; arrays behave like lists.
    - Lexer: it takes every input apart, always advances and stays in the input;
      the text of tokens is read back as the tokens; templates are expanded to
      their values.
    - Canary probes: preparing one runs no command and plans the deletion of all
      it will create; whatever happens, the cleanup commands are run last; the
      status says exactly what was observed; a probe ends, if the processes it
      runs do.
    - CPU monitor: a stat line is parsed right for every process name; what the
      monitor shows after any series of collections, failed ones included, is a
      measurement between consecutive readings; the
      queries return what they describe; label values are read back unless they
      have a line feed.
    - Runs: the store gives back what was written and prunes the oldest finished
      runs only.  As long as the database does not fail and the requests have
      finite timeouts, in every interleaving a run moves forward only, each active
      run has exactly one owner, there is one live worker, and it empties the
      queue.  A database error can strand a run, an infinite timeout ends the
      worker, and listeners can be told of states out of order.

    ** Fuel and bounds

    Loops with a bound known from the arguments run on that bound.
    [crush_cmps] runs on [crush_fuel], the depth of the expression plus the
    lengths of its conjunctions, and [expr_normalize] on the number of OR nodes;
    [crush_cmps_fuel_spec] and [normalize_and_fuel_spec] prove that this is
    enough.  The JSON parser and the lexers take a byte in every iteration, so that the
    length of the input is enough; [unescape_from_some], [lex_next_ok] and
    [lex_tokens_ok] prove it.  The loops of the parser of expressions take a token,
    so that what is left of the input is enough ([runs_parse_constants],
    [runs_parse_operands]), and its recursion is on the parentheses that may still
    be opened, at most 100.  Annotation runs on fuel; [annotation_spec] proves that
    for a certified table some fuel is enough and that more does not change the
    result.  The loops of [crush_or_supersets] follow links that lead upwards,
    so that the length of the array is enough; [build_index_spec],
    [eliminate_from_spec] and [eliminate_spec] prove it.  The polling loops of a
    probe depend on the clock and run on fuel; [CanaryServiceProofs] proves
    that for a clock that passes the deadline some fuel is enough and that more
    does not change the result.

    ** Not modelled

    Of expressions, printing and [expr_to_matches], which makes OpenFlow matches,
    are not modelled, nor are the sets of constants that ovn-controller keeps for
    address sets and port groups: the parser gets them as tables.  OVSDB data,
    the TCP state machine of conntrack and the other protocols of Open vSwitch are
    not modelled, nor are the other Python services (live monitoring, scheduled
    metrics, datapath metrics, the database replica client), which are I/O around
    libraries.  The table of fields that the build generates is not modelled; the
    comments it is generated from are.  Of JSON,
    reading from files and reference counts are not modelled, of the lexer where
    the string of a token is stored.  OVN's actions encode OpenFlow messages,
    which are not modelled.  Of the CPU monitor, the thread, the reading and
    decoding of files, the full snapshot response and the rendering of metrics are
    not modelled.  Of the trace
    manager, the moment between the creation of the worker and its start is not
    modelled, nor is a database error that takes effect although it is reported.
    The datapath, ofproto and the classifier are concurrent code over RCU data
    structures; northd and ovn-controller work on replicas that generated code
    maintains; both depend on parts that are not modelled.  In the modelled
    files, logging, reference counting, locking, memory management and the
    printing of status are left out. *)
From stdpp Require Import base list gmap strings.
From Stdlib Require Import ZArith Lia.

Local Open Scope Z_scope.

(** ** Record updates

    C code assigns to one member of a struct at a time.  [r <| f := v |>] is
    the record [r] with member [f] replaced by [v], and [r <| f ::= g |>]
    applies [g] to the member.  A record type opts in with an instance of
    [Rebuild], its eta-expansion in terms of its projections. *)

Declare Scope ovs_scope.
Delimit Scope ovs_scope with ovs.

Class Rebuild (R : Type) := rebuild : R -> R.

Class FieldSetter {R E : Type} (field : R -> E) :=
  modify_field : (E -> E) -> R -> R.

Ltac derive_setter R E field :=
  let inst := constr:(_ : Rebuild R) in
  exact (fun (g : E -> E) (r : R) => ltac:(
    let eta := match inst with ?eta => eta end in
    let body := eval cbv beta delta [rebuild eta] in (@rebuild R inst r) in
    match body with
    | context C [field r] =>
        let body' := context C [g (field r)] in exact body'
    end)).

#[export] Hint Extern 1 (@FieldSetter ?R ?E ?field) =>
  derive_setter R E field : typeclass_instances.

#[warnings="-postfix-notation-not-level-1"]
Notation "r <| f := v |>" := (modify_field (field:=f) (fun _ => v) r)
  (at level 12, left associativity, f at level 1, v at level 99,
   format "r  <| f  :=  v |>") : ovs_scope.
#[warnings="-postfix-notation-not-level-1"]
Notation "r <| f ::= g |>" := (modify_field (field:=f) g r)
  (at level 12, left associativity, f at level 1, g at level 99,
   format "r  <| f  ::=  g |>") : ovs_scope.

Open Scope ovs_scope.

(** ** Machine integers

    A [w]-bit unsigned C integer is a [Z] in [0, 2^w); a signed one is a [Z]
    in [-2^(w-1), 2^(w-1)).  Arithmetic is written on [Z] and converted back
    with [uwrap]/[swrap] where the code stores the result at its width. *)

Definition uwrap (w x : Z) : Z := x mod 2 ^ w.
Definition swrap (w x : Z) : Z := (x + 2 ^ (w - 1)) mod 2 ^ w - 2 ^ (w - 1).

#[global] Arguments uwrap : simpl never.
#[global] Arguments swrap : simpl never.

Abbreviation u8 := (uwrap 8).
Abbreviation u16 := (uwrap 16).
Abbreviation u32 := (uwrap 32).
Abbreviation u64 := (uwrap 64).
Abbreviation i32 := (swrap 32).
Abbreviation i64 := (swrap 64).

Definition INT_MAX : Z := 2147483647.
Definition INT_MIN : Z := -2147483648.
Definition UINT_MAX : Z := 4294967295.
Definition LLONG_MAX : Z := 9223372036854775807.
Definition LLONG_MIN : Z := -9223372036854775808.

Definition is_int (x : Z) : Prop := INT_MIN <= x <= INT_MAX.
Definition is_uint (x : Z) : Prop := 0 <= x <= UINT_MAX.

Section MachineIntegers.
Lemma uwrap_range w x : 0 <= w -> 0 <= uwrap w x < 2 ^ w.
Proof. intros. apply Z.mod_pos_bound. lia. Qed.

Lemma uwrap_id w x : 0 <= x < 2 ^ w -> uwrap w x = x.
Proof. apply Z.mod_small. Qed.

Lemma uwrap_idemp w x : uwrap w (uwrap w x) = uwrap w x.
Proof. apply Zmod_mod. Qed.

Lemma uwrap_add_l w x y : uwrap w (uwrap w x + y) = uwrap w (x + y).
Proof. apply Zplus_mod_idemp_l. Qed.

Lemma uwrap_odd w x : 0 < w -> Z.odd (uwrap w x) = Z.odd x.
Proof.
  intros Hw. unfold uwrap.
  rewrite <- Z.land_ones by lia.
  rewrite <- !Z.bit0_odd, Z.land_spec, Z.ones_spec_low by lia.
  apply andb_true_r.
Qed.

Lemma swrap_range w x : 0 < w -> - 2 ^ (w - 1) <= swrap w x < 2 ^ (w - 1).
Proof.
  intros Hw. unfold swrap.
  pose proof (Z.mod_pos_bound (x + 2 ^ (w - 1)) (2 ^ w) ltac:(lia)).
  replace (2 ^ w) with (2 * 2 ^ (w - 1)) in *
    by (rewrite <- Z.pow_succ_r by lia; f_equal; lia).
  lia.
Qed.

Lemma swrap_id w x :
  0 < w -> - 2 ^ (w - 1) <= x < 2 ^ (w - 1) -> swrap w x = x.
Proof.
  intros Hw Hx. unfold swrap. rewrite Z.mod_small; [lia |].
  replace (2 ^ w) with (2 * 2 ^ (w - 1))
    by (rewrite <- Z.pow_succ_r by lia; f_equal; lia).
  lia.
Qed.

Lemma i32_id x : is_int x -> i32 x = x.
Proof. unfold is_int, INT_MIN, INT_MAX. intros. apply swrap_id; lia. Qed.

Lemma i64_id x : LLONG_MIN <= x <= LLONG_MAX -> i64 x = x.
Proof. unfold LLONG_MIN, LLONG_MAX. intros. apply swrap_id; lia. Qed.

Lemma u32_is_uint x : is_uint (u32 x).
Proof.
  pose proof (uwrap_range 32 x ltac:(lia)). unfold is_uint, UINT_MAX. lia.
Qed.
End MachineIntegers.

Create HintDb ovs.
Create Rewrite HintDb ovs.
#[export] Hint Resolve u32_is_uint : ovs.
#[export] Hint Rewrite uwrap_idemp uwrap_add_l : ovs.

(** ** Tactics *)

(** Reflect the boolean tests of the code into propositions. *)
Ltac reflect_bools :=
  repeat match goal with
  | H : (_ && _)%bool = true |- _ => apply andb_true_iff in H as [? ?]
  | H : (_ || _)%bool = false |- _ => apply orb_false_iff in H as [? ?]
  | H : (_ && _)%bool = false |- _ => apply andb_false_iff in H
  | H : (_ || _)%bool = true |- _ => apply orb_true_iff in H
  | H : negb _ = true |- _ => apply negb_true_iff in H
  | H : negb _ = false |- _ => apply negb_false_iff in H
  | H : (_ =? _) = true |- _ => apply Z.eqb_eq in H
  | H : (_ =? _) = false |- _ => apply Z.eqb_neq in H
  | H : (_ <? _) = true |- _ => apply Z.ltb_lt in H
  | H : (_ <? _) = false |- _ => apply Z.ltb_ge in H
  | H : (_ <=? _) = true |- _ => apply Z.leb_le in H
  | H : (_ <=? _) = false |- _ => apply Z.leb_gt in H
  | H : bool_decide _ = true |- _ => apply bool_decide_eq_true in H
  | H : bool_decide _ = false |- _ => apply bool_decide_eq_false in H
  end.

(** Case analysis on the condition of an [if] in the goal, or of all. *)
Ltac split_if :=
  match goal with
  | |- context [if ?b then _ else _] =>
      lazymatch b with context [if _ then _ else _] => fail | _ => idtac end;
      let E := fresh "Hif" in destruct b eqn:E
  end.
Ltac split_ifs := repeat split_if.

(** [lia] with the quotients and remainders replaced by their equations. *)
Ltac div_lia := Z.to_euclidean_division_equations; lia.

(** ** Big-endian byte strings (network byte order) *)

(** The [n] bytes of an [8*n]-bit integer, most significant first. *)
Fixpoint be_bytes (n : nat) (x : Z) : list Z :=
  match n with
  | O => []
  | S n => be_bytes n (x / 256) ++ [x mod 256]
  end.

Definition be_value (bs : list Z) : Z := foldl (fun v b => v * 256 + b) 0 bs.

Definition is_byte (b : Z) : Prop := 0 <= b < 256.

Section BigEndian.
Lemma length_be_bytes n x : length (be_bytes n x) = n.
Proof.
  revert x. induction n as [|n IH]; intros; cbn; [done |].
  rewrite length_app, IH. cbn. lia.
Qed.

Lemma be_bytes_are_bytes n x : Forall is_byte (be_bytes n x).
Proof.
  revert x. induction n as [|n IH]; intros; cbn; [constructor |].
  apply Forall_app. split; [apply IH |]. repeat constructor;
    pose proof (Z.mod_pos_bound x 256 ltac:(lia)); lia.
Qed.

Lemma be_value_snoc bs b : be_value (bs ++ [b]) = be_value bs * 256 + b.
Proof. unfold be_value. by rewrite foldl_app. Qed.

Lemma be_value_bytes n x :
  be_value (be_bytes n x) = uwrap (8 * Z.of_nat n) x.
Proof.
  unfold uwrap. revert x. induction n as [|n IH]; intros x.
  { cbn. by rewrite Z.mod_1_r. }
  cbn [be_bytes]. rewrite be_value_snoc, IH.
  replace (8 * Z.of_nat (S n)) with (8 + 8 * Z.of_nat n) by lia.
  rewrite Z.pow_add_r by lia. change (2 ^ 8) with 256.
  rewrite (Z.rem_mul_r x 256) by lia. lia.
Qed.

Lemma be_value_bytes_id n x :
  0 <= x < 2 ^ (8 * Z.of_nat n) -> be_value (be_bytes n x) = x.
Proof. intros. rewrite be_value_bytes. by apply uwrap_id. Qed.
End BigEndian.

(** ** State machines

    A component's entry points give a transition system; what holds of every
    reachable state is proved by induction on the steps that lead to it. *)

Record system (S : Type) := System {
  sys_init : S -> Prop;
  sys_step : S -> S -> Prop;
}.
Arguments System {S} _ _.
Arguments sys_init {S} _ _.
Arguments sys_step {S} _ _ _.

Inductive reachable {S} (sys : system S) : S -> Prop :=
| reachable_init s : sys_init sys s -> reachable sys s
| reachable_step s s' :
    reachable sys s -> sys_step sys s s' -> reachable sys s'.

Class Invariant {S} (sys : system S) (I : S -> Prop) := {
  inv_init s : sys_init sys s -> I s;
  inv_step s s' : I s -> sys_step sys s s' -> I s';
}.

Lemma invariant_reachable {S} (sys : system S) (I : S -> Prop)
    `{!Invariant sys I} s :
  reachable sys s -> I s.
Proof.
  induction 1; [by apply (inv_init (sys:=sys)) |].
  by eapply (inv_step (sys:=sys)).
Qed.
