(* ===== verification/Bitwise.v ===== *)
(** * Bit ranges of byte arrays (ovs/lib/util.c)

    The [bitwise_*] functions treat an array of bytes as one unsigned integer in
    network byte order and read, write, copy and scan ranges of its bits.  The
    model keeps the arrays as lists of bytes and follows the code byte by byte;
    [BitwiseProofs] relates it to the integer the array stands for. *)
From stdpp Require Import base list.
From Stdlib Require Import ZArith Lia.
From S2P Require Import Prelude.

Module Bitwise.

Local Open Scope Z_scope.

(** ** Byte arrays *)

(** [p[i]], and [p[i] = b] where [b] is converted to [uint8_t]. *)
Definition byte_at (a : list Z) (i : Z) : Z := a !!! Z.to_nat i.

Definition set_byte (a : list Z) (i b : Z) : list Z := <[Z.to_nat i := u8 b]> a.

Definition is_all_byte (p : list Z) (n : nat) (byte : Z) : bool :=
  forallb (fun b => b =? byte) (take n p).

Definition is_all_zeros (p : list Z) (n : nat) : bool := is_all_byte p n 0.

Definition is_all_ones (p : list Z) (n : nat) : bool := is_all_byte p n 0xff.

(** The loop over [i], from [i] with [n] iterations left. *)
Fixpoint or_bytes_from (dst src : list Z) (i : Z) (n : nat) : list Z :=
  match n with
  | O => dst
  | S n => or_bytes_from (set_byte dst i (Z.lor (byte_at dst i) (byte_at src i)))
             src (i + 1) n
  end.

Definition or_bytes (dst src : list Z) (n : nat) : list Z :=
  or_bytes_from dst src 0 n.

(** [memcpy(dst + di, src + si, n)] *)
Fixpoint memcpy (dst : list Z) (di : Z) (src : list Z) (si : Z) (n : nat)
    : list Z :=
  match n with
  | O => dst
  | S n => memcpy (set_byte dst di (byte_at src si)) (di + 1) src (si + 1) n
  end.

(** ** Copying *)

(** The [while (n_bits > 0)] loop.  [si] and [di] index the bytes that [src] and
    [dst] point to.  Each iteration copies at least one bit, so [n_bits]
    iterations are enough. *)
Fixpoint bitwise_copy_loop (fuel : nat) (src : list Z) (si src_ofs : Z)
    (dst : list Z) (di dst_ofs n_bits : Z) : list Z :=
  match fuel with
  | O => dst
  | S fuel =>
      if 0 <? n_bits then
        let max_copy := 8 - Z.max src_ofs dst_ofs in
        let chunk := Z.min n_bits max_copy in
        let mask := u8 (Z.shiftl (Z.shiftl 1 chunk - 1) dst_ofs) in
        let dst := set_byte dst di (Z.land (byte_at dst di) (Z.lnot mask)) in
        let dst := set_byte dst di
                     (Z.lor (byte_at dst di)
                        (Z.land (Z.shiftl (Z.shiftr (byte_at src si) src_ofs)
                                   dst_ofs) mask)) in
        let src_ofs := src_ofs + chunk in
        let si' := if src_ofs =? 8 then si - 1 else si in
        let src_ofs := if src_ofs =? 8 then 0 else src_ofs in
        let dst_ofs := dst_ofs + chunk in
        let di' := if dst_ofs =? 8 then di - 1 else di in
        let dst_ofs := if dst_ofs =? 8 then 0 else dst_ofs in
        bitwise_copy_loop fuel src si' src_ofs dst di' dst_ofs (n_bits - chunk)
      else dst
  end.

(** The case where both offsets are at a byte boundary. *)
Definition bitwise_copy_aligned (src : list Z) (si : Z) (dst : list Z) (di : Z)
    (n_bits : Z) : list Z :=
  let n_bytes := n_bits / 8 in
  let '(si, dst, di, n_bits) :=
    if negb (n_bytes =? 0) then
      let di := di - (n_bytes - 1) in
      let si := si - (n_bytes - 1) in
      let dst := memcpy dst di src si (Z.to_nat n_bytes) in
      (si - 1, dst, di - 1, n_bits mod 8)
    else (si, dst, di, n_bits) in
  if negb (n_bits =? 0) then
    let mask := u8 (Z.shiftl 1 n_bits - 1) in
    set_byte dst di (Z.lor (Z.land (byte_at dst di) (Z.lnot mask))
                           (Z.land (byte_at src si) mask))
  else dst.

Definition bitwise_copy (src : list Z) (src_len src_ofs : Z)
    (dst : list Z) (dst_len dst_ofs n_bits : Z) : list Z :=
  let si := src_len - (src_ofs / 8 + 1) in
  let src_ofs := src_ofs mod 8 in
  let di := dst_len - (dst_ofs / 8 + 1) in
  let dst_ofs := dst_ofs mod 8 in
  if (src_ofs =? 0) && (dst_ofs =? 0)
  then bitwise_copy_aligned src si dst di n_bits
  else bitwise_copy_loop (Z.to_nat n_bits) src si src_ofs dst di dst_ofs n_bits.

(** ** Setting and testing ranges *)

(** [while (n_bits >= 8) { *dst-- = v; n_bits -= 8; }], [k] iterations left;
    returns the array and the final index. *)
Fixpoint fill_bytes (dst : list Z) (di v : Z) (k : nat) : list Z * Z :=
  match k with
  | O => (dst, di)
  | S k => fill_bytes (set_byte dst di v) (di - 1) v k
  end.

(** Both [bitwise_zero] and [bitwise_one] with the operation on a partly covered
    byte and the value of a fully covered byte as arguments. *)
Definition bitwise_fill (partial : Z -> Z -> Z) (full : Z) (dst : list Z)
    (dst_len dst_ofs n_bits : Z) : list Z :=
  if n_bits =? 0 then dst
  else
    let di := dst_len - (dst_ofs / 8 + 1) in
    let dst_ofs := dst_ofs mod 8 in
    let chunk := if negb (dst_ofs =? 0) then Z.min n_bits (8 - dst_ofs) else 0 in
    let dst :=
      if negb (dst_ofs =? 0)
      then set_byte dst di (partial (byte_at dst di)
                              (Z.shiftl (Z.shiftl 1 chunk - 1) dst_ofs))
      else dst in
    let n_bits := n_bits - chunk in
    if negb (dst_ofs =? 0) && (n_bits =? 0) then dst
    else
      let di := if negb (dst_ofs =? 0) then di - 1 else di in
      let '(dst, di) := fill_bytes dst di full (Z.to_nat (n_bits / 8)) in
      let n_bits := n_bits mod 8 in
      if negb (n_bits =? 0)
      then set_byte dst di (partial (byte_at dst di) (Z.shiftl 1 n_bits - 1))
      else dst.

Definition bitwise_zero : list Z -> Z -> Z -> Z -> list Z :=
  bitwise_fill (fun b mask => Z.land b (Z.lnot mask)) 0.

Definition bitwise_one : list Z -> Z -> Z -> Z -> list Z :=
  bitwise_fill Z.lor 0xff.

(** The bytes tested by the middle loop of [bitwise_is_all_zeros]. *)
Fixpoint zero_bytes (p : list Z) (i : Z) (k : nat) : bool :=
  match k with
  | O => true
  | S k => if negb (byte_at p i =? 0) then false else zero_bytes p (i - 1) k
  end.

Definition bitwise_is_all_zeros (p : list Z) (len ofs n_bits : Z) : bool :=
  if n_bits =? 0 then true
  else
    let i := len - (ofs / 8 + 1) in
    let ofs := ofs mod 8 in
    let chunk := if negb (ofs =? 0) then Z.min n_bits (8 - ofs) else 0 in
    if negb (ofs =? 0)
       && negb (Z.land (byte_at p i) (Z.shiftl (Z.shiftl 1 chunk - 1) ofs) =? 0)
    then false
    else
      let n_bits := n_bits - chunk in
      if negb (ofs =? 0) && (n_bits =? 0) then true
      else
        let i := if negb (ofs =? 0) then i - 1 else i in
        let k := n_bits / 8 in
        if negb (zero_bytes p i (Z.to_nat k)) then false
        else
          let i := i - k in
          let n_bits := n_bits mod 8 in
          if negb (n_bits =? 0)
             && negb (Z.land (byte_at p i) (Z.shiftl 1 n_bits - 1) =? 0)
          then false else true.

(** ** Single bits and scans *)

Definition bitwise_get_bit (src : list Z) (len ofs : Z) : bool :=
  negb (Z.land (byte_at src (len - (ofs / 8 + 1))) (Z.shiftl 1 (ofs mod 8)) =? 0).

Definition bitwise_put0 (dst : list Z) (len ofs : Z) : list Z :=
  let i := len - (ofs / 8 + 1) in
  set_byte dst i (Z.land (byte_at dst i) (Z.lnot (Z.shiftl 1 (ofs mod 8)))).

Definition bitwise_put1 (dst : list Z) (len ofs : Z) : list Z :=
  let i := len - (ofs / 8 + 1) in
  set_byte dst i (Z.lor (byte_at dst i) (Z.shiftl 1 (ofs mod 8))).

Definition bitwise_put_bit (dst : list Z) (len ofs : Z) (b : bool) : list Z :=
  if b then bitwise_put1 dst len ofs else bitwise_put0 dst len ofs.

Definition bitwise_toggle_bit (dst : list Z) (len ofs : Z) : list Z :=
  let i := len - (ofs / 8 + 1) in
  set_byte dst i (Z.lxor (byte_at dst i) (Z.shiftl 1 (ofs mod 8))).

(** [for (ofs = start; ofs < end; ofs++)], [n] offsets left. *)
Fixpoint bitwise_scan_from (p : list Z) (len : Z) (target : bool) (ofs : Z)
    (n : nat) : Z :=
  match n with
  | O => ofs
  | S n => if Bool.eqb (bitwise_get_bit p len ofs) target then ofs
           else bitwise_scan_from p len target (ofs + 1) n
  end.

Definition bitwise_scan (p : list Z) (len : Z) (target : bool) (start end_ : Z)
    : Z :=
  bitwise_scan_from p len target start (Z.to_nat (end_ - start)).

(** [for (; ofs >= 0; ofs--)] over the bits of one byte: the offset found, or
    -1; [n] is [ofs + 1]. *)
Fixpoint rscan_byte (the_byte : Z) (target : bool) (n : nat) : Z :=
  match n with
  | O => -1
  | S ofs => if Bool.eqb (negb (Z.land the_byte (Z.shiftl 1 (Z.of_nat ofs)) =? 0))
                  target
             then Z.of_nat ofs else rscan_byte the_byte target ofs
  end.

(** [for (ofs_byte = ...; ofs_byte <= end_byte; ofs_byte++)], [n] bytes left. *)
Fixpoint rscan_bytes (s : list Z) (target : bool) (ofs_byte : Z) (n : nat) : Z :=
  match n with
  | O => ofs_byte
  | S n => if (target && negb (byte_at s ofs_byte =? 0))
              || (negb target && negb (byte_at s ofs_byte =? 0xff))
           then ofs_byte else rscan_bytes s target (ofs_byte + 1) n
  end.

Definition bitwise_rscan (s : list Z) (len : Z) (target : bool) (start end_ : Z)
    : Z :=
  let start_byte := len - (Z.quot start 8 + 1) in
  let end_byte := len - (Z.quot end_ 8 + 1) in
  let finish ofs_byte ofs :=
    let ret := (len - ofs_byte) * 8 - (8 - ofs) in
    if ret <? end_ then end_ else ret in
  let ofs := rscan_byte (byte_at s start_byte) target
               (Z.to_nat (Z.rem start 8 + 1)) in
  if ofs <? 0 then
    let ofs_byte := rscan_bytes s target (start_byte + 1)
                      (Z.to_nat (end_byte - start_byte)) in
    if end_byte <? ofs_byte then end_
    else finish ofs_byte (rscan_byte (byte_at s ofs_byte) target 8)
  else finish start_byte ofs.

(** ** Integers *)

Definition bitwise_put (value : Z) (dst : list Z) (dst_len dst_ofs n_bits : Z)
    : list Z :=
  bitwise_copy (be_bytes 8 value) 8 0 dst dst_len dst_ofs n_bits.

Definition bitwise_get (src : list Z) (src_len src_ofs n_bits : Z) : Z :=
  be_value (bitwise_copy src src_len src_ofs (be_bytes 8 0) 8 0 n_bits).

End Bitwise.
