(* ===== verification/BitwiseProofs.v ===== *)
(** * The bitwise functions compute on the integer the array stands for

    Each function of [Bitwise] is equivalent to its description in terms of the
    bits of [be_value], the unsigned integer the array holds in network byte
    order. *)
From stdpp Require Import base list.
From Stdlib Require Import ZArith Lia.
From S2P Require Import Prelude Bitwise.
Import Bitwise.

Local Open Scope Z_scope.

Abbreviation len a := (Z.of_nat (length a)).
Abbreviation bytes := (Forall is_byte).

(** ** Bits of a byte array *)

Lemma testbit_high x w n :
  0 <= x < 2 ^ w -> 0 <= w <= n -> Z.testbit x n = false.
Proof.
  intros Hx Hn. rewrite Z.testbit_eqb by lia.
  rewrite Z.div_small; [done |]. split; [lia |].
  apply Z.lt_le_trans with (2 ^ w); [lia |]. apply Z.pow_le_mono_r; lia.
Qed.

Lemma byte_testbit_high b n : is_byte b -> 8 <= n -> Z.testbit b n = false.
Proof. intros Hb Hn. apply (testbit_high b 8); [done | lia]. Qed.

Lemma testbit_join v b n :
  is_byte b -> 0 <= n ->
  Z.testbit (v * 256 + b) n = if n <? 8 then Z.testbit b n else Z.testbit v (n - 8).
Proof.
  intros Hb Hn. destruct (Z.ltb_spec n 8).
  - rewrite <- (Z.mod_pow2_bits_low (v * 256 + b) 8) by lia.
    change (2 ^ 8) with 256. rewrite Z.add_comm, Z.mod_add by lia.
    by rewrite Z.mod_small.
  - replace n with (n - 8 + 8) at 1 by lia.
    rewrite <- Z.div_pow2_bits by lia. change (2 ^ 8) with 256. f_equal.
    unfold is_byte in Hb. div_lia.
Qed.

Lemma byte_at_lookup a i :
  0 <= i < len a -> a !! Z.to_nat i = Some (byte_at a i).
Proof. intros Hi. apply list_lookup_lookup_total_lt. lia. Qed.

Lemma byte_at_is_byte a i : bytes a -> 0 <= i < len a -> is_byte (byte_at a i).
Proof. intros Ha Hi. eapply Forall_lookup_1; [done | by apply byte_at_lookup]. Qed.

(** Bit [n] of the integer is bit [n mod 8] of byte [n / 8], counted from the
    end of the array. *)
Lemma be_value_testbit a n :
  bytes a -> 0 <= n < 8 * len a ->
  Z.testbit (be_value a) n = Z.testbit (byte_at a (len a - (n / 8 + 1))) (n mod 8).
Proof.
  revert n. induction a as [|b a IH] using rev_ind; intros n Ha Hn; [cbn in Hn; lia |].
  apply Forall_app in Ha as [Ha Hb]. apply Forall_cons in Hb as [Hb _].
  rewrite length_app in *. cbn [length] in *.
  rewrite be_value_snoc, testbit_join by (done || lia).
  destruct (Z.ltb_spec n 8).
  - rewrite Z.div_small, Z.mod_small by lia.
    unfold byte_at. rewrite lookup_total_app_r by lia.
    by replace (Z.to_nat _ - length a)%nat with 0%nat by lia.
  - rewrite IH by (done || lia). unfold byte_at.
    rewrite lookup_total_app_l by div_lia.
    f_equal; [f_equal |]; div_lia.
Qed.

Lemma be_value_range a : bytes a -> 0 <= be_value a < 2 ^ (8 * len a).
Proof.
  induction a as [|b a IH] using rev_ind; intros Ha; [cbn; lia |].
  apply Forall_app in Ha as [Ha Hb]. apply Forall_cons in Hb as [Hb _].
  specialize (IH Ha). rewrite be_value_snoc, length_app. cbn [length].
  replace (8 * Z.of_nat (length a + 1)) with (8 * len a + 8) by lia.
  rewrite Z.pow_add_r by lia. change (2 ^ 8) with 256. unfold is_byte in Hb. lia.
Qed.

Lemma be_value_testbit_high a n :
  bytes a -> 8 * len a <= n -> Z.testbit (be_value a) n = false.
Proof. intros Ha Hn. eapply testbit_high; [by apply be_value_range | lia]. Qed.

(** ** Storing a byte *)

Lemma length_set_byte a i b : length (set_byte a i b) = length a.
Proof. apply length_insert. Qed.

Lemma u8_is_byte b : is_byte (u8 b).
Proof. apply (uwrap_range 8). lia. Qed.

Lemma set_byte_bytes a i b : bytes a -> bytes (set_byte a i b).
Proof. intros Ha. apply Forall_insert; [done | apply u8_is_byte]. Qed.

Lemma byte_at_set_eq a i b : 0 <= i < len a -> byte_at (set_byte a i b) i = u8 b.
Proof. intros Hi. apply list_lookup_total_insert_eq. lia. Qed.

Lemma byte_at_set_ne a i j b :
  0 <= i < len a -> 0 <= j -> i <> j -> byte_at (set_byte a i b) j = byte_at a j.
Proof. intros. apply list_lookup_total_insert_ne. lia. Qed.

Lemma u8_testbit b n : 0 <= n < 8 -> Z.testbit (u8 b) n = Z.testbit b n.
Proof. intros Hn. apply (Z.mod_pow2_bits_low b 8). lia. Qed.

#[export] Hint Resolve set_byte_bytes u8_is_byte : ovs.
#[export] Hint Rewrite length_set_byte : ovs.

(** The effect of one store on the bits: byte [k] from the end holds the bits
    [8 * k] to [8 * k + 7]. *)
Lemma set_byte_testbit a i b n :
  bytes a -> 0 <= i < len a -> 0 <= n < 8 * len a ->
  Z.testbit (be_value (set_byte a i b)) n
  = if n / 8 =? len a - 1 - i then Z.testbit b (n mod 8)
    else Z.testbit (be_value a) n.
Proof.
  intros Ha Hi Hn.
  rewrite !be_value_testbit, length_set_byte
    by (rewrite ?length_set_byte; auto with ovs).
  destruct (Z.eqb_spec (n / 8) (len a - 1 - i)) as [Heq|Hne].
  - replace (len a - (n / 8 + 1)) with i by lia.
    rewrite byte_at_set_eq, u8_testbit by div_lia. done.
  - rewrite byte_at_set_ne by div_lia. done.
Qed.

(** Masks. *)
Lemma testbit_mask k n : 0 <= k -> 0 <= n -> Z.testbit (Z.shiftl 1 k - 1) n = (n <? k).
Proof.
  intros Hk Hn. rewrite Z.shiftl_1_l. replace (2 ^ k - 1) with (Z.ones k)
    by (rewrite Z.ones_equiv; lia).
  destruct (Z.ltb_spec n k); [apply Z.ones_spec_low | apply Z.ones_spec_high]; lia.
Qed.

Lemma testbit_shifted_mask k ofs n :
  0 <= k -> 0 <= ofs -> 0 <= n ->
  Z.testbit (Z.shiftl (Z.shiftl 1 k - 1) ofs) n = (ofs <=? n) && (n <? ofs + k).
Proof.
  intros Hk Hofs Hn. rewrite Z.shiftl_spec by lia.
  destruct (Z.leb_spec ofs n); cbn [andb].
  - rewrite testbit_mask by lia. lia.
  - apply Z.testbit_neg_r. lia.
Qed.

(** ** Copying *)

(** The [chunk] bits at [src_ofs] of byte [si] replace those at [dst_ofs] of
    byte [di]. *)
Definition copy_chunk (src : list Z) (si src_ofs : Z) (dst : list Z)
    (di dst_ofs chunk : Z) : list Z :=
  let mask := u8 (Z.shiftl (Z.shiftl 1 chunk - 1) dst_ofs) in
  let dst := set_byte dst di (Z.land (byte_at dst di) (Z.lnot mask)) in
  set_byte dst di
    (Z.lor (byte_at dst di)
       (Z.land (Z.shiftl (Z.shiftr (byte_at src si) src_ofs) dst_ofs) mask)).

Lemma copy_chunk_bytes src si sofs dst di dofs chunk :
  bytes dst -> bytes (copy_chunk src si sofs dst di dofs chunk).
Proof. intros. unfold copy_chunk. auto with ovs. Qed.

Lemma length_copy_chunk src si sofs dst di dofs chunk :
  length (copy_chunk src si sofs dst di dofs chunk) = length dst.
Proof. unfold copy_chunk. by autorewrite with ovs. Qed.

(** Bit [n] after copying [n_bits] bits at [s] to [d]. *)
Definition copied (src dst : list Z) (s d n_bits n : Z) : bool :=
  if (d <=? n) && (n <? d + n_bits) then Z.testbit (be_value src) (n - d + s)
  else Z.testbit (be_value dst) n.

Lemma copy_chunk_testbit src si sofs dst di dofs chunk n :
  bytes src -> bytes dst -> 0 <= si < len src -> 0 <= di < len dst ->
  0 <= sofs -> 0 <= dofs -> 0 < chunk -> sofs + chunk <= 8 -> dofs + chunk <= 8 ->
  0 <= n < 8 * len dst ->
  Z.testbit (be_value (copy_chunk src si sofs dst di dofs chunk)) n
  = copied src dst (8 * (len src - 1 - si) + sofs)
      (8 * (len dst - 1 - di) + dofs) chunk n.
Proof.
  intros Hsrc Hdst Hsi Hdi Hs Hd Hc Hsc Hdc Hn. unfold copy_chunk, copied. cbv zeta.
  set (mask := u8 _). set (dst1 := set_byte dst di _).
  assert (bytes dst1) as Hb1 by (unfold dst1; auto with ovs).
  assert (length dst1 = length dst) as Hl1 by apply length_set_byte.
  rewrite set_byte_testbit by (rewrite ?Hl1; done). rewrite Hl1.
  destruct (Z.eqb_spec (n / 8) (len dst - 1 - di)) as [Heq|Hne].
  - assert (0 <= n mod 8 < 8) as Hm by div_lia.
    rewrite Z.lor_spec, Z.land_spec.
    assert (Z.testbit mask (n mod 8)
            = (dofs <=? n mod 8) && (n mod 8 <? dofs + chunk)) as ->.
    { unfold mask. rewrite u8_testbit, testbit_shifted_mask by lia. done. }
    assert (Z.testbit (byte_at dst1 di) (n mod 8)
            = Z.testbit (be_value dst) n
              && negb ((dofs <=? n mod 8) && (n mod 8 <? dofs + chunk))) as ->.
    { unfold dst1. rewrite byte_at_set_eq, u8_testbit, Z.land_spec, Z.lnot_spec by lia.
      unfold mask. rewrite u8_testbit, testbit_shifted_mask by lia.
      rewrite (be_value_testbit dst) by done. do 2 f_equal. f_equal. lia. }
    replace ((8 * (len dst - 1 - di) + dofs <=? n)
             && (n <? 8 * (len dst - 1 - di) + dofs + chunk))
      with ((dofs <=? n mod 8) && (n mod 8 <? dofs + chunk)) by div_lia.
    destruct ((dofs <=? n mod 8) && (n mod 8 <? dofs + chunk)) eqn:Hin; cbn [negb];
      rewrite ?andb_false_r, ?andb_true_r, ?orb_false_r; [| done]. cbn [orb].
    rewrite Z.shiftl_spec, Z.shiftr_spec by lia.
    rewrite be_value_testbit by (done || div_lia).
    f_equal; [f_equal |]; div_lia.
  - replace ((8 * (len dst - 1 - di) + dofs <=? n)
             && (n <? 8 * (len dst - 1 - di) + dofs + chunk)) with false by div_lia.
    unfold dst1. rewrite set_byte_testbit by done.
    by rewrite (proj2 (Z.eqb_neq _ _) Hne).
Qed.

(** What copying [n_bits] bits at [s] of [src] to [d] of [dst] must give. *)
Record copy_spec (src dst : list Z) (s d n_bits : Z) (dst' : list Z) : Prop := {
  cs_bytes : bytes dst';
  cs_length : length dst' = length dst;
  cs_bits n : 0 <= n < 8 * len dst ->
              Z.testbit (be_value dst') n = copied src dst s d n_bits n;
}.

Lemma copy_spec_refl src dst s d : bytes dst -> copy_spec src dst s d 0 dst.
Proof.
  intros Hdst. split; [done | done |]. intros n Hn. unfold copied.
  by replace ((d <=? n) && (n <? d + 0)) with false by lia.
Qed.

Lemma copy_spec_trans src dst dst1 dst2 s d k n_bits :
  0 <= k <= n_bits -> copy_spec src dst s d k dst1 ->
  copy_spec src dst1 (s + k) (d + k) (n_bits - k) dst2 ->
  copy_spec src dst s d n_bits dst2.
Proof.
  intros Hk [Hb1 Hl1 H1] [Hb2 Hl2 H2]. split; [done | congruence |].
  intros n Hn. rewrite H2 by (by rewrite Hl1). unfold copied in *.
  destruct ((d + k <=? n) && (n <? d + k + (n_bits - k))) eqn:E2.
  - replace ((d <=? n) && (n <? d + n_bits)) with true by lia. f_equal. lia.
  - rewrite H1 by done.
    destruct ((d <=? n) && (n <? d + k)) eqn:E1.
    + by replace ((d <=? n) && (n <? d + n_bits)) with true by lia.
    + by replace ((d <=? n) && (n <? d + n_bits)) with false by lia.
Qed.

Lemma copy_chunk_spec src si sofs dst di dofs chunk :
  bytes src -> bytes dst -> 0 <= si < len src -> 0 <= di < len dst ->
  0 <= sofs -> 0 <= dofs -> 0 < chunk -> sofs + chunk <= 8 -> dofs + chunk <= 8 ->
  copy_spec src dst (8 * (len src - 1 - si) + sofs)
    (8 * (len dst - 1 - di) + dofs) chunk
    (copy_chunk src si sofs dst di dofs chunk).
Proof.
  intros. split.
  - by apply copy_chunk_bytes.
  - apply length_copy_chunk.
  - intros. by apply copy_chunk_testbit.
Qed.

Lemma copy_loop_spec fuel src si sofs dst di dofs n_bits :
  bytes src -> bytes dst -> 0 <= n_bits <= Z.of_nat fuel ->
  si < len src -> di < len dst -> 0 <= sofs < 8 -> 0 <= dofs < 8 ->
  8 * (len src - 1 - si) + sofs + n_bits <= 8 * len src ->
  8 * (len dst - 1 - di) + dofs + n_bits <= 8 * len dst ->
  copy_spec src dst (8 * (len src - 1 - si) + sofs)
    (8 * (len dst - 1 - di) + dofs) n_bits
    (bitwise_copy_loop fuel src si sofs dst di dofs n_bits).
Proof.
  revert si sofs dst di dofs n_bits.
  induction fuel as [|fuel IH]; intros si sofs dst di dofs n_bits
    Hsrc Hdst Hn Hsi Hdi Hs Hd HS HD.
  { replace n_bits with 0 by lia. by apply copy_spec_refl. }
  cbn [bitwise_copy_loop]. destruct (Z.ltb_spec 0 n_bits).
  2: { replace n_bits with 0 by lia. by apply copy_spec_refl. }
  cbv zeta. set (chunk := Z.min n_bits (8 - Z.max sofs dofs)).
  assert (0 < chunk <= n_bits /\ sofs + chunk <= 8 /\ dofs + chunk <= 8)
    as (Hc & Hsc & Hdc) by lia. clearbody chunk.
  fold (copy_chunk src si sofs dst di dofs chunk).
  pose proof (copy_chunk_spec src si sofs dst di dofs chunk) as Hchunk.
  destruct Hchunk as [Hb Hl Hbits]; [done | done | lia .. |].
  eapply (copy_spec_trans _ _ _ _ _ _ chunk); [lia | by split |].
  assert (forall k ofs,
    8 * (k - 1 - (if ofs =? 8 then si - 1 else si)) + (if ofs =? 8 then 0 else ofs)
    = 8 * (k - 1 - si) + ofs) as Hpos_s by (intros; destruct (Z.eqb_spec ofs 8); lia).
  assert (forall k ofs,
    8 * (k - 1 - (if ofs =? 8 then di - 1 else di)) + (if ofs =? 8 then 0 else ofs)
    = 8 * (k - 1 - di) + ofs) as Hpos_d by (intros; destruct (Z.eqb_spec ofs 8); lia).
  replace (8 * (len src - 1 - si) + sofs + chunk)
    with (8 * (len src - 1 - si) + (sofs + chunk)) by lia.
  replace (8 * (len dst - 1 - di) + dofs + chunk)
    with (8 * (len dst - 1 - di) + (dofs + chunk)) by lia.
  rewrite <- Hpos_s, <- Hpos_d, <- Hl.
  apply IH; rewrite ?Hpos_s, ?Hpos_d, ?Hl; try done; try lia;
    match goal with |- context [?x =? 8] => destruct (Z.eqb_spec x 8); lia end.
Qed.

(** The other order: the high part first. *)
Lemma copy_spec_trans_high src dst dst1 dst2 s d k n_bits :
  0 <= k <= n_bits -> copy_spec src dst (s + k) (d + k) (n_bits - k) dst1 ->
  copy_spec src dst1 s d k dst2 -> copy_spec src dst s d n_bits dst2.
Proof.
  intros Hk [Hb1 Hl1 H1] [Hb2 Hl2 H2]. split; [done | congruence |].
  intros n Hn. rewrite H2 by (by rewrite Hl1). unfold copied in *.
  destruct ((d <=? n) && (n <? d + k)) eqn:E2.
  - by replace ((d <=? n) && (n <? d + n_bits)) with true by lia.
  - rewrite H1 by done.
    destruct ((d + k <=? n) && (n <? d + k + (n_bits - k))) eqn:E1.
    + replace ((d <=? n) && (n <? d + n_bits)) with true by lia. f_equal. lia.
    + by replace ((d <=? n) && (n <? d + n_bits)) with false by lia.
Qed.

Lemma copy_byte_spec src si dst di :
  bytes src -> bytes dst -> 0 <= si < len src -> 0 <= di < len dst ->
  copy_spec src dst (8 * (len src - 1 - si)) (8 * (len dst - 1 - di)) 8
    (set_byte dst di (byte_at src si)).
Proof.
  intros Hsrc Hdst Hsi Hdi. split; [auto with ovs | apply length_set_byte |].
  intros n Hn. rewrite set_byte_testbit by done. unfold copied.
  replace ((8 * (len dst - 1 - di) <=? n) && (n <? 8 * (len dst - 1 - di) + 8))
    with (n / 8 =? len dst - 1 - di) by div_lia.
  destruct (Z.eqb_spec (n / 8) (len dst - 1 - di)); [| done].
  rewrite be_value_testbit by (done || div_lia). f_equal; [f_equal |]; div_lia.
Qed.

Lemma memcpy_spec src si dst di n :
  bytes src -> bytes dst -> 0 <= si -> si + Z.of_nat n <= len src ->
  0 <= di -> di + Z.of_nat n <= len dst ->
  copy_spec src dst (8 * (len src - si - Z.of_nat n))
    (8 * (len dst - di - Z.of_nat n)) (8 * Z.of_nat n) (memcpy dst di src si n).
Proof.
  revert dst di si. induction n as [|n IH]; intros dst di si Hsrc Hdst Hs HS Hd HD.
  { by apply copy_spec_refl. }
  cbn [memcpy].
  pose proof (copy_byte_spec src si dst di) as Hbyte.
  destruct Hbyte as [Hb Hl Hbits]; [done | done | lia | lia |].
  eapply (copy_spec_trans_high _ _ _ _ _ _ (8 * Z.of_nat n)); [lia | |].
  - split; [exact Hb | exact Hl |]. intros k Hk. rewrite Hbits by done.
    unfold copied.
    replace (8 * (len dst - 1 - di))
      with (8 * (len dst - di - Z.of_nat (S n)) + 8 * Z.of_nat n) by lia.
    replace (8 * Z.of_nat (S n) - 8 * Z.of_nat n) with 8 by lia.
    replace (8 * (len src - 1 - si))
      with (8 * (len src - si - Z.of_nat (S n)) + 8 * Z.of_nat n) by lia. done.
  - replace (8 * (len dst - di - Z.of_nat (S n)))
      with (8 * (len dst - (di + 1) - Z.of_nat n)) by lia.
    replace (8 * (len src - si - Z.of_nat (S n)))
      with (8 * (len src - (si + 1) - Z.of_nat n)) by lia.
    rewrite <- Hl. apply IH; rewrite ?Hl; auto; lia.
Qed.

(** The final, partial byte of the aligned case. *)
Lemma copy_tail_spec src si dst di k :
  bytes src -> bytes dst -> 0 <= si < len src -> 0 <= di < len dst -> 0 < k < 8 ->
  copy_spec src dst (8 * (len src - 1 - si)) (8 * (len dst - 1 - di)) k
    (let mask := u8 (Z.shiftl 1 k - 1) in
     set_byte dst di (Z.lor (Z.land (byte_at dst di) (Z.lnot mask))
                            (Z.land (byte_at src si) mask))).
Proof.
  intros Hsrc Hdst Hsi Hdi Hk. cbv zeta.
  split; [auto with ovs | apply length_set_byte |].
  intros n Hn. rewrite set_byte_testbit by done. unfold copied.
  destruct (Z.eqb_spec (n / 8) (len dst - 1 - di)) as [Heq|Hne].
  - assert (0 <= n mod 8 < 8) by div_lia.
    rewrite Z.lor_spec, !Z.land_spec, Z.lnot_spec, !u8_testbit, !testbit_mask by lia.
    replace ((8 * (len dst - 1 - di) <=? n) && (n <? 8 * (len dst - 1 - di) + k))
      with (n mod 8 <? k) by div_lia.
    destruct (n mod 8 <? k) eqn:Hin; cbn [negb];
      rewrite ?andb_false_r, ?andb_true_r, ?orb_false_r; cbn [orb].
    + rewrite be_value_testbit by (done || div_lia). f_equal; [f_equal |]; div_lia.
    + rewrite (be_value_testbit dst) by done. f_equal. f_equal. lia.
  - by replace ((8 * (len dst - 1 - di) <=? n)
                && (n <? 8 * (len dst - 1 - di) + k)) with false by div_lia.
Qed.

Lemma copy_aligned_spec src si dst di n_bits :
  bytes src -> bytes dst -> 0 <= n_bits -> si < len src -> di < len dst ->
  8 * (len src - 1 - si) + n_bits <= 8 * len src ->
  8 * (len dst - 1 - di) + n_bits <= 8 * len dst ->
  copy_spec src dst (8 * (len src - 1 - si)) (8 * (len dst - 1 - di)) n_bits
    (bitwise_copy_aligned src si dst di n_bits).
Proof.
  intros Hsrc Hdst Hn Hsi Hdi HS HD. unfold bitwise_copy_aligned.
  destruct (Z.eqb_spec (n_bits / 8) 0) as [Hz|Hnz]; cbn [negb].
  - destruct (Z.eqb_spec n_bits 0) as [->|]; cbn [negb]; [by apply copy_spec_refl |].
    apply copy_tail_spec; auto; div_lia.
  - set (q := n_bits / 8) in *. set (r := n_bits mod 8).
    assert (n_bits = 8 * q + r /\ 0 <= r < 8) as [Hqr Hr] by (unfold q, r; div_lia).
    clearbody q r. subst n_bits.
    pose proof (memcpy_spec src (si - (q - 1)) dst (di - (q - 1)) (Z.to_nat q)) as Hm.
    rewrite !Z2Nat.id in Hm by lia.
    destruct Hm as [Hb Hl Hbits]; [done | done | lia .. |].
    set (dst1 := memcpy _ _ _ _ _) in *.
    assert (copy_spec src dst (8 * (len src - 1 - si)) (8 * (len dst - 1 - di))
              (8 * q) dst1) as Hspec.
    { split; [done | done |]. intros n Hn'. rewrite Hbits by done.
      f_equal; lia. }
    destruct (Z.eqb_spec r 0) as [->|]; cbn [negb].
    + by replace (8 * q + 0) with (8 * q) by lia.
    + eapply (copy_spec_trans _ _ _ _ _ _ (8 * q)); [lia | exact Hspec |].
      replace (8 * (len src - 1 - si) + 8 * q)
        with (8 * (len src - 1 - (si - (q - 1) - 1))) by lia.
      replace (8 * (len dst - 1 - di) + 8 * q)
        with (8 * (len dst - 1 - (di - (q - 1) - 1))) by lia.
      replace (8 * q + r - 8 * q) with r by lia.
      rewrite <- Hl. apply copy_tail_spec; rewrite ?Hl; auto; lia.
Qed.

Lemma bitwise_copy_spec src sofs dst dofs n_bits :
  bytes src -> bytes dst -> 0 <= sofs -> 0 <= dofs -> 0 <= n_bits ->
  sofs + n_bits <= 8 * len src -> dofs + n_bits <= 8 * len dst ->
  copy_spec src dst sofs dofs n_bits
    (bitwise_copy src (len src) sofs dst (len dst) dofs n_bits).
Proof.
  intros Hsrc Hdst Hs Hd Hn HS HD. unfold bitwise_copy.
  assert (sofs = 8 * (len src - 1 - (len src - (sofs / 8 + 1))) + sofs mod 8) as Es
    by div_lia.
  assert (dofs = 8 * (len dst - 1 - (len dst - (dofs / 8 + 1))) + dofs mod 8) as Ed
    by div_lia.
  destruct ((sofs mod 8 =? 0) && (dofs mod 8 =? 0)) eqn:E.
  - assert (sofs mod 8 = 0 /\ dofs mod 8 = 0) as [Hs0 Hd0] by lia.
    rewrite Hs0, Z.add_0_r in Es. rewrite Hd0, Z.add_0_r in Ed.
    rewrite Es at 1. rewrite Ed at 1.
    apply copy_aligned_spec; try done; div_lia.
  - rewrite Es at 1. rewrite Ed at 1.
    apply copy_loop_spec; try done; div_lia.
Qed.

(** For all bit positions, beyond the array included. *)
Lemma bitwise_copy_testbit src src_ofs dst dst_ofs n_bits :
  bytes src -> bytes dst -> 0 <= src_ofs -> 0 <= dst_ofs -> 0 <= n_bits ->
  src_ofs + n_bits <= 8 * len src -> dst_ofs + n_bits <= 8 * len dst ->
  let dst' := bitwise_copy src (len src) src_ofs dst (len dst) dst_ofs n_bits in
  bytes dst' /\ length dst' = length dst
  /\ forall n, 0 <= n ->
     Z.testbit (be_value dst') n
     = if (dst_ofs <=? n) && (n <? dst_ofs + n_bits)
       then Z.testbit (be_value src) (n - dst_ofs + src_ofs)
       else Z.testbit (be_value dst) n.
Proof.
  intros Hsrc Hdst Hs Hd Hn HS HD dst'.
  destruct (bitwise_copy_spec src src_ofs dst dst_ofs n_bits) as [Hb Hl Hbits];
    [done .. |]. fold dst' in Hb, Hl, Hbits. split; [done | split; [done |]].
  intros n Hn0. destruct (Z.ltb_spec n (8 * len dst)); [apply Hbits; lia |].
  replace ((dst_ofs <=? n) && (n <? dst_ofs + n_bits)) with false by lia.
  rewrite !be_value_testbit_high; try done. by rewrite Hl.
Qed.


(** [bitwise_copy] copies bits.  For ranges inside the arrays, the bits
    [dst_ofs] to [dst_ofs + n_bits - 1] of the integer held by the destination
    become the bits from [src_ofs] on of the source, every other bit keeps its
    value, and the destination stays an array of as many bytes, whether the
    offsets are byte-aligned (the [memcpy] path) or not. *)
Theorem bitwise_copy_bits src src_ofs dst dst_ofs n_bits :
  bytes src -> bytes dst -> 0 <= src_ofs -> 0 <= dst_ofs -> 0 <= n_bits ->
  src_ofs + n_bits <= 8 * len src -> dst_ofs + n_bits <= 8 * len dst ->
  let dst' := bitwise_copy src (len src) src_ofs dst (len dst) dst_ofs n_bits in
  bytes dst' /\ length dst' = length dst
  /\ forall n, 0 <= n ->
     Z.testbit (be_value dst') n
     = if (dst_ofs <=? n) && (n <? dst_ofs + n_bits)
       then Z.testbit (be_value src) (n - dst_ofs + src_ofs)
       else Z.testbit (be_value dst) n.
Proof. apply bitwise_copy_testbit. Qed.

Lemma bitwise_copy_bits_witness :
  Z.testbit (be_value (bitwise_copy [0xab; 0xcd] 2 3 [0; 0; 0] 3 5 10)) 6
  = Z.testbit (be_value [0xab; 0xcd]) 4.
Proof.
  destruct (bitwise_copy_bits [0xab; 0xcd] 3 [0; 0; 0] 5 10) as (_ & _ & H);
    [repeat constructor; lia | repeat constructor; lia | vm_compute; congruence .. |].
  apply (H 6). lia.
Defined.

(** ** Integers in bit ranges *)

Lemma be_bytes_value_8 v : be_value (be_bytes 8 v) = u64 v.
Proof. apply (be_value_bytes 8). Qed.

Lemma bitwise_get_spec src ofs n_bits :
  bytes src -> 0 <= ofs -> 0 <= n_bits <= 64 -> ofs + n_bits <= 8 * len src ->
  bitwise_get src (len src) ofs n_bits = (be_value src / 2 ^ ofs) mod 2 ^ n_bits.
Proof.
  intros Hsrc Hofs Hn HS. unfold bitwise_get.
  destruct (bitwise_copy_testbit src ofs (be_bytes 8 0) 0 n_bits) as (Hb & Hl & Hbits);
    [done | apply be_bytes_are_bytes | lia | lia | lia | lia
    | rewrite length_be_bytes; lia |].
  rewrite length_be_bytes in Hb, Hl, Hbits. change (Z.of_nat 8) with 8 in *.
  apply Z.bits_inj'. intros n Hn0. rewrite Hbits, be_bytes_value_8 by done.
  change (u64 0) with 0. rewrite Z.bits_0.
  replace (0 <=? n) with true by lia. cbn [andb]. rewrite Z.add_0_l, Z.sub_0_r.
  destruct (Z.ltb_spec n n_bits).
  - rewrite Z.mod_pow2_bits_low, Z.div_pow2_bits by lia. done.
  - by rewrite Z.mod_pow2_bits_high by lia.
Qed.

Lemma bitwise_put_bits v dst ofs n_bits n :
  bytes dst -> 0 <= ofs -> 0 <= n_bits <= 64 -> ofs + n_bits <= 8 * len dst ->
  0 <= n ->
  Z.testbit (be_value (bitwise_put v dst (len dst) ofs n_bits)) n
  = if (ofs <=? n) && (n <? ofs + n_bits) then Z.testbit v (n - ofs)
    else Z.testbit (be_value dst) n.
Proof.
  intros Hdst Hofs Hn HD Hn0. unfold bitwise_put.
  destruct (bitwise_copy_testbit (be_bytes 8 v) 0 dst ofs n_bits) as (_ & _ & Hbits);
    [apply be_bytes_are_bytes | done | lia | lia | lia
    | rewrite length_be_bytes; lia | lia |].
  rewrite length_be_bytes in Hbits. rewrite Hbits by done.
  destruct ((ofs <=? n) && (n <? ofs + n_bits)) eqn:E; [| done].
  rewrite be_bytes_value_8. unfold uwrap.
  rewrite Z.mod_pow2_bits_low by lia. f_equal. lia.
Qed.

(** An integer written into a bit range with [bitwise_put] is read back by
    [bitwise_get], truncated to the width of the range, and the bits around the
    range do not change. *)
Theorem bitwise_put_get v dst ofs n_bits :
  bytes dst -> 0 <= ofs -> 0 <= n_bits <= 64 -> ofs + n_bits <= 8 * len dst ->
  let dst' := bitwise_put v dst (len dst) ofs n_bits in
  bitwise_get dst' (len dst') ofs n_bits = v mod 2 ^ n_bits
  /\ forall n, 0 <= n -> n < ofs \/ ofs + n_bits <= n ->
     Z.testbit (be_value dst') n = Z.testbit (be_value dst) n.
Proof.
  intros Hdst Hofs Hn HD dst'.
  pose proof (fun n => bitwise_put_bits v dst ofs n_bits n Hdst Hofs Hn HD) as Hbits.
  destruct (bitwise_copy_testbit (be_bytes 8 v) 0 dst ofs n_bits) as (Hb & Hl & _);
    [apply be_bytes_are_bytes | done | lia | lia | lia
    | rewrite length_be_bytes; lia | lia |].
  rewrite length_be_bytes in Hb, Hl.
  change (bytes dst') in Hb. change (length dst' = length dst) in Hl.
  fold dst' in Hbits. split.
  - rewrite bitwise_get_spec by (rewrite ?Hl; done).
    apply Z.bits_inj'. intros n Hn0. destruct (Z.ltb_spec n n_bits).
    + rewrite !Z.mod_pow2_bits_low, Z.div_pow2_bits, Hbits by lia.
      replace ((ofs <=? n + ofs) && (n + ofs <? ofs + n_bits)) with true by lia.
      f_equal. lia.
    + by rewrite !Z.mod_pow2_bits_high by lia.
  - intros n Hn0 Hout. rewrite Hbits by done.
    by replace ((ofs <=? n) && (n <? ofs + n_bits)) with false by lia.
Qed.

Lemma bitwise_put_get_witness :
  bitwise_get (bitwise_put 0x2fff [0; 0; 0; 0] 4 7 12) 4 7 12 = 0xfff.
Proof.
  destruct (bitwise_put_get 0x2fff [0; 0; 0; 0] 7 12) as [H _];
    [repeat constructor; lia | vm_compute; intuition congruence .. |]. exact H.
Defined.

(** ** Filling ranges *)

(** The [n_bits] bits at [d] have value [v]; the others are those of [dst]. *)
Record fill_spec (v : bool) (dst : list Z) (d n_bits : Z) (dst' : list Z) : Prop := {
  fs_bytes : bytes dst';
  fs_length : length dst' = length dst;
  fs_bits n : 0 <= n < 8 * len dst ->
    Z.testbit (be_value dst') n
    = if (d <=? n) && (n <? d + n_bits) then v else Z.testbit (be_value dst) n;
}.

Lemma fill_spec_refl v dst d : bytes dst -> fill_spec v dst d 0 dst.
Proof.
  intros. split; [done | done |]. intros n Hn.
  by replace ((d <=? n) && (n <? d + 0)) with false by lia.
Qed.

Lemma fill_spec_trans v dst dst1 dst2 d k n_bits :
  0 <= k <= n_bits -> fill_spec v dst d k dst1 ->
  fill_spec v dst1 (d + k) (n_bits - k) dst2 -> fill_spec v dst d n_bits dst2.
Proof.
  intros Hk [Hb1 Hl1 H1] [Hb2 Hl2 H2]. split; [done | congruence |].
  intros n Hn. rewrite H2, H1 by (by rewrite ?Hl1).
  destruct ((d + k <=? n) && (n <? d + k + (n_bits - k))) eqn:E2,
    ((d <=? n) && (n <? d + k)) eqn:E1;
    first [ by replace ((d <=? n) && (n <? d + n_bits)) with true by lia
          | by replace ((d <=? n) && (n <? d + n_bits)) with false by lia ].
Qed.

Section Fill.
  Context (v : bool) (partial : Z -> Z -> Z) (full : Z).
  Context (Hpartial : forall b mask m, 0 <= m < 8 ->
             Z.testbit (partial b mask) m
             = if Z.testbit mask m then v else Z.testbit b m).
  Context (Hfull : forall m, 0 <= m < 8 -> Z.testbit full m = v).

(** The [k] bits at [ofs] of byte [di]. *)
Lemma fill_partial_spec dst di ofs k :
  bytes dst -> 0 <= di < len dst -> 0 <= ofs -> 0 <= k -> ofs + k <= 8 ->
  fill_spec v dst (8 * (len dst - 1 - di) + ofs) k
    (set_byte dst di (partial (byte_at dst di)
                        (Z.shiftl (Z.shiftl 1 k - 1) ofs))).
Proof using Hpartial.
  intros Hdst Hdi Hofs Hk Hok. split; [auto with ovs | apply length_set_byte |].
  intros n Hn. rewrite set_byte_testbit by done.
  destruct (Z.eqb_spec (n / 8) (len dst - 1 - di)) as [Heq|Hne].
  - rewrite Hpartial, testbit_shifted_mask by div_lia.
    replace ((8 * (len dst - 1 - di) + ofs <=? n)
             && (n <? 8 * (len dst - 1 - di) + ofs + k))
      with ((ofs <=? n mod 8) && (n mod 8 <? ofs + k)) by div_lia.
    destruct ((ofs <=? n mod 8) && (n mod 8 <? ofs + k)); [done |].
    rewrite (be_value_testbit dst) by done. f_equal. f_equal. lia.
  - by replace ((8 * (len dst - 1 - di) + ofs <=? n)
                && (n <? 8 * (len dst - 1 - di) + ofs + k)) with false by div_lia.
Qed.

Lemma fill_byte_spec dst di :
  bytes dst -> 0 <= di < len dst ->
  fill_spec v dst (8 * (len dst - 1 - di)) 8 (set_byte dst di full).
Proof using Hfull.
  intros Hdst Hdi. split; [auto with ovs | apply length_set_byte |].
  intros n Hn. rewrite set_byte_testbit by done.
  replace ((8 * (len dst - 1 - di) <=? n) && (n <? 8 * (len dst - 1 - di) + 8))
    with (n / 8 =? len dst - 1 - di) by div_lia.
  destruct (n / 8 =? len dst - 1 - di); [| done]. apply Hfull. div_lia.
Qed.

Lemma fill_bytes_spec dst di k :
  bytes dst -> di < len dst -> Z.of_nat k <= di + 1 ->
  fill_spec v dst (8 * (len dst - 1 - di)) (8 * Z.of_nat k)
    (fst (fill_bytes dst di full k))
  /\ snd (fill_bytes dst di full k) = di - Z.of_nat k.
Proof using Hfull.
  revert dst di. induction k as [|k IH]; intros dst di Hdst Hdi Hk.
  { split; [by apply fill_spec_refl | cbn; lia]. }
  cbn [fill_bytes].
  destruct (fill_byte_spec dst di) as [Hb Hl Hbits]; [done | lia |].
  destruct (IH (set_byte dst di full) (di - 1)) as [Hf Hi];
    [done | rewrite Hl; lia | lia |].
  split; [| rewrite Hi; lia].
  eapply (fill_spec_trans _ _ _ _ _ 8); [lia | by split |].
  rewrite Hl in Hf.
  replace (8 * (len dst - 1 - di) + 8) with (8 * (len dst - 1 - (di - 1))) by lia.
  by replace (8 * Z.of_nat (S k) - 8) with (8 * Z.of_nat k) by lia.
Qed.

(** From a byte boundary: whole bytes, then the rest. *)
Lemma fill_rest_spec dst di n_bits :
  bytes dst -> 0 <= n_bits -> di < len dst -> n_bits <= 8 * (di + 1) ->
  fill_spec v dst (8 * (len dst - 1 - di)) n_bits
    (let '(dst, di) := fill_bytes dst di full (Z.to_nat (n_bits / 8)) in
     let n_bits := n_bits mod 8 in
     if negb (n_bits =? 0)
     then set_byte dst di (partial (byte_at dst di) (Z.shiftl 1 n_bits - 1))
     else dst).
Proof using Hpartial Hfull.
  intros Hdst Hn Hdi Hk.
  destruct (fill_bytes_spec dst di (Z.to_nat (n_bits / 8))) as [Hf Hi];
    [done | lia | div_lia |].
  destruct (fill_bytes _ _ _ _) as [dst1 di1]. cbn [fst snd] in *. cbv zeta.
  rewrite Z2Nat.id in * by div_lia.
  pose proof (fs_bytes _ _ _ _ _ Hf) as Hb1. pose proof (fs_length _ _ _ _ _ Hf) as Hl1.
  destruct (Z.eqb_spec (n_bits mod 8) 0) as [Hz|Hnz]; cbn [negb].
  - by replace (8 * (n_bits / 8)) with n_bits in Hf by div_lia.
  - eapply (fill_spec_trans _ _ _ _ _ (8 * (n_bits / 8))); [div_lia | exact Hf |].
    replace (8 * (len dst - 1 - di) + 8 * (n_bits / 8))
      with (8 * (len dst1 - 1 - di1) + 0) by (rewrite Hl1; lia).
    replace (n_bits - 8 * (n_bits / 8)) with (n_bits mod 8) by div_lia.
    rewrite <- (Z.shiftl_0_r (Z.shiftl 1 (n_bits mod 8) - 1)).
    apply fill_partial_spec; [done | rewrite Hl1; div_lia | lia | div_lia | div_lia].
Qed.

Lemma bitwise_fill_spec dst ofs n_bits :
  bytes dst -> 0 <= ofs -> 0 <= n_bits -> ofs + n_bits <= 8 * len dst ->
  fill_spec v dst ofs n_bits (bitwise_fill partial full dst (len dst) ofs n_bits).
Proof using Hpartial Hfull.
  intros Hdst Hofs Hn HD. unfold bitwise_fill.
  destruct (Z.eqb_spec n_bits 0) as [->|Hnz]; [by apply fill_spec_refl |].
  set (di := len dst - (ofs / 8 + 1)). cbv zeta.
  assert (ofs = 8 * (len dst - 1 - di) + ofs mod 8) as Epos by (unfold di; div_lia).
  assert (0 <= di < len dst) as Hdi by (unfold di; div_lia).
  assert (0 <= ofs mod 8 < 8) as Hm by div_lia. clearbody di.
  generalize dependent (ofs mod 8). intros o Epos Hm. subst ofs.
  destruct (Z.eqb_spec o 0) as [->|Ho]; cbn [negb andb].
  - rewrite Z.sub_0_r, Z.add_0_r. apply fill_rest_spec; [done | lia | lia | lia].
  - set (chunk := Z.min n_bits (8 - o)). assert (0 < chunk <= n_bits) by lia.
    destruct (fill_partial_spec dst di o chunk) as [Hb Hl Hbits];
      [done | done | lia | lia | lia |].
    destruct (Z.eqb_spec (n_bits - chunk) 0) as [Hz|Hnz'].
    + replace n_bits with chunk at 1 by lia. by split.
    + eapply (fill_spec_trans _ _ _ _ _ chunk); [lia | by split |].
      replace (8 * (len dst - 1 - di) + o + chunk)
        with (8 * (len dst - 1 - (di - 1))) by lia.
      rewrite <- Hl. apply fill_rest_spec; [done | lia | rewrite Hl; lia | lia].
Qed.
End Fill.

Lemma zero_partial b mask m :
  0 <= m < 8 ->
  Z.testbit (Z.land b (Z.lnot mask)) m = if Z.testbit mask m then false else Z.testbit b m.
Proof.
  intros Hm. rewrite Z.land_spec, Z.lnot_spec by lia.
  by destruct (Z.testbit mask m), (Z.testbit b m).
Qed.

Lemma one_partial b mask m :
  0 <= m < 8 ->
  Z.testbit (Z.lor b mask) m = if Z.testbit mask m then true else Z.testbit b m.
Proof.
  intros Hm. rewrite Z.lor_spec. by destruct (Z.testbit mask m), (Z.testbit b m).
Qed.

Lemma testbit_0xff m : 0 <= m < 8 -> Z.testbit 0xff m = true.
Proof. intros Hm. change 0xff with (Z.ones 8). apply Z.ones_spec_low. lia. Qed.

Lemma bitwise_zero_spec dst ofs n_bits :
  bytes dst -> 0 <= ofs -> 0 <= n_bits -> ofs + n_bits <= 8 * len dst ->
  fill_spec false dst ofs n_bits (bitwise_zero dst (len dst) ofs n_bits).
Proof.
  intros. apply (bitwise_fill_spec false); try done; [apply zero_partial |].
  intros. by rewrite Z.bits_0.
Qed.

Lemma bitwise_one_spec dst ofs n_bits :
  bytes dst -> 0 <= ofs -> 0 <= n_bits -> ofs + n_bits <= 8 * len dst ->
  fill_spec true dst ofs n_bits (bitwise_one dst (len dst) ofs n_bits).
Proof.
  intros. apply (bitwise_fill_spec true); try done; [apply one_partial |].
  apply testbit_0xff.
Qed.

(** [bitwise_zero] and [bitwise_one] set exactly the bits of the range to 0
    and to 1. *)
Theorem bitwise_zero_one_bits dst ofs n_bits n :
  bytes dst -> 0 <= ofs -> 0 <= n_bits -> ofs + n_bits <= 8 * len dst ->
  0 <= n < 8 * len dst ->
  Z.testbit (be_value (bitwise_zero dst (len dst) ofs n_bits)) n
  = (if (ofs <=? n) && (n <? ofs + n_bits) then false
     else Z.testbit (be_value dst) n)
  /\ Z.testbit (be_value (bitwise_one dst (len dst) ofs n_bits)) n
     = (if (ofs <=? n) && (n <? ofs + n_bits) then true
        else Z.testbit (be_value dst) n).
Proof.
  intros Hdst Hofs Hn HD Hrange. split.
  - by eapply fs_bits; [apply bitwise_zero_spec |].
  - by eapply fs_bits; [apply bitwise_one_spec |].
Qed.

Lemma bitwise_zero_one_bits_witness :
  Z.testbit (be_value (bitwise_zero [0xff; 0xff; 0xff] 3 5 11)) 15 = false
  /\ Z.testbit (be_value (bitwise_one [0; 0; 0] 3 5 11)) 16 = false.
Proof.
  split.
  - apply (bitwise_zero_one_bits [0xff; 0xff; 0xff] 5 11 15);
      [repeat constructor; lia | vm_compute; intuition congruence ..].
  - apply (bitwise_zero_one_bits [0; 0; 0] 5 11 16);
      [repeat constructor; lia | vm_compute; intuition congruence ..].
Defined.

(** ** Single bits *)

Lemma land_bit_eqb b m :
  0 <= m -> negb (Z.land b (Z.shiftl 1 m) =? 0) = Z.testbit b m.
Proof.
  intros Hm. rewrite Z.shiftl_1_l.
  destruct (Z.testbit b m) eqn:E; destruct (Z.eqb_spec (Z.land b (2 ^ m)) 0) as [H|H];
    cbn [negb]; try done; exfalso.
  - assert (Z.testbit (Z.land b (2 ^ m)) m = true) as Hb.
    { rewrite Z.land_spec, E. rewrite Z.pow2_bits_true; done. }
    rewrite H, Z.bits_0 in Hb. done.
  - apply H. apply Z.bits_inj'. intros n Hn. rewrite Z.land_spec, Z.bits_0.
    destruct (Z.eq_dec n m) as [->|]; [by rewrite E |].
    rewrite Z.pow2_bits_false by lia. apply andb_false_r.
Qed.

Lemma get_bit_testbit a ofs :
  bytes a -> 0 <= ofs < 8 * len a ->
  bitwise_get_bit a (len a) ofs = Z.testbit (be_value a) ofs.
Proof.
  intros Ha Hofs. unfold bitwise_get_bit.
  rewrite land_bit_eqb, be_value_testbit by (done || div_lia). done.
Qed.

Lemma testbit_one_shifted k m : 0 <= k -> 0 <= m -> Z.testbit (Z.shiftl 1 k) m = (m =? k).
Proof. intros. rewrite Z.shiftl_1_l, Z.pow2_bits_eqb by lia. lia. Qed.

(** One byte of the array changed at bit [ofs] only. *)
Lemma bit_op_testbit (g : bool -> bool) f a ofs n :
  (forall b m, 0 <= m < 8 -> Z.testbit (f b) m
     = if m =? ofs mod 8 then g (Z.testbit b m) else Z.testbit b m) ->
  bytes a -> 0 <= ofs < 8 * len a -> 0 <= n < 8 * len a ->
  Z.testbit (be_value (set_byte a (len a - (ofs / 8 + 1))
                         (f (byte_at a (len a - (ofs / 8 + 1)))))) n
  = if n =? ofs then g (Z.testbit (be_value a) n) else Z.testbit (be_value a) n.
Proof.
  intros Hf Ha Hofs Hn. rewrite set_byte_testbit by (done || div_lia).
  destruct (Z.eqb_spec (n / 8) (len a - 1 - (len a - (ofs / 8 + 1)))) as [Heq|Hne].
  - rewrite Hf by div_lia. rewrite (be_value_testbit a n) by done.
    replace (len a - (ofs / 8 + 1)) with (len a - (n / 8 + 1)) by lia.
    by replace (n mod 8 =? ofs mod 8) with (n =? ofs) by div_lia.
  - by replace (n =? ofs) with false by div_lia.
Qed.

Lemma toggle_bit_testbit a ofs n :
  bytes a -> 0 <= ofs < 8 * len a -> 0 <= n < 8 * len a ->
  Z.testbit (be_value (bitwise_toggle_bit a (len a) ofs)) n
  = if n =? ofs then negb (Z.testbit (be_value a) n) else Z.testbit (be_value a) n.
Proof.
  apply (bit_op_testbit negb (fun b => Z.lxor b (Z.shiftl 1 (ofs mod 8)))).
  intros b m Hm. rewrite Z.lxor_spec, testbit_one_shifted by div_lia.
  by destruct (m =? ofs mod 8), (Z.testbit b m).
Qed.

Lemma put_bit_testbit a ofs v n :
  bytes a -> 0 <= ofs < 8 * len a -> 0 <= n < 8 * len a ->
  Z.testbit (be_value (bitwise_put_bit a (len a) ofs v)) n
  = if n =? ofs then v else Z.testbit (be_value a) n.
Proof.
  destruct v.
  - apply (bit_op_testbit (fun _ => true) (fun b => Z.lor b (Z.shiftl 1 (ofs mod 8)))).
    intros b m Hm. rewrite Z.lor_spec, testbit_one_shifted by div_lia.
    by destruct (m =? ofs mod 8), (Z.testbit b m).
  - apply (bit_op_testbit (fun _ => false)
             (fun b => Z.land b (Z.lnot (Z.shiftl 1 (ofs mod 8))))).
    intros b m Hm. rewrite Z.land_spec, Z.lnot_spec, testbit_one_shifted by div_lia.
    by destruct (m =? ofs mod 8), (Z.testbit b m).
Qed.

(** ** Tests and scans *)

(** All bits from [d] on are zero, [n_bits] of them. *)
Definition zero_range (a : list Z) (d n_bits : Z) : Prop :=
  forall n, d <= n < d + n_bits -> Z.testbit (be_value a) n = false.

Lemma zero_range_split a d k n_bits :
  0 <= k <= n_bits ->
  zero_range a d n_bits <-> zero_range a d k /\ zero_range a (d + k) (n_bits - k).
Proof.
  intros Hk. unfold zero_range. split.
  - intros H. split; intros n Hn; apply H; lia.
  - intros [H1 H2] n Hn. destruct (Z.ltb_spec n (d + k)); [apply H1 | apply H2]; lia.
Qed.

(** Testing [k] bits at [ofs] of one byte. *)
Lemma partial_zero_range a i ofs k :
  bytes a -> 0 <= i < len a -> 0 <= ofs -> 0 <= k -> ofs + k <= 8 ->
  Z.land (byte_at a i) (Z.shiftl (Z.shiftl 1 k - 1) ofs) = 0
  <-> zero_range a (8 * (len a - 1 - i) + ofs) k.
Proof.
  intros Ha Hi Hofs Hk Hok. split.
  - intros Hz n Hn. rewrite be_value_testbit by (done || lia).
    replace (len a - (n / 8 + 1)) with i by div_lia.
    assert (Z.testbit (Z.land (byte_at a i) (Z.shiftl (Z.shiftl 1 k - 1) ofs))
              (n mod 8) = false) as Hb by (by rewrite Hz, Z.bits_0).
    rewrite Z.land_spec, testbit_shifted_mask in Hb by div_lia.
    replace ((ofs <=? n mod 8) && (n mod 8 <? ofs + k)) with true in Hb by div_lia.
    by rewrite andb_true_r in Hb.
  - intros Hz. apply Z.bits_inj'. intros m Hm.
    rewrite Z.bits_0, Z.land_spec, testbit_shifted_mask by lia.
    destruct ((ofs <=? m) && (m <? ofs + k)) eqn:E; [| apply andb_false_r].
    specialize (Hz (8 * (len a - 1 - i) + m) ltac:(lia)).
    rewrite be_value_testbit in Hz by (done || lia).
    replace (len a - ((8 * (len a - 1 - i) + m) / 8 + 1)) with i in Hz by div_lia.
    replace ((8 * (len a - 1 - i) + m) mod 8) with m in Hz by div_lia.
    by rewrite Hz.
Qed.

Lemma byte_zero_range a i :
  bytes a -> 0 <= i < len a ->
  byte_at a i = 0 <-> zero_range a (8 * (len a - 1 - i)) 8.
Proof.
  intros Ha Hi. rewrite <- (Z.add_0_r (8 * (len a - 1 - i))).
  rewrite <- (partial_zero_range a i 0 8) by (done || lia).
  replace (Z.land (byte_at a i) (Z.shiftl (Z.shiftl 1 8 - 1) 0)) with (byte_at a i);
    [done |].
  pose proof (byte_at_is_byte a i Ha Hi) as Hb. rewrite Z.shiftl_0_r.
  change (Z.shiftl 1 8 - 1) with (Z.ones 8). rewrite Z.land_ones by lia.
  symmetry. by apply Z.mod_small.
Qed.

Lemma zero_bytes_spec a i k :
  bytes a -> i < len a -> Z.of_nat k <= i + 1 ->
  zero_bytes a i k = true <-> zero_range a (8 * (len a - 1 - i)) (8 * Z.of_nat k).
Proof.
  revert i. induction k as [|k IH]; intros i Ha Hi Hk.
  { cbn. split; [intros _ n Hn; lia | done]. }
  cbn [zero_bytes]. rewrite (zero_range_split a _ 8) by lia.
  replace (8 * (len a - 1 - i) + 8) with (8 * (len a - 1 - (i - 1))) by lia.
  replace (8 * Z.of_nat (S k) - 8) with (8 * Z.of_nat k) by lia.
  rewrite <- IH by (done || lia). rewrite <- byte_zero_range by (done || lia).
  destruct (Z.eqb_spec (byte_at a i) 0); cbn [negb]; intuition congruence.
Qed.

(** The whole bytes from a byte boundary on, then the remaining bits. *)
Lemma zero_rest_spec a i n_bits :
  bytes a -> 0 <= n_bits -> i < len a -> n_bits <= 8 * (i + 1) ->
  (if negb (zero_bytes a i (Z.to_nat (n_bits / 8))) then false
   else if negb (n_bits mod 8 =? 0)
           && negb (Z.land (byte_at a (i - n_bits / 8))
                      (Z.shiftl 1 (n_bits mod 8) - 1) =? 0)
        then false else true) = true
  <-> zero_range a (8 * (len a - 1 - i)) n_bits.
Proof.
  intros Ha Hn Hi Hk.
  rewrite (zero_range_split a _ (8 * (n_bits / 8))) by div_lia.
  pose proof (zero_bytes_spec a i (Z.to_nat (n_bits / 8)) Ha Hi ltac:(div_lia)) as Hz.
  rewrite Z2Nat.id in Hz by div_lia. rewrite <- Hz.
  replace (8 * (len a - 1 - i) + 8 * (n_bits / 8))
    with (8 * (len a - 1 - (i - n_bits / 8)) + 0) by lia.
  replace (n_bits - 8 * (n_bits / 8)) with (n_bits mod 8) by div_lia.
  destruct (zero_bytes _ _ _); cbn [negb]; [| intuition congruence].
  destruct (Z.eqb_spec (n_bits mod 8) 0) as [->|Hnz]; cbn [negb andb].
  { split; [| done]. intros _. split; [done |]. intros n Hn'. lia. }
  rewrite <- partial_zero_range by (done || div_lia).
  rewrite Z.shiftl_0_r. match goal with |- context [?x =? 0] => destruct (Z.eqb_spec x 0) end;
    cbn; intuition congruence.
Qed.

Lemma bitwise_is_all_zeros_spec a ofs n_bits :
  bytes a -> 0 <= ofs -> 0 <= n_bits -> ofs + n_bits <= 8 * len a ->
  bitwise_is_all_zeros a (len a) ofs n_bits = true <-> zero_range a ofs n_bits.
Proof.
  intros Ha Hofs Hn HD. unfold bitwise_is_all_zeros.
  destruct (Z.eqb_spec n_bits 0) as [->|Hnz].
  { split; [intros _ n Hn'; lia | done]. }
  set (i := len a - (ofs / 8 + 1)). cbv zeta.
  assert (ofs = 8 * (len a - 1 - i) + ofs mod 8) as Epos by (unfold i; div_lia).
  assert (0 <= i < len a) as Hi by (unfold i; div_lia).
  assert (0 <= ofs mod 8 < 8) as Hm by div_lia. clearbody i.
  generalize dependent (ofs mod 8). intros o Epos Hm. subst ofs.
  destruct (Z.eqb_spec o 0) as [->|Ho]; cbn [negb andb].
  - rewrite Z.sub_0_r, Z.add_0_r. by apply zero_rest_spec; [| lia | lia | lia].
  - set (chunk := Z.min n_bits (8 - o)). assert (0 < chunk <= n_bits) by lia.
    rewrite (zero_range_split a _ chunk) by lia.
    rewrite <- (partial_zero_range a i o chunk) by (done || lia).
    destruct (Z.eqb_spec (Z.land (byte_at a i) (Z.shiftl (Z.shiftl 1 chunk - 1) o)) 0)
      as [Hz|Hz]; cbn [negb]; [| intuition congruence].
    destruct (Z.eqb_spec (n_bits - chunk) 0) as [->|Hrest].
    { split; [| done]. intros _. split; [done |]. intros n Hn'. lia. }
    replace (8 * (len a - 1 - i) + o + chunk) with (8 * (len a - 1 - (i - 1))) by lia.
    rewrite <- zero_rest_spec by (done || lia). intuition congruence.
Qed.

(** [bitwise_is_all_zeros] answers whether every bit of the range is 0. *)
Theorem bitwise_is_all_zeros_correct a ofs n_bits :
  bytes a -> 0 <= ofs -> 0 <= n_bits -> ofs + n_bits <= 8 * len a ->
  bitwise_is_all_zeros a (len a) ofs n_bits = true
  <-> forall n, ofs <= n < ofs + n_bits -> Z.testbit (be_value a) n = false.
Proof. apply bitwise_is_all_zeros_spec. Qed.

Lemma bitwise_is_all_zeros_correct_witness :
  bitwise_is_all_zeros [0xf0; 0x00; 0x0f] 3 4 16 = true.
Proof.
  apply (bitwise_is_all_zeros_correct [0xf0; 0x00; 0x0f] 4 16);
    [repeat constructor; lia | vm_compute; intuition congruence .. |].
  intros n Hn. assert (n = 4 \/ n = 5 \/ n = 6 \/ n = 7 \/ n = 8 \/ n = 9 \/ n = 10
    \/ n = 11 \/ n = 12 \/ n = 13 \/ n = 14 \/ n = 15 \/ n = 16 \/ n = 17 \/ n = 18
    \/ n = 19) as H by lia.
  repeat destruct H as [->|H]; try reflexivity. by subst n.
Defined.

Lemma scan_from_spec a target ofs n :
  bytes a -> 0 <= ofs -> ofs + Z.of_nat n <= 8 * len a ->
  let r := bitwise_scan_from a (len a) target ofs n in
  ofs <= r <= ofs + Z.of_nat n
  /\ (forall k, ofs <= k < r -> Z.testbit (be_value a) k = negb target)
  /\ (r < ofs + Z.of_nat n -> Z.testbit (be_value a) r = target).
Proof.
  revert ofs. induction n as [|n IH]; intros ofs Ha Hofs Hn; cbn [bitwise_scan_from].
  { cbv zeta. split_and!; [lia | lia | intros; lia | lia]. }
  rewrite get_bit_testbit by (done || lia).
  destruct (Bool.eqb (Z.testbit (be_value a) ofs) target) eqn:E.
  - apply eqb_prop in E. cbv zeta. split_and!; [lia | lia | intros; lia | done].
  - apply eqb_false_iff in E.
    destruct (IH (ofs + 1) Ha) as (Hr & Hb & Hf); [lia | lia |]. cbv zeta in *.
    split_and!; [lia | lia | | intros; apply Hf; lia].
    intros k Hk. destruct (Z.eq_dec k ofs) as [->|]; [| apply Hb; lia].
    by destruct target, (Z.testbit (be_value a) ofs).
Qed.

Lemma bitwise_scan_spec a target start end_ :
  bytes a -> 0 <= start <= end_ -> end_ <= 8 * len a ->
  let r := bitwise_scan a (len a) target start end_ in
  start <= r <= end_
  /\ (forall k, start <= k < r -> Z.testbit (be_value a) k = negb target)
  /\ (r < end_ -> Z.testbit (be_value a) r = target).
Proof.
  intros Ha Hs He r. unfold r, bitwise_scan.
  destruct (scan_from_spec a target start (Z.to_nat (end_ - start)))
    as (Hr & Hb & Hf); [done | lia | lia |].
  rewrite Z2Nat.id in * by lia. cbv zeta in *.
  split_and!; [lia | lia | done | intros; apply Hf; lia].
Qed.

(** ** Scanning backwards *)

Lemma rscan_byte_spec b target n :
  let r := rscan_byte b target n in
  -1 <= r < Z.of_nat n
  /\ (forall m, r < m < Z.of_nat n -> Z.testbit b m = negb target)
  /\ (0 <= r -> Z.testbit b r = target).
Proof.
  induction n as [|n IH]; cbn [rscan_byte]; cbv zeta in *.
  { split_and!; [lia | lia | intros; lia | lia]. }
  rewrite land_bit_eqb by lia.
  destruct (Bool.eqb (Z.testbit b (Z.of_nat n)) target) eqn:E.
  - apply eqb_prop in E. split_and!; [lia | lia | intros; lia | done].
  - apply eqb_false_iff in E. destruct IH as (Hr & Hb & Hf).
    split_and!; [lia | lia | | done]. intros m Hm.
    destruct (Z.eq_dec m (Z.of_nat n)) as [->|]; [| apply Hb; lia].
    by destruct target, (Z.testbit b (Z.of_nat n)).
Qed.

(** A byte without a bit of value [target] is 0 or 0xff. *)
Lemma no_target_byte b target :
  is_byte b ->
  (target && negb (b =? 0)) || (negb target && negb (b =? 0xff)) = false
  <-> forall m, 0 <= m < 8 -> Z.testbit b m = negb target.
Proof.
  intros Hb. assert (b = (if target then 0 else 0xff)
    <-> forall m, 0 <= m < 8 -> Z.testbit b m = negb target) as Hiff.
  { split.
    - intros -> m Hm. destruct target; [apply Z.bits_0 | by apply testbit_0xff].
    - intros H. apply Z.bits_inj'. intros m Hm. destruct (Z.ltb_spec m 8).
      + rewrite H by lia. destruct target; [by rewrite Z.bits_0 |].
        by rewrite testbit_0xff.
      + rewrite byte_testbit_high by done.
        destruct target; [by rewrite Z.bits_0 |]. by rewrite byte_testbit_high. }
  rewrite <- Hiff. destruct target; cbn [andb orb negb]; rewrite ?orb_false_r;
    match goal with |- context [b =? ?x] => destruct (Z.eqb_spec b x) end;
    cbn; intuition congruence.
Qed.

Lemma rscan_bytes_spec a target i n :
  bytes a -> 0 <= i -> i + Z.of_nat n <= len a ->
  let r := rscan_bytes a target i n in
  i <= r <= i + Z.of_nat n
  /\ (forall j, i <= j < r -> forall m, 0 <= m < 8 ->
        Z.testbit (byte_at a j) m = negb target)
  /\ (r < i + Z.of_nat n -> exists m, 0 <= m < 8 /\ Z.testbit (byte_at a r) m = target).
Proof.
  revert i. induction n as [|n IH]; intros i Ha Hi Hn; cbn [rscan_bytes]; cbv zeta in *.
  { split_and!; [lia | lia | intros; lia | lia]. }
  pose proof (byte_at_is_byte a i Ha ltac:(lia)) as Hb.
  destruct ((target && negb (byte_at a i =? 0))
            || (negb target && negb (byte_at a i =? 255))) eqn:E.
  - split_and!; [lia | lia | intros; lia |]. intros _.
    destruct (rscan_byte_spec (byte_at a i) target 8) as (Hr & Hno & Hyes).
    destruct (Z.ltb_spec (rscan_byte (byte_at a i) target 8) 0).
    + apply not_false_iff_true in E. destruct E.
      apply (no_target_byte _ target Hb). intros m Hm. apply Hno. lia.
    + exists (rscan_byte (byte_at a i) target 8). split; [lia | auto].
  - destruct (IH (i + 1) Ha) as (Hr & Hno & Hyes); [lia | lia |].
    split_and!; [lia | lia | | intros; apply Hyes; lia].
    intros j Hj m Hm. destruct (Z.eq_dec j i) as [->|]; [| apply Hno; lia].
    by apply (no_target_byte _ target Hb).
Qed.

(** Bits of byte [j] are the bits [8 * (len - 1 - j) + m] of the integer. *)
Lemma byte_bit a j m :
  bytes a -> 0 <= j < len a -> 0 <= m < 8 ->
  Z.testbit (be_value a) (8 * (len a - 1 - j) + m) = Z.testbit (byte_at a j) m.
Proof.
  intros Ha Hj Hm. rewrite be_value_testbit by (done || lia).
  f_equal; [f_equal |]; div_lia.
Qed.

Lemma bit_byte a k :
  bytes a -> 0 <= k < 8 * len a ->
  exists j m, 0 <= j < len a /\ 0 <= m < 8 /\ k = 8 * (len a - 1 - j) + m
              /\ Z.testbit (be_value a) k = Z.testbit (byte_at a j) m.
Proof.
  intros Ha Hk. exists (len a - 1 - k / 8), (k mod 8).
  split_and!; try div_lia. rewrite be_value_testbit by done. f_equal. f_equal. lia.
Qed.

(** What a backward scan must return. *)
Definition rscan_result (a : list Z) (target : bool) (start end_ r : Z) : Prop :=
  end_ <= r <= start
  /\ (forall k, r < k <= start -> Z.testbit (be_value a) k = negb target)
  /\ (end_ < r -> Z.testbit (be_value a) r = target).

Lemma bitwise_rscan_spec a target start end_ :
  bytes a -> -1 <= end_ <= start -> 0 <= start < 8 * len a ->
  rscan_result a target start end_ (bitwise_rscan a (len a) target start end_).
Proof.
  intros Ha He Hs. unfold bitwise_rscan. cbv zeta.
  rewrite (Z.quot_div_nonneg start) by lia.
  rewrite (Z.rem_mod_nonneg start) by lia.
  set (sb := len a - (start / 8 + 1)).
  assert (Z.quot end_ 8 = Z.max 0 end_ / 8) as ->.
  { destruct (Z.eq_dec end_ (-1)) as [->|]; [done |].
    rewrite Z.quot_div_nonneg by lia. f_equal. lia. }
  set (eb := len a - (Z.max 0 end_ / 8 + 1)).
  assert (0 <= sb <= eb /\ eb < len a /\ start = 8 * (len a - 1 - sb) + start mod 8
          /\ 0 <= start mod 8 < 8 /\ 8 * (len a - 1 - eb) <= Z.max 0 end_
             < 8 * (len a - 1 - eb) + 8)
    as (Hsb & Heb & Estart & Hm & Eend) by (unfold sb, eb; div_lia).
  clearbody sb eb.
  destruct (rscan_byte_spec (byte_at a sb) target (Z.to_nat (start mod 8 + 1)))
    as (Hr1 & Hno1 & Hyes1).
  set (o1 := rscan_byte (byte_at a sb) target (Z.to_nat (start mod 8 + 1))) in *.
  rewrite Z2Nat.id in * by lia.
  assert (forall k, 8 * (len a - 1 - sb) + o1 < k <= start -> 0 <= k ->
            8 * (len a - 1 - sb) <= k -> Z.testbit (be_value a) k = negb target)
    as Hstart.
  { intros k Hk Hk0 Hk1. replace k with (8 * (len a - 1 - sb)
      + (k - 8 * (len a - 1 - sb))) by lia.
    rewrite byte_bit by (done || lia). apply Hno1. lia. }
  destruct (Z.ltb_spec o1 0) as [Hneg|Hpos].
  2: { unfold rscan_result.
       replace ((len a - sb) * 8 - (8 - o1)) with (8 * (len a - 1 - sb) + o1) by lia.
       destruct (Z.ltb_spec (8 * (len a - 1 - sb) + o1) end_).
       - split_and!; [lia | lia | intros; apply Hstart; lia | lia].
       - split_and!; [lia | lia | intros; apply Hstart; lia |].
         intros _. rewrite byte_bit by (done || lia). auto. }
  destruct (rscan_bytes_spec a target (sb + 1) (Z.to_nat (eb - sb)))
    as (Hr2 & Hno2 & Hyes2); [done | lia | lia |].
  set (ob := rscan_bytes a target (sb + 1) (Z.to_nat (eb - sb))) in *.
  rewrite Z2Nat.id in * by lia. clearbody ob.
  assert (forall k, 8 * (len a - ob) <= k <= start ->
            Z.testbit (be_value a) k = negb target) as Hbytes.
  { intros k Hk. destruct (bit_byte a k) as (j & m & Hj & Hm' & -> & ->);
      [done | lia |]. destruct (Z.eq_dec j sb) as [->|].
    - apply Hno1. lia.
    - apply Hno2; lia. }
  destruct (Z.ltb_spec eb ob) as [Hlast|Hfound].
  { split_and!; [lia | lia | intros; apply Hbytes; lia | lia]. }
  destruct (rscan_byte_spec (byte_at a ob) target 8) as (Hr3 & Hno3 & Hyes3).
  set (o3 := rscan_byte (byte_at a ob) target 8) in *. clearbody o3.
  destruct (Hyes2 ltac:(lia)) as (m & Hm8 & Hbit).
  assert (0 <= o3) as Ho3.
  { destruct (Z.ltb_spec o3 0); [| done]. rewrite Hno3 in Hbit by lia.
    by destruct target. }
  unfold rscan_result.
  replace ((len a - ob) * 8 - (8 - o3)) with (8 * (len a - 1 - ob) + o3) by lia.
  assert (forall k, 8 * (len a - 1 - ob) + o3 < k <= start ->
            Z.testbit (be_value a) k = negb target) as Hafter.
  { intros k Hk. destruct (Z.ltb_spec k (8 * (len a - ob))); [| apply Hbytes; lia].
    replace k with (8 * (len a - 1 - ob) + (k - 8 * (len a - 1 - ob))) by lia.
    rewrite byte_bit by (done || lia). apply Hno3. lia. }
  destruct (Z.ltb_spec (8 * (len a - 1 - ob) + o3) end_).
  - split_and!; [lia | lia | intros; apply Hafter; lia | lia].
  - split_and!; [lia | lia | done |].
    intros _. rewrite byte_bit by (done || lia). auto.
Qed.

(** the scans.  [bitwise_scan] returns the first offset of the range whose
    bit has the wanted value, or the end of the range; [bitwise_rscan], which
    skips whole bytes, returns the last one before [start] and after [end], or
    [end]. *)
Theorem bitwise_scans_correct a target start end_ :
  bytes a ->
  (0 <= start <= end_ -> end_ <= 8 * len a ->
   let r := bitwise_scan a (len a) target start end_ in
   start <= r <= end_
   /\ (forall k, start <= k < r -> Z.testbit (be_value a) k = negb target)
   /\ (r < end_ -> Z.testbit (be_value a) r = target))
  /\ (-1 <= end_ <= start -> 0 <= start < 8 * len a ->
      let r := bitwise_rscan a (len a) target start end_ in
      end_ <= r <= start
      /\ (forall k, r < k <= start -> Z.testbit (be_value a) k = negb target)
      /\ (end_ < r -> Z.testbit (be_value a) r = target)).
Proof.
  intros Ha. split.
  - by apply bitwise_scan_spec.
  - by apply bitwise_rscan_spec.
Qed.

Lemma bitwise_scans_correct_witness :
  Z.testbit (be_value [0x01; 0x00; 0x80]) 16 = true
  /\ bitwise_rscan [0x01; 0x00; 0x80] 3 true 23 (-1) = 16.
Proof.
  destruct (bitwise_scans_correct [0x01; 0x00; 0x80] true 23 (-1)) as [_ H];
    [repeat constructor; lia |].
  destruct H as (_ & _ & H); [lia | cbn; lia |].
  change (bitwise_rscan [0x01; 0x00; 0x80] (len [0x01; 0x00; 0x80]) true 23 (-1))
    with 16 in H. split; [apply H; lia | reflexivity].
Defined.
