(* ===== verification/Subvalue.v ===== *)
(** * Field values as integers (union mf_subvalue)

    A [union mf_subvalue] is an array of 128 bytes that holds the value or the
    mask of a field, right-justified in network byte order.  The expression
    code uses it only through the [bitwise_*] functions and word by word with
    bit operations, so that the components above represent it by the integer
    the array holds.  The operations here are the ones of ovs/lib/util.c,
    ovs/lib/bitmap.h and ovs/lib/meta-flow.c on that integer; the theorem at
    the end shows that the byte functions of [Bitwise] compute them. *)
From stdpp Require Import base list.
From Stdlib Require Import ZArith Lia.
From S2P Require Import Prelude Bitwise BitwiseProofs.

Module Subvalue.

Local Open Scope Z_scope.

(** [sizeof(union mf_subvalue)] in bits *)
Definition subvalue_bits : Z := 1024.

(** [bitwise_scan]: [for (ofs = start; ofs < end; ofs++)], [n] offsets left. *)
Fixpoint sv_scan_from (v : Z) (target : bool) (ofs : Z) (n : nat) : Z :=
  match n with
  | O => ofs
  | S n => if Bool.eqb (Z.testbit v ofs) target then ofs
           else sv_scan_from v target (ofs + 1) n
  end.

Definition sv_scan (v : Z) (target : bool) (start end_ : Z) : Z :=
  sv_scan_from v target start (Z.to_nat (end_ - start)).

(** The integer whose 1-bits are those at [ofs, ofs + n_bits). *)
Definition sv_range (ofs n_bits : Z) : Z := Z.shiftl (Z.ones n_bits) ofs.

(** [bitwise_zero] *)
Definition sv_zero (v ofs n_bits : Z) : Z := Z.ldiff v (sv_range ofs n_bits).

(** [bitwise_copy] between the same offsets of two subvalues *)
Definition sv_copy (src dst ofs n_bits : Z) : Z :=
  Z.lor (sv_zero dst ofs n_bits) (Z.land src (sv_range ofs n_bits)).

(** [bitwise_toggle_bit] *)
Definition sv_toggle (v ofs : Z) : Z := Z.lxor v (Z.shiftl 1 ofs).

(** [bitmap_count1] of the low [n] bits, [n] a multiple of the word size *)
Fixpoint count1_from (v : Z) (n : nat) : Z :=
  match n with
  | O => 0
  | S n => count1_from v n + Z.b2z (Z.testbit v (Z.of_nat n))
  end.

Definition bitmap_count1 (v n : Z) : Z := count1_from v (Z.to_nat n).

(** [bitmap_is_superset] of the low [n] bits *)
Definition bitmap_is_superset (super sub n : Z) : bool :=
  Z.land (Z.ldiff sub super) (Z.ones n) =? 0.

(** [mf_subvalue_intersect]: the value and mask it stores when it returns true *)
Definition mf_subvalue_intersect (a_value a_mask b_value b_mask : Z)
    : option (Z * Z) :=
  if negb (Z.land (Z.lxor a_value b_value) (Z.land a_mask b_mask) =? 0)
  then None
  else Some (Z.lor a_value b_value, Z.lor a_mask b_mask).

(** ** Bits of the results *)

Lemma sv_range_testbit ofs n_bits n :
  0 <= ofs -> 0 <= n_bits -> 0 <= n ->
  Z.testbit (sv_range ofs n_bits) n = (ofs <=? n) && (n <? ofs + n_bits).
Proof.
  intros Ho Hn H. unfold sv_range. rewrite Z.shiftl_spec by lia.
  destruct (Z.leb_spec ofs n); cbn [andb].
  - rewrite Z.testbit_ones by lia. lia.
  - by rewrite Z.testbit_neg_r by lia.
Qed.

Lemma sv_zero_testbit v ofs n_bits n :
  0 <= ofs -> 0 <= n_bits -> 0 <= n ->
  Z.testbit (sv_zero v ofs n_bits) n
  = Z.testbit v n && negb ((ofs <=? n) && (n <? ofs + n_bits)).
Proof. intros. unfold sv_zero. by rewrite Z.ldiff_spec, sv_range_testbit. Qed.

Lemma sv_copy_testbit src dst ofs n_bits n :
  0 <= ofs -> 0 <= n_bits -> 0 <= n ->
  Z.testbit (sv_copy src dst ofs n_bits) n
  = if (ofs <=? n) && (n <? ofs + n_bits) then Z.testbit src n
    else Z.testbit dst n.
Proof.
  intros. unfold sv_copy.
  rewrite Z.lor_spec, Z.land_spec, sv_zero_testbit, sv_range_testbit by done.
  by destruct (Z.testbit src n), (Z.testbit dst n), (ofs <=? n), (n <? ofs + n_bits).
Qed.

Lemma sv_toggle_testbit v ofs n :
  0 <= ofs -> 0 <= n ->
  Z.testbit (sv_toggle v ofs) n = xorb (Z.testbit v n) (n =? ofs).
Proof. intros. unfold sv_toggle. by rewrite Z.lxor_spec, testbit_one_shifted. Qed.

Lemma sv_zero_nonneg v ofs n_bits : 0 <= v -> 0 <= sv_zero v ofs n_bits.
Proof. intros. apply Z.ldiff_nonneg. by left. Qed.

Lemma sv_copy_nonneg src dst ofs n_bits :
  0 <= src -> 0 <= dst -> 0 <= sv_copy src dst ofs n_bits.
Proof.
  intros. apply Z.lor_nonneg. split; [by apply sv_zero_nonneg |].
  apply Z.land_nonneg. by left.
Qed.

Lemma sv_toggle_nonneg v ofs : 0 <= v -> 0 <= sv_toggle v ofs.
Proof. intros. apply Z.lxor_nonneg. by rewrite Z.shiftl_nonneg. Qed.

Lemma sv_scan_from_spec v target ofs n :
  let r := sv_scan_from v target ofs n in
  ofs <= r <= ofs + Z.of_nat n
  /\ (forall k, ofs <= k < r -> Z.testbit v k = negb target)
  /\ (r < ofs + Z.of_nat n -> Z.testbit v r = target).
Proof.
  revert ofs. induction n as [|n IH]; intros ofs r; subst r; cbn [sv_scan_from].
  { split_and!; lia. }
  destruct (Bool.eqb _ _) eqn:E.
  - apply eqb_prop in E. split_and!; [lia | lia | lia | done].
  - destruct (IH (ofs + 1)) as (Hr & Hlow & Hat). split_and!; [lia | lia | |].
    + intros k Hk. destruct (decide (k = ofs)) as [->|]; [|apply Hlow; lia].
      by destruct (Z.testbit v ofs), target.
    + intros H. apply Hat. lia.
Qed.

(** The scan finds the first bit equal to [target] in [start, end), or [end]. *)
Lemma sv_scan_spec v target start end_ :
  start <= end_ ->
  let r := sv_scan v target start end_ in
  start <= r <= end_
  /\ (forall k, start <= k < r -> Z.testbit v k = negb target)
  /\ (r < end_ -> Z.testbit v r = target).
Proof.
  intros H r. unfold r, sv_scan.
  pose proof (sv_scan_from_spec v target start (Z.to_nat (end_ - start))) as Hs.
  by replace (start + Z.of_nat (Z.to_nat (end_ - start))) with end_ in Hs by lia.
Qed.

(** The result of a scan is determined by that specification. *)
Lemma scan_unique v target start end_ r s :
  start <= r <= end_ -> (forall k, start <= k < r -> Z.testbit v k = negb target) ->
  (r < end_ -> Z.testbit v r = target) ->
  start <= s <= end_ -> (forall k, start <= k < s -> Z.testbit v k = negb target) ->
  (s < end_ -> Z.testbit v s = target) ->
  r = s.
Proof.
  intros Hr Hlr Har Hs Hls Has. destruct (Z.lt_trichotomy r s) as [Hlt|[|Hlt]]; [|done|].
  - rewrite (Hls r) in Har by lia. by destruct target; discriminate Har; lia.
  - rewrite (Hlr s) in Has by lia. by destruct target; discriminate Has; lia.
Qed.

Lemma sv_scan_is v target start end_ r :
  start <= r <= end_ -> (forall k, start <= k < r -> Z.testbit v k = negb target) ->
  (r < end_ -> Z.testbit v r = target) -> sv_scan v target start end_ = r.
Proof.
  intros Hr Hlow Hat. destruct (sv_scan_spec v target start end_) as (? & ? & ?); [lia |].
  by eapply scan_unique.
Qed.

End Subvalue.

Import Bitwise Subvalue.

Local Open Scope Z_scope.

(** ** The byte functions compute the integer operations *)

Lemma be_value_eq a v :
  bytes a ->
  (forall n, 0 <= n < 8 * len a -> Z.testbit (be_value a) n = Z.testbit v n) ->
  (forall n, 8 * len a <= n -> Z.testbit v n = false) ->
  be_value a = v.
Proof.
  intros Ha Hlow Hhigh. apply Z.bits_inj'. intros n Hn.
  destruct (Z.lt_ge_cases n (8 * len a)); [apply Hlow; lia |].
  rewrite Hhigh by done. by apply be_value_testbit_high.
Qed.

Lemma is_all_zeros_spec a :
  bytes a -> is_all_zeros a (length a) = (be_value a =? 0).
Proof.
  unfold is_all_zeros, is_all_byte. rewrite firstn_all.
  induction a as [|b a IH] using rev_ind; [done | intros Ha].
  apply Forall_app in Ha as [Ha Hb]. apply Forall_cons in Hb as [Hb _].
  rewrite forallb_app, IH, be_value_snoc by done. cbn [forallb].
  pose proof (be_value_range a Ha). unfold is_byte in Hb.
  destruct (Z.eqb_spec (be_value a) 0), (Z.eqb_spec b 0); cbn [andb];
    symmetry; rewrite ?Z.eqb_eq, ?Z.eqb_neq; lia.
Qed.

Lemma bitwise_scan_refines a target start end_ :
  bytes a -> 0 <= start <= end_ -> end_ <= 8 * len a ->
  bitwise_scan a (len a) target start end_ = sv_scan (be_value a) target start end_.
Proof.
  intros Ha Hs He.
  destruct (bitwise_scan_spec a target start end_) as (? & ? & ?); [done .. |].
  destruct (sv_scan_spec (be_value a) target start end_) as (? & ? & ?); [lia |].
  by eapply scan_unique.
Qed.

Lemma bitwise_zero_refines a ofs n_bits :
  bytes a -> 0 <= ofs -> 0 <= n_bits -> ofs + n_bits <= 8 * len a ->
  be_value (bitwise_zero a (len a) ofs n_bits) = sv_zero (be_value a) ofs n_bits.
Proof.
  intros Ha Ho Hn HD.
  destruct (bitwise_zero_spec a ofs n_bits) as [Hb Hl Hbits]; [done .. |].
  apply be_value_eq; [done | |]; rewrite Hl; intros n Hr;
    rewrite sv_zero_testbit by lia.
  - rewrite Hbits by done. by destruct (_ && _), (Z.testbit _ _).
  - by rewrite be_value_testbit_high by done.
Qed.

Lemma bitwise_copy_refines a b ofs n_bits :
  bytes a -> bytes b -> 0 <= ofs -> 0 <= n_bits -> ofs + n_bits <= 8 * len a ->
  length b = length a ->
  be_value (bitwise_copy a (len a) ofs b (len b) ofs n_bits)
  = sv_copy (be_value a) (be_value b) ofs n_bits.
Proof.
  intros Ha Hb Ho Hn HD Hl.
  destruct (bitwise_copy_testbit a ofs b ofs n_bits) as (Hb' & Hl' & Hbits);
    [done .. | by rewrite Hl |].
  apply Z.bits_inj'. intros n Hr. rewrite Hbits, sv_copy_testbit by done.
  by rewrite Z.sub_add.
Qed.

Lemma bitwise_toggle_refines a ofs :
  bytes a -> 0 <= ofs < 8 * len a ->
  be_value (bitwise_toggle_bit a (len a) ofs) = sv_toggle (be_value a) ofs.
Proof.
  intros Ha Ho. apply be_value_eq.
  - by apply set_byte_bytes.
  - unfold bitwise_toggle_bit at 1. rewrite length_set_byte. intros n Hn.
    rewrite toggle_bit_testbit, sv_toggle_testbit by (done || lia).
    by destruct (n =? ofs), (Z.testbit _ _).
  - unfold bitwise_toggle_bit. rewrite length_set_byte. intros n Hn.
    rewrite sv_toggle_testbit, be_value_testbit_high by (done || lia).
    by replace (n =? ofs) with false by lia.
Qed.

(** C36: on arrays that hold an [mf_subvalue], the byte functions of util.c
    compute the integer operations with which the expression code is modelled:
    the same scan result, and arrays that hold the resulting integer. *)
Theorem subvalue_refines_bytes a b target ofs n_bits :
  bytes a -> bytes b -> len a = 128 -> len b = 128 ->
  0 <= ofs < subvalue_bits -> 0 <= n_bits -> ofs + n_bits <= subvalue_bits ->
  bitwise_scan a 128 target ofs (ofs + n_bits)
  = sv_scan (be_value a) target ofs (ofs + n_bits)
  /\ be_value (bitwise_zero a 128 ofs n_bits) = sv_zero (be_value a) ofs n_bits
  /\ be_value (bitwise_copy a 128 ofs b 128 ofs n_bits)
     = sv_copy (be_value a) (be_value b) ofs n_bits
  /\ be_value (bitwise_toggle_bit a 128 ofs) = sv_toggle (be_value a) ofs
  /\ is_all_zeros a 128 = (be_value a =? 0).
Proof.
  unfold subvalue_bits. intros Ha Hb Hla Hlb Ho Hn HD.
  pose proof (bitwise_scan_refines a target ofs (ofs + n_bits) Ha).
  pose proof (bitwise_zero_refines a ofs n_bits Ha).
  pose proof (bitwise_copy_refines a b ofs n_bits Ha Hb).
  pose proof (bitwise_toggle_refines a ofs Ha).
  pose proof (is_all_zeros_spec a Ha) as Hz.
  replace (length a) with 128%nat in * by lia.
  replace (length b) with 128%nat in * by lia.
  change (Z.of_nat 128) with 128 in *. split_and!; auto with lia.
Qed.

Lemma subvalue_refines_bytes_witness :
  let a := be_bytes 128 0xff00 in
  bitwise_scan a 128 true 0 16 = sv_scan (be_value a) true 0 16.
Proof.
  apply (subvalue_refines_bytes (be_bytes 128 0xff00) (be_bytes 128 0) true 0 16);
    [apply be_bytes_are_bytes | apply be_bytes_are_bytes | reflexivity | reflexivity
    | unfold subvalue_bits; lia ..].
Defined.
