(* ===== verification/Expr.v ===== *)
(** * OVN match expressions (ovn/lib/expr.c, ovn/include/ovn/expr.h)

    The abstract syntax of match expressions and the passes that bring an
    annotated expression into the form from which OpenFlow flows are generated:
    [expr_simplify] leaves only equality tests, [expr_evaluate_condition]
    resolves conditions on the chassis and [expr_normalize] produces a
    disjunction of conjunctions of clauses on one field.

    A [struct expr] is owned by one parent and modified in place, so that it is
    a value here: a loop that removes a node from its list and inserts another
    in its place builds the list of results.  A failing [ovs_assert] and
    [OVS_NOT_REACHED] are [None].  The recursion of [crush_cmps] and
    [expr_normalize] is not structural; it runs on fuel computed from the
    expression, and [ExprCrush] and [ExprNormalize] prove that the fuel is
    enough. *)
From stdpp Require Import base option list strings gmap.
From Stdlib Require Import ZArith Lia Sorting.Sorted.
From S2P Require Import Prelude Subvalue.
Import Subvalue.

Module Expr.

Local Open Scope Z_scope.

(** ** Data *)

Inductive expr_level := EXPR_L_NOMINAL | EXPR_L_BOOLEAN | EXPR_L_ORDINAL.

#[export] Instance expr_level_eq_dec : EqDecision expr_level.
Proof. solve_decision. Defined.

(** A [struct expr_symbol] with the members the passes use.  [n_bytes] is
    [field->n_bytes].  Symbols live in a table with unique names, so that the
    comparison of pointers to them is the comparison of the records. *)
Record expr_symbol := {
  name : string;
  width : Z;
  n_bytes : Z;
  level : expr_level;
  must_crossproduct : bool;
}.

#[export] Instance expr_symbol_eq_dec : EqDecision expr_symbol.
Proof. solve_decision. Defined.

Inductive expr_relop :=
  EXPR_R_EQ | EXPR_R_NE | EXPR_R_LT | EXPR_R_LE | EXPR_R_GT | EXPR_R_GE.

#[export] Instance expr_relop_eq_dec : EqDecision expr_relop.
Proof. solve_decision. Defined.

Inductive expr_type :=
  EXPR_T_CMP | EXPR_T_AND | EXPR_T_OR | EXPR_T_BOOLEAN | EXPR_T_CONDITION.

#[export] Instance expr_type_eq_dec : EqDecision expr_type.
Proof. solve_decision. Defined.

Inductive andor := AND | OR.

#[export] Instance andor_eq_dec : EqDecision andor.
Proof. solve_decision. Defined.

(** The [cmp] member: [string] is meaningful for a symbol of width 0, [value]
    and [mask] for the others. *)
Record expr_cmp := {
  symbol : expr_symbol;
  relop : expr_relop;
  cst_string : string;
  value : Z;
  mask : Z;
}.

#[warnings="-register-all"]
Inductive expr :=
  | ECmp (as_name : option string) (cmp : expr_cmp)
  | EAndOr (type : andor) (as_name : option string) (subs : list expr)
  | EBoolean (boolean : bool)
  | ECondition (cond_not : bool) (cond_string : string).

Definition andor_type (t : andor) : expr_type :=
  match t with AND => EXPR_T_AND | OR => EXPR_T_OR end.

Definition type_of (e : expr) : expr_type :=
  match e with
  | ECmp _ _ => EXPR_T_CMP
  | EAndOr t _ _ => andor_type t
  | EBoolean _ => EXPR_T_BOOLEAN
  | ECondition _ _ => EXPR_T_CONDITION
  end.

(** The value of the enumeration. *)
Definition type_rank (t : expr_type) : Z :=
  match t with
  | EXPR_T_CMP => 0 | EXPR_T_AND => 1 | EXPR_T_OR => 2
  | EXPR_T_BOOLEAN => 3 | EXPR_T_CONDITION => 4
  end.

(** An equality test of a numeric symbol, and of a string symbol. *)
Definition cmp_eq (s : expr_symbol) (v m : Z) : expr_cmp :=
  {| symbol := s; relop := EXPR_R_EQ; cst_string := EmptyString; value := v; mask := m |}.

Definition cmp_str (s : expr_symbol) (str : string) : expr_cmp :=
  {| symbol := s; relop := EXPR_R_EQ; cst_string := str; value := 0; mask := 0 |}.

(** [c] as an equality test with another value and mask. *)
Definition as_eq (c : expr_cmp) (v m : Z) : expr_cmp :=
  {| symbol := symbol c; relop := EXPR_R_EQ; cst_string := cst_string c;
     value := v; mask := m |}.

(** [strcmp], of which only the sign is used *)
Definition strcmp (a b : string) : Z :=
  match String.compare a b with Eq => 0 | Lt => -1 | Gt => 1 end.

(** [memcmp] of two values of the same size *)
Definition memcmp (a b : Z) : Z :=
  match a ?= b with Eq => 0 | Lt => -1 | Gt => 1 end.

(** ** Relational operators *)

Definition expr_relop_turn (relop : expr_relop) : expr_relop :=
  match relop with
  | EXPR_R_EQ => EXPR_R_EQ
  | EXPR_R_NE => EXPR_R_NE
  | EXPR_R_LT => EXPR_R_GT
  | EXPR_R_LE => EXPR_R_GE
  | EXPR_R_GT => EXPR_R_LT
  | EXPR_R_GE => EXPR_R_LE
  end.

Definition expr_relop_invert (relop : expr_relop) : expr_relop :=
  match relop with
  | EXPR_R_EQ => EXPR_R_NE
  | EXPR_R_NE => EXPR_R_EQ
  | EXPR_R_LT => EXPR_R_GE
  | EXPR_R_LE => EXPR_R_GT
  | EXPR_R_GT => EXPR_R_LE
  | EXPR_R_GE => EXPR_R_LT
  end.

Definition expr_relop_test (relop : expr_relop) (cmp : Z) : bool :=
  match relop with
  | EXPR_R_EQ => cmp =? 0
  | EXPR_R_NE => negb (cmp =? 0)
  | EXPR_R_LT => cmp <? 0
  | EXPR_R_LE => cmp <=? 0
  | EXPR_R_GT => 0 <? cmp
  | EXPR_R_GE => 0 <=? cmp
  end.

(** ** Constructing and manipulating expressions *)

Definition expr_create_andor (t : andor) : expr := EAndOr t None [].

Definition expr_create_boolean (b : bool) : expr := EBoolean b.

(** A null pointer is [None]. *)
Definition expr_combine (t : andor) (a b : option expr) : option expr :=
  match a, b with
  | None, _ => b
  | _, None => a
  | Some a', Some b' =>
      match a', b' with
      | EAndOr ta _ asubs, EAndOr tb bas bsubs =>
          if decide (ta = t) then
            if decide (tb = t) then Some (EAndOr t None (asubs ++ bsubs))
            else Some (EAndOr t None (asubs ++ [b']))
          else if decide (tb = t) then Some (EAndOr t None (a' :: bsubs))
          else Some (EAndOr t None [a'; b'])
      | EAndOr ta _ asubs, _ =>
          if decide (ta = t) then Some (EAndOr t None (asubs ++ [b']))
          else Some (EAndOr t None [a'; b'])
      | _, EAndOr tb _ bsubs =>
          if decide (tb = t) then Some (EAndOr t None (a' :: bsubs))
          else Some (EAndOr t None [a'; b'])
      | _, _ => Some (EAndOr t None [a'; b'])
      end
  end.

(** The nodes that inserting [new] into a node of type [t] adds to its list. *)
Definition expr_insert_andor (t : andor) (new : expr) : list expr :=
  match new with
  | EAndOr t' _ subs => if decide (t' = t) then subs else [new]
  | _ => [new]
  end.

Fixpoint expr_not (e : expr) : expr :=
  match e with
  | ECmp a c =>
      ECmp a {| symbol := symbol c; relop := expr_relop_invert (relop c);
                cst_string := cst_string c; value := value c; mask := mask c |}
  | EAndOr t a subs =>
      EAndOr (match t with AND => OR | OR => AND end) a (map expr_not subs)
  | EBoolean b => EBoolean (negb b)
  | ECondition n s => ECondition (negb n) s
  end.

(** The loop over the subexpressions: [None] when one of them decides. *)
Fixpoint fix_subs (subs : list expr) (short_circuit : bool) : option (list expr) :=
  match subs with
  | [] => Some []
  | EBoolean b :: subs =>
      if Bool.eqb b short_circuit then None else fix_subs subs short_circuit
  | sub :: subs => rest ← fix_subs subs short_circuit; Some (sub :: rest)
  end.

Definition expr_fix_andor (t : andor) (as_name : option string)
    (subs : list expr) (short_circuit : bool) : expr :=
  match fix_subs subs short_circuit with
  | None => expr_create_boolean short_circuit
  | Some [] => expr_create_boolean (negb short_circuit)
  | Some [sub] => sub
  | Some subs => EAndOr t as_name subs
  end.

Definition expr_fix (e : expr) : expr :=
  match e with
  | EAndOr AND a subs => expr_fix_andor AND a subs false
  | EAndOr OR a subs => expr_fix_andor OR a subs true
  | _ => e
  end.

(** A deep copy; the address set name of an inner node is not copied. *)
Fixpoint expr_clone (e : expr) : expr :=
  match e with
  | ECmp a c => ECmp a c
  | EAndOr t _ subs => EAndOr t None (map expr_clone subs)
  | EBoolean b => expr_create_boolean b
  | ECondition n s => ECondition n s
  end.

(** [LIST_FOR_EACH_SAFE] that replaces each node by what [f] returns for it,
    inserted with [expr_insert_andor]. *)
Section Splice.
Context (t : andor) (f : expr -> option expr).

Fixpoint splice (subs : list expr) : option (list expr) :=
  match subs with
  | [] => Some []
  | sub :: subs =>
      new ← f sub; rest ← splice subs; Some (expr_insert_andor t new ++ rest)
  end.
End Splice.

(** ** Simplification *)

Definition find_bitwise_range (sv w : Z) : Z * Z :=
  let start := sv_scan sv true 0 w in
  if start <? w then
    let end_ := sv_scan sv false start w in
    if (w <=? end_) || (w <=? sv_scan sv true end_ w)
    then (start, end_ - start)
    else (0, 0)
  else (0, 0).

Definition expr_simplify_eq (a : option string) (c : expr_cmp) : expr :=
  if mask c =? 0 then expr_create_boolean true else ECmp a c.

(** The loop over the 1-bits of the mask from [i]; at most [width] iterations. *)
Fixpoint simplify_ne_from (fuel : nat) (c : expr_cmp) (i : Z) (new : option expr)
    : option expr :=
  match fuel with
  | O => new
  | S fuel =>
      let w := width (symbol c) in
      let i := sv_scan (mask c) true i w in
      if i <? w then
        let m := sv_copy (mask c) 0 i (w - i) in
        let v := sv_toggle (sv_copy (value c) 0 i (w - i)) i in
        simplify_ne_from fuel c (i + 1)
          (expr_combine OR new (Some (ECmp None (cmp_eq (symbol c) v m))))
      else new
  end.

Definition expr_simplify_ne (c : expr_cmp) : expr :=
  match simplify_ne_from (Z.to_nat (width (symbol c))) c 0 None with
  | Some new => new
  | None => expr_create_boolean false
  end.

(** The loop over the bits equal to [lt] from [z]; at most [end - start]
    iterations. *)
Fixpoint simplify_relational_from (fuel : nat) (a : option string) (c : expr_cmp)
    (lt : bool) (start end_ z : Z) (new : option expr) : option expr :=
  match fuel with
  | O => new
  | S fuel =>
      if z <? end_ then
        let v := sv_zero (sv_toggle (value c) z) start (z - start) in
        let m := sv_zero (mask c) start (z - start) in
        simplify_relational_from fuel a c lt start end_
          (sv_scan (value c) lt (z + 1) end_)
          (expr_combine OR new (Some (ECmp a (as_eq c v m))))
      else new
  end.

Definition expr_simplify_relational (a : option string) (c : expr_cmp)
    : option expr :=
  let '(start, n_bits) := find_bitwise_range (mask c) (width (symbol c)) in
  if 0 <? n_bits then
    let end_ := start + n_bits in
    let lt := bool_decide (relop c = EXPR_R_LT) || bool_decide (relop c = EXPR_R_LE) in
    let eq := bool_decide (relop c = EXPR_R_LE) || bool_decide (relop c = EXPR_R_GE) in
    if sv_scan (value c) (negb lt) start end_ =? end_ then
      if eq then Some (expr_create_boolean true) else Some (expr_simplify_ne c)
    else
      let new := if eq then Some (ECmp a (as_eq c (value c) (mask c))) else None in
      match simplify_relational_from (Z.to_nat n_bits) a c lt start end_
              (sv_scan (value c) lt start end_) new with
      | Some new => Some new
      | None => Some (expr_create_boolean false)
      end
  else None.

Fixpoint expr_simplify (e : expr) : option expr :=
  match e with
  | ECmp a c =>
      if width (symbol c) =? 0 then Some e
      else match relop c with
           | EXPR_R_EQ => Some (expr_simplify_eq a c)
           | EXPR_R_NE => Some (expr_simplify_ne c)
           | _ => expr_simplify_relational a c
           end
  | EAndOr t a subs =>
      subs ← splice t expr_simplify subs; Some (expr_fix (EAndOr t a subs))
  | EBoolean _ => Some e
  | ECondition _ _ => Some e
  end.

(** ** Conditions *)

Definition expr_evaluate_condition__ (is_chassis_resident : string -> bool)
    (cond_not : bool) (cond_string : string) : expr :=
  expr_create_boolean (xorb (is_chassis_resident cond_string) cond_not).

Fixpoint expr_evaluate_condition (is_chassis_resident : string -> bool) (e : expr)
    : expr :=
  match e with
  | EAndOr t a subs =>
      expr_fix (EAndOr t a
        (flat_map (fun sub => expr_insert_andor t
                     (expr_fix (expr_evaluate_condition is_chassis_resident sub)))
           subs))
  | ECondition n s => expr_evaluate_condition__ is_chassis_resident n s
  | _ => e
  end.

(** ** Sorting *)

(** The loop of [expr_get_unique_symbol]; [prev] is null before the first. *)
Section UniqueSymbol.
Context (f : expr -> option expr_symbol).

Fixpoint unique_symbol_of (prev : option expr_symbol) (subs : list expr)
    : option expr_symbol :=
  match subs with
  | [] => prev
  | sub :: subs =>
      match f sub with
      | None => None
      | Some s =>
          match prev with
          | Some p => if decide (s = p) then unique_symbol_of (Some s) subs else None
          | None => unique_symbol_of (Some s) subs
          end
      end
  end.
End UniqueSymbol.

Fixpoint expr_get_unique_symbol (e : expr) : option expr_symbol :=
  match e with
  | ECmp _ c => Some (symbol c)
  | EAndOr _ _ subs => unique_symbol_of expr_get_unique_symbol None subs
  | EBoolean _ | ECondition _ _ => None
  end.

Record expr_sort_item := {
  si_expr : expr;
  si_symbol : option expr_symbol;
  si_type : expr_type;
}.

Definition andor_size (e : expr) : Z :=
  match e with EAndOr _ _ subs => Z.of_nat (length subs) | _ => 0 end.

(** Both types compared last are the one of [a], as in the code. *)
Definition compare_expr_sort (a b : expr_sort_item) : Z :=
  if negb (bool_decide (si_type a = si_type b)) then
    if type_rank (si_type a) <? type_rank (si_type b) then -1 else 1
  else
    match si_symbol a, si_symbol b with
    | Some sa, Some sb =>
        let cmp := strcmp (name sa) (name sb) in
        if negb (cmp =? 0) then cmp
        else
          let a_type := type_rank (type_of (si_expr a)) in
          let b_type := type_rank (type_of (si_expr a)) in
          if a_type <? b_type then -1 else Z.b2z (b_type <? a_type)
    | _, _ =>
        match si_type a with
        | EXPR_T_AND | EXPR_T_OR =>
            let a_len := andor_size (si_expr a) in
            let b_len := andor_size (si_expr b) in
            if a_len <? b_len then -1 else Z.b2z (b_len <? a_len)
        | _ => 0
        end
    end.

(** ** The C library's [qsort]

    It permutes the array so that no element compares greater than its
    successor, for a comparison function that is a total preorder on its
    elements; the order of elements that compare equal is unspecified. *)
Record total_compare {A} (cmp : A -> A -> Z) (l : list A) : Prop := {
  tc_total x y : x ∈ l -> y ∈ l -> cmp x y <= 0 \/ cmp y x <= 0;
  tc_trans x y z :
    x ∈ l -> y ∈ l -> z ∈ l -> cmp x y <= 0 -> cmp y z <= 0 -> cmp x z <= 0;
}.

Class Qsort := {
  qsort : forall {A}, (A -> A -> Z) -> list A -> list A;
  qsort_permutation {A} (cmp : A -> A -> Z) (l : list A) : qsort cmp l ≡ₚ l;
  qsort_sorted {A} (cmp : A -> A -> Z) (l : list A) :
    total_compare cmp l -> Sorted (fun x y => cmp x y <= 0) (qsort cmp l);
}.

(** An instance: insertion sort. *)
Section InsertionSort.
Context {A : Type} (cmp : A -> A -> Z).

Fixpoint sort_insert (x : A) (l : list A) : list A :=
  match l with
  | [] => [x]
  | y :: l' => if cmp x y <=? 0 then x :: l else y :: sort_insert x l'
  end.

Fixpoint insertion_sort (l : list A) : list A :=
  match l with
  | [] => []
  | x :: l => sort_insert x (insertion_sort l)
  end.
End InsertionSort.

(** ** Conjunctions over a string symbol *)

(** Whether one of the comparisons of [or] is with [s]. *)
Definition disjunction_matches_string (subs : list expr) (s : string) : bool :=
  existsb (fun sub => match sub with
                      | ECmp _ c => strcmp (cst_string c) s =? 0
                      | _ => false
                      end) subs.

(** The first loop of [crush_and_string]: an expression that is returned early,
    or the list that is left and the first comparison found. *)
Section AndString.
Context (crush : expr -> option expr).

Fixpoint and_string_loop (subs : list expr) (singleton : option (option string * expr_cmp))
    (kept : list expr)
    : option (expr + option (option string * expr_cmp) * list expr) :=
  match subs with
  | [] => Some (inr (singleton, kept))
  | sub :: subs =>
      new ← crush sub;
      match new with
      | ECmp a c =>
          match singleton with
          | None => and_string_loop subs (Some (a, c)) (kept ++ [new])
          | Some (_, sc) =>
              if strcmp (cst_string c) (cst_string sc) =? 0
              then and_string_loop subs singleton kept
              else Some (inl (expr_create_boolean false))
          end
      | EAndOr AND _ _ => None
      | EAndOr OR _ _ => and_string_loop subs singleton (kept ++ [new])
      | EBoolean b => if b then and_string_loop subs singleton kept
                      else Some (inl new)
      | ECondition _ _ => None
      end
  end.
End AndString.

(** The strings that the comparisons of an OR test for. *)
Definition or_strings (e : expr) : gset string :=
  match e with
  | EAndOr _ _ subs =>
      list_to_set (omap (fun sub => match sub with
                                    | ECmp _ c => Some (cst_string c)
                                    | _ => None
                                    end) subs)
  | _ => ∅
  end.

(** The intersection of the sets of strings; [None] when it becomes empty. *)
Fixpoint intersect_strings (ors : list expr) (result : gset string)
    : option (gset string) :=
  match ors with
  | [] => Some result
  | or :: ors =>
      let strings := or_strings or in
      let result := if decide (result = ∅) then strings else result ∩ strings in
      if decide (result = ∅) then None else intersect_strings ors result
  end.

(** [kept] contains ORs only when there is no singleton.  [elements] stands for
    the unspecified order in which [SSET_FOR_EACH] visits the set. *)
Definition crush_and_string (crush : expr -> option expr) (subs : list expr)
    (s : expr_symbol) : option expr :=
  if (length subs <? 2)%nat then None
  else
    r ← and_string_loop crush subs None [];
    match r with
    | inl e => Some e
    | inr (Some (a, c), kept) =>
        if existsb (fun sub => match sub with
                               | EAndOr OR _ ds =>
                                   negb (disjunction_matches_string ds (cst_string c))
                               | _ => false
                               end) kept
        then Some (expr_create_boolean false)
        else Some (ECmp a c)
    | inr (None, kept) =>
        match intersect_strings kept ∅ with
        | None => Some (expr_create_boolean false)
        | Some result =>
            Some (expr_fix (EAndOr OR None
                    (map (fun str => ECmp None (cmp_str s str)) (elements result))))
        end
    end.

(** ** Removal of redundant disjuncts *)

Abbreviation cmp_node := (option string * expr_cmp)%type.

(** [ROUND_UP(symbol->width, 64)] *)
Definition bit_width (s : expr_symbol) : Z := (width s + 63) / 64 * 64.

(** [sub->cmp.mask_n_bits], as [crush_or_supersets] computes it *)
Definition mask_n_bits (c : expr_cmp) : Z :=
  if width (symbol c) =? 0 then 0
  else bitmap_count1 (mask c) (bit_width (symbol c)).

Definition compare_cmps_3way (a b : expr_cmp) : option Z :=
  if negb (bool_decide (symbol a = symbol b)) then None
  else if width (symbol a) =? 0 then Some (strcmp (cst_string a) (cst_string b))
  else if negb (mask_n_bits a =? mask_n_bits b) then
    Some (if mask_n_bits a <? mask_n_bits b then -1 else 1)
  else
    let d := memcmp (value a) (value b) in
    Some (if d =? 0 then memcmp (mask a) (mask b) else d).

(** The callback of [qsort]; a failing assertion shows when duplicates are
    eliminated, which compares the same symbols. *)
Definition compare_cmps_cb (a b : cmp_node) : Z :=
  match compare_cmps_3way a.2 b.2 with Some d => d | None => 0 end.

Definition expr_bitmap_intersect_check (a_value a_mask b_value b_mask w : Z) : bool :=
  Z.land (Z.land (Z.lxor a_value b_value) (Z.land a_mask b_mask)) (Z.ones w) =? 0.

(** The array [subs], in which a destroyed element is null, and the array
    [next].  An access out of bounds or through a null pointer is [None]. *)
Abbreviation sub_array := (list (option cmp_node)).

Definition sub_at (subs : sub_array) (i : nat) : option cmp_node := mjoin (subs !! i).

(** "Eliminate duplicates": [for (i = 1; i < n; i++)], [k] iterations left. *)
Fixpoint dedup (k i last : nat) (subs : sub_array) (next : list nat)
    : option (sub_array * list nat) :=
  match k with
  | O => Some (subs, next)
  | S k =>
      a ← sub_at subs last; b ← sub_at subs i;
      d ← compare_cmps_3way a.2 b.2;
      if negb (d =? 0) then dedup k (S i) i subs (<[last := i]> next)
      else dedup k (S i) last (<[i := None]> (<[last := Some (None, a.2)]> subs)) next
  end.

(** An entry of [mask_index]; [None] is the initial value [SIZE_MAX]. *)
Definition index_min (a b : option nat) : option nat :=
  match a, b with
  | Some x, Some y => Some (Nat.min x y)
  | Some x, None | None, Some x => Some x
  | None, None => None
  end.

(** [for (i = 0; i < n; i = next[i])] *)
Fixpoint build_index (fuel i n : nat) (subs : sub_array) (next : list nat)
    (mask_index : list (option nat)) : option (list (option nat)) :=
  if (i <? n)%nat then
    match fuel with
    | O => None
    | S fuel =>
        sub ← subs !! i;
        mask_index ←
          match sub with
          | Some c =>
              let k := Z.to_nat (mask_n_bits c.2) in
              cur ← mask_index !! k;
              Some (<[k := index_min cur (Some i)]> mask_index)
          | None => Some mask_index
          end;
        i ← next !! i; build_index fuel i n subs next mask_index
    end
  else Some mask_index.

(** [for (i = max_n_bits; i > 0; i--)] *)
Fixpoint fill_gaps (i : nat) (mask_index : list (option nat))
    : option (list (option nat)) :=
  match i with
  | O => Some mask_index
  | S i' =>
      cur ← mask_index !! i; above ← mask_index !! S i;
      fill_gaps i' (<[i := index_min cur above]> mask_index)
  end.

(** The inner loop of "Find and eliminate supersets", from [j]; [k1] is
    [n_bits + 1]. *)
Fixpoint eliminate_from (fuel : nat) (w : Z) (i k1 last j n : nat) (subs : sub_array)
    (next : list nat) (mask_index : list (option nat))
    : option (sub_array * list nat * list (option nat)) :=
  if (j <? n)%nat then
    match fuel with
    | O => None
    | S fuel =>
        if (i =? j)%nat then None
        else
          sub ← subs !! j; nj ← next !! j;
          match sub with
          | None => eliminate_from fuel w i k1 last nj n subs next mask_index
          | Some b =>
              a ← sub_at subs i;
              if expr_bitmap_intersect_check (value a.2) (mask a.2)
                   (value b.2) (mask b.2) w
                 && bitmap_is_superset (mask b.2) (mask a.2) w
              then
                let subs := <[j := None]> (<[i := Some (None, a.2)]> subs) in
                if negb (last =? 0)%nat then
                  eliminate_from fuel w i k1 last nj n subs
                    (<[last := nj]> next) mask_index
                else
                  eliminate_from fuel w i k1 last nj n subs next
                    (<[k1 := Some nj]> mask_index)
              else eliminate_from fuel w i k1 j nj n subs next mask_index
          end
    end
  else Some (subs, next, mask_index).

(** The outer loop, from [i]. *)
Fixpoint eliminate (fuel : nat) (w : Z) (i n : nat) (subs : sub_array)
    (next : list nat) (mask_index : list (option nat)) : option sub_array :=
  if (i <? n)%nat then
    match fuel with
    | O => None
    | S fuel =>
        sub ← subs !! i;
        match sub with
        | None => i ← next !! i; eliminate fuel w i n subs next mask_index
        | Some a =>
            let k1 := S (Z.to_nat (mask_n_bits a.2)) in
            first ← mask_index !! k1;
            match first with
            | None => Some subs
            | Some j =>
                if (n <? j)%nat then Some subs
                else
                  '(subs, next, mask_index) ←
                    eliminate_from n w i k1 0 j n subs next mask_index;
                  i ← next !! i; eliminate fuel w i n subs next mask_index
            end
        end
    end
  else Some subs.

Section Qsort.
Context `{Qsort}.

Definition as_cmp (e : expr) : option cmp_node :=
  match e with ECmp a c => Some (a, c) | _ => None end.

Definition max_n_bits (subs : list cmp_node) : Z :=
  foldr (fun c m => Z.max (mask_n_bits c.2) m) 0 subs.

Definition crush_or_supersets (as_name : option string) (children : list expr)
    (s : expr_symbol) : option expr :=
  cmps ← mapM as_cmp children;
  let n := length cmps in
  let has_addr_set := existsb (fun c => bool_decide (is_Some c.1)) cmps in
  let max_n_bits := Z.to_nat (max_n_bits cmps) in
  let next := map S (seq 0 n) in
  let subs := map Some (qsort compare_cmps_cb cmps) in
  '(subs, next) ← dedup (n - 1) 1 0 subs next;
  subs ←
    (if (width s =? 0) || negb (bool_decide (level s = EXPR_L_ORDINAL)) || has_addr_set
     then Some subs
     else
       mask_index ← build_index n 0 n subs next (replicate (max_n_bits + 2) None);
       mask_index ← fill_gaps max_n_bits mask_index;
       eliminate n (bit_width s) 0 n subs next mask_index);
  Some (EAndOr OR as_name (map (fun c => ECmp c.1 c.2) (omap id subs))).

(** ** Conjunctions over a numeric symbol *)

(** The first loop of [crush_and_numeric]: an expression that is returned
    early, or the value and mask of the comparisons and the ORs that are left. *)
Section AndNumeric.
Context (crush : expr -> option expr).

Fixpoint and_numeric_loop (subs : list expr) (v m : Z) (ors : list expr)
    : option (expr + Z * Z * list expr) :=
  match subs with
  | [] => Some (inr (v, m, ors))
  | sub :: subs =>
      new ← crush sub;
      match new with
      | ECmp _ c =>
          match mf_subvalue_intersect v m (value c) (mask c) with
          | None => Some (inl (expr_create_boolean false))
          | Some (v, m) => and_numeric_loop subs v m ors
          end
      | EAndOr AND _ _ => None
      | EAndOr OR _ _ => and_numeric_loop subs v m (ors ++ [new])
      | EBoolean b => if b then and_numeric_loop subs v m ors else Some (inl new)
      | ECondition _ _ => None
      end
  end.
End AndNumeric.

(** "a && (b || c || d)" as the list of "ab", "ac" and "ad" that exist. *)
Fixpoint distribute_cmp (v m : Z) (disjuncts : list expr) : option (list expr) :=
  match disjuncts with
  | [] => Some []
  | sub :: disjuncts =>
      '(a, c) ← as_cmp sub;
      rest ← distribute_cmp v m disjuncts;
      match mf_subvalue_intersect v m (value c) (mask c) with
      | Some (v', m') =>
          Some (ECmp a {| symbol := symbol c; relop := relop c;
                          cst_string := cst_string c; value := v'; mask := m' |}
                :: rest)
      | None => Some rest
      end
  end.

(** The inner loop of the product of two disjunctions. *)
Fixpoint product_row (s : expr_symbol) (v m : Z) (bs : list expr)
    : option (list expr) :=
  match bs with
  | [] => Some []
  | b :: bs =>
      '(_, c) ← as_cmp b;
      rest ← product_row s v m bs;
      match mf_subvalue_intersect v m (value c) (mask c) with
      | Some (v', m') => Some (ECmp None (cmp_eq s v' m') :: rest)
      | None => Some rest
      end
  end.

Fixpoint product (s : expr_symbol) (v m : Z) (as_ bs : list expr)
    : option (list expr) :=
  match as_ with
  | [] => Some []
  | a :: as_ =>
      '(_, c) ← as_cmp a;
      row ← match mf_subvalue_intersect v m (value c) (mask c) with
            | Some (av, am) => product_row s av am bs
            | None => Some []
            end;
      rest ← product s v m as_ bs;
      Some (row ++ rest)
  end.

Definition andor_subs (t : andor) (e : expr) : option (list expr) :=
  match e with
  | EAndOr t' _ subs => if decide (t' = t) then Some subs else None
  | _ => None
  end.

(** What [crush_and_numeric] does with the ORs that are left.  [a] is the
    address set name of the conjunction. *)
Definition crush_ors (crush : expr -> option expr) (a : option string)
    (s : expr_symbol) (v m : Z) (ors : list expr) : option expr :=
  match ors with
  | [] =>
      if m =? 0 then Some (expr_create_boolean true)
      else Some (ECmp None (cmp_eq s v m))
  | [disjuncts] =>
      ds ← andor_subs OR disjuncts;
      or ← distribute_cmp v m ds;
      match or with
      | [] => Some (expr_create_boolean false)
      | [cmp] => Some cmp
      | _ => crush (EAndOr OR None or)
      end
  | as_ :: bs :: rest =>
      as_ ← andor_subs OR as_; bs ← andor_subs OR bs;
      or ← product s v m as_ bs;
      match or with
      | [] => Some (expr_create_boolean false)
      | [cmp] =>
          match rest with
          | [] => crush cmp
          | _ => expr_combine AND (Some cmp) (Some (EAndOr AND a rest)) ≫= crush
          end
      | _ =>
          match rest with
          | [] => crush (EAndOr OR None or)
          | _ => e ← expr_combine AND (Some (EAndOr OR None or))
                       (Some (EAndOr AND a rest));
                 if andor_size e <? 2 then None else crush e
          end
      end
  end.

Definition crush_and_numeric (crush : expr -> option expr) (a : option string)
    (subs : list expr) (s : expr_symbol) : option expr :=
  if (length subs <? 2)%nat then None
  else
    r ← and_numeric_loop crush subs 0 0 [];
    match r with
    | inl e => Some e
    | inr (v, m, ors) => crush_ors crush a s v m ors
    end.

Definition crush_or (crush : expr -> option expr) (a : option string)
    (subs : list expr) (s : expr_symbol) : option expr :=
  subs ← splice OR crush subs;
  match expr_fix (EAndOr OR a subs) with
  | EAndOr OR a subs => e ← crush_or_supersets a subs s; Some (expr_fix e)
  | e => Some e
  end.

Fixpoint crush_cmps_fuel (fuel : nat) (e : expr) (s : expr_symbol) : option expr :=
  match fuel with
  | O => None
  | S fuel =>
      let crush e := crush_cmps_fuel fuel e s in
      match e with
      | EAndOr OR a subs => crush_or crush a subs s
      | EAndOr AND a subs =>
          if negb (width s =? 0) then crush_and_numeric crush a subs s
          else crush_and_string crush subs s
      | ECmp _ _ => Some e
      | EBoolean _ => Some e
      | ECondition _ _ => None
      end
  end.

(** Fuel for [crush_cmps]: the depth of the expression, and for a conjunction
    one more for each time two of its ORs are multiplied out. *)
Fixpoint crush_fuel (e : expr) : nat :=
  match e with
  | EAndOr OR _ subs => S (foldr (fun sub k => Nat.max (crush_fuel sub) k) 2 subs)%nat
  | EAndOr AND _ subs =>
      S (foldr (fun sub k => Nat.max (crush_fuel sub) k) (length subs + 2) subs)%nat
  | _ => 1%nat
  end.

Definition crush_cmps (e : expr) (s : expr_symbol) : option expr :=
  crush_cmps_fuel (crush_fuel e) e s.

(** ** Sorting and combining the clauses of a conjunction *)

Definition sort_item (sub : expr) : expr_sort_item :=
  let s := expr_get_unique_symbol sub in
  {| si_expr := sub; si_symbol := s;
     si_type := match s with Some _ => EXPR_T_CMP | None => type_of sub end |}.

(** The items at the head of the array with symbol [s], and the others. *)
Fixpoint same_symbol (s : expr_symbol) (items : list expr_sort_item)
    : list expr_sort_item * list expr_sort_item :=
  match items with
  | [] => ([], [])
  | item :: items' =>
      if decide (si_symbol item = Some s)
      then let '(group, rest) := same_symbol s items' in (item :: group, rest)
      else ([], items)
  end.

(** The clauses of one symbol combined and crushed. *)
Definition crush_group (s : expr_symbol) (first : expr) (group : list expr_sort_item)
    : option expr :=
  match group with
  | [] => crush_cmps first s
  | _ =>
      combined ← foldl (fun c item => expr_combine AND c (Some (si_expr item)))
                   (Some first) group;
      if andor_size combined <? 2 then None else crush_cmps combined s
  end.

(** The loop over the sorted array; [fuel] is its length. *)
Fixpoint sort_loop (fuel : nat) (items : list expr_sort_item) (acc : option expr)
    : option (option expr) :=
  match fuel, items with
  | _, [] => Some acc
  | O, _ => None
  | S fuel, item :: items =>
      match si_symbol item with
      | Some s =>
          let '(group, rest) := same_symbol s items in
          crushed ← crush_group s (si_expr item) group;
          match crushed with
          | EBoolean false => Some (Some crushed)
          | EBoolean true => sort_loop fuel rest acc
          | _ => sort_loop fuel rest (expr_combine AND acc (Some crushed))
          end
      | None => sort_loop fuel items (expr_combine AND acc (Some (si_expr item)))
      end
  end.

Definition expr_sort (e : expr) : option expr :=
  match e with
  | EAndOr AND _ subs =>
      r ← sort_loop (length subs) (qsort compare_expr_sort (map sort_item subs)) None;
      Some (match r with Some e => e | None => expr_create_boolean true end)
  | _ => None
  end.

(** ** Normalization *)

(** The loop of [expr_normalize_and] that merges neighbouring comparisons of one
    symbol: from [a] with the nodes after it; [None] when two of them contradict
    each other. *)
Fixpoint merge_cmps (a : expr) (subs : list expr) : option (list expr) :=
  match subs with
  | [] => Some [a]
  | b :: subs =>
      match a, b with
      | ECmp _ ca, ECmp bas cb =>
          if decide (symbol ca = symbol cb) then
            if negb (width (symbol ca) =? 0) then
              match mf_subvalue_intersect (value ca) (mask ca) (value cb) (mask cb) with
              | Some (v, m) =>
                  merge_cmps (ECmp bas {| symbol := symbol cb; relop := relop cb;
                                          cst_string := cst_string cb;
                                          value := v; mask := m |}) subs
              | None => None
              end
            else if strcmp (cst_string ca) (cst_string cb) =? 0
                 then merge_cmps b subs else None
          else rest ← merge_cmps b subs; Some (a :: rest)
      | _, _ => rest ← merge_cmps b subs; Some (a :: rest)
      end
  end.

(** The terms that [term] contributes to a conjunction. *)
Definition and_terms (term : expr) : list expr :=
  match term with
  | EAndOr AND _ ps => map expr_clone ps
  | _ => [expr_clone term]
  end.

(** "before && (k0 || k1 || ...) && after" multiplied out. *)
Definition crossproduct (before ks after : list expr) : expr :=
  EAndOr OR None
    (map (fun k => EAndOr AND None (flat_map and_terms (before ++ k :: after))) ks).

(** The last loop of [expr_normalize_and]: the disjunction to multiply out with
    the nodes before and after it, if there is one. *)
Fixpoint find_crossproduct (before subs : list expr)
    : option (option (list expr * list expr * list expr)) :=
  match subs with
  | [] => Some None
  | sub :: after =>
      match sub with
      | ECmp _ _ | ECondition _ _ => find_crossproduct (before ++ [sub]) after
      | EAndOr OR _ ks =>
          match expr_get_unique_symbol sub with
          | Some s => if must_crossproduct s then Some (Some (before, ks, after))
                      else find_crossproduct (before ++ [sub]) after
          | None => Some (Some (before, ks, after))
          end
      | _ => None
      end
  end.

(** The loop of [expr_normalize_or]; the result is an expression that is
    returned early, or the list that is left. *)
Section NormalizeOr.
Context (normalize_and : expr -> option expr).

Fixpoint normalize_or_loop (subs : list expr) : option (expr + list expr) :=
  match subs with
  | [] => Some (inr [])
  | sub :: subs =>
      match sub with
      | EAndOr AND _ _ =>
          new ← normalize_and sub;
          match new with
          | EBoolean true => Some (inl new)
          | EBoolean false => normalize_or_loop subs
          | _ => r ← normalize_or_loop subs;
                 Some (match r with
                       | inl e => inl e
                       | inr rest => inr (expr_insert_andor OR new ++ rest)
                       end)
          end
      | ECmp _ _ | ECondition _ _ =>
          r ← normalize_or_loop subs;
          Some (match r with inl e => inl e | inr rest => inr (sub :: rest) end)
      | _ => None
      end
  end.
End NormalizeOr.

Definition expr_normalize_or_with (normalize_and : expr -> option expr) (e : expr)
    : option expr :=
  match e with
  | EAndOr OR a subs =>
      r ← normalize_or_loop normalize_and subs;
      match r with
      | inl e => Some e
      | inr [] => Some (expr_create_boolean false)
      | inr [e] => Some e
      | inr subs => Some (EAndOr OR a subs)
      end
  | _ => None
  end.

Fixpoint expr_normalize_and_fuel (fuel : nat) (e : expr) : option expr :=
  match fuel with
  | O => None
  | S fuel =>
      e ← expr_sort e;
      match e with
      | EAndOr AND as_name (a :: subs) =>
          match merge_cmps a subs with
          | None => Some (expr_create_boolean false)
          | Some [] => None
          | Some [sub] => Some sub
          | Some subs =>
              x ← find_crossproduct [] subs;
              match x with
              | Some (before, ks, after) =>
                  expr_normalize_or_with (expr_normalize_and_fuel fuel)
                    (crossproduct before ks after)
              | None => Some (EAndOr AND as_name subs)
              end
          end
      | EAndOr AND _ [] => None
      | _ => Some e
      end
  end.

(** The number of OR nodes, which every crossproduct reduces. *)
Fixpoint or_count (e : expr) : nat :=
  match e with
  | EAndOr OR _ subs => S (foldr (fun sub k => or_count sub + k) 0 subs)%nat
  | EAndOr AND _ subs => foldr (fun sub k => or_count sub + k)%nat 0%nat subs
  | _ => 0%nat
  end.

Definition expr_normalize_and (e : expr) : option expr :=
  expr_normalize_and_fuel (S (or_count e)) e.

Definition expr_normalize_or (e : expr) : option expr :=
  expr_normalize_or_with (expr_normalize_and_fuel (S (or_count e))) e.

Definition expr_normalize (e : expr) : option expr :=
  match e with
  | ECmp _ _ => Some e
  | EAndOr AND _ _ => expr_normalize_and e
  | EAndOr OR _ _ => expr_normalize_or e
  | EBoolean _ => Some e
  | ECondition _ _ => None
  end.

End Qsort.

(** ** Invariants *)

Fixpoint expr_honors_invariants (e : expr) : bool :=
  match e with
  | ECmp _ c =>
      if negb (width (symbol c) =? 0) then Z.ldiff (value c) (mask c) =? 0 else true
  | EAndOr t _ subs =>
      if (length subs <? 2)%nat then false
      else forallb (fun sub =>
             negb (bool_decide (type_of sub = andor_type t))
             && expr_honors_invariants sub) subs
  | EBoolean _ | ECondition _ _ => true
  end.

Definition expr_is_normalized_and (subs : list expr) : bool :=
  forallb (fun sub => bool_decide (is_Some (expr_get_unique_symbol sub))) subs.

(** [expr_is_normalized_and] reads the list of a node that is an AND or an OR. *)
Definition expr_is_normalized (e : expr) : bool :=
  match e with
  | ECmp _ _ => true
  | EAndOr AND _ subs => expr_is_normalized_and subs
  | EAndOr OR _ subs =>
      match expr_get_unique_symbol e with
      | Some _ => true
      | None =>
          forallb (fun sub =>
            bool_decide (is_Some (expr_get_unique_symbol sub))
            || match sub with
               | EAndOr _ _ ps => expr_is_normalized_and ps
               | _ => false
               end) subs
      end
  | EBoolean _ => true
  | ECondition _ _ => false
  end.

(** ** Evaluation

    [flow s] is the value of the field of symbol [s] in the microflow and
    [lookup_port] the number of a port, when there is one by that name. *)
Section Evaluate.
Context (flow : expr_symbol -> Z) (lookup_port : string -> option Z).

Definition expr_evaluate_cmp (c : expr_cmp) : bool :=
  let s := symbol c in
  if negb (width s =? 0) then
    let n := 8 * n_bytes s in
    let v := Z.land (uwrap n (flow s)) (uwrap n (mask c)) in
    expr_relop_test (relop c) (memcmp v (uwrap n (value c)))
  else
    let v := flow s in
    match lookup_port (cst_string c) with
    | None => false
    | Some cst =>
        expr_relop_test (relop c) (if v <? cst then -1 else Z.b2z (cst <? v))
    end.

Section EvaluateAndor.
Context (evaluate : expr -> bool).

Fixpoint expr_evaluate_andor (subs : list expr) (short_circuit : bool) : bool :=
  match subs with
  | [] => negb short_circuit
  | sub :: subs =>
      if Bool.eqb (evaluate sub) short_circuit then short_circuit
      else expr_evaluate_andor subs short_circuit
  end.
End EvaluateAndor.

Fixpoint expr_evaluate (e : expr) : bool :=
  match e with
  | ECmp _ c => expr_evaluate_cmp c
  | EAndOr AND _ subs => expr_evaluate_andor expr_evaluate subs false
  | EAndOr OR _ subs => expr_evaluate_andor expr_evaluate subs true
  | EBoolean b => b
  | ECondition n _ => if n then false else true
  end.

End Evaluate.

End Expr.
