(* ===== verification/ExprLemmas.v ===== *)
(** * Meaning of match expressions and the elementary constructions

    [denote] is the abstract specification of an expression: the predicate on
    microflows it stands for, given which ports reside on the chassis.  The
    lemmas relate the constructions that every pass uses ([expr_fix],
    [expr_combine], [expr_insert_andor], [expr_clone], [expr_not]) to it. *)
From stdpp Require Import base option list strings gmap.
From Stdlib Require Import ZArith Lia.
From S2P Require Import Prelude Subvalue Expr.
Import Subvalue Expr.

Local Open Scope Z_scope.

(** ** Induction on expressions *)

Section ExprInd.
Context (P : expr -> Prop).
Context (Hcmp : forall a c, P (ECmp a c)).
Context (Handor : forall t a subs, Forall P subs -> P (EAndOr t a subs)).
Context (Hboolean : forall b, P (EBoolean b)).
Context (Hcondition : forall n s, P (ECondition n s)).

Fixpoint expr_induction (e : expr) : P e :=
  match e with
  | ECmp a c => Hcmp a c
  | EAndOr t a subs =>
      Handor t a subs
        ((fix go (l : list expr) : Forall P l :=
            match l with
            | [] => Forall_nil_2 P
            | x :: l => Forall_cons_2 P x l (expr_induction x) (go l)
            end) subs)
  | EBoolean b => Hboolean b
  | ECondition n s => Hcondition n s
  end.
End ExprInd.

(** ** Specification *)

(** [P] holds of all comparisons of the expression. *)
Fixpoint all_cmps (P : expr_cmp -> Prop) (e : expr) : Prop :=
  match e with
  | ECmp _ c => P c
  | EAndOr _ _ subs => foldr (fun sub r => all_cmps P sub /\ r) True subs
  | _ => True
  end.

Lemma foldr_and_Forall {A} (P : A -> Prop) l :
  foldr (fun x r => P x /\ r) True l <-> Forall P l.
Proof. induction l; cbn; rewrite ?Forall_nil, ?Forall_cons; tauto. Qed.

Lemma all_cmps_andor P t a subs :
  all_cmps P (EAndOr t a subs) <-> Forall (all_cmps P) subs.
Proof. apply foldr_and_Forall. Qed.

Lemma all_cmps_impl (P Q : expr_cmp -> Prop) e :
  (forall c, P c -> Q c) -> all_cmps P e -> all_cmps Q e.
Proof.
  intros HPQ. induction e as [a c|t a subs IH|b|n s] using expr_induction; cbn; [auto | | done ..].
  rewrite !foldr_and_Forall. intros H. induction IH; inversion H; auto.
Qed.

Section Denote.
Context (flow : expr_symbol -> Z) (lookup_port : string -> option Z).
Context (is_chassis_resident : string -> bool).

Fixpoint denote (e : expr) : bool :=
  match e with
  | ECmp _ c => expr_evaluate_cmp flow lookup_port c
  | EAndOr AND _ subs => forallb denote subs
  | EAndOr OR _ subs => existsb denote subs
  | EBoolean b => b
  | ECondition n s => xorb (is_chassis_resident s) n
  end.

(** The meaning of a node of type [t] with the given children. *)
Definition denote_subs (t : andor) (subs : list expr) : bool :=
  match t with AND => forallb denote subs | OR => existsb denote subs end.

Definition denote_op (t : andor) : bool -> bool -> bool :=
  match t with AND => andb | OR => orb end.

Lemma denote_andor t a subs : denote (EAndOr t a subs) = denote_subs t subs.
Proof. by destruct t. Qed.

Lemma denote_subs_nil t : denote_subs t [] = bool_decide (t = AND).
Proof. by destruct t. Qed.

Lemma denote_subs_cons t e subs :
  denote_subs t (e :: subs) = denote_op t (denote e) (denote_subs t subs).
Proof. by destruct t. Qed.

Lemma denote_subs_app t l k :
  denote_subs t (l ++ k) = denote_op t (denote_subs t l) (denote_subs t k).
Proof. destruct t; [apply forallb_app | apply existsb_app]. Qed.

Lemma denote_subs_singleton t e : denote_subs t [e] = denote e.
Proof. destruct t; cbn; by rewrite ?andb_true_r, ?orb_false_r. Qed.

Lemma denote_subs_perm t l k : l ≡ₚ k -> denote_subs t l = denote_subs t k.
Proof.
  induction 1; rewrite ?denote_subs_cons; [done | by f_equal | | congruence].
  destruct t; cbn; destruct (denote x), (denote y); done.
Qed.

Lemma denote_op_comm t x y : denote_op t x y = denote_op t y x.
Proof. by destruct t, x, y. Qed.

Lemma denote_op_assoc t x y z :
  denote_op t x (denote_op t y z) = denote_op t (denote_op t x y) z.
Proof. by destruct t, x, y, z. Qed.

(** ** Constructions *)

Lemma denote_insert_andor t e : denote_subs t (expr_insert_andor t e) = denote e.
Proof.
  destruct e as [| t' a subs | |]; cbn [expr_insert_andor];
    try apply denote_subs_singleton.
  destruct (decide (t' = t)) as [->|]; [by rewrite denote_andor |].
  apply denote_subs_singleton.
Qed.

Lemma denote_splice t f subs subs' :
  splice t f subs = Some subs' ->
  Forall (fun e => forall e', f e = Some e' -> denote e' = denote e) subs ->
  denote_subs t subs' = denote_subs t subs.
Proof.
  intros Hs Hf. revert subs' Hs.
  induction Hf as [|e subs He _ IH]; intros subs' Hs; cbn [splice] in Hs.
  { by simplify_eq. }
  destruct (f e) as [new|] eqn:Hfe; [cbn in Hs | done].
  destruct (splice t f subs) as [rest|] eqn:Hr; [cbn in Hs | done].
  simplify_eq. rewrite denote_subs_app, denote_insert_andor, denote_subs_cons.
  rewrite (IH rest eq_refl). by rewrite (He new).
Qed.

Lemma denote_fix_subs t subs :
  let short_circuit := negb (bool_decide (t = AND)) in
  match fix_subs subs short_circuit with
  | None => denote_subs t subs = short_circuit
  | Some subs' => denote_subs t subs' = denote_subs t subs
  end.
Proof.
  intros sc. subst sc. induction subs as [|e subs IH]; [done |].
  rewrite denote_subs_cons. cbn [fix_subs].
  destruct e as [| | b |];
    try (destruct (fix_subs _ _); cbn [mbind option_bind];
         [rewrite denote_subs_cons; by f_equal | rewrite IH; by destruct t, (denote _)]).
  destruct t, b; cbn in *; by destruct (fix_subs _ _); cbn in *.
Qed.

Lemma denote_fix_andor t a subs :
  denote (expr_fix_andor t a subs (negb (bool_decide (t = AND)))) = denote_subs t subs.
Proof.
  pose proof (denote_fix_subs t subs) as H. cbv zeta in H. unfold expr_fix_andor.
  destruct (fix_subs _ _) as [[|e [|e' l]]|].
  - rewrite <- H. by destruct t.
  - by rewrite <- H, denote_subs_singleton.
  - rewrite <- H. apply denote_andor.
  - by rewrite H.
Qed.

(** [expr_fix] keeps the meaning of every expression. *)
Lemma denote_fix e : denote (expr_fix e) = denote e.
Proof.
  destruct e as [|t a subs| |]; [done | | done ..]. rewrite denote_andor.
  rewrite <- (denote_fix_andor t a subs). by destruct t.
Qed.

(** The meaning of a possibly null operand: the identity of the operation. *)
Definition denote_opt (t : andor) (e : option expr) : bool :=
  match e with Some e => denote e | None => bool_decide (t = AND) end.

Lemma denote_combine t a b :
  denote_opt t (expr_combine t a b) = denote_op t (denote_opt t a) (denote_opt t b).
Proof.
  destruct a as [a|], b as [b|]; cbn [expr_combine denote_opt].
  2: { destruct t; cbn; by rewrite ?andb_true_r, ?orb_false_r. }
  2: { by destruct t. }
  2: { by destruct t. }
  destruct a as [?|ta ? asubs|?|?], b as [?|tb ? bsubs|?|?]; repeat case_decide; subst;
    cbn [denote_opt]; rewrite ?denote_andor, ?denote_subs_app, ?denote_subs_cons,
      ?denote_subs_nil; rewrite ?denote_andor; try done;
    repeat match goal with
    | |- context [denote ?e] => destruct (denote e)
    | |- context [denote_subs ?t ?l] => destruct (denote_subs t l)
    end; by destruct t.
Qed.

Lemma denote_clone e : denote (expr_clone e) = denote e.
Proof.
  induction e as [|t a subs IH| |] using expr_induction; [done | | done ..].
  cbn [expr_clone]. rewrite !denote_andor.
  induction IH as [|e subs He _ IH]; [done |]. cbn [map].
  by rewrite !denote_subs_cons, He, IH.
Qed.

End Denote.

(** [expr_evaluate] evaluates the specification, with every condition on a
    chassis taken to hold. *)
Lemma evaluate_denote flow lookup_port e :
  expr_evaluate flow lookup_port e = denote flow lookup_port (fun _ => true) e.
Proof.
  assert (forall t subs f, Forall (fun e => f e = denote flow lookup_port (fun _ => true) e) subs ->
    expr_evaluate_andor f subs (negb (bool_decide (t = AND)))
    = denote_subs flow lookup_port (fun _ => true) t subs) as Hsubs.
  { intros t subs f. induction 1 as [|x subs Hx _ IH]; [by destruct t |].
    cbn [expr_evaluate_andor]. rewrite Hx, IH, denote_subs_cons. by destruct t, (denote _ _ _ x). }
  induction e as [|t a subs IH|b|n s] using expr_induction; [done | | done |].
  - rewrite denote_andor. rewrite <- (Hsubs t subs (expr_evaluate flow lookup_port)) by done.
    by destruct t.
  - by destruct n.
Qed.

(** ** Negation *)

Lemma relop_test_invert r d :
  expr_relop_test (expr_relop_invert r) d = negb (expr_relop_test r d).
Proof. destruct r; cbn; lia. Qed.

Lemma memcmp_turn a b : memcmp b a = - memcmp a b.
Proof. unfold memcmp. rewrite (Z.compare_antisym a b). by destruct (a ?= b). Qed.

(** A string comparison whose port exists. *)
Definition port_known (lookup_port : string -> option Z) (c : expr_cmp) : Prop :=
  width (symbol c) = 0 -> is_Some (lookup_port (cst_string c)).

Lemma denote_not flow lookup_port icr e :
  all_cmps (port_known lookup_port) e ->
  denote flow lookup_port icr (expr_not e) = negb (denote flow lookup_port icr e).
Proof.
  induction e as [a c|t a subs IH|b|n s] using expr_induction.
  - cbn. unfold port_known, expr_evaluate_cmp. cbn. intros H.
    destruct (Z.eqb_spec (width (symbol c)) 0) as [Hw|]; cbn [negb].
    + destruct (H Hw) as [p ->]. apply relop_test_invert.
    + apply relop_test_invert.
  - rewrite all_cmps_andor. intros H. cbn [expr_not]. rewrite !denote_andor.
    induction IH as [|e subs He _ IH]; [by destruct t |].
    apply Forall_cons in H as [H1 H2]. cbn [map].
    rewrite !denote_subs_cons, He, IH by done. destruct t; cbn;
      by destruct (denote _ _ _ e), (forallb _ _) || by destruct (denote _ _ _ e), (existsb _ _).
  - done.
  - intros _. cbn. by destruct n, (icr s).
Qed.

(** ** Shapes *)

(** A tree of ANDs and ORs that honours the invariants of expr.h, over
    comparisons that satisfy [P] and, when [conds], conditions; there are no
    boolean constants in it. *)
Section Tree.
Context (P : expr_cmp -> Prop) (conds : bool).

Fixpoint tree (e : expr) : Prop :=
  match e with
  | ECmp _ c => P c
  | EAndOr t _ subs =>
      (2 <= length subs)%nat
      /\ foldr (fun sub r => (type_of sub <> andor_type t /\ tree sub) /\ r) True subs
  | EBoolean _ => False
  | ECondition _ _ => conds = true
  end.

(** A constant or a tree. *)
Definition proper (e : expr) : Prop :=
  match e with EBoolean _ => True | _ => tree e end.

(** A subexpression for a node of type [t]. *)
Definition operand (t : andor) (e : expr) : Prop :=
  type_of e <> andor_type t /\ tree e.

Lemma tree_andor t a subs :
  tree (EAndOr t a subs) <-> (2 <= length subs)%nat /\ Forall (operand t) subs.
Proof. cbn [tree]. by rewrite foldr_and_Forall. Qed.

Lemma tree_proper e : tree e -> proper e.
Proof. by destruct e. Qed.

(** A subexpression that [expr_fix] may still remove. *)
Definition operand_or_boolean (t : andor) (e : expr) : Prop :=
  type_of e <> andor_type t /\ proper e.

Lemma insert_andor_operands t e :
  proper e -> Forall (operand_or_boolean t) (expr_insert_andor t e).
Proof.
  unfold operand_or_boolean. destruct e as [a c|t' a subs|b|n s]; cbn [expr_insert_andor].
  - intros H. apply Forall_singleton. by destruct t.
  - intros H. case_decide as Ht.
    + subst t'. apply (tree_andor t a) in H as [_ H]. eapply Forall_impl; [done |].
      intros e [? ?]. split; [done | by apply tree_proper].
    + apply Forall_singleton. split; [by destruct t, t' | done].
  - intros H. apply Forall_singleton. by destruct t.
  - intros H. apply Forall_singleton. by destruct t.
Qed.

Lemma fix_subs_operands t subs short_circuit subs' :
  Forall (operand_or_boolean t) subs -> fix_subs subs short_circuit = Some subs' ->
  Forall (operand t) subs'.
Proof.
  intros H. revert subs'. induction H as [|e subs [Ht He] _ IH]; intros subs' Hf.
  { cbn in Hf. simplify_eq. constructor. }
  cbn [fix_subs] in Hf.
  destruct e as [| | b |];
    try (destruct (fix_subs subs _) as [rest|]; cbn in Hf; simplify_eq;
         constructor; [done | by apply IH]).
  case_match; [done | by apply IH].
Qed.

Lemma fix_proper t a subs :
  Forall (operand_or_boolean t) subs -> proper (expr_fix (EAndOr t a subs)).
Proof.
  intros H.
  assert (forall sc, proper (expr_fix_andor t a subs sc)) as Hfix
    by (intros sc; unfold expr_fix_andor;
        destruct (fix_subs subs sc) as [subs'|] eqn:Hs; [|done];
        apply (fix_subs_operands _ _ _ _ H) in Hs;
        destruct subs' as [|e [|e' l]]; [done | by apply Forall_cons in Hs as [[_ ?%tree_proper] _] |];
        apply tree_andor; split; [cbn; lia | done]).
  by destruct t; apply Hfix.
Qed.

Lemma splice_proper t f subs subs' :
  splice t f subs = Some subs' ->
  Forall (fun e => forall e', f e = Some e' -> proper e') subs ->
  Forall (operand_or_boolean t) subs'.
Proof.
  intros Hs Hf. revert subs' Hs.
  induction Hf as [|e subs He _ IH]; intros subs' Hs; cbn [splice] in Hs.
  { by simplify_eq. }
  destruct (f e) as [new|] eqn:Hfe; [cbn in Hs | done].
  destruct (splice t f subs) as [rest|] eqn:Hr; [cbn in Hs | done].
  simplify_eq. apply Forall_app. split; [|by apply IH].
  by apply insert_andor_operands, He.
Qed.

Lemma splice_total t f subs :
  Forall (fun e => is_Some (f e)) subs -> is_Some (splice t f subs).
Proof.
  induction 1 as [|e subs [new He] _ [rest IH]]; cbn [splice]; [by eexists |].
  rewrite He, IH. by eexists.
Qed.
End Tree.

Lemma tree_impl (P Q : expr_cmp -> Prop) (c d : bool) e :
  (forall c, P c -> Q c) -> (c = true -> d = true) -> tree P c e -> tree Q d e.
Proof.
  intros HPQ Hcd. induction e as [a c'|t a subs IH|b|n s] using expr_induction; cbn [tree];
    [by apply HPQ | | done | done].
  intros [Hl H]. split; [done |]. clear Hl.
  induction IH as [|e subs He _ IH]; [done |]. cbn in *.
  destruct H as [[H1 H2] H3]. auto.
Qed.

(** The shape implies what [expr_honors_invariants] checks. *)
Lemma tree_honors_invariants P conds e :
  (forall c, P c -> width (symbol c) <> 0 -> Z.ldiff (value c) (mask c) = 0) ->
  tree P conds e -> expr_honors_invariants e = true.
Proof.
  intros HP. induction e as [a c|t a subs IH|b|n s] using expr_induction; [| | done | done].
  - cbn. intros H. destruct (Z.eqb_spec (width (symbol c)) 0); cbn [negb]; [done |].
    by rewrite HP.
  - rewrite tree_andor. intros [Hl H]. cbn [expr_honors_invariants].
    destruct (Nat.ltb_spec (length subs) 2) as [|_]; [lia |]. clear Hl.
    induction H as [|e subs [Ht He] _ IHs]; [done |].
    apply Forall_cons in IH as [IH1 IH2]. cbn [forallb].
    rewrite IH1, IHs, andb_true_r by done. by rewrite bool_decide_eq_false_2.
Qed.

(** ** Comparisons and disjunctions of them *)

Definition is_cmp (P : expr_cmp -> Prop) (e : expr) : Prop :=
  match e with ECmp _ c => P c | _ => False end.

(** A comparison or an OR of at least two of them. *)
Definition disjunction (P : expr_cmp -> Prop) (e : expr) : Prop :=
  match e with
  | ECmp _ c => P c
  | EAndOr OR _ subs => (2 <= length subs)%nat /\ Forall (is_cmp P) subs
  | _ => False
  end.

Lemma is_cmp_operand P conds t e : is_cmp P e -> operand P conds t e.
Proof. destruct e; [|done ..]. intros H. split; [by destruct t | done]. Qed.

Lemma disjunction_tree P conds e : disjunction P e -> tree P conds e.
Proof.
  destruct e as [| [] a subs | |]; [done .. | | done | done].
  intros [Hl H]. apply tree_andor. split; [done |].
  eapply Forall_impl; [done |]. intros. by apply is_cmp_operand.
Qed.

Lemma combine_disjunction P new a c :
  match new with Some e => disjunction P e | None => True end -> P c ->
  exists e, expr_combine OR new (Some (ECmp a c)) = Some e /\ disjunction P e.
Proof.
  intros Hnew Hc. destruct new as [[a' c'|[] a' subs|b|n s]|]; cbn in *; try done.
  - eexists. split; [done |]. split; [done |]. by repeat constructor.
  - destruct Hnew as [Hl H]. eexists. split; [done |]. split.
    + rewrite length_app. lia.
    + apply Forall_app. split; [done | by repeat constructor].
  - by eexists.
Qed.

(** Well-formed symbols and comparisons: the constant fits the width of the
    symbol, which fits its field, and has no 1-bit outside the mask. *)
Definition wf_symbol (s : expr_symbol) : Prop := 0 <= width s <= 8 * n_bytes s.

Record wf_match (s : expr_symbol) (v m : Z) : Prop := {
  wm_value : 0 <= v;
  wm_mask : 0 <= m < 2 ^ width s;
  wm_subset n : 0 <= n -> Z.testbit v n = true -> Z.testbit m n = true;
}.

Record wf_cmp (c : expr_cmp) : Prop := {
  wc_symbol : wf_symbol (symbol c);
  wc_match : width (symbol c) <> 0 -> wf_match (symbol c) (value c) (mask c);
}.

(** The comparisons that the passes after [expr_simplify] work on: equality
    tests whose mask, for a numeric symbol, is not zero. *)
Record simple_cmp (c : expr_cmp) : Prop := {
  sc_wf : wf_cmp c;
  sc_relop : relop c = EXPR_R_EQ;
  sc_mask : width (symbol c) <> 0 -> mask c <> 0;
}.

Lemma subset_ldiff v m :
  (forall n, 0 <= n -> Z.testbit v n = true -> Z.testbit m n = true) <-> Z.ldiff v m = 0.
Proof.
  split.
  - intros H. apply Z.bits_inj'. intros n Hn. rewrite Z.ldiff_spec, Z.bits_0.
    specialize (H n Hn). destruct (Z.testbit v n); [by rewrite H | done].
  - intros H n Hn Hv. apply (f_equal (fun x => Z.testbit x n)) in H.
    rewrite Z.ldiff_spec, Z.bits_0, Hv in H. by destruct (Z.testbit m n).
Qed.

Lemma simple_tree_honors conds e :
  tree simple_cmp conds e -> expr_honors_invariants e = true.
Proof.
  apply tree_honors_invariants. intros c [[_ Hm] _ _] Hw.
  by apply subset_ldiff, Hm.
Qed.

(** The value of the field of symbol [s], as an integer of its width in bytes. *)
Definition field_value (flow : expr_symbol -> Z) (s : expr_symbol) : Z :=
  uwrap (8 * n_bytes s) (flow s).

Lemma field_value_nonneg flow s : wf_symbol s -> 0 <= field_value flow s.
Proof. intros H. apply uwrap_range. unfold wf_symbol in H. lia. Qed.

Lemma wf_match_bounds s v m : wf_symbol s -> wf_match s v m -> 0 <= v < 2 ^ width s.
Proof.
  intros Hs [Hv Hm Hsub]. split; [done |].
  assert (v = Z.land v m) as ->.
  { apply Z.bits_inj'. intros n Hn. rewrite Z.land_spec. specialize (Hsub n Hn).
    destruct (Z.testbit v n); [|done]. by rewrite Hsub. }
  apply Z.le_lt_trans with m; [|lia].
  apply Z.ldiff_le; [lia |]. apply Z.bits_inj'. intros n Hn.
  rewrite Z.ldiff_spec, Z.land_spec, Z.bits_0. by destruct (Z.testbit v n), (Z.testbit m n).
Qed.

Lemma eval_numeric flow lookup_port c :
  wf_cmp c -> width (symbol c) <> 0 ->
  expr_evaluate_cmp flow lookup_port c
  = expr_relop_test (relop c)
      (memcmp (Z.land (field_value flow (symbol c)) (mask c)) (value c)).
Proof.
  intros [Hs Hm] Hw. specialize (Hm Hw). unfold expr_evaluate_cmp.
  destruct (Z.eqb_spec (width (symbol c)) 0) as [|_]; [done | cbn [negb]].
  pose proof (wf_match_bounds _ _ _ Hs Hm). destruct Hm as [_ Hm _].
  unfold wf_symbol in Hs.
  assert (2 ^ width (symbol c) <= 2 ^ (8 * n_bytes (symbol c)))
    by (apply Z.pow_le_mono_r; lia).
  by rewrite (uwrap_id _ (mask c)), (uwrap_id _ (value c)) by lia.
Qed.

Lemma memcmp_eqb a b : (memcmp a b =? 0) = (a =? b).
Proof. unfold memcmp. destruct (Z.compare_spec a b); cbn; lia. Qed.

Lemma memcmp_ltb a b : (memcmp a b <? 0) = (a <? b).
Proof. unfold memcmp. destruct (Z.compare_spec a b); cbn; lia. Qed.

Lemma memcmp_gtb a b : (0 <? memcmp a b) = (b <? a).
Proof. unfold memcmp. destruct (Z.compare_spec a b); cbn; lia. Qed.

(** Whether a field value matches a value and mask. *)
Definition matches (x v m : Z) : bool := Z.land x m =? v.

Lemma eval_eq flow lookup_port c :
  wf_cmp c -> width (symbol c) <> 0 -> relop c = EXPR_R_EQ ->
  expr_evaluate_cmp flow lookup_port c
  = matches (field_value flow (symbol c)) (value c) (mask c).
Proof. intros Hc Hw Hr. rewrite eval_numeric, Hr by done. apply memcmp_eqb. Qed.

Lemma matches_bits x v m :
  matches x v m = true
  <-> forall n, 0 <= n -> Z.testbit x n && Z.testbit m n = Z.testbit v n.
Proof.
  unfold matches. rewrite Z.eqb_eq. split.
  - intros <- n Hn. by rewrite Z.land_spec.
  - intros H. apply Z.bits_inj'. intros n Hn. rewrite Z.land_spec. by apply H.
Qed.
