(* ===== verification/ExprSimplify.v ===== *)
(** * Simplification and conditions

    [expr_simplify] turns every comparison into equality tests.  An inequality
    becomes a disjunction over the position of the highest bit in which the
    field differs from the constant; the proofs follow that argument.
    [expr_evaluate_condition] replaces the conditions by their values. *)
From stdpp Require Import base option list strings gmap.
From Stdlib Require Import ZArith Lia.
From S2P Require Import Prelude BitwiseProofs Subvalue Expr ExprLemmas.
Import Subvalue Expr.

Local Open Scope Z_scope.

(** ** The highest differing bit *)

Lemma highest_difference a b :
  0 <= a -> 0 <= b -> a <> b ->
  exists k, 0 <= k /\ Z.testbit a k <> Z.testbit b k
            /\ forall n, k < n -> Z.testbit a n = Z.testbit b n.
Proof.
  intros Ha Hb Hne. set (x := Z.lxor a b).
  assert (0 < x) as Hx.
  { assert (0 <= x) by (by apply Z.lxor_nonneg). assert (x <> 0); [|lia].
    unfold x. by rewrite Z.lxor_eq_0_iff. }
  exists (Z.log2 x). split; [apply Z.log2_nonneg |]. split.
  - pose proof (Z.bit_log2 x Hx) as H. unfold x in H at 1. rewrite Z.lxor_spec in H.
    by destruct (Z.testbit a _), (Z.testbit b _).
  - intros n Hn. pose proof (Z.bits_above_log2 x n ltac:(lia) Hn) as H.
    unfold x in H. rewrite Z.lxor_spec in H.
    by destruct (Z.testbit a n), (Z.testbit b n).
Qed.

(** Integers that agree above bit [k] are ordered by that bit. *)
Lemma bit_order a b k :
  0 <= k -> Z.testbit a k = false -> Z.testbit b k = true ->
  (forall n, k < n -> Z.testbit a n = Z.testbit b n) -> a < b.
Proof.
  intros Hk Hak Hbk H.
  assert (a / 2 ^ (k + 1) = b / 2 ^ (k + 1)) as Hhigh.
  { rewrite <- !Z.shiftr_div_pow2 by lia. apply Z.bits_inj'. intros n Hn.
    rewrite !Z.shiftr_spec by lia. apply H. lia. }
  rewrite Z.testbit_true in Hbk by lia.
  rewrite Z.testbit_false in Hak by lia.
  rewrite Z.pow_add_r, <- !Z.div_div in Hhigh by lia.
  change (2 ^ 1) with 2 in Hhigh.
  set (p := 2 ^ k) in *. assert (0 < p) by (unfold p; lia).
  assert (a / p < b / p) by (clear - Hhigh Hbk Hak; div_lia).
  apply Z.nle_gt. intros Hle. apply (Z.div_le_mono _ _ p) in Hle; lia.
Qed.

(** [x] under the mask [m] and [v] differ in bit [k] and agree above it. *)
Record differs_at (x v m k : Z) : Prop := {
  da_mask : Z.testbit m k = true;
  da_bit : Z.testbit x k = negb (Z.testbit v k);
  da_above n : k < n -> Z.testbit x n && Z.testbit m n = Z.testbit v n;
}.

Section Differ.
Context (s : expr_symbol) (x v m : Z).
Context (Hs : wf_symbol s) (Hx : 0 <= x) (Hvm : wf_match s v m).

Lemma mask_bit_range k : 0 <= k -> Z.testbit m k = true -> k < width s.
Proof using Hvm Hs.
  intros Hk Hb. destruct Hvm as [_ Hm _]. unfold wf_symbol in Hs.
  apply Z.nle_gt. intros Hle. by rewrite (testbit_high m (width s)) in Hb by lia.
Qed.

Lemma value_bit k : 0 <= k -> Z.testbit v k = true -> Z.testbit m k = true.
Proof using Hvm. apply Hvm. Qed.

Lemma differs_exists :
  Z.land x m <> v -> exists k, 0 <= k < width s /\ differs_at x v m k.
Proof using Hs Hx Hvm.
  intros Hne. destruct Hvm as [Hv Hm _].
  destruct (highest_difference (Z.land x m) v) as (k & Hk & Hkb & Habove);
    [apply Z.land_nonneg; lia | done | done |].
  rewrite Z.land_spec in Hkb.
  assert (Z.testbit m k = true) as Hmk.
  { destruct (Z.testbit m k) eqn:E; [done |]. rewrite andb_false_r in Hkb.
    destruct (Z.testbit v k) eqn:Ev; [|done]. by rewrite (value_bit k) in E. }
  exists k. split; [split; [done | by apply mask_bit_range] |]. split; [done | |].
  - rewrite Hmk, andb_true_r in Hkb. by destruct (Z.testbit x k), (Z.testbit v k).
  - intros n Hn. rewrite <- Habove by done. by rewrite Z.land_spec.
Qed.

Lemma differs_order k :
  0 <= k -> differs_at x v m k ->
  if Z.testbit v k then Z.land x m < v else v < Z.land x m.
Proof using.
  intros Hk [Hmk Hb Habove]. destruct (Z.testbit v k) eqn:E.
  - apply (bit_order _ _ k); [done | | done |].
    + by rewrite Z.land_spec, Hb.
    + intros n Hn. rewrite Z.land_spec. by apply Habove.
  - apply (bit_order _ _ k); [done | done | |].
    + by rewrite Z.land_spec, Hb, Hmk.
    + intros n Hn. rewrite Z.land_spec. by rewrite Habove.
Qed.

(** The disjunct for bit [k]: the bits of mask and value below [k] are removed,
    and bit [k] of the value is toggled. *)
Lemma differs_matches k v' m' :
  0 <= k -> Z.testbit m k = true ->
  (forall n, 0 <= n -> Z.testbit m' n = (k <=? n) && Z.testbit m n) ->
  (forall n, 0 <= n -> Z.testbit v' n = (k <=? n) && xorb (Z.testbit v n) (n =? k)) ->
  matches x v' m' = true <-> differs_at x v m k.
Proof using Hvm.
  intros Hk Hmk Hm' Hv'. rewrite matches_bits. split.
  - intros H. split; [done | |].
    + specialize (H k Hk). rewrite Hm', Hv', Z.leb_refl, Hmk, Z.eqb_refl in H by done.
      cbn in H. by rewrite andb_true_r, xorb_true_r in H.
    + intros n Hn. specialize (H n ltac:(lia)).
      rewrite Hm', Hv' in H by lia. replace (k <=? n) with true in H by lia.
      replace (n =? k) with false in H by lia. by rewrite xorb_false_r in H.
  - intros [_ Hb Habove] n Hn. rewrite Hm', Hv' by done.
    destruct (Z.lt_trichotomy n k) as [Hlt|[->|Hgt]].
    + replace (k <=? n) with false by lia. by rewrite andb_false_r.
    + rewrite Z.leb_refl, Z.eqb_refl, Hmk, Hb. cbn. by rewrite andb_true_r, xorb_true_r.
    + replace (k <=? n) with true by lia. replace (n =? k) with false by lia.
      cbn. rewrite xorb_false_r. by apply Habove.
Qed.

Lemma disjunct_wf k v' m' :
  0 <= k -> Z.testbit m k = true ->
  (forall n, 0 <= n -> Z.testbit m' n = (k <=? n) && Z.testbit m n) ->
  (forall n, 0 <= n -> Z.testbit v' n = (k <=? n) && xorb (Z.testbit v n) (n =? k)) ->
  0 <= v' -> 0 <= m' ->
  wf_match s v' m' /\ m' <> 0.
Proof using Hvm Hs.
  intros Hk Hmk Hm' Hv' H0v H0m. split; [split |].
  - done.
  - split; [done |]. destruct Hvm as [_ Hm _].
    apply Z.le_lt_trans with m; [|lia]. apply Z.ldiff_le; [lia |].
    apply Z.bits_inj'. intros n Hn. rewrite Z.ldiff_spec, Z.bits_0, Hm' by done.
    by destruct (k <=? n), (Z.testbit m n).
  - intros n Hn. rewrite Hv', Hm' by done. destruct (Z.eqb_spec n k) as [->|].
    + by rewrite Z.leb_refl, Hmk.
    + rewrite xorb_false_r. destruct (k <=? n); [|done]. cbn. by apply value_bit.
  - intros ->. specialize (Hm' k Hk). rewrite Z.bits_0, Z.leb_refl, Hmk in Hm'. done.
Qed.
End Differ.

(** ** Comparisons *)

(** A comparison that [expr_simplify] accepts.  The parser allows only [==] for
    string fields and only [==] and [!=] with a mask that is not that of a
    contiguous range of bits. *)
Record simplifiable (c : expr_cmp) : Prop := {
  sf_wf : wf_cmp c;
  sf_string : width (symbol c) = 0 -> relop c = EXPR_R_EQ;
  sf_range : width (symbol c) <> 0 -> relop c <> EXPR_R_EQ -> relop c <> EXPR_R_NE ->
    exists start n_bits, 0 <= start /\ 0 < n_bits /\ start + n_bits <= width (symbol c)
      /\ mask c = sv_range start n_bits;
}.

(** What an accumulated disjunction of comparisons over [s] means for the field
    value [x]: it holds when [Q] does. *)
Section Simplify.
Context (flow : expr_symbol -> Z) (lookup_port : string -> option Z).
Context (icr : string -> bool).
Context (c : expr_cmp) (Hc : wf_cmp c) (Hw : width (symbol c) <> 0).

Local Abbreviation w := (width (symbol c)).
Local Abbreviation x := (field_value flow (symbol c)).
Local Abbreviation denote := (denote flow lookup_port icr).
Local Abbreviation denote_opt := (denote_opt flow lookup_port icr).

(** A null pointer or a disjunction of simple comparisons. *)
Definition acc_ok (new : option expr) : Prop :=
  match new with Some e => disjunction simple_cmp e | None => True end.

Lemma add_disjunct new a k v' m' cs :
  acc_ok new -> 0 <= k -> Z.testbit (mask c) k = true ->
  (forall n, 0 <= n -> Z.testbit m' n = (k <=? n) && Z.testbit (mask c) n) ->
  (forall n, 0 <= n ->
     Z.testbit v' n = (k <=? n) && xorb (Z.testbit (value c) n) (n =? k)) ->
  0 <= v' -> 0 <= m' ->
  let d := {| symbol := symbol c; relop := EXPR_R_EQ; cst_string := cs;
              value := v'; mask := m' |} in
  let new' := expr_combine OR new (Some (ECmp a d)) in
  acc_ok new' /\ (denote_opt OR new' = true
    <-> denote_opt OR new = true \/ differs_at x (value c) (mask c) k).
Proof using Hc Hw.
  intros Hnew Hk Hmk Hm' Hv' H0v H0m d new'. destruct Hc as [Hs Hvm].
  specialize (Hvm Hw).
  destruct (disjunct_wf (symbol c) (value c) (mask c) Hs Hvm k v' m') as [Hwf Hnz]; [done .. |].
  assert (simple_cmp d) as Hd by (by split; [split | |]).
  destruct (combine_disjunction simple_cmp new a d) as (e & He & Hdis); [done .. |].
  split; [unfold new'; rewrite He; exact Hdis |].
  unfold new'. rewrite denote_combine. cbn [denote_op]. rewrite orb_true_iff.
  apply or_iff_compat_l. cbn [ExprLemmas.denote_opt ExprLemmas.denote].
  rewrite eval_eq by (done || apply Hd).
  by apply (differs_matches (symbol c) x (value c) (mask c)).
Qed.

(** The part of an integer of [w] bits from bit [r] on. *)
Lemma copy_above_testbit z r n :
  0 <= z < 2 ^ w -> 0 <= r <= w -> 0 <= n ->
  Z.testbit (sv_copy z 0 r (w - r)) n = (r <=? n) && Z.testbit z n.
Proof using Hw.
  intros Hz Hr Hn. rewrite sv_copy_testbit, Z.bits_0 by lia.
  destruct (Z.leb_spec r n); cbn [andb]; [|done].
  destruct (Z.ltb_spec n (r + (w - r))); [done |].
  symmetry. apply (testbit_high _ w); lia.
Qed.

Lemma add_ne_disjunct new r :
  acc_ok new -> 0 <= r < w -> Z.testbit (mask c) r = true ->
  let new' := expr_combine OR new
    (Some (ECmp None (cmp_eq (symbol c) (sv_toggle (sv_copy (value c) 0 r (w - r)) r)
                        (sv_copy (mask c) 0 r (w - r))))) in
  acc_ok new' /\ (denote_opt OR new' = true
    <-> denote_opt OR new = true \/ differs_at x (value c) (mask c) r).
Proof using Hc Hw.
  intros Hnew Hr Hmr. pose proof (wc_match c Hc Hw) as Hvm.
  pose proof (wf_match_bounds _ _ _ (wc_symbol c Hc) Hvm). destruct Hvm as [_ Hm _].
  apply add_disjunct; [done | lia | done | | | |].
  - intros n Hn. apply copy_above_testbit; lia.
  - intros n Hn. rewrite sv_toggle_testbit, copy_above_testbit by lia.
    destruct (Z.leb_spec r n); [done |]. by replace (n =? r) with false by lia.
  - apply sv_toggle_nonneg, sv_copy_nonneg; lia.
  - apply sv_copy_nonneg; lia.
Qed.

Lemma ne_from_spec fuel i new :
  0 <= i <= w -> w - i <= Z.of_nat fuel -> acc_ok new ->
  let r := simplify_ne_from fuel c i new in
  acc_ok r /\ (denote_opt OR r = true
    <-> denote_opt OR new = true
        \/ exists k, i <= k < w /\ differs_at x (value c) (mask c) k).
Proof using Hc Hw.
  revert i new. induction fuel as [|fuel IH]; intros i new Hi Hf Hnew.
  { cbn. split; [done |]. split; [tauto |]. intros [H|(k & Hk & _)]; [done | lia]. }
  cbn [simplify_ne_from].
  destruct (sv_scan_spec (mask c) true i w) as (Hr & Hlow & Hat); [lia |].
  set (r := sv_scan _ _ _ _) in *. clearbody r.
  destruct (Z.ltb_spec r w) as [Hlt|Hge].
  - destruct (add_ne_disjunct new r) as [Hacc Hden]; [done | lia | by apply Hat |].
    edestruct (IH (r + 1)) as [Hacc' Hden']; [lia | lia | exact Hacc |].
    split; [exact Hacc' |]. etransitivity; [exact Hden' |]. clear Hden'.
    etransitivity; [apply or_iff_compat_r, Hden |]. split.
    + intros [[H|H]|(k & Hk & H)]; [tauto | right; exists r; split; [lia | done] |].
      right. exists k. split; [lia | done].
    + intros [H|(k & Hk & H)]; [tauto |].
      destruct (Z.lt_trichotomy k r) as [Hkr|[->|Hkr]]; [| tauto |].
      * destruct H as [H _ _]. by rewrite Hlow in H by lia.
      * right. exists k. split; [lia | done].
  - split; [done |]. split; [tauto |]. intros [H|(k & Hk & [H _ _])]; [done |].
    by rewrite Hlow in H by lia.
Qed.

(** [expr_simplify_ne] is the negation of the equality test. *)
Lemma simplify_ne_spec :
  proper simple_cmp true (expr_simplify_ne c)
  /\ denote (expr_simplify_ne c) = negb (matches x (value c) (mask c)).
Proof using Hc Hw.
  pose proof (wc_symbol c Hc) as Hs. pose proof (wc_match c Hc Hw) as Hvm.
  unfold wf_symbol in Hs.
  destruct (ne_from_spec (Z.to_nat w) 0 None) as [Hacc Hden]; [lia | lia | done |].
  unfold expr_simplify_ne. set (r := simplify_ne_from _ _ _ _) in *.
  assert (denote_opt OR r = negb (matches x (value c) (mask c))) as Heq.
  { apply eq_true_iff_eq. rewrite Hden. unfold matches. rewrite negb_true_iff, Z.eqb_neq.
    split.
    - intros [H|(k & Hk & Hd)]; [done |].
      pose proof (differs_order x (value c) (mask c) k ltac:(lia) Hd) as Ho.
      destruct (Z.testbit (value c) k); lia.
    - intros Hne. right. apply (differs_exists (symbol c)); try done.
      by apply field_value_nonneg. }
  clearbody r. destruct r as [e|]; [|done].
  split; [by apply tree_proper, disjunction_tree | done].
Qed.
(** *** Relational operators on a contiguous range of bits *)

Section Range.
Context (start n_bits : Z).
Context (Hstart : 0 <= start) (Hn_bits : 0 < n_bits) (Hend : start + n_bits <= w).
Context (Hmask : mask c = sv_range start n_bits).

Local Abbreviation end_ := (start + n_bits).

Lemma mask_testbit n :
  0 <= n -> Z.testbit (mask c) n = (start <=? n) && (n <? end_).
Proof using Hc Hw Hmask Hstart Hn_bits Hend. intros Hn. rewrite Hmask. apply sv_range_testbit; lia. Qed.

Lemma find_range : find_bitwise_range (mask c) w = (start, n_bits).
Proof using Hc Hw Hmask Hstart Hn_bits Hend.
  unfold find_bitwise_range.
  assert (sv_scan (mask c) true 0 w = start) as ->.
  { apply sv_scan_is; [lia | |]; intros; rewrite mask_testbit; cbn; lia. }
  replace (start <? w) with true by lia.
  assert (sv_scan (mask c) false start w = end_) as ->.
  { apply sv_scan_is; [lia | |]; intros; rewrite mask_testbit; cbn; lia. }
  assert (end_ < w -> sv_scan (mask c) true end_ w = w) as Hrest.
  { intros. apply sv_scan_is; [lia | |]; intros; [rewrite mask_testbit; cbn |]; lia. }
  replace (_ || _) with true by lia. f_equal. lia.
Qed.

Lemma add_relational_disjunct new a z :
  acc_ok new -> start <= z < end_ ->
  let new' := expr_combine OR new
    (Some (ECmp a (as_eq c (sv_zero (sv_toggle (value c) z) start (z - start))
                     (sv_zero (mask c) start (z - start))))) in
  acc_ok new' /\ (denote_opt OR new' = true
    <-> denote_opt OR new = true \/ differs_at x (value c) (mask c) z).
Proof using Hc Hw Hmask Hstart Hn_bits Hend.
  intros Hnew Hz. pose proof (wc_match c Hc Hw) as [Hv Hm Hsub].
  apply add_disjunct; [done | lia | rewrite mask_testbit; lia | | | |].
  - intros n Hn. rewrite sv_zero_testbit, mask_testbit by lia. lia.
  - intros n Hn. rewrite sv_zero_testbit, sv_toggle_testbit by lia.
    specialize (Hsub n Hn). rewrite mask_testbit in Hsub by lia.
    destruct (Z.leb_spec z n).
    + replace (negb _) with true by lia. by rewrite andb_true_r.
    + replace (n =? z) with false by lia. rewrite xorb_false_r.
      destruct (Z.testbit (value c) n); [|done]. specialize (Hsub eq_refl). lia.
  - by apply sv_zero_nonneg, sv_toggle_nonneg.
  - apply sv_zero_nonneg. lia.
Qed.

Lemma relational_from_spec fuel a lt z new :
  start <= z <= end_ -> (z < end_ -> Z.testbit (value c) z = lt) ->
  end_ - z <= Z.of_nat fuel -> acc_ok new ->
  let r := simplify_relational_from fuel a c lt start end_ z new in
  acc_ok r /\ (denote_opt OR r = true
    <-> denote_opt OR new = true
        \/ exists k, z <= k < end_ /\ Z.testbit (value c) k = lt
                     /\ differs_at x (value c) (mask c) k).
Proof using Hc Hw Hmask Hstart Hn_bits Hend.
  revert z new. induction fuel as [|fuel IH]; intros z new Hz Hzb Hf Hnew.
  { cbn. split; [done |]. split; [tauto |]. intros [H|(k & Hk & _)]; [done | lia]. }
  cbn [simplify_relational_from]. destruct (Z.ltb_spec z end_) as [Hlt|Hge].
  - destruct (add_relational_disjunct new a z) as [Hacc Hden]; [done | lia |].
    destruct (sv_scan_spec (value c) lt (z + 1) end_) as (Hr & Hlow & Hat); [lia |].
    edestruct (IH (sv_scan (value c) lt (z + 1) end_)) as [Hacc' Hden'];
      [lia | exact Hat | lia | exact Hacc |].
    split; [exact Hacc' |]. etransitivity; [exact Hden' |]. clear Hden'.
    etransitivity; [apply or_iff_compat_r, Hden |]. split.
    + intros [[H|H]|(k & Hk & H)]; [tauto | right; exists z; split_and!; [lia .. | by apply Hzb | done] |].
      right. exists k. split; [lia | done].
    + intros [H|(k & Hk & Hkb & H)]; [tauto |].
      destruct (decide (k = z)) as [->|]; [tauto |]. right. exists k.
      split; [|done]. split; [|lia]. apply Z.nlt_ge. intros Hks.
      rewrite Hlow in Hkb by lia. by destruct lt.
  - split; [done |]. split; [tauto |]. intros [H|(k & Hk & _)]; [done | lia].
Qed.

(** The strict comparison that [lt] stands for holds when the highest differing
    bit of the constant equals [lt]. *)
Lemma strict_differs (lt : bool) :
  (if lt then Z.land x (mask c) <? value c else value c <? Z.land x (mask c)) = true
  <-> exists k, start <= k < end_ /\ Z.testbit (value c) k = lt
               /\ differs_at x (value c) (mask c) k.
Proof using Hc Hw Hmask Hstart Hn_bits Hend.
  pose proof (wc_symbol c Hc) as Hs. pose proof (wc_match c Hc Hw) as Hvm.
  split.
  - intros H.
    destruct (differs_exists (symbol c) x (value c) (mask c)) as (k & Hk & Hd);
      [done | by apply field_value_nonneg | done | destruct lt; lia |].
    pose proof (differs_order x (value c) (mask c) k ltac:(lia) Hd) as Ho.
    exists k. pose proof (da_mask _ _ _ _ Hd) as Hmk. rewrite mask_testbit in Hmk by lia.
    split_and!; [lia .. | | done]. destruct (Z.testbit (value c) k), lt; lia.
  - intros (k & Hk & Hkb & Hd).
    pose proof (differs_order x (value c) (mask c) k ltac:(lia) Hd) as Ho.
    rewrite Hkb in Ho. destruct lt; lia.
Qed.

(** When no bit of the constant allows the strict comparison to fail, the
    constant is the greatest or the least value under the mask. *)
Lemma extreme_value (lt : bool) :
  (forall k, start <= k < end_ -> Z.testbit (value c) k = lt) ->
  if lt then Z.land x (mask c) <= value c else value c <= Z.land x (mask c).
Proof using Hc Hw Hmask Hstart Hn_bits Hend.
  pose proof (wc_symbol c Hc) as Hs. pose proof (wc_match c Hc Hw) as Hvm.
  intros Hall. destruct (Z.eq_dec (Z.land x (mask c)) (value c)) as [->|Hne];
    [destruct lt; lia |].
  destruct (differs_exists (symbol c) x (value c) (mask c)) as (k & Hk & Hd);
    [done | by apply field_value_nonneg | done | done |].
  pose proof (differs_order x (value c) (mask c) k ltac:(lia) Hd) as Ho.
  pose proof (da_mask _ _ _ _ Hd) as Hmk. rewrite mask_testbit in Hmk by lia.
  rewrite Hall in Ho by lia. destruct lt; lia.
Qed.
Local Abbreviation lt :=
  (bool_decide (relop c = EXPR_R_LT) || bool_decide (relop c = EXPR_R_LE)).
Local Abbreviation eq :=
  (bool_decide (relop c = EXPR_R_LE) || bool_decide (relop c = EXPR_R_GE)).

Context (Hrel : relop c <> EXPR_R_EQ /\ relop c <> EXPR_R_NE).

Lemma relop_split y :
  expr_relop_test (relop c) (memcmp y (value c))
  = (if lt then y <? value c else value c <? y) || (eq && (y =? value c)).
Proof using Hrel.
  pose proof (memcmp_eqb y (value c)). pose proof (memcmp_ltb y (value c)).
  pose proof (memcmp_gtb y (value c)).
  destruct Hrel, (relop c); try done; repeat case_bool_decide; try done; cbn in *; lia.
Qed.

Lemma simplify_relational_spec a :
  exists e, expr_simplify_relational a c = Some e /\ proper simple_cmp true e
    /\ denote e = expr_evaluate_cmp flow lookup_port c.
Proof using Hc Hw Hmask Hstart Hn_bits Hend Hrel.
  rewrite eval_numeric, relop_split by done.
  pose proof (strict_differs lt) as Hstrict.
  pose proof (extreme_value lt) as Hextreme.
  unfold expr_simplify_relational.
  rewrite find_range. replace (0 <? n_bits) with true by lia.
  generalize lt eq Hstrict Hextreme. clear Hstrict Hextreme. intros l q Hstrict Hextreme.
  destruct (sv_scan_spec (value c) (negb l) start end_) as (Hr & Hlow & Hat); [lia |].
  rewrite negb_involutive in Hlow.
  destruct (Z.eqb_spec (sv_scan (value c) (negb l) start end_) end_) as [Hall|Hne].
  - rewrite Hall in Hlow. specialize (Hextreme Hlow). destruct q.
    + eexists. split_and!; [done | done |]. cbn. destruct l; lia.
    + destruct simplify_ne_spec as [Hp Hd].
      eexists. split_and!; [done | done |]. rewrite Hd. unfold matches. destruct l; lia.
  - destruct (sv_scan_spec (value c) l start end_) as (Hr' & Hlow' & Hat'); [lia |].
    set (new := if q then _ else _).
    assert (acc_ok new /\ denote_opt OR new = q && (Z.land x (mask c) =? value c))
      as [Hnew Hnd].
    { unfold new. destruct q; [|done]. cbn. rewrite eval_eq by (by destruct Hc).
      split; [|done]. split; [by destruct Hc | done |]. cbn. intros _ Hz.
      pose proof (mask_testbit start Hstart) as Hb.
      rewrite Hz, Z.bits_0 in Hb. lia. }
    destruct (relational_from_spec
      (Z.to_nat n_bits) a l (sv_scan (value c) l start end_) new) as [Hacc Hden];
      [lia | done | lia | done |].
    assert (denote_opt OR (simplify_relational_from (Z.to_nat n_bits) a c l start end_
              (sv_scan (value c) l start end_) new)
      = (if l then Z.land x (mask c) <? value c else value c <? Z.land x (mask c))
        || (q && (Z.land x (mask c) =? value c))) as Heq.
    { apply eq_true_iff_eq. rewrite Hden, Hnd, orb_true_iff, Hstrict.
      etransitivity; [apply Logic.or_comm |]. apply or_iff_compat_r.
      split; intros (k & Hk & Hkb & Hd); exists k; (split; [|done]); [lia |].
      split; [|lia]. apply Z.nlt_ge. intros Hks. rewrite Hlow' in Hkb by lia. by destruct l. }
    destruct (simplify_relational_from _ _ _ _ _ _ _ _) as [e|].
    + eexists. split_and!; [done | by apply tree_proper, disjunction_tree | done].
    + by eexists.
Qed.
End Range.
End Simplify.

Section SimplifyExpr.
Context (flow : expr_symbol -> Z) (lookup_port : string -> option Z).
Context (icr : string -> bool).
Local Abbreviation denote := (denote flow lookup_port icr).

Lemma simplify_cmp_spec a c :
  simplifiable c ->
  exists e, expr_simplify (ECmp a c) = Some e /\ proper simple_cmp true e
    /\ denote e = denote (ECmp a c).
Proof.
  intros [Hc Hstr Hrange]. cbn [expr_simplify ExprLemmas.denote].
  destruct (Z.eqb_spec (width (symbol c)) 0) as [Hw|Hw].
  { eexists. split_and!; [done | | done]. cbn. split; [done | auto | done]. }
  destruct (decide (relop c = EXPR_R_EQ)) as [Heq|Hneq]; [rewrite Heq |].
  { eexists. split; [done |]. rewrite eval_eq by done. unfold expr_simplify_eq.
    destruct (Z.eqb_spec (mask c) 0) as [Hm|Hm].
    - split; [done |]. symmetry. apply matches_bits. intros n Hn.
      rewrite Hm, Z.bits_0, andb_false_r.
      pose proof (wm_subset _ _ _ (wc_match c Hc Hw) n Hn) as Hsub.
      rewrite Hm, Z.bits_0 in Hsub. by destruct (Z.testbit (value c) n); [apply Hsub |].
    - split; [by split |]. cbn. by rewrite eval_eq. }
  destruct (decide (relop c = EXPR_R_NE)) as [Hne|Hnne]; [rewrite Hne |].
  { destruct (simplify_ne_spec flow lookup_port icr c Hc Hw) as [Hp Hd].
    eexists. split_and!; [done | done |]. rewrite Hd, eval_numeric, Hne by done.
    unfold matches. cbn. by rewrite memcmp_eqb. }
  destruct (Hrange Hw Hneq Hnne) as (start & n_bits & Hs & Hn & He & Hm).
  destruct (simplify_relational_spec flow lookup_port icr c Hc Hw start n_bits Hs Hn He Hm
    ltac:(done) a) as (e & He1 & He2 & He3).
  exists e. split_and!; [by destruct (relop c) | done | done].
Qed.

Lemma simplify_spec e :
  all_cmps simplifiable e ->
  exists e', expr_simplify e = Some e' /\ proper simple_cmp true e'
    /\ denote e' = denote e.
Proof.
  induction e as [a c|t a subs IH|b|n s] using expr_induction.
  - apply simplify_cmp_spec.
  - rewrite all_cmps_andor. intros H. cbn [expr_simplify].
    assert (Forall (fun e => exists e', expr_simplify e = Some e'
      /\ proper simple_cmp true e' /\ denote e' = denote e) subs) as Hsubs.
    { clear a. induction IH; inversion H; constructor; auto. }
    destruct (splice_total t expr_simplify subs) as [subs' Hs].
    { eapply Forall_impl; [done |]. cbn. intros e (e' & -> & _). by eexists. }
    rewrite Hs. eexists. split; [done |]. split.
    + apply fix_proper. eapply splice_proper; [done |].
      eapply Forall_impl; [done |]. cbn. intros e (e' & -> & Hp & _) ? [= <-]. done.
    + rewrite denote_fix, !denote_andor. eapply denote_splice; [done |].
      eapply Forall_impl; [done |]. cbn. intros e (e' & -> & _ & Hd) ? [= <-]. done.
  - intros _. by eexists.
  - intros _. by eexists.
Qed.

(** ** Conditions *)

Lemma evaluate_condition_spec P e :
  proper P true e ->
  proper P false (expr_evaluate_condition icr e)
  /\ denote (expr_evaluate_condition icr e) = denote e.
Proof.
  induction e as [a c|t a subs IH|b|n s] using expr_induction; [done | | done | done].
  intros H. apply (tree_andor P true t a) in H as [_ H]. cbn [expr_evaluate_condition].
  assert (Forall (fun e => proper P false (expr_evaluate_condition icr e)
    /\ denote (expr_evaluate_condition icr e) = denote e) subs) as Hsubs.
  { clear a. induction IH as [|e subs He _ IH']; constructor;
      apply Forall_cons in H as [[_ ?%tree_proper] ?]; auto. }
  rewrite denote_fix, denote_andor. split.
  - apply fix_proper, Forall_flat_map. eapply Forall_impl; [done |]. cbn.
    intros e [Hp _]. apply insert_andor_operands.
    destruct (expr_evaluate_condition icr e) as [|t' a' subs'| |]; try done.
    apply fix_proper. apply (tree_andor P false t' a') in Hp as [_ Hp].
    eapply Forall_impl; [done |]. intros ? [? ?]. split; [done | by apply tree_proper].
  - rewrite denote_andor. clear H IH. induction Hsubs as [|e subs [_ Hd] _ IH]; [done |].
    cbn [flat_map]. rewrite denote_subs_app, denote_insert_andor, denote_fix, Hd, IH.
    by rewrite denote_subs_cons.
Qed.
End SimplifyExpr.
