(* ===== verification/ExprSupersets.v ===== *)
(** * Removal of redundant disjuncts ([crush_or_supersets])

    The function sorts the comparisons of a disjunction by the number of bits in
    their masks, removes duplicates and then, with a linked list over the array
    and an index by number of bits, every comparison that implies another one.
    The proofs show that no access is out of bounds, that the loops terminate,
    that the disjunction keeps its meaning and that what is left is free of
    redundancy. *)
From stdpp Require Import base option list strings gmap.
From Stdlib Require Import ZArith Lia Sorting.Sorted.
From S2P Require Import Prelude BitwiseProofs Subvalue Expr ExprLemmas.
Import Subvalue Expr.

Local Open Scope Z_scope.

(** ** Comparison functions *)

Lemma strcmp_eq a b : strcmp a b = 0 <-> a = b.
Proof.
  assert (String.compare b b = Eq) as Hrefl.
  { pose proof (String.compare_antisym b b) as H. by destruct (String.compare b b). }
  unfold strcmp. destruct (String.compare a b) eqn:E.
  - apply String.compare_eq_iff in E. tauto.
  - split; [done |]. intros ->. congruence.
  - split; [done |]. intros ->. congruence.
Qed.

Lemma memcmp_eq a b : memcmp a b = 0 <-> a = b.
Proof. unfold memcmp. destruct (Z.compare_spec a b); lia. Qed.

(** The order of numeric comparisons: by number of mask bits, value and mask. *)
Definition cmp_le (a b : expr_cmp) : Prop :=
  mask_n_bits a < mask_n_bits b
  \/ (mask_n_bits a = mask_n_bits b
      /\ (value a < value b \/ (value a = value b /\ mask a <= mask b))).

Lemma compare_numeric a b :
  symbol a = symbol b -> width (symbol a) <> 0 ->
  exists d, compare_cmps_3way a b = Some d /\ (d <= 0 <-> cmp_le a b)
    /\ (d = 0 <-> value a = value b /\ mask a = mask b /\ mask_n_bits a = mask_n_bits b).
Proof.
  intros Hs Hw. unfold compare_cmps_3way, cmp_le. rewrite bool_decide_eq_true_2 by done.
  cbn [negb]. destruct (Z.eqb_spec (width (symbol a)) 0) as [|_]; [done |].
  destruct (Z.eqb_spec (mask_n_bits a) (mask_n_bits b)); cbn [negb].
  - eexists. split; [done |]. unfold memcmp.
    destruct (Z.compare_spec (value a) (value b)), (Z.compare_spec (mask a) (mask b));
      cbn; lia.
  - eexists. split; [done |]. destruct (Z.ltb_spec (mask_n_bits a) (mask_n_bits b)); lia.
Qed.

Lemma compare_same_symbol a b :
  symbol a = symbol b -> is_Some (compare_cmps_3way a b).
Proof.
  intros Hs. unfold compare_cmps_3way. rewrite bool_decide_eq_true_2 by done.
  cbn [negb]. repeat case_match; by eexists.
Qed.

(** Comparisons that compare equal test the same. *)
Lemma compare_eq a b :
  compare_cmps_3way a b = Some 0 ->
  symbol a = symbol b
  /\ (if width (symbol a) =? 0 then cst_string a = cst_string b
      else value a = value b /\ mask a = mask b).
Proof.
  unfold compare_cmps_3way. case_bool_decide as Hs; [cbn [negb] | done].
  destruct (width (symbol a) =? 0); [intros [= H]; by apply strcmp_eq in H |].
  destruct (_ =? _); cbn [negb]; [|by destruct (_ <? _)].
  intros [= H]. destruct (Z.eqb_spec (memcmp (value a) (value b)) 0) as [Hv|Hv]; [|done].
  by rewrite memcmp_eq in H, Hv.
Qed.

(** The test of the code: [a] is [b] with a smaller mask. *)
Definition covers (w : Z) (a b : expr_cmp) : bool :=
  expr_bitmap_intersect_check (value a) (mask a) (value b) (mask b) w
  && bitmap_is_superset (mask b) (mask a) w.

(** ** The arrays *)

Section Arrays.
Context (cmps : list expr_cmp).
Local Abbreviation n := (length cmps).

Definition alive (subs : sub_array) (q : nat) (c : expr_cmp) : Prop :=
  exists a, subs !! q = Some (Some (a, c)).

Definition dead (subs : sub_array) (q : nat) : Prop := forall c, ~ alive subs q c.

(** [subs] holds elements of the sorted array at their places; [next] leads
    upwards and skips only destroyed elements. *)
Record arrays_ok (subs : sub_array) (next : list nat) : Prop := {
  ao_subs : length subs = n;
  ao_alive q c : alive subs q c -> cmps !! q = Some c;
  ao_length : length next = n;
  ao_next p x : next !! p = Some x -> (p < x)%nat;
  ao_skip p x q : next !! p = Some x -> (p < q < x)%nat -> dead subs q;
}.

(** Element [j] destroyed; the reference of element [i] to an address set
    removed. *)
Definition kill (subs : sub_array) (i j : nat) (c : expr_cmp) : sub_array :=
  <[j := None]> (<[i := Some (None, c)]> subs).

Lemma kill_alive subs i j c q d :
  alive subs i c -> (j < length subs)%nat -> i <> j ->
  alive (kill subs i j c) q d <-> q <> j /\ alive subs q d.
Proof.
  intros [a Hi] Hj Hij. unfold alive, kill.
  assert (i < length subs)%nat as Hil by (by eapply lookup_lt_Some).
  destruct (decide (q = j)) as [->|Hqj].
  { rewrite list_lookup_insert_eq by (by rewrite length_insert).
    split; [intros [? ?]; congruence | tauto]. }
  rewrite list_lookup_insert_ne by done.
  destruct (decide (q = i)) as [->|Hqi].
  - rewrite list_lookup_insert_eq by done. split.
    + intros [? [= <- <-]]. split; [done |]. by eexists.
    + intros [_ [? H]]. rewrite Hi in H. simplify_eq. by eexists.
  - rewrite list_lookup_insert_ne by done. tauto.
Qed.

Lemma kill_dead subs i j c q :
  alive subs i c -> (j < length subs)%nat -> i <> j -> dead subs q ->
  dead (kill subs i j c) q.
Proof. intros ??? Hd d H. apply kill_alive in H as [_ H]; [|done ..]. by apply (Hd d). Qed.

Lemma kill_dead_eq subs i j c :
  alive subs i c -> (j < length subs)%nat -> i <> j -> dead (kill subs i j c) j.
Proof. intros ??? d H. by apply kill_alive in H as [? _]. Qed.

Lemma length_kill subs i j c : length (kill subs i j c) = length subs.
Proof. unfold kill. by rewrite !length_insert. Qed.

Lemma kill_arrays_ok subs next i j c :
  arrays_ok subs next -> alive subs i c -> (j < n)%nat -> i <> j ->
  arrays_ok (kill subs i j c) next.
Proof.
  intros [H1 H2 H3 H4 H5] Hi Hj Hij. split; [by rewrite length_kill | | done | done |].
  - intros q d H. apply kill_alive in H as [_ H]; [by apply H2 | done | lia | done].
  - intros p x q Hp Hq. apply kill_dead; [done | lia | done |]. by eapply H5.
Qed.

Lemma link_arrays_ok subs next p x :
  arrays_ok subs next -> (p < x)%nat -> (forall q, (p < q < x)%nat -> dead subs q) ->
  arrays_ok subs (<[p := x]> next).
Proof.
  intros [H1 H2 H3 H4 H5] Hp Hskip. split; [done | done | by rewrite length_insert | |].
  - intros p' x' H. apply list_lookup_insert_Some in H as [(<- & <- & _)|[_ H]]; [done |].
    by apply H4.
  - intros p' x' q H. apply list_lookup_insert_Some in H as [(<- & <- & _)|[_ H]].
    + apply Hskip.
    + by apply H5.
Qed.

(** ** The meaning of the array *)

Section Holds.
Context (f : expr_cmp -> bool).

Definition array_holds (subs : sub_array) : Prop :=
  exists q c, alive subs q c /\ f c = true.

Lemma kill_holds subs i j a b :
  alive subs i a -> alive subs j b -> i <> j -> (f b = true -> f a = true) ->
  array_holds (kill subs i j a) <-> array_holds subs.
Proof.
  intros Hi Hj Hij Hf. assert (j < length subs)%nat as Hjl.
  { destruct Hj as [? ?]. by eapply lookup_lt_Some. }
  split.
  - intros (q & c & H & Hc). apply kill_alive in H as [_ H]; [|done ..].
    by exists q, c.
  - intros (q & c & H & Hc). destruct (decide (q = j)) as [->|Hq].
    + exists i, a. split; [apply kill_alive; done |]. apply Hf.
      destruct Hj as [? Hj], H as [? H]. rewrite Hj in H. by simplify_eq.
    + exists q, c. split; [|done]. by apply kill_alive.
Qed.
End Holds.
Lemma alive_sub_at subs q c :
  alive subs q c -> exists a, sub_at subs q = Some (a, c).
Proof. intros [a H]. exists a. unfold sub_at. by rewrite H. Qed.

Lemma alive_lt subs next q c : arrays_ok subs next -> alive subs q c -> (q < n)%nat.
Proof. intros [H _ _ _ _] [a Hq]. rewrite <- H. by eapply lookup_lt_Some. Qed.

Lemma alive_fun subs q c d : alive subs q c -> alive subs q d -> c = d.
Proof. intros [a H] [b H']. rewrite H in H'. by simplify_eq. Qed.

Lemma array_lookup subs next q :
  arrays_ok subs next -> (q < n)%nat ->
  (exists c, alive subs q c) \/ (subs !! q = Some None /\ dead subs q).
Proof.
  intros [H _ _ _ _] Hq. destruct (lookup_lt_is_Some_2 subs q) as [[[a c]|] Ho]; [lia | |].
  - left. by exists c, a.
  - right. split; [done |]. intros c [a Ha]. congruence.
Qed.

(** ** Duplicates *)

Context (Hsym : forall a b, a ∈ cmps -> b ∈ cmps -> symbol a = symbol b).

Lemma alive_elem subs next q c : arrays_ok subs next -> alive subs q c -> c ∈ cmps.
Proof. intros H Hq. eapply list_elem_of_lookup_2. by eapply ao_alive. Qed.

(** The state of the loop at [i]: [last] is the last element kept, and nothing
    from [i] on has been touched. *)
Record dedup_at (i last : nat) (subs : sub_array) (next : list nat) : Prop := {
  da_arrays : arrays_ok subs next;
  da_lt : (last < i)%nat;
  da_last : exists a, alive subs last a;
  da_gap q : (last < q < i)%nat -> dead subs q;
  da_rest q : (i <= q < n)%nat -> exists c, alive subs q c;
}.

Lemma dedup_keep i last subs next :
  dedup_at i last subs next -> (i < n)%nat -> dedup_at (S i) i subs (<[last := i]> next).
Proof using.
  intros [Ha Hlt Hl Hgap Hrest] Hi. split; [by apply link_arrays_ok | lia | | |].
  - apply Hrest. lia.
  - intros q Hq. lia.
  - intros q Hq. apply Hrest. lia.
Qed.

Lemma dedup_drop i last subs next a :
  dedup_at i last subs next -> (i < n)%nat -> alive subs last a ->
  dedup_at (S i) last (kill subs last i a) next.
Proof using.
  intros [Ha Hlt Hl Hgap Hrest] Hi Hla. assert (length subs = n) as Hn by apply Ha.
  split; [apply kill_arrays_ok; done || lia | lia | | |].
  - exists a. apply kill_alive; [done | lia | lia | split; [lia | done]].
  - intros q Hq. destruct (decide (q = i)) as [->|]; [apply kill_dead_eq; done || lia |].
    apply kill_dead; [done | lia | lia |]. apply Hgap. lia.
  - intros q Hq. destruct (Hrest q) as [c Hc]; [lia |]. exists c.
    apply kill_alive; [done | lia | lia | split; [lia | done]].
Qed.

Lemma dedup_spec f k i last subs next :
  (forall a b, a ∈ cmps -> b ∈ cmps -> compare_cmps_3way a b = Some 0 -> f a = f b) ->
  dedup_at i last subs next -> (i + k = n)%nat ->
  exists subs' next', dedup k i last subs next = Some (subs', next')
    /\ arrays_ok subs' next' /\ (array_holds f subs' <-> array_holds f subs).
Proof using Hsym.
  intros Hdup. revert i last subs next.
  induction k as [|k IH]; intros i last subs next Hd Hk; cbn [dedup].
  { exists subs, next. split_and!; [done | apply Hd | done]. }
  destruct (da_last _ _ _ _ Hd) as [a Ha].
  destruct (da_rest _ _ _ _ Hd i) as [b Hb]; [lia |].
  destruct (alive_sub_at _ _ _ Ha) as [an ->], (alive_sub_at _ _ _ Hb) as [bn ->].
  cbn [mbind option_bind snd].
  assert (a ∈ cmps) as Hae by (by eapply alive_elem, Ha; apply Hd).
  assert (b ∈ cmps) as Hbe by (by eapply alive_elem, Hb; apply Hd).
  destruct (compare_same_symbol a b) as [d Hcmp]; [by apply Hsym |].
  rewrite Hcmp. cbn [mbind option_bind]. pose proof (da_lt _ _ _ _ Hd) as Hlt.
  destruct (Z.eqb_spec d 0) as [->|Hne]; cbn [negb].
  - destruct (IH (S i) last (kill subs last i a) next) as (subs' & next' & H1 & H2 & H3);
      [by apply dedup_drop; [| lia |] | lia |].
    exists subs', next'. split_and!; [done | done |]. rewrite H3.
    apply kill_holds with b; [done | done | lia |]. by rewrite (Hdup a b).
  - destruct (IH (S i) i subs (<[last := i]> next)) as (subs' & next' & H1 & H2 & H3);
      [apply dedup_keep; [done | lia] | lia |].
    by exists subs', next'.
Qed.

(** Elements with the same comparison are adjacent in the sorted array, so that
    no two are left. *)
Definition distinct_below (i : nat) (subs : sub_array) : Prop :=
  forall p q a b, (p < q < i)%nat -> alive subs p a -> alive subs q b ->
    compare_cmps_3way a b <> Some 0.

Section Sorted.
Context (Hnum : forall a, a ∈ cmps -> width (symbol a) <> 0).
Context (Hsorted : forall p q a b, (p < q)%nat -> cmps !! p = Some a ->
           cmps !! q = Some b -> cmp_le a b).

Lemma distinct_extend i last subs next a b :
  dedup_at i last subs next -> distinct_below i subs ->
  alive subs last a -> alive subs i b -> compare_cmps_3way a b <> Some 0 ->
  distinct_below (S i) subs.
Proof using Hsym Hnum Hsorted.
  intros Hd Hdis Ha Hb Hne p q a' b' Hpq Hp Hq.
  destruct (decide (q < i)%nat) as [|Hqi]; [by apply (Hdis p q); [lia | |] |].
  assert (q = i) as -> by lia. rewrite (alive_fun _ _ _ _ Hq Hb). clear b' Hq.
  pose proof (da_arrays _ _ _ _ Hd) as Hok.
  assert (p <= last)%nat as Hpl.
  { apply Nat.nlt_ge. intros H. by apply (da_gap _ _ _ _ Hd p ltac:(lia) a'). }
  destruct (decide (p = last)) as [->|]; [by rewrite (alive_fun _ _ _ _ Hp Ha) |].
  pose proof (alive_elem _ _ _ _ Hok Hp) as Ep. pose proof (alive_elem _ _ _ _ Hok Ha) as Ea.
  pose proof (alive_elem _ _ _ _ Hok Hb) as Eb.
  pose proof (ao_alive _ _ Hok) as Hal. pose proof (da_lt _ _ _ _ Hd).
  pose proof (Hsorted p last a' a ltac:(lia) (Hal _ _ Hp) (Hal _ _ Ha)) as H1.
  pose proof (Hsorted last i a b ltac:(lia) (Hal _ _ Ha) (Hal _ _ Hb)) as H2.
  destruct (compare_numeric a b) as (d & Hd1 & _ & Hd2); [by apply Hsym | by apply Hnum |].
  destruct (compare_numeric a' b) as (d' & Hd1' & _ & Hd2'); [by apply Hsym | by apply Hnum |].
  rewrite Hd1', Hd1 in *. intros [= H0]. assert (d = 0); [|congruence].
  apply Hd2. apply Hd2' in H0. unfold cmp_le in *. lia.
Qed.

Lemma dedup_distinct k i last subs next subs' next' :
  dedup_at i last subs next -> distinct_below i subs -> (i + k = n)%nat ->
  dedup k i last subs next = Some (subs', next') -> distinct_below n subs'.
Proof using Hsym Hnum Hsorted.
  revert i last subs next. induction k as [|k IH]; intros i last subs next Hd Hdis Hk.
  { intros [= <- <-]. by replace n with i by lia. }
  cbn [dedup]. destruct (da_last _ _ _ _ Hd) as [a Ha].
  destruct (da_rest _ _ _ _ Hd i) as [b Hb]; [lia |].
  destruct (alive_sub_at _ _ _ Ha) as [an ->], (alive_sub_at _ _ _ Hb) as [bn ->].
  cbn [mbind option_bind snd]. pose proof (da_lt _ _ _ _ Hd) as Hlt.
  destruct (compare_cmps_3way a b) as [d|] eqn:Hcmp; [cbn [mbind option_bind] | done].
  destruct (Z.eqb_spec d 0) as [->|Hne]; cbn [negb].
  - apply IH; [apply dedup_drop; [done | lia | done] | | lia].
    assert (length subs = n) as Hn by apply Hd.
    intros p q a' b' Hpq Hp Hq.
    apply kill_alive in Hp as [Hpi Hp]; [|done | lia | lia].
    apply kill_alive in Hq as [Hqi Hq]; [|done | lia | lia].
    apply (Hdis p q); [lia | done | done].
  - apply IH; [apply dedup_keep; [done | lia] | | lia].
    eapply distinct_extend; [done .. |]. rewrite Hcmp. congruence.
Qed.
(** ** The index by number of mask bits *)

Definition bits (c : expr_cmp) : nat := Z.to_nat (mask_n_bits c).

Lemma bits_mono p q a b :
  (p <= q)%nat -> cmps !! p = Some a -> cmps !! q = Some b -> (bits a <= bits b)%nat.
Proof using Hsorted.
  intros Hpq Ha Hb. destruct (decide (p = q)) as [->|]; [by simplify_eq |].
  pose proof (Hsorted p q a b ltac:(lia) Ha Hb). unfold cmp_le, bits in *. lia.
Qed.

Context (max_bits : nat) (Hmax : forall a, a ∈ cmps -> (bits a <= max_bits)%nat).

(** The entries point to elements with at least as many bits. *)
Definition index_above (mask_index : list (option nat)) : Prop :=
  forall k j c, mask_index !! k = Some (Some j) -> cmps !! j = Some c -> (k <= bits c)%nat.

(** The entry for [k] is at most [q]. *)
Definition entry_le (mask_index : list (option nat)) (k q : nat) : Prop :=
  exists j, mask_index !! k = Some (Some j) /\ (j <= q)%nat.

(** No live element with at least [k] bits precedes the entry for [k]. *)
Definition index_below (subs : sub_array) (mask_index : list (option nat)) : Prop :=
  forall k q c, (0 < k <= max_bits + 1)%nat -> alive subs q c -> (k <= bits c)%nat ->
    entry_le mask_index k q.

Record index_ok (subs : sub_array) (mask_index : list (option nat)) : Prop := {
  io_length : length mask_index = (max_bits + 2)%nat;
  io_above : index_above mask_index;
  io_below : index_below subs mask_index;
}.

Lemma index_min_cases x y :
  index_min x y = x \/ index_min x y = y.
Proof using.
  destruct x as [x|], y as [y|]; cbn; auto. destruct (Nat.min_dec x y) as [-> | ->]; auto.
Qed.

Lemma index_above_insert mask_index k x y :
  index_above mask_index ->
  (forall j c, x = Some j -> cmps !! j = Some c -> (k <= bits c)%nat) ->
  (forall j c, y = Some j -> cmps !! j = Some c -> (k <= bits c)%nat) ->
  index_above (<[k := index_min x y]> mask_index).
Proof using.
  intros H Hx Hy k' j c Hk Hj.
  apply list_lookup_insert_Some in Hk as [(<- & Hk & _)|[_ Hk]]; [|by eapply H].
  destruct (index_min_cases x y) as [E|E]; rewrite E in Hk; eauto.
Qed.

Lemma entry_le_insert mask_index k x y k' q :
  (k < length mask_index)%nat ->
  (k' <> k /\ entry_le mask_index k' q)
  \/ (k' = k /\ exists j, (x = Some j \/ y = Some j) /\ (j <= q)%nat) ->
  entry_le (<[k := index_min x y]> mask_index) k' q.
Proof using.
  intros Hk [[Hne (j & Hj & Hq)]|[-> (j & Hxy & Hq)]].
  - exists j. by rewrite list_lookup_insert_ne.
  - unfold entry_le. rewrite list_lookup_insert_eq by done.
    destruct x as [x|], y as [y|]; cbn; destruct Hxy as [[=]|[=]]; subst;
      eexists; (split; [done |]); lia.
Qed.

Lemma build_index_spec fuel i subs next mask_index :
  arrays_ok subs next -> (n - i <= fuel)%nat ->
  length mask_index = (max_bits + 2)%nat -> index_above mask_index ->
  (forall q c, (q < i)%nat -> alive subs q c -> entry_le mask_index (bits c) q) ->
  exists mask_index', build_index fuel i n subs next mask_index = Some mask_index'
    /\ length mask_index' = (max_bits + 2)%nat /\ index_above mask_index'
    /\ forall q c, alive subs q c -> entry_le mask_index' (bits c) q.
Proof using Hmax.
  intros Hok. revert i mask_index.
  induction fuel as [|fuel IH]; intros i mask_index Hf Hl Habove Hexact; cbn [build_index].
  { destruct (Nat.ltb_spec i n); [lia |]. eexists. split_and!; [done .. |].
    intros q c Hq. apply Hexact; [|done]. pose proof (alive_lt _ _ _ _ Hok Hq). lia. }
  destruct (Nat.ltb_spec i n) as [Hi|Hi].
  2: { eexists. split_and!; [done .. |]. intros q c Hq. apply Hexact; [|done].
       pose proof (alive_lt _ _ _ _ Hok Hq). lia. }
  destruct (lookup_lt_is_Some_2 next i) as [x Hx]; [by rewrite (ao_length _ _ Hok) |].
  pose proof (ao_next _ _ Hok _ _ Hx) as Hix. rewrite Hx.
  assert (forall q c, (i < q < x)%nat -> ~ alive subs q c) as Hskip
    by (intros q c Hq; by apply (ao_skip _ _ Hok i x)).
  destruct (array_lookup _ _ i Hok Hi) as [[c [a Hc]]|[Ho Hdead]].
  - rewrite Hc. cbn [mbind option_bind snd]. fold (bits c).
    assert (c ∈ cmps) as Hce by (eapply alive_elem; [done | by exists a]).
    specialize (Hmax c Hce).
    destruct (lookup_lt_is_Some_2 mask_index (bits c)) as [cur Hcur]; [lia |].
    rewrite Hcur. cbn [mbind option_bind]. apply IH; [lia | by rewrite length_insert | |].
    + apply index_above_insert; [done | |].
      * intros j d -> Hj. by eapply Habove.
      * intros j d [= <-] Hj. rewrite (ao_alive _ _ Hok i c) in Hj by (by exists a).
        by simplify_eq.
    + intros q d Hq Hqa. apply entry_le_insert; [lia |].
      destruct (decide (bits d = bits c)) as [Heq|]; [right | left].
      * split; [done |]. destruct (decide (q < i)%nat) as [Hqi|].
        -- destruct (Hexact q d Hqi Hqa) as (j & Hj & Hjq). rewrite Heq, Hcur in Hj.
           simplify_eq. exists j. auto.
        -- exists i. split; [auto | lia].
      * split; [done |]. apply Hexact; [|done].
        destruct (decide (q = i)) as [->|].
        -- assert (d = c); [|congruence]. eapply alive_fun; [done | by exists a].
        -- apply Nat.nle_gt. intros Hle. apply (Hskip q d); [lia | done].
  - rewrite Ho. cbn [mbind option_bind]. apply IH; [lia | done | done |].
    intros q c Hq Hqa. apply Hexact; [|done].
    destruct (decide (q = i)) as [->|]; [by destruct (Hdead c) |].
    apply Nat.nle_gt. intros Hle. apply (Hskip q c); [lia | done].
Qed.

Lemma fill_gaps_spec i subs mask_index :
  (forall q c, alive subs q c -> c ∈ cmps) ->
  (i <= max_bits)%nat -> length mask_index = (max_bits + 2)%nat ->
  index_above mask_index ->
  (forall q c, alive subs q c -> entry_le mask_index (bits c) q) ->
  (forall k q c, (i < k <= max_bits + 1)%nat -> alive subs q c -> (k <= bits c)%nat ->
     entry_le mask_index k q) ->
  exists mask_index', fill_gaps i mask_index = Some mask_index' /\ index_ok subs mask_index'.
Proof using Hmax.
  intros Hin. revert mask_index.
  induction i as [|i IH]; intros mask_index Hi Hl Habove Hexact Hbelow; cbn [fill_gaps].
  { exists mask_index. split; [done |]. by split. }
  destruct (lookup_lt_is_Some_2 mask_index (S i)) as [cur Hcur]; [lia |].
  destruct (lookup_lt_is_Some_2 mask_index (S (S i))) as [above Hab]; [lia |].
  rewrite Hcur, Hab. cbn [mbind option_bind].
  apply IH; [lia | by rewrite length_insert | | |].
  - apply index_above_insert; [done | |].
    + intros j d -> Hj. by eapply Habove.
    + intros j d -> Hj. pose proof (Habove _ _ _ Hab Hj). lia.
  - intros q c Hq. apply entry_le_insert; [lia |].
    destruct (decide (bits c = S i)) as [Heq|]; [right | left; auto].
    split; [done |]. destruct (Hexact q c Hq) as (j & Hj & Hjq).
    rewrite Heq, Hcur in Hj. simplify_eq. eauto.
  - intros k q c Hk Hq Hb. apply entry_le_insert; [lia |].
    destruct (decide (k = S i)) as [->|]; [right | left; split; [done | apply (Hbelow _ _ c); [lia | done | done]]].
    split; [done |]. destruct (decide (bits c = S i)) as [Heq|].
    + destruct (Hexact q c Hq) as (j & Hj & Hjq). rewrite Heq, Hcur in Hj. simplify_eq. eauto.
    + destruct (Hbelow (S (S i)) q c) as (j & Hj & Hjq); [lia | done | lia |].
      rewrite Hab in Hj. simplify_eq. eauto.
Qed.
(** ** Elimination *)

Context (w : Z) (f : expr_cmp -> bool).
Context (Hcov : forall a b, a ∈ cmps -> b ∈ cmps -> covers w a b = true ->
           f b = true -> f a = true).

Lemma index_ok_kill subs i j a mask_index :
  alive subs i a -> (j < length subs)%nat -> i <> j ->
  index_ok subs mask_index -> index_ok (kill subs i j a) mask_index.
Proof using.
  intros Hi Hj Hij [Hl Habove Hbelow]. split; [done | done |].
  intros k q c Hk Hq Hb. apply kill_alive in Hq as [_ Hq]; [by eapply Hbelow | done ..].
Qed.

(** The state of the inner loop at [j]. *)
Record inner_at (i : nat) (a : expr_cmp) (last j : nat) (subs : sub_array)
    (next : list nat) (mask_index : list (option nat)) : Prop := {
  ia_arrays : arrays_ok subs next;
  ia_index : index_ok subs mask_index;
  ia_alive : alive subs i a;
  ia_bits c : cmps !! j = Some c -> (bits a < bits c)%nat;
  ia_first q c : last = 0%nat -> alive subs q c -> (bits a < bits c)%nat -> (j <= q)%nat;
  ia_last : last <> 0%nat -> (last < j)%nat /\ forall q, (last < q < j)%nat -> dead subs q;
  ia_done q c : (q < j)%nat -> alive subs q c -> (bits a < bits c)%nat ->
    covers w a c = false;
}.

Section Step.
Context (i : nat) (a : expr_cmp) (last j nj : nat).
Context (subs : sub_array) (next : list nat) (mask_index : list (option nat)).
Context (Hin : inner_at i a last j subs next mask_index).
Context (Hj : (j < n)%nat) (Hnj : next !! j = Some nj).

Lemma step_facts :
  (i < j < nj)%nat /\ (bits a < max_bits + 1)%nat
  /\ (forall q, (j < q < nj)%nat -> dead subs q)
  /\ (forall c, cmps !! nj = Some c -> (bits a < bits c)%nat).
Proof using Hin Hj Hnj Hsorted Hmax.
  destruct Hin as [Hok Hidx Hi Hb Hf Hl Hd].
  destruct (lookup_lt_is_Some_2 cmps j Hj) as [b Hcj]. specialize (Hb b Hcj).
  pose proof (ao_alive _ _ Hok i a Hi) as Hci.
  pose proof (ao_next _ _ Hok _ _ Hnj).
  assert (i < j)%nat.
  { apply Nat.nle_gt. intros Hle. pose proof (bits_mono j i b a Hle Hcj Hci). lia. }
  split_and!; [done | done | | |].
  - pose proof (Hmax a (list_elem_of_lookup_2 _ _ _ Hci)). lia.
  - intros q. by apply (ao_skip _ _ Hok).
  - intros c Hc. pose proof (bits_mono j nj b c ltac:(lia) Hcj Hc). lia.
Qed.

Lemma inner_dead :
  dead subs j -> inner_at i a last nj subs next mask_index.
Proof using Hin Hj Hnj Hsorted Hmax.
  intros Hdj. destruct step_facts as (Hij & Hba & Hskip & Hbits).
  destruct Hin as [Hok Hidx Hi Hb Hf Hl Hd]. split; [done .. | | |].
  - intros q c H0 Hq Hbc. specialize (Hf q c H0 Hq Hbc). apply Nat.nlt_ge. intros Hlt.
    destruct (decide (q = j)) as [->|]; [by apply (Hdj c) | by apply (Hskip q ltac:(lia) c)].
  - intros H0. destruct (Hl H0) as [Hlj Hgap]. split; [lia |]. intros q Hq.
    destruct (Nat.lt_trichotomy q j) as [|[->|]]; [apply Hgap | done | apply Hskip]; lia.
  - intros q c Hqn Hq Hbc. destruct (Nat.lt_trichotomy q j) as [|[->|]];
      [by apply (Hd q c) | by destruct (Hdj c) | by destruct (Hskip q ltac:(lia) c)].
Qed.

Lemma inner_keep b :
  alive subs j b -> covers w a b = false -> inner_at i a j nj subs next mask_index.
Proof using Hin Hj Hnj Hsorted Hmax.
  intros Hjb Hcb. destruct step_facts as (Hij & Hba & Hskip & Hbits).
  destruct Hin as [Hok Hidx Hi Hb Hf Hl Hd]. split; [done .. | | |].
  - intros q c H0. lia.
  - intros _. split; [lia | done].
  - intros q c Hqn Hq Hbc. destruct (Nat.lt_trichotomy q j) as [|[->|]];
      [by apply (Hd q c) | | by destruct (Hskip q ltac:(lia) c)].
    by rewrite (alive_fun _ _ _ _ Hq Hjb).
Qed.

Lemma inner_remove :
  inner_at i a last nj (kill subs i j a)
    (if (last =? 0)%nat then next else <[last := nj]> next)
    (if (last =? 0)%nat then <[S (bits a) := Some nj]> mask_index else mask_index).
Proof using Hin Hj Hnj Hsorted Hmax.
  destruct step_facts as (Hij & Hba & Hskip & Hbits).
  destruct Hin as [Hok Hidx Hi Hb Hf Hl Hd].
  assert (length subs = n) as Hn by apply Hok.
  assert (forall q c, alive (kill subs i j a) q c <-> q <> j /\ alive subs q c) as Hkill
    by (intros; apply kill_alive; [done | lia | lia]).
  pose proof (kill_arrays_ok subs next i j a Hok Hi Hj ltac:(lia)) as Hok'.
  pose proof (index_ok_kill subs i j a mask_index Hi ltac:(lia) ltac:(lia) Hidx) as Hidx'.
  split.
  - destruct (Nat.eqb_spec last 0) as [|H0]; [done |]. destruct (Hl H0) as [Hlj Hgap].
    apply link_arrays_ok; [done | lia |]. intros q Hq c [Hqj Hqc]%Hkill.
    destruct (Nat.lt_trichotomy q j) as [|[|]]; [by apply (Hgap q ltac:(lia) c) | done |].
    by apply (Hskip q ltac:(lia) c).
  - destruct (Nat.eqb_spec last 0) as [H0|H0]; [|done]. destruct Hidx' as [Hlen Habove Hbelow].
    split; [by rewrite length_insert | |].
    + intros k j' c Hk Hc.
      apply list_lookup_insert_Some in Hk as [(<- & [= <-] & _)|[_ Hk]];
        [by apply Hbits | by eapply Habove].
    + intros k q c Hk Hq Hbc. destruct (decide (k = S (bits a))) as [->|].
      * exists nj. rewrite list_lookup_insert_eq by lia. split; [done |].
        apply Hkill in Hq as [Hqj Hq]. specialize (Hf q c H0 Hq ltac:(lia)).
        apply Nat.nlt_ge. intros Hlt. by apply (Hskip q ltac:(lia) c).
      * destruct (Hbelow k q c Hk Hq Hbc) as (j' & Hj' & Hle). exists j'.
        by rewrite list_lookup_insert_ne.
  - apply Hkill. split; [lia | done].
  - done.
  - intros q c H0 [Hqj Hq]%Hkill Hbc. specialize (Hf q c H0 Hq Hbc).
    apply Nat.nlt_ge. intros Hlt. by apply (Hskip q ltac:(lia) c).
  - intros H0. destruct (Hl H0) as [Hlj Hgap]. split; [lia |].
    intros q Hq c [Hqj Hqc]%Hkill. destruct (Nat.lt_trichotomy q j) as [|[|]];
      [by apply (Hgap q ltac:(lia) c) | done | by apply (Hskip q ltac:(lia) c)].
  - intros q c Hqn [Hqj Hq]%Hkill Hbc. destruct (Nat.lt_trichotomy q j) as [|[|]];
      [by apply (Hd q c) | done | by destruct (Hskip q ltac:(lia) c)].
Qed.
End Step.

(** [subs'] has only elements of [subs] left, and means the same. *)
Record reduces (subs subs' : sub_array) : Prop := {
  re_alive q c : alive subs' q c -> alive subs q c;
  re_holds : array_holds f subs' <-> array_holds f subs;
}.

Lemma reduces_refl subs : reduces subs subs.
Proof using. by split. Qed.

Lemma reduces_trans subs subs' subs'' :
  reduces subs subs' -> reduces subs' subs'' -> reduces subs subs''.
Proof using. intros [H1 H2] [H3 H4]. split; [auto | by rewrite H4]. Qed.

Lemma reduces_kill subs next i j a b :
  arrays_ok subs next -> alive subs i a -> alive subs j b -> i <> j ->
  covers w a b = true -> reduces subs (kill subs i j a).
Proof using Hcov.
  intros Hok Hi Hj Hij Hc. assert (j < length subs)%nat.
  { destruct Hj as [? ?]. by eapply lookup_lt_Some. }
  split.
  - intros q c H'. by apply kill_alive in H' as [_ H'].
  - apply kill_holds with b; [done .. |]. apply Hcov; [| | done]; by eapply alive_elem.
Qed.

Lemma eliminate_from_spec fuel i a last j subs next mask_index :
  inner_at i a last j subs next mask_index -> (n - j <= fuel)%nat ->
  exists subs' next' mask_index' last' j',
    eliminate_from fuel w i (S (bits a)) last j n subs next mask_index
    = Some (subs', next', mask_index')
    /\ inner_at i a last' j' subs' next' mask_index' /\ (n <= j')%nat
    /\ reduces subs subs'.
Proof using Hsorted Hmax Hcov.
  revert last j subs next mask_index.
  induction fuel as [|fuel IH]; intros last j subs next mask_index Hin Hf;
    cbn [eliminate_from].
  { destruct (Nat.ltb_spec j n) as [|]; [lia |].
    eexists _, _, _, last, j. split_and!; [done .. | by apply reduces_refl]. }
  destruct (Nat.ltb_spec j n) as [Hj|Hj].
  2: { eexists _, _, _, last, j. split_and!; [done .. | by apply reduces_refl]. }
  pose proof (ia_arrays _ _ _ _ _ _ _ Hin) as Hok.
  destruct (lookup_lt_is_Some_2 next j) as [nj Hnj]; [by rewrite (ao_length _ _ Hok) |].
  destruct (step_facts _ _ _ _ _ _ _ _ Hin Hj Hnj) as (Hij & Hba & Hskip & Hbits).
  destruct (Nat.eqb_spec i j) as [|_]; [lia |].
  destruct (array_lookup _ _ j Hok Hj) as [[b [bn Hb]]|[Ho Hdead]].
  - rewrite Hb, Hnj. cbn [mbind option_bind].
    destruct (alive_sub_at _ _ _ (ia_alive _ _ _ _ _ _ _ Hin)) as [an ->].
    cbn [mbind option_bind snd].
    assert (alive subs j b) as Hjb by (by exists bn).
    fold (covers w a b). destruct (covers w a b) eqn:Hcb.
    + fold (kill subs i j a).
      pose proof (inner_remove _ _ _ _ _ _ _ _ Hin Hj Hnj) as Hin'.
      destruct (IH _ _ _ _ _ Hin' ltac:(lia))
        as (subs' & next' & mi' & last' & j' & H1 & H2 & H3 & H4).
      exists subs', next', mi', last', j'. split_and!; [| done | done |].
      * by destruct (Nat.eqb_spec last 0).
      * eapply reduces_trans; [|done]. eapply reduces_kill; [done | apply Hin | done | lia | done].
    + apply (IH j nj); [by eapply inner_keep | lia].
  - rewrite Ho, Hnj. cbn [mbind option_bind]. apply IH; [by eapply inner_dead | lia].
Qed.

(** No element is covered by one with fewer bits. *)
Definition irredundant_below (i : nat) (subs : sub_array) : Prop :=
  forall p q a c, (p < i)%nat -> alive subs p a -> alive subs q c ->
    (bits a < bits c)%nat -> covers w a c = false.

(** When nothing has more bits than element [i], nothing more can be covered. *)
Lemma irredundant_rest i a subs next :
  arrays_ok subs next -> alive subs i a -> irredundant_below i subs ->
  (forall q c, alive subs q c -> (bits c <= bits a)%nat) -> irredundant_below n subs.
Proof using Hsorted.
  intros Hok Hi Hirr Hmost p q d c Hp Hd Hc Hlt.
  destruct (decide (p < i)%nat) as [|]; [by apply (Hirr p q) |].
  pose proof (bits_mono i p a d ltac:(lia) (ao_alive _ _ Hok _ _ Hi) (ao_alive _ _ Hok _ _ Hd)).
  specialize (Hmost q c Hc). lia.
Qed.

(** The entry at which the search for elements covered by [a] starts. *)
Lemma first_entry i a subs next mask_index :
  arrays_ok subs next -> index_ok subs mask_index -> alive subs i a ->
  exists first, mask_index !! S (bits a) = Some first
    /\ (forall q c, alive subs q c -> (bits a < bits c)%nat ->
          exists j, first = Some j /\ (j <= q < n)%nat)
    /\ (forall j, first = Some j -> inner_at i a 0 j subs next mask_index).
Proof using Hmax.
  intros Hok Hidx Hia.
  assert (bits a <= max_bits)%nat as Hba by (apply Hmax; by eapply alive_elem).
  destruct (lookup_lt_is_Some_2 mask_index (S (bits a))) as [first Hfirst];
    [rewrite (io_length _ _ Hidx); lia |].
  assert (forall q c, alive subs q c -> (bits a < bits c)%nat ->
    exists j, first = Some j /\ (j <= q < n)%nat) as Hfound.
  { intros q c Hq Hc. destruct (io_below _ _ Hidx (S (bits a)) q c) as (j & Hj & Hle);
      [lia | done | lia |].
    rewrite Hfirst in Hj. simplify_eq. exists j.
    pose proof (alive_lt _ _ _ _ Hok Hq). split; [done | lia]. }
  exists first. split_and!; [done | done |]. intros j ->. split; [done .. | | | done |].
  - intros c Hc. pose proof (io_above _ _ Hidx _ _ _ Hfirst Hc). lia.
  - intros q c _ Hq Hc. destruct (Hfound q c Hq Hc) as (? & [= <-] & ?). lia.
  - intros q c Hq Hqa Hc. destruct (Hfound q c Hqa Hc) as (? & [= <-] & ?). lia.
Qed.

Lemma irredundant_next i x subs next :
  arrays_ok subs next -> next !! i = Some x -> irredundant_below i subs ->
  (forall a q c, alive subs i a -> alive subs q c -> (bits a < bits c)%nat ->
     covers w a c = false) ->
  irredundant_below x subs.
Proof using.
  intros Hok Hx Hirr Hi p q d c Hp Hd Hc Hlt.
  destruct (Nat.lt_trichotomy p i) as [Hpi|[->|Hpi]]; [by apply (Hirr p q) | by apply (Hi d q) |].
  by destruct (ao_skip _ _ Hok i x p Hx ltac:(lia) d).
Qed.

(** The array at the end of the outer loop. *)
Definition eliminated (subs subs' : sub_array) : Prop :=
  length subs' = n /\ reduces subs subs' /\ irredundant_below n subs'.

Lemma eliminated_refl subs next :
  arrays_ok subs next -> irredundant_below n subs -> eliminated subs subs.
Proof using. intros Hok Hirr. split_and!; [apply Hok | apply reduces_refl | done]. Qed.

Lemma eliminate_spec fuel i subs next mask_index :
  arrays_ok subs next -> index_ok subs mask_index -> irredundant_below i subs ->
  (n - i <= fuel)%nat ->
  exists subs', eliminate fuel w i n subs next mask_index = Some subs'
    /\ eliminated subs subs'.
Proof using Hsorted Hmax Hcov.
  revert i subs next mask_index.
  induction fuel as [|fuel IH]; intros i subs next mask_index Hok Hidx Hirr Hf;
    cbn [eliminate]; destruct (Nat.ltb_spec i n) as [Hi|Hi]; try lia;
    try (exists subs; split; [done |]; eapply eliminated_refl; [done |];
         intros p q a c Hp; apply Hirr; lia).
  destruct (lookup_lt_is_Some_2 next i) as [x Hx]; [by rewrite (ao_length _ _ Hok) |].
  destruct (array_lookup _ _ i Hok Hi) as [[a [an Ha]]|[Ho Hdead]].
  2: { rewrite Ho, Hx. cbn [mbind option_bind]. pose proof (ao_next _ _ Hok _ _ Hx).
       apply IH; [done | done | | lia]. eapply irredundant_next; [done .. |].
       intros a q c Ha. by destruct (Hdead a). }
  rewrite Ha. cbn [mbind option_bind snd]. fold (bits a).
  assert (alive subs i a) as Hia by (by exists an).
  destruct (first_entry i a subs next mask_index Hok Hidx Hia) as (first & -> & Hfound & Hin).
  cbn [mbind option_bind].
  assert ((forall j, first = Some j -> (n <= j)%nat) -> eliminated subs subs) as Hstop.
  { intros Hnone. eapply eliminated_refl; [done |]. eapply irredundant_rest; [done .. |].
    intros q c Hq. apply Nat.nlt_ge. intros Hlt.
    destruct (Hfound q c Hq Hlt) as (j & Hj & ?). specialize (Hnone j Hj). lia. }
  destruct first as [j|]; [|by exists subs; split; [|apply Hstop]].
  destruct (Nat.ltb_spec n j) as [Hj|Hj].
  { exists subs. split; [done |]. apply Hstop. intros ? [= <-]. lia. }
  destruct (eliminate_from_spec n i a 0 j subs next mask_index (Hin j eq_refl) ltac:(lia))
    as (subs' & next' & mi' & last' & j' & -> & [Hok' Hidx' Hi' _ _ _ Hdone] & Hj' & Hred).
  cbn [mbind option_bind].
  destruct (lookup_lt_is_Some_2 next' i) as [x' Hx']; [by rewrite (ao_length _ _ Hok') |].
  rewrite Hx'. cbn [mbind option_bind]. pose proof (ao_next _ _ Hok' _ _ Hx').
  destruct (IH x' subs' next' mi' Hok' Hidx') as (subs'' & H1 & H2 & H3 & H4);
    [| lia | exists subs''; split_and!; [done | split_and!; [done | by eapply reduces_trans | done]]].
  eapply irredundant_next; [done .. | |].
  - intros p q d c Hp Hd Hc. apply (Hirr p q); [done | by apply Hred ..].
  - intros d q c Hd Hc Hlt. rewrite (alive_fun _ _ _ _ Hd Hi') in *.
    apply (Hdone q); [|done | done]. pose proof (alive_lt _ _ _ _ Hok' Hc). lia.
Qed.
End Sorted.
End Arrays.

(** ** Masks and their bit counts *)

Lemma count1_from_le v v' n :
  (forall k, 0 <= k < Z.of_nat n -> Z.testbit v k = true -> Z.testbit v' k = true) ->
  count1_from v n <= count1_from v' n
  /\ (count1_from v n = count1_from v' n ->
      forall k, 0 <= k < Z.of_nat n -> Z.testbit v k = Z.testbit v' k).
Proof.
  induction n as [|n IH]; intros H; cbn [count1_from]; [split; [done | lia] |].
  destruct IH as [IH1 IH2]; [intros k Hk; apply H; lia |].
  specialize (H (Z.of_nat n) ltac:(lia)).
  assert (forall x, 0 <= Z.b2z x <= 1) as Hb by (by intros []).
  pose proof (Hb (Z.testbit v (Z.of_nat n))). pose proof (Hb (Z.testbit v' (Z.of_nat n))).
  assert (Z.b2z (Z.testbit v (Z.of_nat n)) <= Z.b2z (Z.testbit v' (Z.of_nat n))).
  { destruct (Z.testbit v (Z.of_nat n)); [by rewrite H | cbn; lia]. }
  split; [lia |]. intros Heq k Hk.
  destruct (decide (k = Z.of_nat n)) as [->|]; [|apply IH2; lia].
  apply Z.b2z_inj. lia.
Qed.

Lemma bit_width_le s : 0 <= width s -> width s <= bit_width s.
Proof. unfold bit_width. intros. div_lia. Qed.

(** A nonzero integer has a 1-bit. *)
Lemma nonzero_bit x : 0 <= x -> x <> 0 -> exists n, 0 <= n /\ Z.testbit x n = true.
Proof.
  intros H0 Hx. exists (Z.log2 x). split; [apply Z.log2_nonneg |].
  apply Z.bit_log2. lia.
Qed.

(** An integer without bits from [w] on is less than 2^w. *)
Lemma bits_lt x w :
  0 <= w -> 0 <= x -> (forall k, w <= k -> Z.testbit x k = false) -> x < 2 ^ w.
Proof.
  intros Hw Hx Hbits. apply Z.nle_gt. intros Hle.
  assert (0 < x) as Hpos by lia. pose proof (Z.bit_log2 x Hpos) as Hb.
  rewrite Hbits in Hb; [done |]. apply Z.log2_le_pow2; lia.
Qed.

Section Covers.
Context (s : expr_symbol) (a b : expr_cmp).
Context (Hs : wf_symbol s).
Context (Ha : wf_match s (value a) (mask a)) (Hb : wf_match s (value b) (mask b)).

Lemma mask_high v m n : wf_match s v m -> bit_width s <= n -> Z.testbit m n = false.
Proof using Hs.
  intros [_ Hm _] Hn. unfold wf_symbol in Hs. pose proof (bit_width_le s ltac:(lia)).
  apply (testbit_high m (width s)); lia.
Qed.

Lemma low_bits_zero x :
  (forall n, 0 <= n -> bit_width s <= n -> Z.testbit x n = false) ->
  Z.land x (Z.ones (bit_width s)) = 0 <-> forall n, 0 <= n -> Z.testbit x n = false.
Proof using Hs.
  unfold wf_symbol in Hs. pose proof (bit_width_le s ltac:(lia)). intros Hhigh. split.
  - intros Hz n Hn. destruct (Z.lt_ge_cases n (bit_width s)); [|by apply Hhigh].
    apply (f_equal (fun y => Z.testbit y n)) in Hz.
    by rewrite Z.land_spec, Z.ones_spec_low, Z.bits_0, andb_true_r in Hz by lia.
  - intros H0. apply Z.bits_inj'. intros n Hn. by rewrite Z.land_spec, H0, Z.bits_0.
Qed.

Lemma covers_bits :
  covers (bit_width s) a b = true
  <-> forall n, 0 <= n -> Z.testbit (mask a) n = true ->
        Z.testbit (mask b) n = true /\ Z.testbit (value a) n = Z.testbit (value b) n.
Proof using Hs Ha Hb.
  unfold covers, expr_bitmap_intersect_check, bitmap_is_superset.
  rewrite andb_true_iff, !Z.eqb_eq.
  rewrite !low_bits_zero;
    [| intros n Hn Hw; rewrite ?Z.ldiff_spec, ?Z.land_spec, (mask_high _ _ _ Ha Hw);
       by rewrite ?andb_false_r ..].
  split.
  - intros [H1 H2] n Hn Hma. specialize (H1 n Hn). specialize (H2 n Hn).
    rewrite Z.ldiff_spec, Hma in H2. rewrite !Z.land_spec, Z.lxor_spec, Hma in H1.
    destruct (Z.testbit (mask b) n); [|done]. split; [done |].
    by destruct (Z.testbit (value a) n), (Z.testbit (value b) n).
  - intros H. split; intros n Hn; specialize (H n Hn).
    + rewrite !Z.land_spec, Z.lxor_spec. destruct (Z.testbit (mask a) n); [|apply andb_false_r].
      destruct H as [_ ->]; [done |]. by rewrite xorb_nilpotent.
    + rewrite Z.ldiff_spec. destruct (Z.testbit (mask a) n); [|done].
      by destruct H as [-> _].
Qed.

Lemma covers_matches x :
  covers (bit_width s) a b = true -> matches x (value b) (mask b) = true ->
  matches x (value a) (mask a) = true.
Proof using Hs Ha Hb.
  rewrite covers_bits, !matches_bits. intros Hc Hm n Hn.
  specialize (Hm n Hn). destruct (Z.testbit (mask a) n) eqn:E.
  - destruct (Hc n Hn E) as [Hmb Hv]. by rewrite Hv, <- Hm, Hmb.
  - rewrite andb_false_r. destruct (Z.testbit (value a) n) eqn:Ev; [|done].
    by rewrite (wm_subset _ _ _ Ha n Hn Ev) in E.
Qed.

(** When [a] does not cover [b], a bit of its mask shows it. *)
Lemma not_covers_bit :
  covers (bit_width s) a b = false ->
  exists n, 0 <= n < width s /\ Z.testbit (mask a) n = true
    /\ (Z.testbit (mask b) n = true -> Z.testbit (value a) n <> Z.testbit (value b) n).
Proof using Hs Ha Hb.
  intros Hc. pose proof Hs as Hs'. unfold wf_symbol in Hs'.
  set (y := Z.lor (Z.ldiff (mask a) (mask b)) (Z.land (mask a) (Z.lxor (value a) (value b)))).
  pose proof Ha as [Hva Hm _].
  destruct (nonzero_bit y) as (n & Hn & Hy).
  - apply Z.lor_nonneg. split; [apply Z.ldiff_nonneg | apply Z.land_nonneg]; lia.
  - intros Hy. apply not_true_iff_false in Hc. apply Hc, covers_bits. intros n Hn Hma.
    apply (f_equal (fun z => Z.testbit z n)) in Hy. unfold y in Hy.
    rewrite Z.lor_spec, Z.ldiff_spec, Z.land_spec, Z.lxor_spec, Hma, Z.bits_0 in Hy.
    destruct (Z.testbit (mask b) n), (Z.testbit (value a) n), (Z.testbit (value b) n);
      try done; by split.
  - unfold y in Hy. rewrite Z.lor_spec, Z.ldiff_spec, Z.land_spec, Z.lxor_spec in Hy.
    destruct (Z.testbit (mask a) n) eqn:Hma; [|done]. exists n.
    split; [split; [done |] |].
    + apply Z.nle_gt. intros Hle. by rewrite (testbit_high _ (width s)) in Hma by lia.
    + split; [done |]. intros Hmb. rewrite Hmb in Hy.
      by destruct (Z.testbit (value a) n), (Z.testbit (value b) n).
Qed.

(** When [a] does not cover [b], some value of the field is matched by [b] and
    not by [a]. *)
Lemma not_covers_value :
  covers (bit_width s) a b = false ->
  exists x, 0 <= x < 2 ^ width s /\ matches x (value b) (mask b) = true
            /\ matches x (value a) (mask a) = false.
Proof using Hs Ha Hb.
  intros Hc. pose proof (wf_match_bounds _ _ _ Hs Hb) as Hvb.
  destruct (not_covers_bit Hc) as (n & Hn & Hma & Hdiff).
  assert (forall x, matches x (value b) (mask b) = true ->
    Z.testbit x n <> Z.testbit (value a) n -> 0 <= x < 2 ^ width s ->
    exists x, 0 <= x < 2 ^ width s /\ matches x (value b) (mask b) = true
              /\ matches x (value a) (mask a) = false) as Hgoal.
  { intros x Hx Hne Hr. exists x. split_and!; [lia | lia | done |].
    apply not_true_iff_false. rewrite matches_bits. intros Hm.
    specialize (Hm n ltac:(lia)). by rewrite Hma, andb_true_r in Hm. }
  assert (forall k, 0 <= k -> Z.testbit (value b) k = true -> Z.testbit (mask b) k = true)
    as Hsub by apply Hb.
  assert (matches (value b) (value b) (mask b) = true) as Hself.
  { apply matches_bits. intros k Hk. specialize (Hsub k Hk).
    destruct (Z.testbit (value b) k); [by rewrite Hsub | done]. }
  destruct (decide (Z.testbit (value b) n = Z.testbit (value a) n)) as [Heq|Hne];
    [|by apply (Hgoal (value b))].
  destruct (Z.testbit (mask b) n) eqn:Hmb; [by destruct (Hdiff eq_refl) |].
  assert (Z.testbit (value b) n = false) as Hvbn.
  { destruct (Z.testbit (value b) n) eqn:E; [|done]. rewrite (Hsub n) in Hmb; [done | lia | done]. }
  apply (Hgoal (Z.lor (value b) (Z.shiftl 1 n))).
  - apply matches_bits. intros k Hk. rewrite matches_bits in Hself.
    specialize (Hself k Hk). rewrite Z.lor_spec, testbit_one_shifted by lia.
    destruct (Z.eqb_spec k n) as [->|]; [by rewrite Hmb, andb_false_r in * | by rewrite orb_false_r].
  - rewrite Z.lor_spec, testbit_one_shifted, Z.eqb_refl, orb_true_r, <- Heq, Hvbn by lia. done.
  - split; [apply Z.lor_nonneg; split; [lia | rewrite Z.shiftl_nonneg; lia] |].
    apply bits_lt; [lia | apply Z.lor_nonneg; split; [lia | rewrite Z.shiftl_nonneg; lia] |].
    intros k Hk. rewrite Z.lor_spec, testbit_one_shifted by lia.
    rewrite (testbit_high _ (width s)) by lia. lia.
Qed.
End Covers.

(** ** The whole function *)

(** A simple comparison over the symbol [s]. *)
Record over (s : expr_symbol) (c : expr_cmp) : Prop := {
  ov_simple : simple_cmp c;
  ov_symbol : symbol c = s;
}.

Lemma over_wf_symbol s c : over s c -> wf_symbol s.
Proof. intros [[[H _] _ _] <-]. done. Qed.

Lemma over_wf_match s c : over s c -> width s <> 0 -> wf_match s (value c) (mask c).
Proof. intros [[[_ H] _ _] <-]. done. Qed.

Lemma over_eval flow lookup_port s c :
  over s c -> width s <> 0 ->
  expr_evaluate_cmp flow lookup_port c
  = matches (field_value flow s) (value c) (mask c).
Proof. intros [[Hwf Hr _] <-] Hw. by apply eval_eq. Qed.

(** Comparisons that compare equal evaluate the same. *)
Lemma compare_eq_eval flow lookup_port s a b :
  over s a -> over s b -> compare_cmps_3way a b = Some 0 ->
  expr_evaluate_cmp flow lookup_port a = expr_evaluate_cmp flow lookup_port b.
Proof.
  intros Ha Hb Hcmp. apply compare_eq in Hcmp as [_ Hcmp].
  destruct (Z.eqb_spec (width s) 0) as [Hw|Hw].
  - destruct Ha as [[_ Hra _] Hsa], Hb as [[_ Hrb _] Hsb]. rewrite Hsa, Hw in Hcmp. cbn in Hcmp.
    unfold expr_evaluate_cmp. rewrite Hsa, Hsb, Hw, Hra, Hrb. cbn. by rewrite Hcmp.
  - rewrite !(over_eval _ _ s) by done. rewrite (ov_symbol _ _ Ha) in Hcmp.
    destruct (Z.eqb_spec (width s) 0); [done |]. by destruct Hcmp as [-> ->].
Qed.

(** A list sorted by a relation that is transitive on its elements. *)
Lemma Sorted_lookup {A} (R : A -> A -> Prop) l :
  Sorted R l ->
  (forall x y z, x ∈ l -> y ∈ l -> z ∈ l -> R x y -> R y z -> R x z) ->
  forall p q x y, (p < q)%nat -> l !! p = Some x -> l !! q = Some y -> R x y.
Proof.
  induction 1 as [|x l Hs IH Hhd]; intros Ht p q y z Hpq Hp Hq; [done |].
  destruct q as [|q]; [lia |]. cbn in Hq.
  assert (forall x y z, x ∈ l -> y ∈ l -> z ∈ l -> R x y -> R y z -> R x z) as Ht'
    by (intros; eapply Ht; [| | | done | done]; by apply list_elem_of_further).
  destruct p as [|p]; [|by eapply (IH Ht' p q); [lia | |]].
  cbn in Hp. simplify_eq. destruct Hhd as [|y' l Hr]; [done |].
  destruct q as [|q]; [by cbn in Hq; simplify_eq |].
  eapply Ht; [apply list_elem_of_here | | | done |].
  - apply list_elem_of_further, list_elem_of_here.
  - by apply list_elem_of_further, (list_elem_of_lookup_2 _ (S q)).
  - by apply (IH Ht' 0%nat (S q)); [lia | |].
Qed.

Lemma compare_cb_le s a b :
  width s <> 0 -> symbol a.2 = s -> symbol b.2 = s ->
  compare_cmps_cb a b <= 0 <-> cmp_le a.2 b.2.
Proof.
  intros Hw Ha Hb. unfold compare_cmps_cb.
  destruct (compare_numeric a.2 b.2) as (d & -> & Hd & _); [congruence | by rewrite Ha |].
  done.
Qed.

Lemma total_compare_cmps s (l : list cmp_node) :
  width s <> 0 -> (forall c, c ∈ l -> symbol c.2 = s) -> total_compare compare_cmps_cb l.
Proof.
  intros Hw Hs. split.
  - intros x y Hx Hy. rewrite !(compare_cb_le s) by auto. unfold cmp_le. lia.
  - intros x y z Hx Hy Hz. rewrite !(compare_cb_le s) by auto. unfold cmp_le. lia.
Qed.

Lemma max_n_bits_ge l c : c ∈ l -> mask_n_bits c.2 <= max_n_bits l.
Proof.
  unfold max_n_bits. induction l as [|x l IH]; [by intros ?%not_elem_of_nil |].
  intros [->|H]%elem_of_cons; cbn [foldr]; [lia |]. specialize (IH H). lia.
Qed.

(** Comparing equal is symmetric and holds for a comparison and itself. *)
Lemma compare_zero s a b :
  width s <> 0 -> over s a -> over s b ->
  compare_cmps_3way a b = Some 0 <-> value a = value b /\ mask a = mask b.
Proof.
  intros Hw Ha Hb.
  destruct (compare_numeric a b) as (d & -> & _ & Hd);
    [by rewrite (ov_symbol _ _ Ha), (ov_symbol _ _ Hb) | by rewrite (ov_symbol _ _ Ha) |].
  split.
  - intros [= ->]. destruct Hd as [Hd _]. destruct (Hd eq_refl) as (-> & -> & _). done.
  - intros [Hv Hm]. f_equal. apply Hd. split_and!; [done | done |].
    unfold mask_n_bits. by rewrite (ov_symbol _ _ Ha), (ov_symbol _ _ Hb), Hm.
Qed.

Lemma count1_nonneg v n : 0 <= count1_from v n.
Proof. induction n as [|n IH]; cbn; [done |]. destruct (Z.testbit v _); cbn; lia. Qed.

(** A comparison covers only ones with more bits in the mask and duplicates. *)
Lemma covers_more_bits s a b :
  width s <> 0 -> over s a -> over s b -> covers (bit_width s) a b = true ->
  (bits a < bits b)%nat \/ compare_cmps_3way a b = Some 0.
Proof.
  intros Hw Ha Hb Hc. pose proof (over_wf_symbol _ _ Ha) as Hs.
  pose proof (over_wf_match _ _ Ha Hw) as Hma. pose proof (over_wf_match _ _ Hb Hw) as Hmb.
  rewrite (covers_bits s) in Hc by done. pose proof Hs as Hs'. unfold wf_symbol in Hs'.
  pose proof (bit_width_le s ltac:(lia)) as Hbw.
  destruct (count1_from_le (mask a) (mask b) (Z.to_nat (bit_width s))) as [Hle Heq].
  { intros k Hk Hk1. apply Hc; [lia | done]. }
  pose proof (count1_nonneg (mask a) (Z.to_nat (bit_width s))).
  unfold bits, mask_n_bits, bitmap_count1. rewrite (ov_symbol _ _ Ha), (ov_symbol _ _ Hb).
  destruct (Z.eqb_spec (width s) 0) as [|_]; [done |].
  destruct (decide (count1_from (mask a) (Z.to_nat (bit_width s))
    = count1_from (mask b) (Z.to_nat (bit_width s)))) as [E|]; [right | left; lia].
  assert (mask a = mask b) as Hm.
  { apply Z.bits_inj'. intros n Hn. destruct (Z.lt_ge_cases n (bit_width s)).
    - apply Heq; [done | lia].
    - by rewrite (mask_high s Hs _ _ _ Hma), (mask_high s Hs _ _ _ Hmb). }
  apply (compare_zero s); [done .. |]. split; [|done].
  apply Z.bits_inj'. intros n Hn. destruct (Z.testbit (mask a) n) eqn:E1; [by apply Hc |].
  pose proof (wm_subset _ _ _ Hma n Hn) as H1. pose proof (wm_subset _ _ _ Hmb n Hn) as H2.
  rewrite E1 in H1. rewrite <- Hm, E1 in H2.
  destruct (Z.testbit (value a) n), (Z.testbit (value b) n); try done;
    (by discriminate H1) || (by discriminate H2).
Qed.

Definition node_expr (c : cmp_node) : expr := ECmp c.1 c.2.

Lemma mapM_as_cmp P children :
  Forall (is_cmp P) children ->
  exists cmps, mapM as_cmp children = Some cmps /\ children = map node_expr cmps
    /\ Forall (fun c => P c.2) cmps.
Proof.
  induction 1 as [|e l He _ (cmps & IH1 & IH2 & IH3)]; [by exists [] |].
  destruct e as [a c| | |]; try done. exists ((a, c) :: cmps). cbn.
  rewrite IH1, IH2. split_and!; [done | done |]. by constructor.
Qed.

Lemma array_elem (subs : sub_array) c :
  c ∈ omap id subs <-> exists q, subs !! q = Some (Some c).
Proof.
  rewrite list_elem_of_omap. split.
  - intros (o & Ho & Hid). cbn in Hid. subst o. by apply list_elem_of_lookup_1.
  - intros [q Hq]. exists (Some c). split; [by eapply list_elem_of_lookup_2 | done].
Qed.

Lemma array_NoDup (subs : sub_array) :
  (forall p q c d, (p < q)%nat -> alive subs p c -> alive subs q d -> c <> d) ->
  NoDup (map snd (omap id subs)).
Proof.
  induction subs as [|o subs IH]; intros H; [constructor |].
  assert (NoDup (map snd (omap id subs))) as Hnd.
  { apply IH. intros p q c d Hpq Hp Hq. by apply (H (S p) (S q)); [lia | |]. }
  destruct o as [[a c]|]; [|done]. cbn. constructor; [|done].
  intros (d & Hcd & Hd)%list_elem_of_fmap. apply array_elem in Hd as [q Hq].
  apply (H 0%nat (S q) c d.2); [lia | by exists a | | done].
  exists d.1. rewrite <- surjective_pairing. exact Hq.
Qed.

Lemma array_holds_existsb f (subs : sub_array) :
  array_holds f subs <-> existsb (fun c => f c.2) (omap id subs) = true.
Proof.
  rewrite existsb_exists. split.
  - intros (q & c & [a Hq] & Hf). exists (a, c). split; [|done].
    apply list_elem_of_In, array_elem. by exists q.
  - intros ([a c] & Hin & Hf). apply list_elem_of_In, array_elem in Hin as [q Hq].
    exists q, c. split; [by exists a | done].
Qed.

Lemma omap_id_map_Some {A} (l : list A) : omap id (map Some l) = l.
Proof. induction l as [|x l IH]; [done |]. cbn. by rewrite IH. Qed.

Lemma existsb_perm {A} (f : A -> bool) l k : l ≡ₚ k -> existsb f l = existsb f k.
Proof.
  induction 1 as [|x l k _ IH|x y l|l k j _ IH1 _ IH2]; cbn; [done | by rewrite IH | | congruence].
  by destruct (f x), (f y).
Qed.

(** For each pair of comparisons, the field has a value that the second one
    matches and the first one does not; and there are no duplicates. *)
Definition irredundant (s : expr_symbol) (l : list expr_cmp) : Prop :=
  NoDup l /\ forall c d, c ∈ l -> d ∈ l -> c <> d ->
    exists x, 0 <= x < 2 ^ width s /\ matches x (value d) (mask d) = true
              /\ matches x (value c) (mask c) = false.

Section Supersets.
Context `{!Qsort} (s : expr_symbol).
Context (flow : expr_symbol -> Z) (lookup_port : string -> option Z).

Local Abbreviation eval := (expr_evaluate_cmp flow lookup_port).

Section Array.
Context (nodes : list cmp_node) (Hne : nodes <> []).
Context (Hover : forall c, c ∈ nodes -> over s c.2).
Local Abbreviation cmps := (map snd nodes).

Lemma cmps_over c : c ∈ cmps -> over s c.
Proof using Hover. intros (d & -> & Hd)%list_elem_of_fmap. by apply Hover. Qed.

Lemma cmps_symbol a b : a ∈ cmps -> b ∈ cmps -> symbol a = symbol b.
Proof using Hover. intros Ha%cmps_over Hb%cmps_over. by rewrite (ov_symbol _ _ Ha), (ov_symbol _ _ Hb). Qed.

Lemma initial_alive q c :
  (q < length nodes)%nat -> nodes !! q = Some c -> alive (map Some nodes) q c.2.
Proof using. intros Hq Hc. exists c.1. rewrite list_lookup_fmap, Hc. by destruct c. Qed.

Lemma initial_dedup : dedup_at cmps 1 0 (map Some nodes) (map S (seq 0 (length nodes))).
Proof using Hne Hover.
  assert (0 < length nodes)%nat as Hpos by (destruct nodes; [done | cbn; lia]).
  assert (forall q, (q < length nodes)%nat -> exists c, alive (map Some nodes) q c) as Hlive.
  { intros q Hq. destruct (lookup_lt_is_Some_2 _ _ Hq) as [c Hc].
    exists c.2. by apply initial_alive. }
  split; [split | lia | by apply Hlive | lia |].
  - by rewrite !length_map.
  - intros q c [a Hq]. rewrite list_lookup_fmap in Hq. rewrite list_lookup_fmap.
    destruct (nodes !! q) as [d|]; [|done]. cbn in *. by simplify_eq.
  - by rewrite !length_map, length_seq.
  - intros p x Hp. rewrite list_lookup_fmap in Hp.
    destruct (seq 0 _ !! p) as [y|] eqn:Hy; cbn in Hp; simplify_eq.
    apply lookup_seq in Hy as [-> _]. lia.
  - intros p x q Hp Hq. rewrite list_lookup_fmap in Hp.
    destruct (seq 0 _ !! p) as [y|] eqn:Hy; cbn in Hp; simplify_eq.
    apply lookup_seq in Hy as [-> _]. lia.
  - intros q Hq. apply Hlive. rewrite length_map in Hq. lia.
Qed.

Lemma dedup_nodes :
  exists subs next,
    dedup (length nodes - 1) 1 0 (map Some nodes) (map S (seq 0 (length nodes)))
    = Some (subs, next)
    /\ arrays_ok cmps subs next
    /\ (array_holds eval subs <-> array_holds eval (map Some nodes)).
Proof using Hne Hover.
  assert (0 < length nodes)%nat as Hpos by (destruct nodes; [done | cbn; lia]).
  apply dedup_spec; [apply cmps_symbol | | apply initial_dedup | rewrite length_map; lia].
  intros a b Ha%cmps_over Hb%cmps_over. by apply (compare_eq_eval _ _ s).
Qed.

Section Ordinal.
Context (Hw : width s <> 0) (Hsorted : Sorted (fun x y => compare_cmps_cb x y <= 0) nodes).
Context (max_bits : nat) (Hmax : forall c, c ∈ nodes -> (bits c.2 <= max_bits)%nat).

Lemma cmps_sorted p q a b :
  (p < q)%nat -> cmps !! p = Some a -> cmps !! q = Some b -> cmp_le a b.
Proof using Hw Hsorted Hover.
  rewrite !list_lookup_fmap. intros Hpq Hp Hq.
  destruct (nodes !! p) as [x|] eqn:Hx, (nodes !! q) as [y|] eqn:Hy; try done.
  cbn in *. simplify_eq.
  assert (forall c, c ∈ nodes -> symbol c.2 = s) as Hs by (intros; by apply Hover).
  pose proof (total_compare_cmps s nodes Hw Hs) as Htot.
  apply (compare_cb_le s); [done | apply Hs; by eapply list_elem_of_lookup_2 .. |].
  eapply (Sorted_lookup _ nodes Hsorted); [apply Htot | done ..].
Qed.

Lemma distinct_irredundant subs :
  (forall q c, alive subs q c -> c ∈ cmps) ->
  (forall q c, alive subs q c -> (q < length cmps)%nat) ->
  distinct_below (length cmps) subs ->
  irredundant_below (bit_width s) (length cmps) subs ->
  irredundant s (map snd (omap id subs)).
Proof using Hw Hover.
  intros Hel Hlt Hdis Hirr.
  assert (forall p q c d, p <> q -> alive subs p c -> alive subs q d ->
    ~ (value c = value d /\ mask c = mask d)) as Hpair.
  { intros p q c d Hpq Hp Hq [Hv Hm]. pose proof (Hlt p c Hp). pose proof (Hlt q d Hq).
    destruct (Nat.lt_ge_cases p q).
    - apply (Hdis p q c d); [lia | done | done |]. apply (compare_zero s); by eauto using cmps_over.
    - apply (Hdis q p d c); [lia | done | done |]. apply (compare_zero s); by eauto using cmps_over. }
  split.
  { apply array_NoDup. intros p q c d Hpq Hp Hq ->. apply (Hpair p q d d); [lia | done ..]. }
  intros c d (c' & -> & Hc)%list_elem_of_fmap (d' & -> & Hd)%list_elem_of_fmap Hne'.
  apply array_elem in Hc as [p Hp]. apply array_elem in Hd as [q Hq].
  assert (alive subs p c'.2) as Hpa by (exists c'.1; by rewrite <- surjective_pairing).
  assert (alive subs q d'.2) as Hqa by (exists d'.1; by rewrite <- surjective_pairing).
  assert (p <> q) as Hpq by (intros ->; by rewrite (alive_fun _ _ _ _ Hpa Hqa) in Hne').
  pose proof (cmps_over _ (Hel _ _ Hpa)) as Hco. pose proof (cmps_over _ (Hel _ _ Hqa)) as Hdo.
  apply not_covers_value; [by eapply over_wf_symbol | by apply over_wf_match ..|].
  apply not_true_iff_false. intros Hcov.
  destruct (covers_more_bits s _ _ Hw Hco Hdo Hcov) as [Hb|Hz].
  - rewrite (Hirr p q _ _ (Hlt _ _ Hpa) Hpa Hqa Hb) in Hcov. done.
  - apply (compare_zero s) in Hz; [|done ..]. by apply (Hpair p q _ _ Hpq Hpa Hqa).
Qed.

(** The two phases on a field that can be masked. *)
Lemma eliminate_nodes subs next :
  dedup (length nodes - 1) 1 0 (map Some nodes) (map S (seq 0 (length nodes)))
  = Some (subs, next) ->
  arrays_ok cmps subs next ->
  exists subs',
    (mask_index ← build_index (length nodes) 0 (length nodes) subs next
                    (replicate (max_bits + 2) None);
     mask_index ← fill_gaps max_bits mask_index;
     eliminate (length nodes) (bit_width s) 0 (length nodes) subs next mask_index)
    = Some subs'
    /\ (forall q c, alive subs' q c -> c ∈ cmps)
    /\ (array_holds eval subs' <-> array_holds eval subs)
    /\ irredundant s (map snd (omap id subs')).
Proof using Hw Hsorted Hover Hmax Hne.
  intros Hdd Hok. assert (length cmps = length nodes) as Hlen by apply length_map.
  assert (forall a, a ∈ cmps -> width (symbol a) <> 0) as Hnum
    by (intros a Ha%cmps_over; by rewrite (ov_symbol _ _ Ha)).
  assert (forall a, a ∈ cmps -> (bits a <= max_bits)%nat) as Hmaxc
    by (intros a (c & -> & Hc)%list_elem_of_fmap; by apply Hmax).
  assert (forall a b, a ∈ cmps -> b ∈ cmps -> covers (bit_width s) a b = true ->
    eval b = true -> eval a = true) as Hcov.
  { intros a b Ha%cmps_over Hb%cmps_over. rewrite !(over_eval _ _ s) by done.
    apply covers_matches; [by eapply over_wf_symbol | by apply over_wf_match ..]. }
  assert (distinct_below (length cmps) subs) as Hdis.
  { eapply dedup_distinct; [apply cmps_symbol | done | apply cmps_sorted | apply initial_dedup | | | done].
    - intros p q. lia.
    - rewrite Hlen. destruct nodes; [done | cbn; lia]. }
  rewrite <- Hlen.
  destruct (build_index_spec cmps max_bits Hmaxc (length cmps) 0 subs next
    (replicate (max_bits + 2) None)) as (mi & -> & Hl & Habove & Hexact);
    [done | lia | by rewrite length_replicate | | lia |].
  { intros k j c Hk. by apply lookup_replicate_1 in Hk as [? _]. }
  cbn [mbind option_bind].
  destruct (fill_gaps_spec cmps max_bits Hmaxc max_bits subs mi) as (mi' & -> & Hidx);
    [intros q c; by eapply alive_elem | done | done | done | done | |].
  { intros k q c Hk Hq Hb. pose proof (Hmaxc c (alive_elem _ _ _ _ _ Hok Hq)). lia. }
  cbn [mbind option_bind].
  destruct (eliminate_spec cmps cmps_sorted max_bits Hmaxc (bit_width s) eval Hcov
    (length cmps) 0 subs next mi') as (subs' & -> & Hl' & [Hal Hh] & Hirr);
    [done | done | | lia |].
  { intros p q a c Hp. lia. }
  exists subs'. split_and!; [done | | done |].
  - intros q c Hq. eapply alive_elem; [done | by apply Hal].
  - apply distinct_irredundant; [| | | done].
    + intros q c Hq. eapply alive_elem; [done | by apply Hal].
    + intros q c Hq. eapply alive_lt; [done | by apply Hal].
    + intros p q a c Hpq Ha Hc. apply (Hdis p q); [done | by apply Hal ..].
Qed.
End Ordinal.
End Array.
(** No comparison of the list belongs to an address set. *)
Definition no_addr_set (l : list expr) : Prop :=
  Forall (fun e => match e with ECmp (Some _) _ => False | _ => True end) l.

Lemma map_alive_over (subs : sub_array) :
  (forall q c, alive subs q c -> over s c) ->
  Forall (is_cmp (over s)) (map node_expr (omap id subs)).
Proof using.
  intros Hal. apply Forall_forall. intros e (c & -> & Hc)%list_elem_of_fmap.
  apply array_elem in Hc as [q Hq]. cbn. apply (Hal q). exists c.1.
  by rewrite <- surjective_pairing.
Qed.

Lemma existsb_nodes icr l :
  existsb (denote flow lookup_port icr) (map node_expr l) = existsb (fun c => eval c.2) l.
Proof using. induction l as [|c l IH]; [done |]. cbn. by rewrite IH. Qed.

Lemma supersets_spec icr a children :
  children <> [] -> Forall (is_cmp (over s)) children ->
  exists l, crush_or_supersets a children s = Some (EAndOr OR a (map node_expr l))
    /\ Forall (is_cmp (over s)) (map node_expr l)
    /\ existsb (denote flow lookup_port icr) (map node_expr l)
       = existsb (denote flow lookup_port icr) children
    /\ (width s <> 0 -> level s = EXPR_L_ORDINAL -> no_addr_set children ->
        irredundant s (map snd l)).
Proof.
  intros Hne Hall. destruct (mapM_as_cmp _ _ Hall) as (cmps & Hm & -> & Hover).
  unfold crush_or_supersets. rewrite Hm. cbn [mbind option_bind].
  set (nodes := qsort compare_cmps_cb cmps).
  assert (nodes ≡ₚ cmps) as Hperm by apply qsort_permutation.
  rewrite <- (Permutation_length Hperm).
  assert (nodes <> []) as Hnn.
  { intros E. rewrite E in Hperm. apply Permutation_nil_l in Hperm. by subst cmps. }
  assert (forall c, c ∈ nodes -> over s c.2) as Hov.
  { intros c Hc. rewrite Hperm in Hc. rewrite Forall_forall in Hover. by apply Hover. }
  destruct (dedup_nodes nodes Hnn Hov) as (subs & next & Hdd & Hok & Hholds).
  rewrite Hdd. cbn [mbind option_bind].
  assert (forall subs, (array_holds eval subs <-> array_holds eval (map Some nodes)) ->
    existsb (denote flow lookup_port icr) (map node_expr (omap id subs))
    = existsb (denote flow lookup_port icr) (map node_expr cmps)) as Heq.
  { intros subs' Hs. rewrite !existsb_nodes, <- (existsb_perm _ _ _ Hperm).
    apply eq_true_iff_eq. rewrite <- array_holds_existsb, Hs, array_holds_existsb.
    by rewrite omap_id_map_Some. }
  assert (forall q c, alive subs q c -> over s c) as Hal.
  { intros q c Hq. by eapply (cmps_over nodes Hov), alive_elem. }
  destruct (Z.eqb_spec (width s) 0) as [Hw|Hw]; cbn [orb mbind option_bind].
  { exists (omap id subs). split_and!; [done | by apply map_alive_over | by apply Heq | done]. }
  case_bool_decide as Hlev; cbn [negb orb mbind option_bind].
  2: { exists (omap id subs). split_and!; [done | by apply map_alive_over | by apply Heq | done]. }
  destruct (existsb _ cmps) eqn:Has; cbn [mbind option_bind].
  { exists (omap id subs). split_and!; [done | by apply map_alive_over | by apply Heq |].
    intros _ _ Hno. exfalso. apply existsb_exists in Has as (c & Hc & Hsome).
    apply list_elem_of_In in Hc. unfold no_addr_set in Hno. rewrite Forall_map in Hno.
    rewrite Forall_forall in Hno. specialize (Hno c Hc).
    apply bool_decide_eq_true in Hsome as [n Hn]. cbn in Hno. by rewrite Hn in Hno. }
  destruct (eliminate_nodes nodes Hnn Hov Hw) with (max_bits := Z.to_nat (max_n_bits cmps))
    (subs := subs) (next := next) as (subs' & Hel & Hin & Hh & Hirr).
  - apply qsort_sorted, (total_compare_cmps s); [done |]. intros c Hc. apply Hov.
    by rewrite Hperm.
  - intros c Hc. rewrite Hperm in Hc. unfold bits.
    pose proof (max_n_bits_ge cmps c Hc). lia.
  - done.
  - done.
  - rewrite Hel. cbn [mbind option_bind]. exists (omap id subs').
    split_and!; [done | | apply Heq; by rewrite Hh | done].
    apply map_alive_over. intros q c Hq. by eapply (cmps_over nodes Hov), Hin.
Qed.
End Supersets.

(** Insertion sort is a [qsort]. *)
Section InsertionSort.
Context {A : Type} (cmp : A -> A -> Z).

Lemma sort_insert_perm x l : sort_insert cmp x l ≡ₚ x :: l.
Proof.
  induction l as [|y l IH]; cbn; [done |]. destruct (_ <=? _); [done |].
  rewrite IH. apply Permutation_swap.
Qed.

Lemma insertion_sort_perm l : insertion_sort cmp l ≡ₚ l.
Proof. induction l as [|x l IH]; cbn; [done |]. by rewrite sort_insert_perm, IH. Qed.

Lemma sort_insert_sorted x l :
  (forall y, y ∈ l -> cmp x y <= 0 \/ cmp y x <= 0) ->
  Sorted (fun x y => cmp x y <= 0) l ->
  Sorted (fun x y => cmp x y <= 0) (sort_insert cmp x l).
Proof.
  intros Htot Hs. induction Hs as [|y l Hs IH Hhd]; cbn [sort_insert].
  { by repeat constructor. }
  destruct (Z.leb_spec (cmp x y) 0) as [Hle|Hgt]; [by repeat constructor |].
  assert (cmp y x <= 0) as Hyx by (destruct (Htot y); [apply list_elem_of_here | lia | done]).
  constructor.
  - apply IH. intros z Hz. apply Htot. by apply list_elem_of_further.
  - destruct Hhd as [|z l Hyz]; cbn [sort_insert]; [by constructor |].
    destruct (_ <=? _); by constructor.
Qed.

Lemma insertion_sort_sorted l :
  total_compare cmp l -> Sorted (fun x y => cmp x y <= 0) (insertion_sort cmp l).
Proof.
  induction l as [|x l IH]; intros [Htot Htrans]; cbn; [constructor |].
  apply sort_insert_sorted.
  - intros y Hy. rewrite insertion_sort_perm in Hy.
    apply Htot; [apply list_elem_of_here | by apply list_elem_of_further].
  - apply IH. split.
    + intros y z Hy Hz. apply Htot; by apply list_elem_of_further.
    + intros y z u Hy Hz Hu. apply Htrans; by apply list_elem_of_further.
Qed.
End InsertionSort.

Definition insertion_qsort : Qsort := {|
  qsort := @insertion_sort;
  qsort_permutation := @insertion_sort_perm;
  qsort_sorted := @insertion_sort_sorted;
|}.
