(* ===== verification/ExprCrush.v ===== *)
(** * Combining the comparisons of one symbol ([crush_cmps])

    [crush_cmps] reduces an expression over one symbol to a comparison, a
    disjunction of comparisons or false.  The proofs show that it does so for
    every expression that [expr_simplify] produces, that no assertion in it
    fails, that the recursion ends, and that the meaning is kept. *)
From stdpp Require Import base option list strings gmap.
From Stdlib Require Import ZArith Lia.
From S2P Require Import Prelude Subvalue Expr ExprLemmas ExprSupersets.
Import Subvalue Expr.

Local Open Scope Z_scope.

(** ** Intersection of two matches *)

Lemma intersect_wf s v1 m1 v2 m2 v m :
  wf_match s v1 m1 -> wf_match s v2 m2 -> mf_subvalue_intersect v1 m1 v2 m2 = Some (v, m) ->
  wf_symbol s -> wf_match s v m /\ m = Z.lor m1 m2.
Proof.
  unfold mf_subvalue_intersect, wf_symbol. intros [Hv1 Hm1 Hs1] [Hv2 Hm2 Hs2] Hi Hs.
  destruct (_ =? _); cbn in Hi; simplify_eq. split; [split | done].
  - by apply Z.lor_nonneg.
  - assert (0 <= Z.lor m1 m2) by (apply Z.lor_nonneg; lia).
    split; [done |]. apply bits_lt; [lia | done |]. intros k Hk.
    by rewrite Z.lor_spec, !(BitwiseProofs.testbit_high _ (width s)) by lia.
  - intros n Hn. rewrite !Z.lor_spec, !orb_true_iff. intros [H|H]; auto.
Qed.

Lemma intersect_matches s x v1 m1 v2 m2 :
  wf_match s v1 m1 -> wf_match s v2 m2 ->
  match mf_subvalue_intersect v1 m1 v2 m2 with
  | Some (v, m) => matches x v m
  | None => false
  end = matches x v1 m1 && matches x v2 m2.
Proof.
  unfold mf_subvalue_intersect. intros [_ _ Hs1] [_ _ Hs2].
  apply eq_true_iff_eq. rewrite andb_true_iff, !matches_bits.
  destruct (Z.eqb_spec (Z.land (Z.lxor v1 v2) (Z.land m1 m2)) 0) as [Hz|Hnz]; cbn [negb].
  - rewrite matches_bits.
    assert (forall n, 0 <= n -> Z.testbit m1 n = true -> Z.testbit m2 n = true ->
      Z.testbit v1 n = Z.testbit v2 n) as Hagree.
    { intros n Hn H1 H2. apply (f_equal (fun y => Z.testbit y n)) in Hz.
      rewrite !Z.land_spec, Z.lxor_spec, H1, H2, Z.bits_0 in Hz.
      by destruct (Z.testbit v1 n), (Z.testbit v2 n). }
    split.
    + intros H. split; intros n Hn; specialize (H n Hn); specialize (Hs1 n Hn);
        specialize (Hs2 n Hn); specialize (Hagree n Hn); rewrite !Z.lor_spec in H;
        destruct (Z.testbit m1 n), (Z.testbit m2 n), (Z.testbit v1 n), (Z.testbit v2 n),
          (Z.testbit x n); cbn in *; try done; try (by discriminate Hs1; auto);
        try (by discriminate Hs2; auto); try (by discriminate Hagree; auto).
    + intros [H1 H2] n Hn. rewrite !Z.lor_spec, <- H1, <- H2 by done.
      by destruct (Z.testbit x n), (Z.testbit m1 n), (Z.testbit m2 n).
  - split; [done |]. intros [H1 H2]. destruct Hnz. apply Z.bits_inj'. intros n Hn.
    rewrite !Z.land_spec, Z.lxor_spec, <- H1, <- H2, Z.bits_0 by done.
    by destruct (Z.testbit x n), (Z.testbit m1 n), (Z.testbit m2 n).
Qed.

Lemma foldr_max_le {A} (f : A -> nat) base l b :
  (foldr (fun y k => Nat.max (f y) k) base l <= b)%nat
  <-> (base <= b)%nat /\ Forall (fun y => (f y <= b)%nat) l.
Proof.
  induction l as [|y l IH]; cbn [foldr]; rewrite ?Forall_nil, ?Forall_cons; [tauto |].
  rewrite Nat.max_lub_iff, IH. tauto.
Qed.

Section Crush.
Context `{!Qsort} (s : expr_symbol) (Hs : wf_symbol s).
Context (flow : expr_symbol -> Z) (lookup_port : string -> option Z).
Context (icr : string -> bool).
Context (Hinj : forall a b p, lookup_port a = Some p -> lookup_port b = Some p -> a = b).

Local Abbreviation denote := (denote flow lookup_port icr).
Local Abbreviation x := (field_value flow s).

(** The result of crushing: false, a comparison, or a disjunction. *)
Definition crushed (e : expr) : Prop :=
  match e with EBoolean b => b = false | _ => disjunction (over s) e end.

Definition crush_ok (crush : expr -> option expr) (e : expr) : Prop :=
  exists e', crush e = Some e' /\ crushed e' /\ denote e' = denote e.

(** A disjunction of at least two comparisons. *)
Definition or_of_cmps (e : expr) : Prop :=
  exists a ds, e = EAndOr OR a ds /\ (2 <= length ds)%nat /\ Forall (is_cmp (over s)) ds.

Lemma crushed_cases e :
  crushed e ->
  e = EBoolean false \/ (exists a c, e = ECmp a c /\ over s c) \/ or_of_cmps e.
Proof.
  destruct e as [a c|[] a ds|b|n str]; cbn; try done.
  - intros Hc. right; left. by exists a, c.
  - intros [? ?]. right; right. by exists a, ds.
  - intros ->. by left.
Qed.

Lemma or_of_cmps_disjunction e : or_of_cmps e -> disjunction (over s) e.
Proof. by intros (a & ds & -> & ? & ?). Qed.

(** ** Disjunctions *)

Lemma fix_or_crushed a subs :
  Forall (fun e => is_cmp (over s) e \/ e = EBoolean false) subs ->
  crushed (expr_fix (EAndOr OR a subs)).
Proof.
  intros Hall. cbn [expr_fix]. unfold expr_fix_andor.
  assert (exists l, fix_subs subs true = Some l /\ Forall (is_cmp (over s)) l) as (l & -> & Hl).
  { induction Hall as [|e subs He _ (l & IH1 & IH2)]; [by exists [] |]. cbn [fix_subs].
    destruct e as [a' c| |b|]; destruct He as [He|He]; try done.
    - exists (ECmp a' c :: l). rewrite IH1. split; [done | by constructor].
    - simplify_eq. by exists l. }
  destruct l as [|e [|e' l]]; [done | |].
  - apply Forall_cons in Hl as [He _]. by destruct e.
  - cbn. split; [lia | done].
Qed.

Lemma insert_crushed e :
  crushed e -> Forall (fun e => is_cmp (over s) e \/ e = EBoolean false) (expr_insert_andor OR e).
Proof.
  intros [->|[(a & c & -> & Hc)|(a & ds & -> & _ & Hds)]]%crushed_cases; cbn.
  - apply Forall_singleton. by right.
  - apply Forall_singleton. by left.
  - eapply Forall_impl; [done |]. intros. by left.
Qed.

Lemma crush_or_spec crush a subs :
  Forall (crush_ok crush) subs -> crush_ok (fun _ => crush_or crush a subs s) (EAndOr OR a subs).
Proof using.
  intros Hsubs. unfold crush_or.
  destruct (splice_total OR crush subs) as [subs' Hsp].
  { eapply Forall_impl; [done |]. intros e (e' & -> & _). by eexists. }
  assert (denote_subs flow lookup_port icr OR subs' = denote_subs flow lookup_port icr OR subs)
    as Hden.
  { eapply denote_splice; [done |]. eapply Forall_impl; [done |].
    intros e (e' & -> & _ & Hd) ? [= <-]. done. }
  assert (Forall (fun e => is_cmp (over s) e \/ e = EBoolean false) subs') as Hcmps.
  { clear Hden. revert subs' Hsp. induction Hsubs as [|e subs (e' & He & Hc & _) _ IH];
      intros subs' Hsp; cbn in Hsp; [by simplify_eq |].
    rewrite He in Hsp. cbn in Hsp. destruct (splice OR crush subs) as [rest|]; [|done].
    cbn in Hsp. simplify_eq. apply Forall_app. split; [by apply insert_crushed | by apply IH]. }
  rewrite Hsp. cbn [mbind option_bind].
  pose proof (fix_or_crushed a subs' Hcmps) as Hfix.
  pose proof (denote_fix flow lookup_port icr (EAndOr OR a subs')) as Hdfix.
  rewrite denote_andor, Hden in Hdfix.
  destruct (crushed_cases _ Hfix) as [E|[(a' & c & E & Hc)|(a' & ds & E & Hl & Hds)]];
    rewrite E in *; [by eexists | by eexists |].
  destruct (supersets_spec s flow lookup_port icr a' ds) as (l & Hsup & Hlc & Hd & _);
    [intros ->; cbn in Hl; lia | done |].
  rewrite Hsup. cbn [mbind option_bind]. eexists. split; [done |]. split.
  - apply fix_or_crushed. eapply Forall_impl; [done |]. intros. by left.
  - rewrite denote_fix, !denote_andor. cbn [denote_subs]. rewrite Hd. exact Hdfix.
Qed.

(** ** Conjunctions over a numeric symbol *)

Section Numeric.
Context (Hw : width s <> 0).

Lemma eval_over c : over s c -> expr_evaluate_cmp flow lookup_port c = matches x (value c) (mask c).
Proof using Hw. intros. by apply over_eval. Qed.

Lemma over_intersect c v m v' m' cs :
  over s c -> wf_match s v m -> mf_subvalue_intersect v m (value c) (mask c) = Some (v', m') ->
  over s {| symbol := s; relop := EXPR_R_EQ; cst_string := cs; value := v'; mask := m' |}
  /\ wf_match s v' m' /\ m' <> 0.
Proof using Hw Hs.
  intros Hc Hvm Hi. pose proof (over_wf_match _ _ Hc Hw) as Hcm.
  destruct (intersect_wf s _ _ _ _ _ _ Hvm Hcm Hi Hs) as [Hwf ->].
  assert (Z.lor m (mask c) <> 0) as Hnz.
  { destruct Hc as [[_ _ Hm] Hsym]. rewrite Hsym in Hm. intros [_ Hz]%Z.lor_eq_0_iff.
    by apply (Hm Hw). }
  split_and!; [|done | done]. split; [|done]. by split; [split | |].
Qed.

(** The state of the loop: the comparisons so far amount to [v]/[m], and the
    ORs so far are in [ors]. *)
Lemma and_numeric_loop_spec crush subs v m ors :
  Forall (crush_ok crush) subs -> wf_match s v m -> Forall or_of_cmps ors ->
  exists r, and_numeric_loop crush subs v m ors = Some r
    /\ match r with
       | inl e => e = EBoolean false
                  /\ matches x v m && forallb denote ors && forallb denote subs = false
       | inr (v', m', ors') =>
           wf_match s v' m' /\ Forall or_of_cmps ors'
           /\ (length ors' <= length ors + length subs)%nat
           /\ (m' = 0 -> m = 0 /\ length ors' = (length ors + length subs)%nat)
           /\ matches x v' m' && forallb denote ors'
              = matches x v m && forallb denote ors && forallb denote subs
       end.
Proof using Hw Hs.
  intros Hsubs. revert v m ors.
  induction Hsubs as [|e subs (e' & He & Hc & Hd) _ IH]; intros v m ors Hvm Hors.
  { eexists. split; [done |]. cbn. rewrite andb_true_r. split_and!; [done | done | lia | split; [done | lia] | done]. }
  cbn [and_numeric_loop forallb length]. rewrite He, <- Hd. cbn [mbind option_bind].
  destruct (crushed_cases _ Hc) as [->|[(a & c & -> & Hov)|Hor]].
  - eexists. split; [done |]. cbn. by rewrite andb_false_r.
  - cbn [ExprLemmas.denote]. rewrite eval_over by done.
    pose proof (intersect_matches s x v m (value c) (mask c) Hvm (over_wf_match _ _ Hov Hw)) as Hi.
    destruct (mf_subvalue_intersect v m (value c) (mask c)) as [[v' m']|] eqn:E.
    + destruct (over_intersect c v m v' m' EmptyString Hov Hvm E) as (_ & Hwf & Hnz).
      destruct (IH v' m' ors Hwf Hors) as (r & Hr & Hspec).
      assert (forall b, matches x v' m' && forallb denote ors && b
        = matches x v m && forallb denote ors && (matches x (value c) (mask c) && b)) as Hb.
      { intros b. rewrite Hi. destruct (matches x v m), (matches x (value c) (mask c)),
          (forallb denote ors), b; done. }
      exists r. split; [done |]. rewrite <- Hb.
      destruct r as [e''|[[v'' m''] ors'']]; [done |].
      destruct Hspec as (H1 & H2 & H3 & H4 & H5). split_and!; [done | done | lia | | done].
      intros Hz. by destruct (H4 Hz).
    + eexists. split; [done |]. split; [done |].
      destruct (matches x v m), (matches x (value c) (mask c)), (forallb denote ors),
        (forallb denote subs); done.
  - destruct (IH v m (ors ++ [e'])) as (r & Hr & Hspec);
      [done | apply Forall_app; split; [done | by constructor] |].
    rewrite forallb_app in Hspec. cbn [forallb] in Hspec.
    rewrite andb_true_r, length_app in Hspec. cbn [length] in Hspec.
    pose proof Hor as (a & ds & E & _). rewrite E in Hr |- *. exists r. split; [done |].
    rewrite <- E in *. rewrite !andb_assoc in *.
    destruct r as [e''|[[v'' m''] ors'']]; [done |].
    destruct Hspec as (H1 & H2 & H3 & H4 & H5). split_and!; [done | done | lia | | done].
    intros Hz. destruct (H4 Hz). split; [done | lia].
Qed.
(** "a && (b || c || d)" distributed. *)
Lemma distribute_cmp_spec v m ds :
  wf_match s v m -> Forall (is_cmp (over s)) ds ->
  exists l, distribute_cmp v m ds = Some l /\ Forall (is_cmp (over s)) l
    /\ existsb denote l = matches x v m && existsb denote ds.
Proof using Hw Hs.
  intros Hvm. induction 1 as [|e ds He _ (l & IH1 & IH2 & IH3)].
  { exists []. cbn. by rewrite andb_false_r. }
  destruct e as [a c| | |]; try done. cbn [distribute_cmp as_cmp]. cbn in He.
  rewrite IH1. cbn [mbind option_bind existsb ExprLemmas.denote]. rewrite eval_over by done.
  pose proof (intersect_matches s x v m (value c) (mask c) Hvm (over_wf_match _ _ He Hw)) as Hi.
  destruct (mf_subvalue_intersect v m (value c) (mask c)) as [[v' m']|] eqn:E.
  - destruct (over_intersect c v m v' m' (cst_string c) He Hvm E) as (Hov & _ & _).
    assert (symbol c = s) as -> by apply He.
    assert (relop c = EXPR_R_EQ) as -> by apply He.
    eexists. split; [done |]. split; [by constructor |]. cbn [existsb ExprLemmas.denote].
    rewrite eval_over, IH3 by done. cbn [value mask]. rewrite Hi.
    by destruct (matches x v m).
  - exists l. split_and!; [done | done |]. rewrite IH3.
    destruct (matches x v m), (matches x (value c) (mask c)); done.
Qed.

Lemma product_row_spec v m bs :
  wf_match s v m -> Forall (is_cmp (over s)) bs ->
  exists l, product_row s v m bs = Some l /\ Forall (is_cmp (over s)) l
    /\ existsb denote l = matches x v m && existsb denote bs.
Proof using Hw Hs.
  intros Hvm. induction 1 as [|e bs He _ (l & IH1 & IH2 & IH3)].
  { exists []. cbn. by rewrite andb_false_r. }
  destruct e as [a c| | |]; try done. cbn [product_row as_cmp]. cbn in He.
  rewrite IH1. cbn [mbind option_bind existsb ExprLemmas.denote]. rewrite eval_over by done.
  pose proof (intersect_matches s x v m (value c) (mask c) Hvm (over_wf_match _ _ He Hw)) as Hi.
  destruct (mf_subvalue_intersect v m (value c) (mask c)) as [[v' m']|] eqn:E.
  - destruct (over_intersect c v m v' m' EmptyString He Hvm E) as (Hov & _ & _).
    eexists. split; [done |]. split; [by constructor |]. cbn [existsb ExprLemmas.denote].
    rewrite eval_over, IH3 by done. cbn [value mask cmp_eq]. rewrite Hi.
    by destruct (matches x v m).
  - exists l. split_and!; [done | done |]. rewrite IH3.
    destruct (matches x v m), (matches x (value c) (mask c)); done.
Qed.

Lemma product_spec v m as_ bs :
  wf_match s v m -> Forall (is_cmp (over s)) as_ -> Forall (is_cmp (over s)) bs ->
  exists l, product s v m as_ bs = Some l /\ Forall (is_cmp (over s)) l
    /\ existsb denote l = matches x v m && existsb denote as_ && existsb denote bs.
Proof using Hw Hs.
  intros Hvm Has Hbs. induction Has as [|e as_ He _ (l & IH1 & IH2 & IH3)].
  { exists []. cbn. by rewrite andb_false_r. }
  destruct e as [a c| | |]; try done. cbn [product as_cmp]. cbn in He.
  rewrite IH1. cbn [mbind option_bind existsb ExprLemmas.denote]. rewrite eval_over by done.
  pose proof (intersect_matches s x v m (value c) (mask c) Hvm (over_wf_match _ _ He Hw)) as Hi.
  destruct (mf_subvalue_intersect v m (value c) (mask c)) as [[v' m']|] eqn:E.
  - destruct (over_intersect c v m v' m' EmptyString He Hvm E) as (_ & Hwf & _).
    destruct (product_row_spec v' m' bs Hwf Hbs) as (row & Hr1 & Hr2 & Hr3).
    rewrite Hr1. cbn [mbind option_bind]. eexists. split; [done |].
    split; [by apply Forall_app |]. rewrite existsb_app, Hr3, IH3, Hi.
    destruct (matches x v m), (matches x (value c) (mask c)), (existsb denote as_),
      (existsb denote bs); done.
  - cbn [mbind option_bind]. exists l. split_and!; [done | done |]. rewrite IH3.
    destruct (matches x v m), (matches x (value c) (mask c)), (existsb denote as_),
      (existsb denote bs); done.
Qed.

(** What is left to do after the loop is within [crush]: disjunctions of
    comparisons, comparisons, and conjunctions of fewer disjunctions. *)
Record crush_rest_ok (crush : expr -> option expr) (n : nat) : Prop := {
  cr_cmp e : is_cmp (over s) e -> crush_ok crush e;
  cr_or l : (2 <= length l)%nat -> Forall (is_cmp (over s)) l ->
    crush_ok crush (EAndOr OR None l);
  cr_and l : (2 <= length l < n)%nat -> Forall (disjunction (over s)) l ->
    crush_ok crush (EAndOr AND None l);
}.

Lemma crush_ok_eq crush e e0 :
  crush_ok crush e -> denote e = e0 ->
  exists e', crush e = Some e' /\ crushed e' /\ denote e' = e0.
Proof using. intros (e' & H1 & H2 & H3) <-. by exists e'. Qed.

Lemma crush_product_spec crush a v m as_ bs rest :
  crush_rest_ok crush (S (S (length rest))) -> wf_match s v m ->
  Forall or_of_cmps (as_ :: bs :: rest) ->
  exists e, crush_ors crush a s v m (as_ :: bs :: rest) = Some e /\ crushed e
    /\ denote e = matches x v m && forallb denote (as_ :: bs :: rest).
Proof using Hw Hs.
  intros [Hcmp Hor Hand] Hvm Hall. apply Forall_cons in Hall as [(a1 & as' & -> & Ha1 & Ha2) Hall].
  apply Forall_cons in Hall as [(b1 & bs' & -> & Hb1 & Hb2) Hrest].
  destruct (product_spec v m as' bs' Hvm Ha2 Hb2) as (l & Hl1 & Hl2 & Hl3).
  cbn [crush_ors andor_subs]. rewrite !decide_True by done. cbn [mbind option_bind].
  rewrite Hl1. cbn [mbind option_bind forallb ExprLemmas.denote].
  rewrite !andb_assoc, <- Hl3.
  assert (Forall (disjunction (over s)) rest) as Hrd.
  { eapply Forall_impl; [done |]. apply or_of_cmps_disjunction. }
  destruct l as [|e [|e' l]].
  - eexists. split; [done |]. done.
  - cbn [existsb]. rewrite orb_false_r. apply Forall_cons in Hl2 as [He _].
    destruct rest as [|r rest].
    + apply crush_ok_eq; [by apply Hcmp |]. cbn. by rewrite andb_true_r.
    + destruct e as [ea ec| | |]; try done. cbn [expr_combine mbind option_bind].
      rewrite decide_True by done.
      apply crush_ok_eq; [| by cbn]. apply Hand; [cbn; lia |]. by constructor.
  - destruct rest as [|r rest].
    + apply crush_ok_eq; [apply Hor; [cbn; lia | done] |]. cbn [forallb].
      by rewrite andb_true_r.
    + cbn [expr_combine mbind option_bind]. rewrite decide_False, decide_True by done.
      cbn [mbind option_bind andor_size]. destruct (Z.ltb_spec (Z.of_nat (length
        (EAndOr OR None (e :: e' :: l) :: r :: rest))) 2) as [Hlt|_]; [cbn in Hlt; lia |].
      apply crush_ok_eq; [| by cbn]. apply Hand; [cbn; lia |]. constructor; [|done].
      cbn. split; [lia | done].
Qed.

Lemma crush_ors_spec crush a v m ors :
  crush_rest_ok crush (length ors) -> wf_match s v m -> Forall or_of_cmps ors ->
  (m = 0 -> ors <> []) ->
  exists e, crush_ors crush a s v m ors = Some e /\ crushed e
    /\ denote e = matches x v m && forallb denote ors.
Proof using Hw Hs.
  intros Hrest Hvm Hors Hm. destruct ors as [|or1 [|or2 ors]].
  - cbn [crush_ors forallb]. destruct (Z.eqb_spec m 0) as [->|Hnz]; [by destruct Hm |].
    eexists. split; [done |]. rewrite andb_true_r.
    assert (over s (cmp_eq s v m)) as Hov by (split; [by split; [split | |] | done]).
    split; [done |]. cbn [ExprLemmas.denote]. by rewrite eval_over.
  - destruct Hrest as [_ Hor _]. apply Forall_cons in Hors as [(a1 & ds & -> & Hd1 & Hd2) _].
    cbn [crush_ors andor_subs]. rewrite decide_True by done. cbn [mbind option_bind].
    destruct (distribute_cmp_spec v m ds Hvm Hd2) as (l & -> & Hl2 & Hl3).
    cbn [mbind option_bind forallb ExprLemmas.denote]. rewrite andb_true_r, <- Hl3.
    destruct l as [|e [|e' l]].
    + by eexists.
    + eexists. split; [done |]. apply Forall_cons in Hl2 as [He _]. split; [by destruct e |].
      cbn. by rewrite orb_false_r.
    + apply crush_ok_eq; [apply Hor; [cbn; lia | done] | done].
  - by apply crush_product_spec.
Qed.

Lemma wf_match_zero : wf_match s 0 0.
Proof using Hs Hw.
  unfold wf_symbol in Hs. split; [lia | lia |]. intros n _. by rewrite Z.bits_0.
Qed.

Lemma crush_and_numeric_spec crush a subs :
  (2 <= length subs)%nat -> Forall (crush_ok crush) subs ->
  (forall n, (n <= length subs)%nat -> crush_rest_ok crush n) ->
  crush_ok (fun _ => crush_and_numeric crush a subs s) (EAndOr AND a subs).
Proof using Hw Hs.
  intros Hl Hsubs Hrest. unfold crush_ok, crush_and_numeric.
  destruct (Nat.ltb_spec (length subs) 2) as [|_]; [lia |].
  destruct (and_numeric_loop_spec crush subs 0 0 [] Hsubs wf_match_zero ltac:(constructor))
    as (r & -> & Hr). cbn [mbind option_bind ExprLemmas.denote].
  assert (matches x 0 0 = true) as H0.
  { apply matches_bits. intros n _. by rewrite Z.bits_0, andb_false_r. }
  rewrite H0 in Hr. cbn [forallb andb length plus] in Hr.
  destruct r as [e|[[v m] ors]].
  - destruct Hr as [-> Hr]. eexists. split; [done |]. by rewrite Hr.
  - destruct Hr as (Hvm & Hors & Hlen & Hz & Hden). rewrite <- Hden.
    apply crush_ors_spec; [by apply Hrest | done | done |].
    intros ->. destruct (Hz eq_refl) as [_ Hlo]. intros ->. cbn in Hlo. lia.
Qed.
End Numeric.
(** ** Conjunctions over a string symbol *)

Section String.
Context (Hw : width s = 0).

(** The field is the port named [str]. *)
Definition is_port (str : string) : bool :=
  match lookup_port str with Some p => flow s =? p | None => false end.

Lemma eval_string c : over s c -> expr_evaluate_cmp flow lookup_port c = is_port (cst_string c).
Proof.
  intros [[_ Hr _] Hsym]. unfold expr_evaluate_cmp, is_port. rewrite Hsym, Hw, Hr. cbn.
  destruct (lookup_port _) as [p|]; [|done].
  destruct (Z.ltb_spec (flow s) p), (Z.ltb_spec p (flow s)); cbn; lia.
Qed.

Lemma is_port_inj a b : is_port a = true -> is_port b = true -> a = b.
Proof.
  unfold is_port. destruct (lookup_port a) as [p|] eqn:Ha; [|done].
  destruct (lookup_port b) as [q|] eqn:Hb; [|done]. intros H1%Z.eqb_eq H2%Z.eqb_eq.
  subst p q. by eapply Hinj.
Qed.

(** An OR of comparisons holds when the field is one of its ports. *)
Lemma existsb_cmps ds :
  Forall (is_cmp (over s)) ds ->
  existsb denote ds = true
  <-> exists a c, ECmp a c ∈ ds /\ is_port (cst_string c) = true.
Proof.
  intros Hall. rewrite existsb_exists. setoid_rewrite <- list_elem_of_In. split.
  - intros (e & He & Hd). rewrite Forall_forall in Hall. specialize (Hall e He).
    destruct e as [a c| | |]; try done. exists a, c. split; [done |].
    cbn in Hd. by rewrite eval_string in Hd.
  - intros (a & c & He & Hd). exists (ECmp a c). split; [done |]. cbn.
    rewrite Forall_forall in Hall. specialize (Hall _ He). by rewrite eval_string.
Qed.

Lemma disjunction_matches_elem ds str :
  Forall (is_cmp (over s)) ds ->
  disjunction_matches_string ds str = true <-> exists a c, ECmp a c ∈ ds /\ cst_string c = str.
Proof.
  intros Hall. unfold disjunction_matches_string. rewrite existsb_exists.
  setoid_rewrite <- list_elem_of_In. split.
  - intros (e & He & Hd). destruct e as [a c| | |]; try done.
    exists a, c. split; [done |]. by apply strcmp_eq, Z.eqb_eq.
  - intros (a & c & He & Hd). exists (ECmp a c). split; [done |].
    by apply Z.eqb_eq, strcmp_eq.
Qed.

(** The list kept by the loop: disjunctions and at most one comparison. *)
Definition kept_ok (singleton : option (option string * expr_cmp)) (kept : list expr) : Prop :=
  match singleton with
  | None => Forall or_of_cmps kept
  | Some (a, c) => over s c /\ ECmp a c ∈ kept
                   /\ Forall (fun e => e = ECmp a c \/ or_of_cmps e) kept
  end.

Lemma kept_ok_or singleton kept e :
  kept_ok singleton kept -> or_of_cmps e -> kept_ok singleton (kept ++ [e]).
Proof.
  intros Hk He. destruct singleton as [[a c]|]; cbn in *.
  - destruct Hk as (H1 & H2 & H3). split_and!; [done | set_solver |].
    apply Forall_app. split; [done |]. apply Forall_singleton. by right.
  - apply Forall_app. split; [done | by constructor].
Qed.

Lemma and_string_loop_spec crush subs singleton kept :
  Forall (crush_ok crush) subs -> kept_ok singleton kept ->
  exists r, and_string_loop crush subs singleton kept = Some r
    /\ match r with
       | inl e => e = EBoolean false /\ forallb denote kept && forallb denote subs = false
       | inr (singleton', kept') =>
           kept_ok singleton' kept'
           /\ (singleton' = None ->
               singleton = None /\ length kept' = (length kept + length subs)%nat)
           /\ forallb denote kept' = forallb denote kept && forallb denote subs
       end.
Proof.
  intros Hsubs. revert singleton kept.
  induction Hsubs as [|e subs (e' & He & Hc & Hd) _ IH]; intros singleton kept Hk.
  { eexists. split; [done |]. cbn. rewrite andb_true_r. split_and!; [done | | done].
    intros ->. split; [done | lia]. }
  cbn [and_string_loop forallb length]. rewrite He, <- Hd. cbn [mbind option_bind].
  destruct (crushed_cases _ Hc) as [->|[(a & c & -> & Hov)|Hor]].
  - eexists. split; [done |]. split; [done |]. cbn. by rewrite andb_false_r.
  - cbn [ExprLemmas.denote]. rewrite eval_string by done.
    destruct singleton as [[sa sc]|].
    + destruct Hk as (Hsc & Hin & Hall).
      assert (forallb denote kept = true -> is_port (cst_string sc) = true) as Hks.
      { intros Hf. rewrite forallb_forall in Hf. specialize (Hf (ECmp sa sc)).
        cbn in Hf. rewrite eval_string in Hf by done. apply Hf. by apply list_elem_of_In. }
      destruct (Z.eqb_spec (strcmp (cst_string c) (cst_string sc)) 0) as [Heq|Hne].
      * apply strcmp_eq in Heq.
        destruct (IH (Some (sa, sc)) kept) as (r & Hr & Hspec); [done |].
        assert (forall b, forallb denote kept && (is_port (cst_string c) && b)
          = forallb denote kept && b) as Hb.
        { intros b. destruct (forallb denote kept); [|done]. by rewrite Heq, Hks. }
        exists r. split; [done |]. rewrite Hb. destruct r as [e''|[s' k']]; [done |].
        destruct Hspec as (H1 & H2 & H3). split_and!; [done | | done].
        intros H0. by destruct (H2 H0).
      * eexists. split; [done |]. split; [done |].
        destruct (forallb denote kept); [|done]. specialize (Hks eq_refl).
        destruct (is_port (cst_string c)) eqn:Ec; [|done].
        destruct Hne. apply strcmp_eq. by apply is_port_inj.
    + destruct (IH (Some (a, c)) (kept ++ [ECmp a c])) as (r & Hr & Hspec).
      { cbn. split_and!; [done | set_solver |]. apply Forall_app. split.
        - eapply Forall_impl; [exact Hk |]. intros. by right.
        - apply Forall_singleton. by left. }
      rewrite forallb_app in Hspec. cbn [forallb ExprLemmas.denote] in Hspec.
      rewrite eval_string, andb_true_r, <- !andb_assoc in Hspec by done.
      exists r. split; [done |]. destruct r as [e''|[s' k']]; [done |].
      destruct Hspec as (H1 & H2 & H3). split_and!; [done | | done].
      intros H0. by destruct (H2 H0).
  - destruct (IH singleton (kept ++ [e'])) as (r & Hr & Hspec); [by apply kept_ok_or |].
    rewrite forallb_app in Hspec. cbn [forallb] in Hspec.
    rewrite andb_true_r, length_app in Hspec. cbn [length] in Hspec.
    pose proof Hor as (a & ds & E & _). rewrite E in Hr |- *. exists r. split; [done |].
    rewrite <- E in *. rewrite !andb_assoc in *.
    destruct r as [e''|[s' k']]; [done |].
    destruct Hspec as (H1 & H2 & H3). split_and!; [done | | done].
    intros Hz. destruct (H2 Hz). split; [done | lia].
Qed.

(** A set of ports holds when the field is one of them. *)
Definition in_ports (ports : gset string) : Prop :=
  exists str, str ∈ ports /\ is_port str = true.

Lemma or_strings_spec e :
  or_of_cmps e -> (denote e = true <-> in_ports (or_strings e)) /\ or_strings e <> ∅.
Proof.
  intros (a & ds & -> & Hl & Hds). cbn [ExprLemmas.denote or_strings].
  assert (forall str, str ∈@{gset string} list_to_set (omap (fun sub => match sub with
            | ECmp _ c => Some (cst_string c) | _ => None end) ds)
    <-> exists a c, ECmp a c ∈ ds /\ cst_string c = str) as Hel.
  { intros str. rewrite elem_of_list_to_set, list_elem_of_omap. split.
    - intros (e & He & Hs'). destruct e as [a' c| | |]; simplify_eq. by exists a', c.
    - intros (a' & c & He & <-). by exists (ECmp a' c). }
  split.
  - rewrite existsb_cmps by done. unfold in_ports. setoid_rewrite Hel. split.
    + intros (a' & c & He & Hp). exists (cst_string c). split; [|done]. by exists a', c.
    + intros (str & (a' & c & He & <-) & Hp). by exists a', c.
  - destruct ds as [|e ds]; [cbn in Hl; lia |]. apply Forall_cons in Hds as [He _].
    destruct e as [a' c| | |]; try done. intros E.
    assert (cst_string c ∈ (∅ : gset string)); [|set_solver]. rewrite <- E, Hel.
    exists a', c. split; [apply list_elem_of_here | done].
Qed.

Lemma in_ports_intersection X Y : in_ports (X ∩ Y) <-> in_ports X /\ in_ports Y.
Proof.
  unfold in_ports. split.
  { intros (str & [H1 H2]%elem_of_intersection & H3). split; by exists str. }
  intros [(a & Ha & Hpa) (b & Hb & Hpb)].
  assert (a = b) as -> by (by apply is_port_inj). exists b.
  split; [by apply elem_of_intersection | done].
Qed.

Lemma in_ports_empty : ~ in_ports ∅.
Proof. intros (str & H0 & _). set_solver. Qed.

Lemma intersect_strings_spec ors X :
  Forall or_of_cmps ors -> X <> ∅ ->
  match intersect_strings ors X with
  | Some Y => in_ports Y <-> in_ports X /\ forallb denote ors = true
  | None => ~ (in_ports X /\ forallb denote ors = true)
  end.
Proof.
  intros Hors. revert X. induction Hors as [|or ors Hor _ IH]; intros X HX; cbn.
  { tauto. }
  destruct (or_strings_spec or Hor) as [Hd _].
  rewrite (decide_False (P := X = ∅)) by done.
  assert (denote or && forallb denote ors = true
    <-> in_ports (or_strings or) /\ forallb denote ors = true) as Hand
    by (by rewrite andb_true_iff, Hd).
  pose proof (in_ports_intersection X (or_strings or)) as Hi.
  case_decide as Hempty.
  - intros H1. assert (in_ports (X ∩ or_strings or)) as H3 by tauto.
    rewrite Hempty in H3. by apply in_ports_empty in H3.
  - specialize (IH _ Hempty). case_match; tauto.
Qed.

Lemma string_disjunction_spec (Y : gset string) :
  let e := EAndOr OR None (map (fun str => ECmp None (cmp_str s str)) (elements Y)) in
  crushed (expr_fix e) /\ (denote (expr_fix e) = true <-> in_ports Y).
Proof.
  intros e. assert (forall str, over s (cmp_str s str)) as Hov.
  { intros str. split; [|done]. split; [split; [done |] | done |]; cbn; done. }
  split.
  - apply fix_or_crushed, Forall_map, Forall_forall. intros str _. left. apply Hov.
  - rewrite denote_fix. unfold e. cbn [ExprLemmas.denote].
    rewrite existsb_cmps by (apply Forall_map, Forall_forall; intros; apply Hov).
    setoid_rewrite list_elem_of_fmap. unfold in_ports. setoid_rewrite <- elem_of_elements. split.
    + intros (a & c & (str & [= -> ->] & Hin) & Hp). by exists str.
    + intros (str & Hin & Hp). exists None, (cmp_str s str). split; [|done]. by exists str.
Qed.

(** With a single comparison, the disjunctions only have to allow it. *)
Lemma singleton_spec a c kept :
  kept_ok (Some (a, c)) kept ->
  exists e', (if existsb (fun sub => match sub with
                | EAndOr OR _ ds => negb (disjunction_matches_string ds (cst_string c))
                | _ => false
                end) kept
           then Some (expr_create_boolean false) else Some (ECmp a c)) = Some e'
    /\ crushed e' /\ denote e' = forallb denote kept.
Proof.
  intros (Hov & Hin & Hall). rewrite Forall_forall in Hall.
  assert (denote (ECmp a c) = is_port (cst_string c)) as Hc by (by apply eval_string).
  destruct (existsb _ kept) eqn:Hex; eexists; (split; [done |]); (split; [done |]).
  - symmetry. apply not_true_iff_false. rewrite forallb_forall.
    setoid_rewrite <- list_elem_of_In. intros Hf.
    apply existsb_exists in Hex as (e & He & Hno). apply list_elem_of_In in He.
    destruct (Hall e He) as [->|(a' & ds & -> & _ & Hds)]; [done |].
    pose proof (Hf _ He) as Hor. cbn in Hor. apply existsb_cmps in Hor as (a'' & c' & Hel & Hp); [|done].
    apply negb_true_iff, not_true_iff_false in Hno. apply Hno.
    apply disjunction_matches_elem; [done |]. exists a'', c'. split; [done |].
    apply is_port_inj; [done |]. rewrite <- Hc. by apply Hf.
  - apply eq_true_iff_eq. rewrite forallb_forall. setoid_rewrite <- list_elem_of_In. split.
    + intros Hd e He. destruct (Hall e He) as [->|(a' & ds & -> & _ & Hds)]; [done |].
      cbn [ExprLemmas.denote]. apply existsb_cmps; [done |].
      assert (disjunction_matches_string ds (cst_string c) = true) as Hm.
      { apply not_false_iff_true. intros Hm. apply not_true_iff_false in Hex. apply Hex.
        apply existsb_exists. eexists. split; [by apply list_elem_of_In |]. cbn. by rewrite Hm. }
      apply disjunction_matches_elem in Hm as (a'' & c' & Hel & Heq); [|done].
      exists a'', c'. split; [done |]. by rewrite Heq, <- Hc.
    + intros Hf. by apply Hf.
Qed.

Lemma crush_and_string_spec crush a subs :
  (2 <= length subs)%nat -> Forall (crush_ok crush) subs ->
  crush_ok (fun _ => crush_and_string crush subs s) (EAndOr AND a subs).
Proof.
  intros Hl Hsubs. unfold crush_ok, crush_and_string.
  destruct (Nat.ltb_spec (length subs) 2) as [|_]; [lia |].
  destruct (and_string_loop_spec crush subs None [] Hsubs ltac:(constructor))
    as (r & -> & Hr). cbn [mbind option_bind ExprLemmas.denote]. cbn [forallb andb length plus] in Hr.
  destruct r as [e|[[[sa c]|] kept]].
  - destruct Hr as [-> Hr]. eexists. split; [done |]. by rewrite Hr.
  - destruct Hr as (Hk & _ & <-). by apply singleton_spec.
  - destruct Hr as (Hors & Hlen & <-). destruct (Hlen eq_refl) as [_ Hlk].
    destruct kept as [|or ors]; [cbn in Hlk; lia |].
    apply Forall_cons in Hors as [Hor Hors]. destruct (or_strings_spec or Hor) as [Hd Hne].
    cbn [intersect_strings]. rewrite (decide_True (P := (∅ : gset string) = ∅)) by done.
    rewrite (decide_False (P := or_strings or = ∅)) by done.
    pose proof (intersect_strings_spec ors (or_strings or) Hors Hne) as Hi.
    destruct (intersect_strings ors (or_strings or)) as [Y|].
    + destruct (string_disjunction_spec Y) as [Hc HdY]. eexists. split; [done |].
      split; [done |]. apply eq_true_iff_eq. rewrite HdY, Hi, <- Hd. cbn [forallb].
      by rewrite andb_true_iff.
    + eexists. split; [done |]. split; [done |]. symmetry. apply not_true_iff_false.
      cbn [forallb]. by rewrite andb_true_iff, Hd.
Qed.
End String.
(** ** The recursion *)

Lemma cmp_fuel e : is_cmp (over s) e -> crush_fuel e = 1%nat.
Proof. by destruct e. Qed.

Lemma or_fuel a l : Forall (is_cmp (over s)) l -> (crush_fuel (EAndOr OR a l) <= 3)%nat.
Proof.
  intros Hl. cbn [crush_fuel]. apply le_n_S, foldr_max_le. split; [done |].
  eapply Forall_impl; [done |]. intros e He. rewrite cmp_fuel by done. lia.
Qed.

Lemma and_fuel a l :
  Forall (disjunction (over s)) l -> (2 <= length l)%nat ->
  (crush_fuel (EAndOr AND a l) <= length l + 3)%nat.
Proof.
  intros Hl H2. cbn [crush_fuel]. replace (length l + 3)%nat with (S (length l + 2)) by lia.
  apply le_n_S, foldr_max_le. split; [lia |]. eapply Forall_impl; [done |].
  intros e He. destruct e as [| [] a' ds | |]; try done; [cbn; lia |].
  destruct He as [_ He]. pose proof (or_fuel a' ds He). lia.
Qed.

Lemma rest_ok_fuel fuel n :
  (n + 2 <= fuel)%nat -> (1 <= n)%nat ->
  (forall e, tree (over s) false e -> (crush_fuel e <= fuel)%nat ->
     crush_ok (fun e => crush_cmps_fuel fuel e s) e) ->
  crush_rest_ok (fun e => crush_cmps_fuel fuel e s) n.
Proof.
  intros Hn H1 IH. split.
  - intros e He. apply IH; [by destruct e |]. rewrite cmp_fuel by done. lia.
  - intros l Hl2 Hl. apply IH; [by apply disjunction_tree |].
    pose proof (or_fuel None l Hl). lia.
  - intros l Hl2 Hl. apply IH.
    + apply tree_andor. split; [lia |]. eapply Forall_impl; [done |]. intros e He.
      split; [by destruct e as [| [] ? ? | |] | by apply disjunction_tree].
    + pose proof (and_fuel None l Hl). lia.
Qed.

Lemma crush_cmps_fuel_spec fuel e :
  tree (over s) false e -> (crush_fuel e <= fuel)%nat ->
  crush_ok (fun e => crush_cmps_fuel fuel e s) e.
Proof.
  revert e. induction fuel as [|fuel IH]; intros e Ht Hf.
  { destruct e as [| [] ? ? | |]; cbn in Hf; lia. }
  destruct e as [a c|t a subs|b|n str]; [by eexists | | done | done].
  apply tree_andor in Ht as [Hl Hsubs].
  assert ((if decide (t = AND) then length subs + 2 else 2) <= fuel
    /\ Forall (crush_ok (fun e => crush_cmps_fuel fuel e s)) subs)%nat as [Hn Hok].
  { destruct t; cbn [crush_fuel] in Hf; apply le_S_n, foldr_max_le in Hf as [Hb Hf];
      (split; [exact Hb |]); apply Forall_forall; intros e He;
      rewrite Forall_forall in Hsubs, Hf; apply IH; [by apply Hsubs | by apply Hf
      | by apply Hsubs | by apply Hf]. }
  unfold crush_ok. cbn [crush_cmps_fuel]. destruct t.
  - rewrite decide_True in Hn by done.
    destruct (Z.eqb_spec (width s) 0) as [Hw|Hw]; cbn [negb].
    + by apply crush_and_string_spec.
    + apply crush_and_numeric_spec; [done | done | done |]. intros n Hn'.
      destruct (decide (n = 0)%nat) as [->|].
      * pose proof (rest_ok_fuel fuel 1 ltac:(lia) ltac:(lia) IH) as [Hc Ho _].
        split; [done | done | lia].
      * apply rest_ok_fuel; [lia | lia | done].
  - by apply crush_or_spec.
Qed.

Lemma crush_cmps_spec e :
  tree (over s) false e ->
  exists e', crush_cmps e s = Some e' /\ crushed e' /\ denote e' = denote e.
Proof. intros Ht. by apply (crush_cmps_fuel_spec (crush_fuel e) e). Qed.

(** *** Conjunctions of comparisons *)

Section AndCmps.
Context (crush : expr -> option expr).
Context (Hself : forall a c, crush (ECmp a c) = Some (ECmp a c)).

Lemma and_numeric_loop_cmps subs v m r :
  Forall (is_cmp (over s)) subs -> and_numeric_loop crush subs v m [] = Some r ->
  match r with inl e => e = EBoolean false | inr (_, _, ors) => ors = [] end.
Proof.
  intros Hsubs. revert v m. induction Hsubs as [|e subs He _ IH]; intros v m; cbn.
  { by intros [= <-]. }
  destruct e as [a c| | |]; try done. rewrite Hself. cbn [mbind option_bind].
  destruct (mf_subvalue_intersect _ _ _ _) as [[v' m']|]; [apply IH | by intros [= <-]].
Qed.

Lemma and_string_loop_cmps subs singleton kept r :
  Forall (is_cmp (over s)) subs -> singleton <> None \/ subs <> [] ->
  and_string_loop crush subs singleton kept = Some r ->
  match r with inl e => e = EBoolean false | inr (singleton, _) => singleton <> None end.
Proof.
  intros Hsubs. revert singleton kept.
  induction Hsubs as [|e subs He _ IH]; intros singleton kept Hne; cbn.
  { intros [= <-]. by destruct Hne. }
  destruct e as [a c| | |]; try done. rewrite Hself. cbn [mbind option_bind].
  destruct singleton as [[sa sc]|].
  - destruct (_ =? _); [apply IH; by left | by intros [= <-]].
  - apply IH. by left.
Qed.
End AndCmps.

(** A conjunction of comparisons is not crushed to a disjunction. *)
Lemma crush_cmps_and a subs e :
  (2 <= length subs)%nat -> Forall (is_cmp (over s)) subs ->
  crush_cmps (EAndOr AND a subs) s = Some e -> type_of e <> EXPR_T_OR.
Proof.
  intros Hl Hsubs. unfold crush_cmps. cbn [crush_fuel crush_cmps_fuel].
  set (fuel := foldr _ _ _). assert (1 <= fuel)%nat as Hfuel.
  { destruct (foldr_max_le crush_fuel (length subs + 2) subs fuel) as [H1 _].
    destruct H1 as [H1 _]; [done | lia]. }
  clearbody fuel. destruct fuel as [|fuel]; [lia |].
  set (crush := fun e => crush_cmps_fuel (S fuel) e s).
  assert (forall a c, crush (ECmp a c) = Some (ECmp a c)) as Hself by done.
  destruct (Z.eqb_spec (width s) 0) as [Hw|Hw]; cbn [negb].
  - unfold crush_and_string. destruct (_ <? _)%nat; [done |].
    destruct (and_string_loop crush subs None []) as [r|] eqn:Hr; [cbn [mbind option_bind] | done].
    apply and_string_loop_cmps in Hr; [|done | done | right; by destruct subs; [cbn in Hl; lia |]].
    destruct r as [e'|[[[sa c]|] kept]]; [intros [= <-]; by subst e' | | done].
    destruct (existsb _ kept); by intros [= <-].
  - unfold crush_and_numeric. destruct (_ <? _)%nat; [done |].
    destruct (and_numeric_loop crush subs 0 0 []) as [r|] eqn:Hr; [cbn [mbind option_bind] | done].
    apply and_numeric_loop_cmps in Hr; [|done | done].
    destruct r as [e'|[[v m] ors]]; [intros [= <-]; by subst e' |]. subst ors.
    cbn [crush_ors]. destruct (m =? 0); by intros [= <-].
Qed.
End Crush.
