(* ===== verification/ExprNormalize.v ===== *)
(** * Normalization

    [expr_normalize] brings a simplified expression into the form
    OR(AND(clause)), where a clause is a comparison or a disjunction of
    comparisons on one symbol.  Each conjunction is sorted by symbol and the
    clauses of one symbol are crushed; a disjunction over several symbols, or on
    a symbol that asks for it, is multiplied out.  The proofs show that the
    result has the form, that it means the same, and that the recursion ends:
    every crossproduct leaves fewer ORs. *)
From stdpp Require Import base option list strings gmap.
From Stdlib Require Import ZArith Lia.
From S2P Require Import Prelude Subvalue Expr ExprLemmas ExprSupersets ExprCrush.
Import Subvalue Expr.

Local Open Scope Z_scope.

(** ** Symbols *)

Lemma unique_symbol_of_Some f prev subs s :
  unique_symbol_of f prev subs = Some s ->
  Forall (fun e => f e = Some s) subs /\ (prev = None \/ prev = Some s).
Proof.
  revert prev. induction subs as [|e subs IH]; intros prev H; cbn in H.
  { split; [constructor | auto]. }
  destruct (f e) as [s'|] eqn:He; [|done].
  destruct prev as [p|]; [case_decide; [|done] |]; destruct (IH _ H) as [H1 [[=]|[= ->]]].
  - subst. auto.
  - auto.
Qed.

Lemma unique_symbol_of_all f prev subs s :
  Forall (fun e => f e = Some s) subs -> prev = Some s \/ (prev = None /\ subs <> []) ->
  unique_symbol_of f prev subs = Some s.
Proof.
  intros Hall. revert prev. induction Hall as [|e subs He _ IH]; intros prev Hp; cbn.
  { by destruct Hp as [->|[_ ?]]. }
  rewrite He. destruct Hp as [->|[-> _]]; [rewrite decide_True by done |]; apply IH; auto.
Qed.

Lemma unique_symbol_tree e s :
  tree simple_cmp false e -> expr_get_unique_symbol e = Some s -> tree (over s) false e.
Proof.
  induction e as [a c|t a subs IH|b|n str] using expr_induction; cbn [expr_get_unique_symbol].
  - intros Hc [= <-]. by split.
  - rewrite !tree_andor. intros [Hl Hsubs] [Hu _]%unique_symbol_of_Some. split; [done |].
    rewrite Forall_forall in IH, Hsubs, Hu. apply Forall_forall. intros e He.
    destruct (Hsubs e He). split; [done | by apply IH; [| | apply Hu]].
  - done.
  - done.
Qed.

Lemma over_tree_simple s e : tree (over s) false e -> tree simple_cmp false e.
Proof. apply tree_impl; [|done]. by intros c [? _]. Qed.

Lemma disjunction_unique s e :
  disjunction (over s) e -> expr_get_unique_symbol e = Some s.
Proof.
  destruct e as [a c|[] a ds|b|n str]; try done; cbn.
  - intros [_ ->]. done.
  - intros [Hl Hds]. apply unique_symbol_of_all.
    + eapply Forall_impl; [done |]. intros e He. destruct e as [a' c| | |]; try done.
      destruct He as [_ <-]. done.
    + right. split; [done |]. intros ->. cbn in Hl. lia.
Qed.

(** ** Counting ORs *)

Definition or_total (l : list expr) : nat := foldr (fun e k => or_count e + k)%nat 0%nat l.

Lemma or_total_cons e l : or_total (e :: l) = (or_count e + or_total l)%nat.
Proof. done. Qed.

Lemma or_total_app l k : or_total (l ++ k) = (or_total l + or_total k)%nat.
Proof.
  induction l as [|e l IH]; [done |]. cbn [app]. rewrite !or_total_cons, IH. lia.
Qed.

Lemma or_total_perm l k : l ≡ₚ k -> or_total l = or_total k.
Proof. induction 1; rewrite ?or_total_cons; lia. Qed.

Lemma or_total_elem e l : e ∈ l -> (or_count e <= or_total l)%nat.
Proof.
  induction l as [|x l IH]; [by intros ?%not_elem_of_nil |]. rewrite or_total_cons.
  intros [->|He]%elem_of_cons; [lia |]. specialize (IH He). lia.
Qed.

Lemma or_count_andor t a l :
  or_count (EAndOr t a l) = (match t with OR => 1 | AND => 0 end + or_total l)%nat.
Proof. by destruct t. Qed.

Lemma or_total_cmps P l : Forall (is_cmp P) l -> or_total l = 0%nat.
Proof. induction 1 as [|e l He _ IH]; [done |]. by destruct e. Qed.

Lemma or_count_disjunction P e : disjunction P e -> (or_count e <= 1)%nat.
Proof.
  destruct e as [a c|[] a ds|b|n str]; try done; [cbn; lia |].
  intros [_ Hds]. rewrite or_count_andor, (or_total_cmps P) by done. lia.
Qed.

(** A tree other than an AND without ORs is a comparison. *)
Lemma or_count_zero P e :
  operand P false AND e -> or_count e = 0%nat -> is_cmp P e.
Proof. intros [Ht Htree]. by destruct e as [| [] ? ? | |]. Qed.

Lemma or_total_zero P l :
  Forall (operand P false AND) l -> or_total l = 0%nat -> Forall (is_cmp P) l.
Proof.
  induction 1 as [|e l He _ IH]; intros H0; [constructor |].
  change (or_count e + or_total l = 0)%nat in H0.
  constructor; [apply or_count_zero; [done | lia] | apply IH; lia].
Qed.

(** ** Cloning *)

Lemma type_of_clone e : type_of (expr_clone e) = type_of e.
Proof. by destruct e. Qed.

Lemma tree_clone P conds e : tree P conds e -> tree P conds (expr_clone e).
Proof.
  induction e as [a c|t a subs IH|b|n str] using expr_induction; [done | | done | done].
  cbn [expr_clone]. rewrite !tree_andor. intros [Hl H]. split; [by rewrite length_map |].
  apply Forall_map. rewrite Forall_forall in IH, H. apply Forall_forall. intros e He.
  destruct (H e He). split; [by rewrite type_of_clone | by apply IH].
Qed.

Lemma or_count_clone e : or_count (expr_clone e) = or_count e.
Proof.
  induction e as [a c|t a subs IH|b|n str] using expr_induction; [done | | done | done].
  cbn [expr_clone]. rewrite !or_count_andor. f_equal.
  induction IH as [|e l He _ IH']; [done |]. cbn [map]. by rewrite !or_total_cons, He, IH'.
Qed.

Lemma or_total_clone l : or_total (map expr_clone l) = or_total l.
Proof.
  induction l as [|e l IH]; [done |]. cbn [map].
  by rewrite !or_total_cons, or_count_clone, IH.
Qed.

(** ** Clauses *)

(** A clause of a sorted conjunction; over one symbol, it is crushed. *)
Record clause (e : expr) : Prop := {
  cl_tree : tree simple_cmp false e;
  cl_type : type_of e <> EXPR_T_AND;
  cl_crushed s : expr_get_unique_symbol e = Some s -> disjunction (over s) e;
}.

Lemma disjunction_clause s e : disjunction (over s) e -> clause e.
Proof.
  intros Hd. split.
  - by apply (over_tree_simple s), disjunction_tree.
  - by destruct e as [| [] ? ? | |].
  - intros s' Hs'. rewrite (disjunction_unique s) in Hs' by done. by simplify_eq.
Qed.

Lemma clause_operand e : clause e -> operand simple_cmp false AND e.
Proof. intros [H1 H2 _]. by split. Qed.

Lemma cmp_clause a c : simple_cmp c -> clause (ECmp a c).
Proof. intros Hc. apply (disjunction_clause (symbol c)). by split. Qed.

(** The accumulator of [expr_sort]: the conjunction of the clauses so far. *)
Definition acc_of (l : list expr) : option expr :=
  match l with [] => None | [e] => Some e | _ => Some (EAndOr AND None l) end.

Lemma combine_acc l e :
  Forall (fun e => type_of e <> EXPR_T_AND) l -> type_of e <> EXPR_T_AND ->
  expr_combine AND (acc_of l) (Some e) = acc_of (l ++ [e]).
Proof.
  intros Hl He. destruct l as [|x [|y l]]; [done | |].
  - apply Forall_cons in Hl as [Hx _].
    destruct x as [| [] ? ? | |], e as [| [] ? ? | |]; done.
  - destruct e as [| [] ? ? | |]; done.
Qed.

Lemma combine_fold l exprs :
  Forall (fun e => type_of e <> EXPR_T_AND) l ->
  Forall (fun item => type_of (si_expr item) <> EXPR_T_AND) exprs ->
  foldl (fun c item => expr_combine AND c (Some (si_expr item))) (acc_of l) exprs
  = acc_of (l ++ map si_expr exprs).
Proof.
  intros Hl Hex. revert l Hl. induction Hex as [|e exprs He _ IH]; intros l Hl; cbn.
  { by rewrite app_nil_r. }
  rewrite combine_acc by done. rewrite IH; [by rewrite <- app_assoc |].
  apply Forall_app. split; [done | by constructor].
Qed.

Section Normalize.
Context `{!Qsort}.
Context (flow : expr_symbol -> Z) (lookup_port : string -> option Z).
Context (icr : string -> bool).
Context (Hinj : forall a b p, lookup_port a = Some p -> lookup_port b = Some p -> a = b).

Local Abbreviation denote := (denote flow lookup_port icr).
Local Abbreviation denote_item := (fun item => denote (si_expr item)).

(** ** Sorting *)

(** An element of the array of [expr_sort]. *)
Record item_ok (item : expr_sort_item) : Prop := {
  it_symbol : si_symbol item = expr_get_unique_symbol (si_expr item);
  it_operand : operand simple_cmp false AND (si_expr item);
}.

Lemma tree_wf_symbol s e : tree (over s) false e -> wf_symbol s.
Proof.
  induction e as [a c|t a subs IH|b|n str] using expr_induction; [|  | done | done].
  - apply over_wf_symbol.
  - rewrite tree_andor. intros [Hl Hsubs]. destruct subs as [|e subs]; [cbn in Hl; lia |].
    apply Forall_cons in IH as [IH _]. apply Forall_cons in Hsubs as [[_ He] _]. auto.
Qed.

Lemma denote_acc l : l <> [] -> denote_opt flow lookup_port icr AND (acc_of l) = forallb denote l.
Proof.
  intros Hl. destruct l as [|e [|e' l]]; [done | |]; cbn; by rewrite ?andb_true_r.
Qed.

Lemma denote_items items : forallb denote (map si_expr items) = forallb denote_item items.
Proof. induction items as [|item items IH]; [done |]. cbn. by rewrite IH. Qed.

Lemma crush_group_spec s first group :
  operand (over s) false AND first -> Forall (operand (over s) false AND) (map si_expr group) ->
  exists e, crush_group s first group = Some e /\ crushed s e
    /\ denote e = denote first && forallb denote_item group
    /\ (or_count e <= or_count first + or_total (map si_expr group))%nat.
Proof using Hinj.
  intros Hfirst Hgroup. pose proof (tree_wf_symbol s first (proj2 Hfirst)) as Hs.
  assert (forall e, crushed s e -> (or_count e <= 1)%nat) as Hle.
  { intros e He. destruct e as [| | |]; try (by apply (or_count_disjunction (over s))).
    cbn. lia. }
  destruct group as [|item group]; cbn [crush_group].
  - destruct (crush_cmps_spec s Hs flow lookup_port icr Hinj first (proj2 Hfirst))
      as (e & He & Hc & Hd).
    exists e. split_and!; [done | done | cbn; by rewrite andb_true_r |].
    specialize (Hle e Hc). destruct (decide (or_count first = 0)%nat) as [H0|]; [|lia].
    apply (or_count_zero (over s)) in H0; [|done]. destruct first as [a c| | |]; try done.
    cbn in He. simplify_eq. cbn. lia.
  - set (exprs := map si_expr (item :: group)) in *.
    assert (Forall (fun item => type_of (si_expr item) <> EXPR_T_AND) (item :: group)) as Htypes.
    { unfold exprs in Hgroup. rewrite Forall_map in Hgroup. eapply Forall_impl; [exact Hgroup |]. by intros e [? _]. }
    change (Some first) with (acc_of [first]).
    rewrite combine_fold by (done || (constructor; [apply Hfirst | constructor])).
    change (acc_of ([first] ++ map si_expr (item :: group)))
      with (Some (EAndOr AND None (first :: exprs))).
    cbn [mbind option_bind andor_size].
    destruct (Z.ltb_spec (Z.of_nat (length (first :: exprs))) 2) as [Hlt|_];
      [unfold exprs in Hlt; cbn in Hlt; lia |].
    assert (Forall (operand (over s) false AND) (first :: exprs)) as Hall by (by constructor).
    assert (2 <= length (first :: exprs))%nat as Hlen by (unfold exprs; cbn; lia).
    destruct (crush_cmps_spec s Hs flow lookup_port icr Hinj (EAndOr AND None (first :: exprs)))
      as (e & He & Hc & Hd); [by apply tree_andor |].
    exists e. split_and!; [done | done | |].
    + rewrite Hd. cbn [ExprLemmas.denote forallb]. f_equal. apply denote_items.
    + rewrite <- or_total_cons. specialize (Hle e Hc).
      destruct (decide (or_total (first :: exprs) = 0)%nat) as [H0|]; [|lia].
      apply (or_total_zero (over s)) in H0; [|done].
      pose proof (crush_cmps_and s None _ e Hlen H0 He) as Hno.
      destruct (crushed_cases s e Hc) as [->|[(a & c & -> & _)|(a & ds & -> & _)]];
        [cbn; lia | cbn; lia | done].
Qed.

Lemma same_symbol_spec s items group rest :
  same_symbol s items = (group, rest) ->
  items = group ++ rest /\ Forall (fun item => si_symbol item = Some s) group.
Proof.
  revert group rest. induction items as [|item items IH]; intros group rest; cbn.
  { by intros [= <- <-]. }
  case_decide as Hs; [|by intros [= <- <-]].
  destruct (same_symbol s items) as [g r]. destruct (IH g r eq_refl) as [-> Hg].
  intros [= <- <-]. split; [done | by constructor].
Qed.

(** What the loop adds to the clauses [l] for the items that are left. *)
Record sorted_rest (items : list expr_sort_item) (l' : list expr) : Prop := {
  sr_clause : Forall clause l';
  sr_denote : forallb denote l' = forallb denote_item items;
  sr_ors : (or_total l' <= or_total (map si_expr items))%nat;
  sr_some : items <> [] -> l' <> [];
  sr_single e : l' = [e] -> length items <> 1%nat -> is_Some (expr_get_unique_symbol e);
}.

Lemma item_clause item : item_ok item -> si_symbol item = None -> clause (si_expr item).
Proof.
  intros [Hs [Ht Htree]] Hnone. split; [done | done |]. intros s Hu. congruence.
Qed.

Lemma group_operands s group :
  Forall item_ok group -> Forall (fun item => si_symbol item = Some s) group ->
  Forall (operand (over s) false AND) (map si_expr group).
Proof.
  intros Hok Hsym. apply Forall_map. rewrite Forall_forall in Hok, Hsym.
  apply Forall_forall. intros item Hi. destruct (Hok item Hi) as [Hs [Ht Htree]]. split; [done |].
  apply unique_symbol_tree; [done |]. rewrite <- Hs. by apply Hsym.
Qed.

Lemma sort_loop_spec fuel items l :
  (length items <= fuel)%nat -> Forall item_ok items -> Forall clause l ->
  exists r, sort_loop fuel items (acc_of l) = Some r
    /\ ((r = Some (EBoolean false) /\ forallb denote_item items = false)
        \/ exists l', r = acc_of (l ++ l') /\ sorted_rest items l').
Proof using Hinj.
  revert items l. induction fuel as [|fuel IH]; intros items l Hf Hok Hl.
  { destruct items; [|cbn in Hf; lia]. eexists. split; [done |]. right. exists [].
    rewrite app_nil_r. split; [done |]. split; by try constructor. }
  assert (Forall (fun e => type_of e <> EXPR_T_AND) l) as Hlt
    by (eapply Forall_impl; [done |]; by intros e [_ ? _]).
  destruct items as [|item items]; cbn [sort_loop].
  { eexists. split; [done |]. right. exists []. rewrite app_nil_r. split; [done |].
    split; by try constructor. }
  apply Forall_cons in Hok as [Hitem Hitems]. cbn [length] in Hf.
  destruct (si_symbol item) as [s|] eqn:Hsym.
  - destruct (same_symbol s items) as [group rest] eqn:Hsame.
    destruct (same_symbol_spec _ _ _ _ Hsame) as [-> Hg].
    apply Forall_app in Hitems as [Hgroup Hrest]. rewrite length_app in Hf.
    destruct (crush_group_spec s (si_expr item) group) as (e & -> & Hc & Hd & Hcount).
    { assert (Forall (operand (over s) false AND) (map si_expr [item])) as H1
        by (apply group_operands; by apply Forall_singleton).
      by apply Forall_cons in H1 as [? _]. }
    { by apply group_operands. }
    cbn [mbind option_bind forallb].
    destruct (crushed_cases s e Hc) as [->|He].
    { eexists. split; [done |]. left. split; [done |]. cbn in Hd.
      rewrite forallb_app. by rewrite andb_assoc, <- Hd. }
    assert (disjunction (over s) e) as Hdis.
    { destruct He as [(a & c & -> & ?)|He]; [done | by apply or_of_cmps_disjunction]. }
    assert (clause e) as Hcl by (by eapply disjunction_clause).
    destruct (IH rest (l ++ [e])) as (r & Hr & Hspec);
      [lia | done | apply Forall_app; split; [done | by constructor] |].
    exists r. split.
    { rewrite combine_acc by (done || apply Hcl). by destruct e as [| [] ? ? | |]. }
    rewrite forallb_app, andb_assoc. fold (forallb denote_item group). rewrite <- Hd.
    destruct Hspec as [[-> Hfalse]|(l' & -> & [H1 H2 H3 H4 H5])].
    + left. split; [done |]. by rewrite Hfalse, andb_false_r.
    + right. exists (e :: l'). rewrite <- app_assoc. split; [done |]. split.
      * by constructor.
      * cbn [forallb]. by rewrite H2, forallb_app, andb_assoc, Hd.
      * cbn [map]. rewrite map_app, !or_total_cons, or_total_app. lia.
      * done.
      * intros e' [= -> _] _. exists s. by apply disjunction_unique.
  - pose proof (item_clause item Hitem Hsym) as Hcl.
    destruct (IH items (l ++ [si_expr item])) as (r & Hr & Hspec);
      [lia | done | apply Forall_app; split; [done | by constructor] |].
    rewrite combine_acc by (done || apply Hcl). exists r. split; [done |].
    cbn [forallb]. destruct Hspec as [[-> Hfalse]|(l' & -> & [H1 H2 H3 H4 H5])].
    + left. split; [done |]. by rewrite Hfalse, andb_false_r.
    + right. exists (si_expr item :: l'). rewrite <- app_assoc. split; [done |]. split.
      * by constructor.
      * cbn [forallb]. by rewrite H2.
      * cbn [map]. rewrite !or_total_cons. lia.
      * done.
      * intros e' [= _ ->] Hlen. destruct items; [done | by destruct (H4 ltac:(done))].
Qed.
Lemma forallb_perm {A} (f : A -> bool) l k : l ≡ₚ k -> forallb f l = forallb f k.
Proof.
  induction 1 as [|x l k _ IH|x y l|l k j _ IH1 _ IH2]; cbn; [done | by rewrite IH | | congruence].
  by destruct (f x), (f y).
Qed.

(** The result of sorting: false, a crushed clause, or at least two clauses. *)
Lemma expr_sort_spec a subs :
  tree simple_cmp false (EAndOr AND a subs) ->
  exists e, expr_sort (EAndOr AND a subs) = Some e /\ denote e = forallb denote subs
    /\ (e = EBoolean false \/ (exists s, disjunction (over s) e)
        \/ exists l, e = EAndOr AND None l /\ (2 <= length l)%nat /\ Forall clause l
                     /\ (or_total l <= or_total subs)%nat).
Proof using Hinj.
  intros [Hlen Hsubs]%tree_andor. cbn [expr_sort].
  set (items := qsort compare_expr_sort (map sort_item subs)).
  assert (items ≡ₚ map sort_item subs) as Hperm by apply qsort_permutation.
  assert (map si_expr (map sort_item subs) = subs) as Hmap
    by (rewrite map_map; apply map_id).
  assert (length items = length subs) as Hli
    by (by rewrite (Permutation_length Hperm), length_map).
  assert (Forall item_ok items) as Hok.
  { rewrite Hperm. apply Forall_map. eapply Forall_impl; [done |]. by split. }
  destruct (sort_loop_spec (length subs) items [] ltac:(lia) Hok ltac:(constructor))
    as (r & Hr & Hspec).
  change (acc_of []) with (@None expr) in Hr. rewrite Hr. cbn [mbind option_bind app] in *.
  assert (forallb denote_item items = forallb denote subs) as Hd.
  { rewrite (forallb_perm _ _ _ Hperm), <- denote_items. by rewrite Hmap. }
  rewrite Hd in Hspec. destruct Hspec as [[-> Hf]|(l & -> & [H1 H2 H3 H4 H5])].
  - eexists. split; [done |]. split; [done | by left].
  - assert (l <> []) as Hne by (apply H4; intros ->; cbn in Hli; lia).
    rewrite Hd in H2. eexists. split; [done |]. rewrite <- H2.
    destruct l as [|e [|e' l]]; [done | |]; cbn [acc_of].
    + split; [cbn; by rewrite andb_true_r |]. right; left.
      destruct (H5 e eq_refl ltac:(lia)) as [s Hs]. exists s.
      apply Forall_cons in H1 as [[_ _ Hc] _]. by apply Hc.
    + split; [done |]. right; right. eexists. split; [done |].
      split; [cbn; lia |]. split; [done |].
      pose proof (or_total_perm _ _ (Permutation_map si_expr Hperm)) as Ht.
      rewrite Hmap in Ht. by rewrite <- Ht.
Qed.

(** ** Merging neighbouring comparisons *)

Lemma merge_two (ca cb : expr_cmp) :
  simple_cmp ca -> simple_cmp cb -> symbol ca = symbol cb -> width (symbol ca) <> 0 ->
  match mf_subvalue_intersect (value ca) (mask ca) (value cb) (mask cb) with
  | Some (v, m) =>
      let c := {| symbol := symbol cb; relop := relop cb; cst_string := cst_string cb;
                  value := v; mask := m |} in
      simple_cmp c /\ expr_evaluate_cmp flow lookup_port c
        = expr_evaluate_cmp flow lookup_port ca && expr_evaluate_cmp flow lookup_port cb
  | None => expr_evaluate_cmp flow lookup_port ca && expr_evaluate_cmp flow lookup_port cb = false
  end.
Proof using.
  intros Ha Hb Hs Hw. set (s := symbol cb) in *.
  assert (over s ca) as Hao by (by split). assert (over s cb) as Hbo by (by split).
  rewrite Hs in Hw. pose proof (over_wf_symbol _ _ Hao) as Hsym.
  pose proof (over_wf_match _ _ Hao Hw) as Hma. pose proof (over_wf_match _ _ Hbo Hw) as Hmb.
  pose proof (intersect_matches s (field_value flow s) _ _ _ _ Hma Hmb) as Hi.
  rewrite !(over_eval _ _ s) by done.
  destruct (mf_subvalue_intersect _ _ _ _) as [[v m]|] eqn:E; [|done].
  destruct (over_intersect s Hsym Hw cb (value ca) (mask ca) v m (cst_string cb) Hbo Hma E)
    as (Hov & _ & _).
  rewrite (sc_relop _ Hb). split; [apply Hov |]. by rewrite (over_eval _ _ s).
Qed.

(** What the loop may leave of the clauses [subs]. *)
Definition merged (subs : list expr) (o : option (list expr)) : Prop :=
  match o with
  | None => forallb denote subs = false
  | Some l =>
      Forall clause l /\ forallb denote l = forallb denote subs
      /\ (or_total l <= or_total subs)%nat /\ l <> []
      /\ (forall e, l = [e] -> length subs <> 1%nat -> is_cmp simple_cmp e)
  end.

Lemma merged_keep a subs o :
  clause a -> merged subs o -> merged (a :: subs) (rest ← o; Some (a :: rest)).
Proof using.
  intros Ha. destruct o as [l|]; cbn [merged mbind option_bind].
  - intros (H1 & H2 & H3 & H4 & _). split_and!; [by constructor | | | done |].
    + cbn [forallb] in *. by rewrite H2.
    + rewrite !or_total_cons in *. lia.
    + intros e [= _ E]. done.
  - intros IH. cbn [forallb] in *. by rewrite IH, andb_false_r.
Qed.

Lemma merged_into aa ca ba cb c subs o :
  simple_cmp c ->
  expr_evaluate_cmp flow lookup_port c
  = expr_evaluate_cmp flow lookup_port ca && expr_evaluate_cmp flow lookup_port cb ->
  o = merge_cmps (ECmp ba c) subs ->
  merged (ECmp ba c :: subs) o -> merged (ECmp aa ca :: ECmp ba cb :: subs) o.
Proof using.
  intros Hc He Ho.
  assert (forallb denote (ECmp ba c :: subs) = forallb denote (ECmp aa ca :: ECmp ba cb :: subs))
    as Heq by (cbn; by rewrite He, andb_assoc).
  unfold merged. rewrite Heq. destruct o as [l|]; [|done].
  intros (H1 & H2 & H3 & H4 & H5). split_and!; [done | done | exact H3 | done |].
  intros e -> _. destruct subs as [|x subs]; [|by apply H5].
  cbn in Ho. simplify_eq. exact Hc.
Qed.

Lemma merge_cmps_spec a subs : Forall clause (a :: subs) -> merged (a :: subs) (merge_cmps a subs).
Proof using Hinj.
  revert a. induction subs as [|b subs IH]; intros a Hall; cbn [merge_cmps].
  { cbn. split_and!; [done | done | done | done |]. by intros e _ []. }
  apply Forall_cons in Hall as [Ha Hsubs].
  pose proof (merged_keep a _ _ Ha (IH b Hsubs)) as Hkeep.
  apply Forall_cons in Hsubs as [Hb Hrest].
  destruct a as [aa ca| | |]; [|apply Hkeep ..].
  destruct b as [ba cb| | |]; [|apply Hkeep ..].
  case_decide as Hsym; [|apply Hkeep]. clear Hkeep.
  pose proof (cl_tree _ Ha) as Hca. pose proof (cl_tree _ Hb) as Hcb. cbn in Hca, Hcb.
  assert (forall c, simple_cmp c -> merged (ECmp ba c :: subs) (merge_cmps (ECmp ba c) subs)) as IHc
    by (intros c Hc; apply IH; constructor; [by apply cmp_clause | done]).
  destruct (Z.eqb_spec (width (symbol ca)) 0) as [Hw|Hw]; cbn [negb].
  - rewrite Hsym in Hw. assert (over (symbol cb) ca) as Hao by (by split).
    assert (over (symbol cb) cb) as Hbo by (by split).
    destruct (Z.eqb_spec (strcmp (cst_string ca) (cst_string cb)) 0) as [E|E].
    + eapply merged_into; [exact Hcb | | done | by apply IHc]. apply strcmp_eq in E.
      rewrite !(eval_string (symbol cb)) by done. by rewrite E, andb_diag.
    + cbn [merged forallb ExprLemmas.denote]. rewrite andb_assoc.
      rewrite !(eval_string (symbol cb)) by done.
      destruct (is_port _ _ _ (cst_string ca)) eqn:E1, (is_port _ _ _ (cst_string cb)) eqn:E2;
        try done.
      destruct E. apply strcmp_eq. by eapply is_port_inj.
  - pose proof (merge_two ca cb Hca Hcb Hsym Hw) as H2.
    destruct (mf_subvalue_intersect _ _ _ _) as [[v m]|].
    + destruct H2 as [H2 H3]. eapply merged_into; [exact H2 | done | done | by apply IHc].
    + cbn [merged forallb ExprLemmas.denote]. by rewrite andb_assoc, H2.
Qed.

(** ** Crossproducts *)

Lemma find_crossproduct_spec before subs :
  Forall clause subs ->
  match find_crossproduct before subs with
  | None => False
  | Some None => Forall (fun e => is_Some (expr_get_unique_symbol e)) subs
  | Some (Some (b, ks, after)) =>
      exists a, before ++ subs = b ++ EAndOr OR a ks :: after
  end.
Proof.
  intros Hsubs. revert before.
  induction Hsubs as [|e subs He _ IH]; intros before; cbn [find_crossproduct]; [constructor |].
  assert (is_Some (expr_get_unique_symbol e) ->
    match find_crossproduct (before ++ [e]) subs with
    | None => False
    | Some None => Forall (fun e => is_Some (expr_get_unique_symbol e)) (e :: subs)
    | Some (Some (b, ks, after)) => exists a, before ++ e :: subs = b ++ EAndOr OR a ks :: after
    end) as Hnext.
  { intros Hu. specialize (IH (before ++ [e])).
    destruct (find_crossproduct _ _) as [[[[b ks] after]|]|]; [| by constructor | done].
    by rewrite <- app_assoc in IH. }
  destruct e as [a c|[] a ks|b|n str]; [by apply Hnext | | | |].
  - by destruct (cl_type _ He).
  - destruct (expr_get_unique_symbol (EAndOr OR a ks)) as [s|] eqn:Hu; [|by exists a].
    destruct (must_crossproduct s); [by exists a | by apply Hnext].
  - by pose proof (cl_tree _ He).
  - by pose proof (cl_tree _ He).
Qed.

(** The terms of a tree in a conjunction. *)
Lemma and_terms_spec e :
  tree simple_cmp false e ->
  Forall (operand simple_cmp false AND) (and_terms e) /\ (1 <= length (and_terms e))%nat
  /\ forallb denote (and_terms e) = denote e /\ or_total (and_terms e) = or_count e.
Proof.
  intros He.
  assert (type_of e <> EXPR_T_AND ->
    Forall (operand simple_cmp false AND) [expr_clone e] /\ (1 <= length [expr_clone e])%nat
    /\ forallb denote [expr_clone e] = denote e /\ or_total [expr_clone e] = or_count e) as Hone.
  { intros Ht. split_and!.
    - apply Forall_singleton. split; [by rewrite type_of_clone | by apply tree_clone].
    - done.
    - cbn [forallb]. by rewrite denote_clone, andb_true_r.
    - rewrite or_total_cons, or_count_clone. cbn. lia. }
  destruct e as [a c|[] a subs|b|n str]; [by apply Hone | | by apply Hone | done | done].
  clear Hone. apply tree_andor in He as [Hl Hsubs]. cbn [and_terms]. split_and!.
  - apply Forall_map. eapply Forall_impl; [done |]. intros e [Ht He].
    split; [by rewrite type_of_clone | by apply tree_clone].
  - rewrite length_map. lia.
  - cbn [ExprLemmas.denote]. clear. induction subs as [|e subs IH]; [done |]. cbn [map forallb].
    by rewrite denote_clone, IH.
  - by rewrite or_total_clone, or_count_andor.
Qed.

Lemma flat_terms_spec l :
  Forall (tree simple_cmp false) l ->
  Forall (operand simple_cmp false AND) (flat_map and_terms l)
  /\ (length l <= length (flat_map and_terms l))%nat
  /\ forallb denote (flat_map and_terms l) = forallb denote l
  /\ or_total (flat_map and_terms l) = or_total l.
Proof.
  induction 1 as [|e l He _ (IH1 & IH2 & IH3 & IH4)]; [cbn; split_and!; done |].
  destruct (and_terms_spec e He) as (H1 & H2 & H3 & H4). cbn [flat_map]. split_and!.
  - by apply Forall_app.
  - rewrite length_app. cbn [length]. lia.
  - rewrite forallb_app. cbn [forallb]. by rewrite H3, IH3.
  - rewrite or_total_app, or_total_cons. lia.
Qed.
(** A disjunction in a conjunction of clauses multiplied out: conjunctions with
    the same meaning and fewer ORs. *)
Lemma crossproduct_spec before a ks after :
  Forall clause (before ++ EAndOr OR a ks :: after) ->
  (2 <= length (before ++ EAndOr OR a ks :: after))%nat ->
  exists ands, crossproduct before ks after = EAndOr OR None ands
    /\ existsb denote ands = forallb denote (before ++ EAndOr OR a ks :: after)
    /\ Forall (fun e => type_of e = EXPR_T_AND /\ tree simple_cmp false e
               /\ (or_count e < or_total (before ++ EAndOr OR a ks :: after))%nat) ands.
Proof using.
  intros [Hb [Hk Ha]%Forall_cons]%Forall_app Hlen.
  pose proof (cl_tree _ Hk) as [Hkl Hks]%tree_andor.
  assert (Forall (tree simple_cmp false) before) as Hbt
    by (eapply Forall_impl; [exact Hb |]; by intros e [? _ _]).
  assert (Forall (tree simple_cmp false) after) as Hat
    by (eapply Forall_impl; [exact Ha |]; by intros e [? _ _]).
  eexists. split; [done |]. split.
  - rewrite forallb_app. cbn [forallb ExprLemmas.denote].
    clear Hk Hkl Hlen. induction Hks as [|k ks [_ Hk] _ IH]; [cbn; by rewrite andb_false_r |].
    destruct (flat_terms_spec (before ++ k :: after)) as (_ & _ & Hd & _);
      [by apply Forall_app; split; [| constructor] |].
    cbn [map existsb ExprLemmas.denote]. rewrite Hd, IH, forallb_app. cbn [forallb].
    destruct (forallb denote before), (forallb denote after), (denote k), (existsb denote ks); done.
  - apply Forall_map. rewrite Forall_forall in Hks. apply Forall_forall. intros k Hin.
    destruct (Hks k Hin) as [Hkt Hk'].
    destruct (flat_terms_spec (before ++ k :: after)) as (H1 & H2 & _ & H4);
      [by apply Forall_app; split; [| constructor] |].
    rewrite length_app in *. cbn [length] in *. split_and!.
    + done.
    + apply tree_andor. split; [lia | done].
    + rewrite or_count_andor, H4, !or_total_app, !or_total_cons, or_count_andor.
      pose proof (or_total_elem k ks Hin). lia.
Qed.

(** ** Normal form *)

(** A comparison, or a conjunction of clauses of one symbol each. *)
Definition nf_and (e : expr) : Prop :=
  match e with
  | ECmp _ c => simple_cmp c
  | EAndOr AND _ l =>
      (2 <= length l)%nat
      /\ Forall (fun e => clause e /\ is_Some (expr_get_unique_symbol e)) l
  | _ => False
  end.

Definition nf (e : expr) : Prop :=
  match e with
  | EBoolean _ => True
  | EAndOr OR _ l => (2 <= length l)%nat /\ Forall nf_and l
  | _ => nf_and e
  end.

Lemma disjunction_nf s e : disjunction (over s) e -> nf e.
Proof.
  destruct e as [a c|[] a l|b|n str]; try done; cbn.
  - by intros [? _].
  - intros [Hl Hc]. split; [done |]. eapply Forall_impl; [done |]. intros e He.
    destruct e as [a' c| | |]; try done. by destruct He.
Qed.

Lemma nf_and_tree e : nf_and e -> operand simple_cmp false OR e.
Proof.
  destruct e as [a c|[] a l|b|n str]; try done; cbn [nf_and].
  intros [Hl Hc]. split; [done |]. apply tree_andor. split; [done |].
  eapply Forall_impl; [done |]. intros e [He _]. by apply clause_operand.
Qed.

(** The form is the one that [expr_is_normalized] checks, and it honours the
    invariants. *)
Lemma nf_normalized e : nf e -> expr_is_normalized e = true.
Proof.
  assert (forall l, Forall (fun e => clause e /\ is_Some (expr_get_unique_symbol e)) l ->
    expr_is_normalized_and l = true) as Hand.
  { intros l Hl. apply forallb_forall. intros x Hx. rewrite Forall_forall in Hl.
    apply list_elem_of_In in Hx. apply bool_decide_eq_true. by apply Hl. }
  destruct e as [a c|[] a l|b|n str]; try done.
  - intros [_ Hl]. by apply Hand.
  - intros [_ Hl]. cbn [expr_is_normalized].
    destruct (expr_get_unique_symbol _); [done |]. apply forallb_forall. intros e He.
    rewrite Forall_forall in Hl. apply list_elem_of_In in He. specialize (Hl e He).
    apply orb_true_iff. destruct e as [a' c|[] a' l'|b|n str]; try done.
    + left. by apply bool_decide_eq_true.
    + right. by apply Hand, Hl.
Qed.

Lemma nf_proper e : nf e -> proper simple_cmp false e.
Proof.
  destruct e as [a c|[] a l|b|n str]; try done.
  - intros Hnf. by destruct (nf_and_tree (EAndOr AND a l) Hnf).
  - intros [Hl Hnf]. apply (tree_andor simple_cmp false OR a). split; [done |].
    eapply Forall_impl; [done |]. apply nf_and_tree.
Qed.

Definition normalize_ok (normalize : expr -> option expr) (e : expr) : Prop :=
  exists e', normalize e = Some e' /\ nf e' /\ denote e' = denote e.

Lemma normalize_or_loop_spec norm subs :
  Forall (fun e => is_cmp simple_cmp e
            \/ (type_of e = EXPR_T_AND /\ normalize_ok norm e)) subs ->
  exists r, normalize_or_loop norm subs = Some r
    /\ match r with
       | inl e => e = EBoolean true /\ existsb denote subs = true
       | inr l => Forall nf_and l /\ existsb denote l = existsb denote subs
       end.
Proof using.
  induction 1 as [|e subs He _ (r & IH1 & IH2)]; [by eexists |]. cbn [normalize_or_loop].
  destruct He as [He|[Ht (e' & He & Hnf & Hd)]].
  - destruct e as [a c| | |]; try done. rewrite IH1. cbn [mbind option_bind].
    eexists. split; [done |]. destruct r as [e'|l].
    + destruct IH2 as [-> IH2]. split; [done |]. cbn. by rewrite IH2, orb_true_r.
    + destruct IH2 as [IH2 IH3]. split; [by constructor |]. cbn. by rewrite IH3.
  - destruct e as [|[] a l| |]; try done. rewrite He. cbn [mbind option_bind existsb].
    rewrite <- Hd.
    assert (match e' with EBoolean _ => True
            | _ => Forall nf_and (expr_insert_andor OR e') end) as Hins.
    { destruct e' as [a' c|[] a' l'|b'|n str]; cbn in *; try done;
        [by apply Forall_singleton .. | by destruct Hnf]. }
    destruct e' as [a' c|t' a' l'|[]|n str]; [| | | | done].
    + rewrite IH1. cbn [mbind option_bind]. eexists. split; [done |]. destruct r as [e'|k].
      * destruct IH2 as [-> IH2]. split; [done |]. by rewrite IH2, orb_true_r.
      * destruct IH2 as [IH2 IH3]. split; [constructor; [exact Hnf | done] |]. cbn. by rewrite IH3.
    + rewrite IH1. cbn [mbind option_bind]. eexists. split; [done |]. destruct r as [e'|k].
      * destruct IH2 as [-> IH2]. split; [done |]. by rewrite IH2, orb_true_r.
      * destruct IH2 as [IH2 IH3]. split; [apply Forall_app; split; [exact Hins | done] |].
        rewrite existsb_app, IH3. f_equal.
        apply (denote_insert_andor flow lookup_port icr OR (EAndOr t' a' l')).
    + by eexists.
    + rewrite IH1. exists r. split; [done |]. by destruct r.
Qed.

Lemma normalize_or_spec norm a subs :
  Forall (fun e => is_cmp simple_cmp e
            \/ (type_of e = EXPR_T_AND /\ normalize_ok norm e)) subs ->
  normalize_ok (expr_normalize_or_with norm) (EAndOr OR a subs).
Proof using.
  intros Hsubs. unfold normalize_ok. cbn [expr_normalize_or_with].
  destruct (normalize_or_loop_spec norm subs Hsubs) as (r & -> & Hr).
  cbn [mbind option_bind ExprLemmas.denote]. destruct r as [e|l].
  - destruct Hr as [-> Hr]. by eexists.
  - destruct Hr as [Hl <-]. destruct l as [|e [|e' l]].
    + by eexists.
    + eexists. split; [done |]. apply Forall_cons in Hl as [He _]. split.
      * by destruct e as [| [] ? ? | |].
      * cbn. by rewrite orb_false_r.
    + eexists. split; [done |]. split; [|done]. split; [cbn; lia | done].
Qed.

Lemma normalize_and_fuel_spec fuel a subs :
  tree simple_cmp false (EAndOr AND a subs) -> (or_total subs < fuel)%nat ->
  normalize_ok (expr_normalize_and_fuel fuel) (EAndOr AND a subs).
Proof using Hinj.
  revert a subs. induction fuel as [|fuel IH]; intros a subs Ht Hf; [lia |].
  unfold normalize_ok. cbn [expr_normalize_and_fuel].
  destruct (expr_sort_spec a subs Ht) as (e & -> & Hd & He). cbn [mbind option_bind].
  assert (denote e = denote (EAndOr AND a subs)) as Hd' by done. clear Hd.
  destruct He as [->|[(s & Hs)|(l & -> & Hl & Hcl & Hors)]].
  - by eexists.
  - exists e. split; [by destruct e as [| [] ? ? | |] |]. split; [by eapply disjunction_nf | done].
  - destruct l as [|x l]; [cbn in Hl; lia |].
    pose proof (merge_cmps_spec x l Hcl) as Hm. rewrite <- Hd'. cbn [ExprLemmas.denote].
    destruct (merge_cmps x l) as [k|]; cbn [merged] in Hm.
    2: { eexists. split; [done |]. by rewrite Hm. }
    destruct Hm as (Hk1 & Hk2 & Hk3 & Hk4 & Hk5). rewrite <- Hk2.
    destruct k as [|y [|z k]]; [done | |].
    + exists y. split; [done |]. specialize (Hk5 y eq_refl ltac:(cbn in *; lia)).
      destruct y as [a' c| | |]; try done. split; [done |]. cbn. by rewrite andb_true_r.
    + pose proof (find_crossproduct_spec [] _ Hk1) as Hfind.
      destruct (find_crossproduct [] (y :: z :: k)) as [[[[b ks] after]|]|];
        cbn [mbind option_bind]; [| |done].
      * destruct Hfind as [a' Hfind]. cbn [app] in Hfind. rewrite Hfind in *.
        destruct (crossproduct_spec b a' ks after Hk1) as (ands & -> & Hands & Hall);
          [rewrite <- Hfind; cbn; lia |].
        rewrite <- Hands.
        apply (normalize_or_spec (expr_normalize_and_fuel fuel) None ands).
        eapply Forall_impl; [exact Hall |]. intros e (Hty & Htree & Hcount). right.
        split; [done |]. destruct e as [|[] a'' l''| |]; try done.
        apply IH; [done |]. rewrite or_count_andor in Hcount. lia.
      * eexists. split; [done |]. split; [|done]. split; [cbn; lia |].
        apply Forall_and. done.
Qed.

(** Every simplified expression without conditions is normalized. *)
Lemma normalize_spec e :
  proper simple_cmp false e -> normalize_ok expr_normalize e.
Proof using Hinj.
  destruct e as [a c|[] a subs|b|n str]; [by eexists | | | by eexists | done].
  - intros Ht. apply normalize_and_fuel_spec; [done |]. rewrite or_count_andor. cbn. lia.
  - intros Ht. apply (tree_andor simple_cmp false OR a) in Ht as [Hl Hsubs].
    apply normalize_or_spec.
    rewrite Forall_forall in Hsubs. apply Forall_forall. intros e He.
    destruct (Hsubs e He) as [Hty Htree].
    pose proof (or_total_elem e subs He) as Hle.
    destruct e as [a' c|[] a' l|b|n str]; [by left | | done | done | done]. right.
    split; [done |]. apply normalize_and_fuel_spec; [done |].
    rewrite or_count_andor in Hle |- *. cbn in *. lia.
Qed.
End Normalize.
