(* ===== verification/ExprProofs.v ===== *)
(** * Properties of the match expression passes

    The theorems of the expression component: every pass keeps the meaning of an
    expression and produces the form the next one relies on, and together they
    turn any annotated expression into one from which flows can be generated. *)
From stdpp Require Import base option list strings gmap.
From Stdlib Require Import ZArith Lia.
From S2P Require Import Prelude Subvalue Expr ExprLemmas ExprSimplify.
From S2P Require Import ExprSupersets ExprCrush ExprNormalize.
Import Subvalue Expr.

Local Open Scope Z_scope.

(** ** Expressions without conditions *)

Lemma denote_no_conditions flow lookup_port icr icr' P e :
  proper P false e -> denote flow lookup_port icr e = denote flow lookup_port icr' e.
Proof.
  induction e as [a c|t a subs IH|b|n str] using expr_induction; [done | | done | done].
  intros H. apply (tree_andor P false t a) in H as [_ H]. rewrite !denote_andor.
  induction H as [|e subs [_ He%tree_proper] _ IHs]; [done |].
  apply Forall_cons in IH as [IH1 IH2]. by rewrite !denote_subs_cons, IH1, IHs.
Qed.

(** No comparison of the expression uses an operator other than [==]. *)
Definition only_equalities : expr -> Prop := all_cmps (fun c => relop c = EXPR_R_EQ).

Lemma tree_all_cmps P conds (Q : expr_cmp -> Prop) e :
  (forall c, P c -> Q c) -> proper P conds e -> all_cmps Q e.
Proof.
  intros HPQ. induction e as [a c|t a subs IH|b|n str] using expr_induction; [apply HPQ | | done | done].
  intros H. apply (tree_andor P conds t a) in H as [_ H]. apply all_cmps_andor.
  induction H as [|e subs [_ He%tree_proper] _ IHs]; [constructor |].
  apply Forall_cons in IH as [IH1 IH2]. constructor; auto.
Qed.

Lemma proper_honors conds e : proper simple_cmp conds e -> expr_honors_invariants e = true.
Proof. destruct e; [| | done |]; apply simple_tree_honors. Qed.

(** ** Examples *)

(** [tcp.dst], [eth.type], which has to be multiplied out, and [inport]. *)
Definition tcp_dst : expr_symbol :=
  {| name := "tcp.dst"; width := 16; n_bytes := 2; level := EXPR_L_ORDINAL;
     must_crossproduct := false |}.

Definition eth_type : expr_symbol :=
  {| name := "eth.type"; width := 16; n_bytes := 2; level := EXPR_L_NOMINAL;
     must_crossproduct := true |}.

Definition inport : expr_symbol :=
  {| name := "inport"; width := 0; n_bytes := 4; level := EXPR_L_NOMINAL;
     must_crossproduct := false |}.

Definition cmp_full (s : expr_symbol) (r : expr_relop) (v : Z) : expr :=
  ECmp None {| symbol := s; relop := r; cst_string := EmptyString; value := v;
               mask := sv_range 0 (width s) |}.

(** (tcp.dst >= 1000 || eth.type != 0x800) && tcp.dst != 80 && inport == "p1"
    && is_chassis_resident("p2") *)
Definition example : expr :=
  EAndOr AND None
    [EAndOr OR None [cmp_full tcp_dst EXPR_R_GE 1000; cmp_full eth_type EXPR_R_NE 0x800];
     cmp_full tcp_dst EXPR_R_NE 80; ECmp None (cmp_str inport "p1");
     ECondition false "p2"].

Lemma full_simplifiable s r v :
  0 < width s <= 8 * n_bytes s -> 0 <= v < 2 ^ width s ->
  simplifiable {| symbol := s; relop := r; cst_string := EmptyString; value := v;
                  mask := sv_range 0 (width s) |}.
Proof.
  intros Hs Hv. split; [split | | ]; cbn [symbol relop value mask].
  - unfold wf_symbol. lia.
  - intros _. split; [lia | |].
    + unfold sv_range. rewrite Z.shiftl_0_r, Z.ones_equiv.
      assert (0 < 2 ^ width s) by lia. lia.
    + intros n Hn Hb. rewrite sv_range_testbit by lia. apply andb_true_iff. split; [lia |].
      apply Z.ltb_lt, Z.nle_gt. intros Hle.
      by rewrite (BitwiseProofs.testbit_high v (width s)) in Hb by lia.
  - lia.
  - intros _ _ _. exists 0, (width s). split_and!; [lia .. | done].
Qed.

Lemma example_simplifiable : all_cmps simplifiable example.
Proof.
  cbn. split_and!; try done; try (apply full_simplifiable; cbn; lia).
Qed.

Definition example_lookup (port : string) : option Z :=
  if bool_decide (port = "p1") then Some 7 else None.

Lemma example_lookup_inj a b p :
  example_lookup a = Some p -> example_lookup b = Some p -> a = b.
Proof. unfold example_lookup. repeat case_bool_decide; congruence. Qed.

(** The passes together *)
Lemma pipeline_spec `{!Qsort} is_chassis_resident lookup_port e :
  all_cmps simplifiable e ->
  (forall a b p, lookup_port a = Some p -> lookup_port b = Some p -> a = b) ->
  exists e1 e2, expr_simplify e = Some e1
    /\ expr_normalize (expr_evaluate_condition is_chassis_resident e1) = Some e2
    /\ expr_is_normalized e2 = true /\ expr_honors_invariants e2 = true
    /\ forall flow, expr_evaluate flow lookup_port e2
                    = denote flow lookup_port is_chassis_resident e.
Proof.
  intros He Hinj. set (icr := is_chassis_resident).
  destruct (simplify_spec (fun _ => 0) lookup_port icr e He) as (e1 & He1 & Hp1 & _).
  pose proof (fun flow => evaluate_condition_spec flow lookup_port icr simple_cmp e1 Hp1) as Hc.
  destruct (Hc (fun _ => 0)) as [Hp2 _].
  destruct (normalize_spec (fun _ => 0) lookup_port icr Hinj _ Hp2) as (e2 & He2 & Hnf & _).
  exists e1, e2. split_and!; [done | done | by apply nf_normalized | by apply (proper_honors false), nf_proper |].
  intros flow. rewrite evaluate_denote.
  rewrite (denote_no_conditions _ _ _ icr simple_cmp) by (by apply nf_proper).
  destruct (normalize_spec flow lookup_port icr Hinj _ Hp2) as (e2' & He2' & _ & Hd2).
  destruct (simplify_spec flow lookup_port icr e He) as (e1' & He1' & _ & Hd1).
  destruct (Hc flow) as [_ Hdc]. simplify_eq. by rewrite Hd2, Hdc, Hd1.
Qed.

(** ** Properties *)

(** C5: the passes composed as in ovn-controller.  For every expression whose
    comparisons are simplifiable, that is, fit their symbols, are equality tests
    where the symbol is a string, and use relational operators on
    contiguous masks only, simplification, evaluation of conditions and normalization run
    without a failing assertion and end with an expression that is normalized,
    honours the invariants of expr.h and evaluates, on every microflow, to what
    the original expression means when ports reside on the chassis as
    [is_chassis_resident] says.  The hypothesis on [lookup_port] is that two
    port names do not have the same number. *)
Theorem expr_pipeline_correct `{!Qsort} is_chassis_resident lookup_port e :
  all_cmps simplifiable e ->
  (forall a b p, lookup_port a = Some p -> lookup_port b = Some p -> a = b) ->
  exists e1 e2, expr_simplify e = Some e1
    /\ expr_normalize (expr_evaluate_condition is_chassis_resident e1) = Some e2
    /\ expr_is_normalized e2 = true /\ expr_honors_invariants e2 = true
    /\ forall flow, expr_evaluate flow lookup_port e2
                    = denote flow lookup_port is_chassis_resident e.
Proof. apply pipeline_spec. Qed.

Lemma expr_pipeline_correct_witness :
  exists e1 e2, expr_simplify example = Some e1
    /\ @expr_normalize insertion_qsort (expr_evaluate_condition (fun _ => true) e1) = Some e2
    /\ expr_is_normalized e2 = true /\ expr_honors_invariants e2 = true
    /\ forall flow, expr_evaluate flow example_lookup e2
                    = denote flow example_lookup (fun _ => true) example.
Proof.
  apply (@expr_pipeline_correct insertion_qsort (fun _ => true) example_lookup example);
    [apply example_simplifiable | apply example_lookup_inj].
Defined.

(** C14: [expr_simplify] returns, for every expression whose comparisons are
    simplifiable, that is, fit their symbols, are equality tests where the symbol is
    a string, and use relational operators on contiguous masks only, an expression
    with the same meaning in which every comparison is an equality test, and which
    honours the invariants. *)
Theorem expr_simplify_correct flow lookup_port is_chassis_resident e :
  all_cmps simplifiable e ->
  exists e', expr_simplify e = Some e' /\ only_equalities e'
    /\ expr_honors_invariants e' = true
    /\ denote flow lookup_port is_chassis_resident e'
       = denote flow lookup_port is_chassis_resident e.
Proof.
  intros He. destruct (simplify_spec flow lookup_port is_chassis_resident e He)
    as (e' & He' & Hp & Hd).
  exists e'. split_and!; [done | | by eapply proper_honors | done].
  eapply tree_all_cmps; [|done]. by intros c [_ ? _].
Qed.

Lemma expr_simplify_correct_witness :
  exists e', expr_simplify example = Some e' /\ only_equalities e'
    /\ expr_honors_invariants e' = true
    /\ denote (fun _ => 80) example_lookup (fun _ => true) e'
       = denote (fun _ => 80) example_lookup (fun _ => true) example.
Proof. apply expr_simplify_correct, example_simplifiable. Defined.

(** C15: [expr_normalize] ends on every expression with the invariants that
    [expr_simplify] and [expr_evaluate_condition] establish, without a failing
    assertion; the result is in the form OR(AND(clause)) that
    [expr_is_normalized] checks and evaluates the same. *)
Theorem expr_normalize_correct `{!Qsort} lookup_port e :
  proper simple_cmp false e ->
  (forall a b p, lookup_port a = Some p -> lookup_port b = Some p -> a = b) ->
  exists e', expr_normalize e = Some e' /\ expr_is_normalized e' = true
    /\ proper simple_cmp false e'
    /\ forall flow, expr_evaluate flow lookup_port e' = expr_evaluate flow lookup_port e.
Proof.
  intros He Hinj.
  destruct (normalize_spec (fun _ => 0) lookup_port (fun _ => true) Hinj e He)
    as (e' & He' & Hnf & _).
  exists e'. split_and!; [done | by apply nf_normalized | by apply nf_proper |].
  intros flow. rewrite !evaluate_denote.
  destruct (normalize_spec flow lookup_port (fun _ => true) Hinj e He) as (e'' & He'' & _ & Hd).
  by simplify_eq.
Qed.

(** tcp.dst == 1 && (tcp.dst == 1 || eth.type == 2) *)
Definition example_simple : expr :=
  EAndOr AND None
    [ECmp None (cmp_eq tcp_dst 1 0xffff);
     EAndOr OR None [ECmp None (cmp_eq tcp_dst 1 0xffff); ECmp None (cmp_eq eth_type 2 0xffff)]].

Lemma example_cmp_simple s v :
  width s = 16 -> n_bytes s = 2 -> 0 <= v < 65536 -> simple_cmp (cmp_eq s v 0xffff).
Proof.
  intros Hw Hn Hv. split; [split | done | done]; cbn [symbol value mask cmp_eq].
  - unfold wf_symbol. lia.
  - intros _. split; [lia | rewrite Hw; lia |]. apply subset_ldiff.
    change 0xffff with (Z.ones 16). apply Z.ldiff_ones_r_low; [lia |].
    destruct (decide (v = 0)) as [->|]; [cbn; lia |]. apply Z.log2_lt_pow2; lia.
Qed.

Lemma example_simple_proper : proper simple_cmp false example_simple.
Proof.
  cbn. split_and!; try lia; try done; by apply example_cmp_simple.
Qed.

Lemma expr_normalize_correct_witness :
  exists e', @expr_normalize insertion_qsort example_simple = Some e'
    /\ expr_is_normalized e' = true /\ proper simple_cmp false e'
    /\ forall flow, expr_evaluate flow example_lookup e'
                    = expr_evaluate flow example_lookup example_simple.
Proof.
  apply (@expr_normalize_correct insertion_qsort example_lookup example_simple);
    [apply example_simple_proper | apply example_lookup_inj].
Defined.

(** C32: [crush_cmps] reduces every simplified expression over one symbol to a
    comparison, a disjunction of comparisons of that symbol, or false, with the
    same meaning; its recursion ends and no assertion in it fails. *)
Theorem crush_cmps_correct `{!Qsort} lookup_port s e :
  tree (over s) false e ->
  (forall a b p, lookup_port a = Some p -> lookup_port b = Some p -> a = b) ->
  exists e', crush_cmps e s = Some e' /\ (e' = EBoolean false \/ disjunction (over s) e')
    /\ forall flow, expr_evaluate flow lookup_port e' = expr_evaluate flow lookup_port e.
Proof.
  intros He Hinj. pose proof (tree_wf_symbol s e He) as Hs.
  destruct (crush_cmps_spec s Hs (fun _ => 0) lookup_port (fun _ => true) Hinj e He)
    as (e' & He' & Hc & _).
  exists e'. split_and!; [done | |].
  - destruct e' as [| | b |]; [by right | by right | left | by right]. cbn in Hc. by rewrite Hc.
  - intros flow. rewrite !evaluate_denote.
    destruct (crush_cmps_spec s Hs flow lookup_port (fun _ => true) Hinj e He)
      as (e'' & He'' & _ & Hd). by simplify_eq.
Qed.

Lemma crush_cmps_correct_witness :
  let e := EAndOr AND None
    [ECmp None (cmp_eq tcp_dst 1 0xffff);
     EAndOr OR None [ECmp None (cmp_eq tcp_dst 1 0xffff); ECmp None (cmp_eq tcp_dst 2 0xffff)]] in
  exists e', @crush_cmps insertion_qsort e tcp_dst = Some e'
    /\ (e' = EBoolean false \/ disjunction (over tcp_dst) e')
    /\ forall flow, expr_evaluate flow example_lookup e' = expr_evaluate flow example_lookup e.
Proof.
  intros e. apply (@crush_cmps_correct insertion_qsort example_lookup tcp_dst e);
    [|apply example_lookup_inj].
  cbn. split_and!; try lia; try done; by split; [apply example_cmp_simple |].
Defined.

(** C13: [crush_or_supersets] keeps the meaning of a disjunction of comparisons of
    one symbol without an access out of bounds or a failing assertion.  On an
    ordinal field that tracks no address set what it leaves is free of
    redundancy: there are no duplicates, and for any two comparisons left the
    field has a value that only the second one matches. *)
Theorem crush_or_supersets_irredundant `{!Qsort} s a children :
  children <> [] -> Forall (is_cmp (over s)) children ->
  exists l, crush_or_supersets a children s = Some (EAndOr OR a (map node_expr l))
    /\ Forall (fun c => over s c.2) l
    /\ (forall flow lookup_port,
          expr_evaluate flow lookup_port (EAndOr OR a (map node_expr l))
          = expr_evaluate flow lookup_port (EAndOr OR a children))
    /\ (width s <> 0 -> level s = EXPR_L_ORDINAL -> no_addr_set children ->
        irredundant s (map snd l)).
Proof.
  intros Hne Hall.
  destruct (supersets_spec s (fun _ => 0) (fun _ => None) (fun _ => true) a children Hne Hall)
    as (l & Hl & Hover & _ & Hirr).
  rewrite Forall_map in Hover. exists l. split_and!; [done | exact Hover | | done].
  intros flow lookup_port. rewrite !evaluate_denote, !denote_andor.
  destruct (supersets_spec s flow lookup_port (fun _ => true) a children Hne Hall)
    as (l' & Hl' & _ & Hd & _).
  rewrite Hl in Hl'. cbn [denote_subs]. rewrite <- Hd. by injection Hl' as <-.
Qed.

Lemma crush_or_supersets_irredundant_witness :
  let children := [ECmp None (cmp_eq tcp_dst 1 0xffff); ECmp None (cmp_eq tcp_dst 2 0xffff);
                   ECmp None (cmp_eq tcp_dst 1 0xffff)] in
  exists l, @crush_or_supersets insertion_qsort None children tcp_dst
            = Some (EAndOr OR None (map node_expr l))
    /\ Forall (fun c => over tcp_dst c.2) l
    /\ (forall flow lookup_port,
          expr_evaluate flow lookup_port (EAndOr OR None (map node_expr l))
          = expr_evaluate flow lookup_port (EAndOr OR None children))
    /\ (width tcp_dst <> 0 -> level tcp_dst = EXPR_L_ORDINAL -> no_addr_set children ->
        irredundant tcp_dst (map snd l)).
Proof.
  intros children.
  apply (@crush_or_supersets_irredundant insertion_qsort tcp_dst None children); [done |].
  repeat (apply Forall_cons_2; [split; [by apply example_cmp_simple | done] |]).
  apply Forall_nil_2.
Defined.

(** [expr_not] negates an expression, provided that the ports its string
    comparisons name exist. *)
Theorem expr_not_correct flow lookup_port e :
  all_cmps (port_known lookup_port) e ->
  expr_evaluate flow lookup_port (expr_not e) = negb (expr_evaluate flow lookup_port e).
Proof. intros He. rewrite !evaluate_denote. by apply denote_not. Qed.

Lemma expr_not_correct_witness :
  let e := EAndOr AND None [cmp_full tcp_dst EXPR_R_LT 80; ECmp None (cmp_str inport "p1")] in
  expr_evaluate (fun _ => 7) example_lookup (expr_not e)
  = negb (expr_evaluate (fun _ => 7) example_lookup e).
Proof.
  intros e. apply expr_not_correct. cbn. split_and!; [done | | done].
  intros _. by exists 7.
Defined.

(** [expr_evaluate_condition] replaces every condition by its value on the
    chassis: the result has none left, so that [expr_evaluate] gives the meaning
    of the original expression there. *)
Theorem expr_evaluate_condition_correct flow lookup_port is_chassis_resident P e :
  proper P true e ->
  proper P false (expr_evaluate_condition is_chassis_resident e)
  /\ expr_evaluate flow lookup_port (expr_evaluate_condition is_chassis_resident e)
     = denote flow lookup_port is_chassis_resident e.
Proof.
  intros He.
  destruct (evaluate_condition_spec flow lookup_port is_chassis_resident P e He) as [Hp Hd].
  split; [done |]. rewrite evaluate_denote, <- Hd. by apply (denote_no_conditions _ _ _ _ P).
Qed.

Lemma expr_evaluate_condition_correct_witness :
  let e := EAndOr AND None [ECmp None (cmp_eq tcp_dst 1 0xffff); ECondition true "p2"] in
  expr_evaluate (fun _ => 1) example_lookup (expr_evaluate_condition (fun _ => false) e)
  = denote (fun _ => 1) example_lookup (fun _ => false) e.
Proof.
  intros e. apply (expr_evaluate_condition_correct _ _ _ simple_cmp). cbn.
  split_and!; try lia; try done. by apply example_cmp_simple.
Defined.

(** Two clauses of one symbol always compare equal in [expr_sort], whatever
    their kinds: the tie break by kind at the end of [compare_expr_sort] compares
    the type of [a] with itself. *)
Theorem compare_expr_sort_ignores_kind a b sa sb :
  si_type a = si_type b -> si_symbol a = Some sa -> si_symbol b = Some sb ->
  name sa = name sb -> compare_expr_sort a b = 0.
Proof.
  intros Ht Ha Hb Hn. unfold compare_expr_sort. rewrite bool_decide_eq_true_2 by done.
  cbn [negb]. rewrite Ha, Hb, Hn, (proj2 (strcmp_eq _ _)) by done. cbn.
  by rewrite Z.ltb_irrefl.
Qed.

Lemma compare_expr_sort_ignores_kind_witness :
  compare_expr_sort
    (sort_item (EAndOr OR None [ECmp None (cmp_eq tcp_dst 1 0xffff);
                                ECmp None (cmp_eq tcp_dst 2 0xffff)]))
    (sort_item (ECmp None (cmp_eq tcp_dst 1 0xffff))) = 0.
Proof. by apply (compare_expr_sort_ignores_kind _ _ tcp_dst tcp_dst). Defined.
