(* ===== verification/Reconnect.v ===== *)
(** * The connection finite state machine of [ovs/lib/reconnect.c]

    [Module Reconnect] translates every entry point of the file: creation, the
    configuration setters, the notifications by which a client reports what
    happened to its connection, [reconnect_run] and its timer
    ([reconnect_deadline__], [reconnect_timeout]), and the statistics.  The
    theorems about them are in [ReconnectProofs]. Log messages are not part of
    the state and are left out; freeing memory has no counterpart. *)
From stdpp Require Import base list strings.
From Stdlib Require Import ZArith Lia.
From S2P Require Import Prelude.

Local Open Scope Z_scope.

Module Reconnect.

(** ** States *)

Inductive state :=
| S_VOID | S_BACKOFF | S_CONNECTING | S_ACTIVE | S_IDLE | S_RECONNECT
| S_LISTENING.

#[export] Instance state_eq_dec : EqDecision state.
Proof. solve_decision. Defined.

(** The bit that represents each state. *)
Definition state_value (s : state) : Z :=
  match s with
  | S_VOID => Z.shiftl 1 0
  | S_BACKOFF => Z.shiftl 1 1
  | S_CONNECTING => Z.shiftl 1 3
  | S_ACTIVE => Z.shiftl 1 4
  | S_IDLE => Z.shiftl 1 5
  | S_RECONNECT => Z.shiftl 1 6
  | S_LISTENING => Z.shiftl 1 7
  end.

(** [fsm->state & (S_A | S_B | ...)] used as a condition. *)
Definition state_in (s : state) (set : list state) : bool :=
  negb (Z.land (state_value s) (foldr Z.lor 0 (state_value <$> set)) =? 0).

Definition state_is (s t : state) : bool := state_value s =? state_value t.

Definition is_connected_state (s : state) : bool :=
  state_in s [S_ACTIVE; S_IDLE].

#[global] Arguments state_in : simpl never.
#[global] Arguments state_is : simpl never.
#[global] Arguments is_connected_state : simpl never.

Definition reconnect_state_name__ (s : state) : string :=
  match s with
  | S_VOID => "VOID"
  | S_BACKOFF => "BACKOFF"
  | S_CONNECTING => "CONNECTING"
  | S_ACTIVE => "ACTIVE"
  | S_IDLE => "IDLE"
  | S_RECONNECT => "RECONNECT"
  | S_LISTENING => "LISTENING"
  end.

Inductive vlog_level := VLL_INFO | VLL_DBG.

Record reconnect := mk_reconnect {
  (* Configuration. *)
  r_name : string;
  r_min_backoff : Z;
  r_max_backoff : Z;
  r_probe_interval : Z;
  r_passive : bool;
  r_info : vlog_level;
  (* State. *)
  r_state : state;
  r_state_entered : Z;
  r_backoff : Z;
  r_last_activity : Z;
  r_last_connected : Z;
  r_last_disconnected : Z;
  r_last_receive_attempt : Z;
  r_max_tries : Z;
  r_backoff_free_tries : Z;
  (* Statistics. *)
  r_creation_time : Z;
  r_n_attempted_connections : Z;
  r_n_successful_connections : Z;
  r_total_connected_duration : Z;
  r_seqno : Z;
}.

#[export] Instance reconnect_rebuild : Rebuild reconnect := fun r =>
  mk_reconnect (r_name r) (r_min_backoff r) (r_max_backoff r)
    (r_probe_interval r) (r_passive r) (r_info r) (r_state r)
    (r_state_entered r) (r_backoff r) (r_last_activity r) (r_last_connected r)
    (r_last_disconnected r) (r_last_receive_attempt r) (r_max_tries r)
    (r_backoff_free_tries r) (r_creation_time r) (r_n_attempted_connections r)
    (r_n_successful_connections r) (r_total_connected_duration r) (r_seqno r).

Definition RECONNECT_DEFAULT_MIN_BACKOFF : Z := 1000.
Definition RECONNECT_DEFAULT_MAX_BACKOFF : Z := 8000.
Definition RECONNECT_DEFAULT_PROBE_INTERVAL : Z := 5000.

(** ** Construction and configuration *)

Definition reconnect_create (now : Z) : reconnect :=
  {| r_name := "void";
     r_min_backoff := RECONNECT_DEFAULT_MIN_BACKOFF;
     r_max_backoff := RECONNECT_DEFAULT_MAX_BACKOFF;
     r_probe_interval := RECONNECT_DEFAULT_PROBE_INTERVAL;
     r_passive := false;
     r_info := VLL_INFO;
     r_state := S_VOID;
     r_state_entered := now;
     r_backoff := 0;
     r_last_activity := now;
     r_last_connected := LLONG_MAX;
     r_last_disconnected := LLONG_MAX;
     r_last_receive_attempt := now;
     r_max_tries := UINT_MAX;
     r_backoff_free_tries := 0;
     r_creation_time := now;
     r_n_attempted_connections := 0;
     r_n_successful_connections := 0;
     r_total_connected_duration := 0;
     r_seqno := 0 |}.

Definition reconnect_set_quiet (fsm : reconnect) (quiet : bool) : reconnect :=
  fsm <| r_info := if quiet then VLL_DBG else VLL_INFO |>.

Definition reconnect_get_name (fsm : reconnect) : string := r_name fsm.

(** A null [name] is [None]. *)
Definition reconnect_set_name (fsm : reconnect) (name : option string)
    : reconnect :=
  fsm <| r_name := match name with Some n => n | None => "void" end |>.

Definition reconnect_get_min_backoff (fsm : reconnect) : Z := r_min_backoff fsm.
Definition reconnect_get_max_backoff (fsm : reconnect) : Z := r_max_backoff fsm.
Definition reconnect_get_probe_interval (fsm : reconnect) : Z :=
  r_probe_interval fsm.

Definition reconnect_set_max_tries (fsm : reconnect) (max_tries : Z)
    : reconnect :=
  fsm <| r_max_tries := max_tries |>.

Definition reconnect_get_max_tries (fsm : reconnect) : Z := r_max_tries fsm.

Definition reconnect_set_backoff_free_tries (fsm : reconnect) (tries : Z)
    : reconnect :=
  fsm <| r_backoff_free_tries := tries |>.

Definition reconnect_set_backoff (fsm : reconnect) (min_backoff max_backoff : Z)
    : reconnect :=
  let fsm := fsm <| r_min_backoff := Z.max min_backoff 1000 |> in
  let fsm := fsm <| r_max_backoff :=
      if negb (max_backoff =? 0) then Z.max max_backoff 1000
      else RECONNECT_DEFAULT_MAX_BACKOFF |> in
  let fsm := if r_max_backoff fsm <? r_min_backoff fsm
             then fsm <| r_max_backoff := r_min_backoff fsm |> else fsm in
  if state_is (r_state fsm) S_BACKOFF && (max_backoff <? r_backoff fsm)
  then fsm <| r_backoff := max_backoff |> else fsm.

Definition reconnect_set_probe_interval (fsm : reconnect) (probe_interval : Z)
    : reconnect :=
  fsm <| r_probe_interval :=
      if negb (probe_interval =? 0) then Z.max 1000 probe_interval else 0 |>.

Definition reconnect_is_passive (fsm : reconnect) : bool := r_passive fsm.

(** ** Transitions *)

(** The result says whether a retry is allowed; an allowed retry is counted
    against [max_tries] unless the number of tries is unlimited. *)
Definition reconnect_may_retry (fsm : reconnect) : bool * reconnect :=
  let may_retry := 0 <? r_max_tries fsm in
  let fsm := if may_retry && negb (r_max_tries fsm =? UINT_MAX)
             then fsm <| r_max_tries := u32 (r_max_tries fsm - 1) |> else fsm in
  (may_retry, fsm).

Definition reconnect_transition__ (fsm : reconnect) (now : Z) (s : state)
    : reconnect :=
  let fsm :=
    if state_is (r_state fsm) S_CONNECTING then
      let fsm := fsm <| r_n_attempted_connections :=
                          u32 (r_n_attempted_connections fsm + 1) |> in
      if state_is s S_ACTIVE then
        fsm <| r_n_successful_connections :=
                 u32 (r_n_successful_connections fsm + 1) |>
      else fsm
    else fsm in
  let fsm :=
    if negb (Bool.eqb (is_connected_state (r_state fsm)) (is_connected_state s))
    then
      let fsm :=
        if is_connected_state (r_state fsm) then
          fsm <| r_total_connected_duration :=
                   u32 (r_total_connected_duration fsm
                        + (now - r_last_connected fsm)) |>
        else fsm in
      fsm <| r_seqno := u32 (r_seqno fsm + 1) |>
    else fsm in
  let fsm := fsm <| r_state := s |> in
  fsm <| r_state_entered := now |>.

#[global] Arguments reconnect_transition__ : simpl never.

Definition reconnect_set_passive (fsm : reconnect) (passive : bool) (now : Z)
    : reconnect :=
  if negb (Bool.eqb (r_passive fsm) passive) then
    let fsm := fsm <| r_passive := passive |> in
    let '(back_off, fsm) :=
      if passive then
        (state_in (r_state fsm) [S_CONNECTING; S_RECONNECT], fsm)
      else if state_is (r_state fsm) S_LISTENING then reconnect_may_retry fsm
      else (false, fsm) in
    if back_off then
      let fsm := reconnect_transition__ fsm now S_BACKOFF in
      fsm <| r_backoff := 0 |>
    else fsm
  else fsm.

Definition reconnect_is_enabled (fsm : reconnect) : bool :=
  negb (state_is (r_state fsm) S_VOID).

Definition reconnect_enable (fsm : reconnect) (now : Z) : reconnect :=
  if state_is (r_state fsm) S_VOID then
    let '(may_retry, fsm) := reconnect_may_retry fsm in
    if may_retry then
      let fsm := reconnect_transition__ fsm now S_BACKOFF in
      fsm <| r_backoff := 0 |>
    else fsm
  else fsm.

Definition reconnect_disable (fsm : reconnect) (now : Z) : reconnect :=
  if negb (state_is (r_state fsm) S_VOID)
  then reconnect_transition__ fsm now S_VOID else fsm.

Definition reconnect_force_reconnect (fsm : reconnect) (now : Z) : reconnect :=
  if state_in (r_state fsm) [S_CONNECTING; S_ACTIVE; S_IDLE]
  then reconnect_transition__ fsm now S_RECONNECT else fsm.

(** The backoff computed when a connection or an attempt fails. *)
Definition reconnect_disconnected (fsm : reconnect) (now error : Z)
    : reconnect :=
  if negb (state_in (r_state fsm) [S_BACKOFF; S_VOID]) then
    let fsm := if state_in (r_state fsm) [S_ACTIVE; S_IDLE]
               then fsm <| r_last_disconnected := now |> else fsm in
    let '(may_retry, fsm) := reconnect_may_retry fsm in
    if negb may_retry then reconnect_transition__ fsm now S_VOID
    else
      let fsm :=
        if 1 <? r_backoff_free_tries fsm then
          let fsm := fsm <| r_backoff_free_tries :=
                              u32 (r_backoff_free_tries fsm - 1) |> in
          fsm <| r_backoff := 0 |>
        else if state_in (r_state fsm) [S_ACTIVE; S_IDLE]
                && ((r_backoff fsm <=?
                       i64 (r_last_activity fsm - r_last_connected fsm))
                    || r_passive fsm) then
          fsm <| r_backoff := if r_passive fsm then 0 else r_min_backoff fsm |>
        else if r_backoff fsm <? r_min_backoff fsm then
          fsm <| r_backoff := r_min_backoff fsm |>
        else if r_backoff fsm <? Z.quot (r_max_backoff fsm) 2 then
          fsm <| r_backoff := i32 (r_backoff fsm * 2) |>
        else fsm <| r_backoff := r_max_backoff fsm |> in
      reconnect_transition__ fsm now S_BACKOFF
  else fsm.

Definition reconnect_connecting (fsm : reconnect) (now : Z) : reconnect :=
  if negb (state_is (r_state fsm) S_CONNECTING)
  then reconnect_transition__ fsm now S_CONNECTING else fsm.

Definition reconnect_listening (fsm : reconnect) (now : Z) : reconnect :=
  if negb (state_is (r_state fsm) S_LISTENING)
  then reconnect_transition__ fsm now S_LISTENING else fsm.

Definition reconnect_listen_error (fsm : reconnect) (now error : Z)
    : reconnect :=
  if state_is (r_state fsm) S_LISTENING
  then reconnect_disconnected fsm now error else fsm.

Definition reconnect_connected (fsm : reconnect) (now : Z) : reconnect :=
  if negb (is_connected_state (r_state fsm)) then
    let fsm := reconnect_connecting fsm now in
    let fsm := reconnect_transition__ fsm now S_ACTIVE in
    fsm <| r_last_connected := now |>
  else fsm.

Definition reconnect_connect_failed (fsm : reconnect) (now error : Z)
    : reconnect :=
  let fsm := reconnect_connecting fsm now in
  reconnect_disconnected fsm now error.

Definition reconnect_activity (fsm : reconnect) (now : Z) : reconnect :=
  let fsm := if state_is (r_state fsm) S_IDLE
             then reconnect_transition__ fsm now S_ACTIVE else fsm in
  fsm <| r_last_activity := now |>.

Definition reconnect_receive_attempted (fsm : reconnect) (now : Z)
    : reconnect :=
  fsm <| r_last_receive_attempt := now |>.

(** ** Timers and the actions asked of the client *)

(** The function begins with the assertion that [r_state_entered] is not
    [LLONG_MIN].  The definition is for states where it holds, as it does in every
    state that the API can reach ([fsm_ok] of [ReconnectProofs]). *)
Definition reconnect_deadline__ (fsm : reconnect) (now : Z) : Z :=
  match r_state fsm with
  | S_VOID | S_LISTENING => LLONG_MAX
  | S_BACKOFF => i64 (r_state_entered fsm + r_backoff fsm)
  | S_CONNECTING => i64 (r_state_entered fsm + Z.max 1000 (r_backoff fsm))
  | S_ACTIVE =>
      if negb (r_probe_interval fsm =? 0) then
        let base := Z.max (r_last_activity fsm) (r_state_entered fsm) in
        let expiration := i64 (base + r_probe_interval fsm) in
        if (now <? expiration) || (expiration <=? r_last_receive_attempt fsm)
        then expiration else i64 (now + 1)
      else LLONG_MAX
  | S_IDLE =>
      if negb (r_probe_interval fsm =? 0) then
        let expiration := i64 (r_state_entered fsm + r_probe_interval fsm) in
        if (now <? expiration) || (expiration <=? r_last_receive_attempt fsm)
        then expiration else i64 (now + 1)
      else LLONG_MAX
  | S_RECONNECT => r_state_entered fsm
  end.

Inductive reconnect_action :=
| RECONNECT_NONE  (* 0: the client need not take any action *)
| RECONNECT_CONNECT
| RECONNECT_DISCONNECT
| RECONNECT_PROBE.

#[export] Instance reconnect_action_eq_dec : EqDecision reconnect_action.
Proof. solve_decision. Defined.

Definition reconnect_run (fsm : reconnect) (now : Z)
    : reconnect_action * reconnect :=
  if reconnect_deadline__ fsm now <=? now then
    match r_state fsm with
    | S_VOID => (RECONNECT_NONE, fsm)
    | S_BACKOFF => (RECONNECT_CONNECT, fsm)
    | S_CONNECTING => (RECONNECT_DISCONNECT, fsm)
    | S_ACTIVE => (RECONNECT_PROBE, reconnect_transition__ fsm now S_IDLE)
    | S_IDLE => (RECONNECT_DISCONNECT, fsm)
    | S_RECONNECT => (RECONNECT_DISCONNECT, fsm)
    | S_LISTENING => (RECONNECT_NONE, fsm)
    end
  else (RECONNECT_NONE, fsm).

Definition reconnect_timeout (fsm : reconnect) (now : Z) : Z :=
  let deadline := reconnect_deadline__ fsm now in
  if negb (deadline =? LLONG_MAX) then
    let remaining := i64 (deadline - now) in
    Z.max 0 (Z.min INT_MAX remaining)
  else -1.

(** The timeout, if any, handed to [poll_timer_wait]. *)
Definition reconnect_wait (fsm : reconnect) (now : Z) : option Z :=
  let timeout := reconnect_timeout fsm now in
  if 0 <=? timeout then Some timeout else None.

(** ** Statistics *)

Definition reconnect_is_connected (fsm : reconnect) : bool :=
  is_connected_state (r_state fsm).

Definition reconnect_get_last_connect_elapsed (fsm : reconnect) (now : Z) : Z :=
  if r_last_connected fsm =? LLONG_MAX then UINT_MAX
  else u32 (now - r_last_connected fsm).

Definition reconnect_get_last_disconnect_elapsed (fsm : reconnect) (now : Z)
    : Z :=
  if r_last_disconnected fsm =? LLONG_MAX then UINT_MAX
  else u32 (now - r_last_disconnected fsm).

Record reconnect_stats := mk_reconnect_stats {
  rs_creation_time : Z;
  rs_last_activity : Z;
  rs_last_connected : Z;
  rs_last_disconnected : Z;
  rs_backoff : Z;
  rs_seqno : Z;
  rs_is_connected : bool;
  rs_msec_since_connect : Z;
  rs_msec_since_disconnect : Z;
  rs_total_connected_duration : Z;
  rs_n_attempted_connections : Z;
  rs_n_successful_connections : Z;
  rs_state : string;
  rs_state_elapsed : Z;
}.

Definition reconnect_get_stats (fsm : reconnect) (now : Z) : reconnect_stats :=
  {| rs_creation_time := r_creation_time fsm;
     rs_last_activity := r_last_activity fsm;
     rs_last_connected := r_last_connected fsm;
     rs_last_disconnected := r_last_disconnected fsm;
     rs_backoff := r_backoff fsm;
     rs_seqno := r_seqno fsm;
     rs_is_connected := reconnect_is_connected fsm;
     rs_msec_since_connect := reconnect_get_last_connect_elapsed fsm now;
     rs_msec_since_disconnect := reconnect_get_last_disconnect_elapsed fsm now;
     rs_total_connected_duration :=
       u32 (r_total_connected_duration fsm
            + if is_connected_state (r_state fsm)
              then reconnect_get_last_connect_elapsed fsm now else 0);
     rs_n_attempted_connections := r_n_attempted_connections fsm;
     rs_n_successful_connections := r_n_successful_connections fsm;
     rs_state := reconnect_state_name__ (r_state fsm);
     rs_state_elapsed := u32 (now - r_state_entered fsm) |}.

End Reconnect.
