(* ===== verification/ReconnectProofs.v ===== *)
(** * Correctness of the connection state machine

    The entry points of [Reconnect] as one transition system, its invariant,
    the refinement of an abstract connection history, the contract between
    [reconnect_timeout] and [reconnect_run], exponential backoff and the limit
    on the number of tries. *)
From stdpp Require Import base list strings.
From Stdlib Require Import ZArith Lia.
From S2P Require Import Prelude Reconnect.
Import Reconnect.

Local Open Scope Z_scope.

(** ** The transition system of the API *)

Inductive op :=
| SetQuiet (quiet : bool)
| SetName (name : option string)
| SetMaxTries (n : Z)
| SetBackoffFreeTries (n : Z)
| SetBackoff (min_backoff max_backoff : Z)
| SetProbeInterval (interval : Z)
| SetPassive (passive : bool) (now : Z)
| Enable (now : Z)
| Disable (now : Z)
| ForceReconnect (now : Z)
| Disconnected (now error : Z)
| Connecting (now : Z)
| Listening (now : Z)
| ListenError (now error : Z)
| Connected (now : Z)
| ConnectFailed (now error : Z)
| Activity (now : Z)
| ReceiveAttempted (now : Z)
| Run (now : Z).

Definition exec (o : op) (fsm : reconnect) : reconnect :=
  match o with
  | SetQuiet quiet => reconnect_set_quiet fsm quiet
  | SetName name => reconnect_set_name fsm name
  | SetMaxTries n => reconnect_set_max_tries fsm n
  | SetBackoffFreeTries n => reconnect_set_backoff_free_tries fsm n
  | SetBackoff lo hi => reconnect_set_backoff fsm lo hi
  | SetProbeInterval i => reconnect_set_probe_interval fsm i
  | SetPassive passive now => reconnect_set_passive fsm passive now
  | Enable now => reconnect_enable fsm now
  | Disable now => reconnect_disable fsm now
  | ForceReconnect now => reconnect_force_reconnect fsm now
  | Disconnected now error => reconnect_disconnected fsm now error
  | Connecting now => reconnect_connecting fsm now
  | Listening now => reconnect_listening fsm now
  | ListenError now error => reconnect_listen_error fsm now error
  | Connected now => reconnect_connected fsm now
  | ConnectFailed now error => reconnect_connect_failed fsm now error
  | Activity now => reconnect_activity fsm now
  | ReceiveAttempted now => reconnect_receive_attempted fsm now
  | Run now => (reconnect_run fsm now).2
  end.

(** Times are milliseconds since the epoch or boot: far below [LLONG_MAX]. *)
Definition time_ok (t : Z) : Prop := 0 <= t <= 2 ^ 62.

(** The arguments a client may pass: C values of the declared type, a clock
    that is not near overflow and no negative maximum backoff. *)
Definition op_ok (o : op) : Prop :=
  match o with
  | SetQuiet _ | SetName _ => True
  | SetMaxTries n | SetBackoffFreeTries n => is_uint n
  | SetBackoff lo hi => is_int lo /\ 0 <= hi <= INT_MAX
  | SetProbeInterval i => is_int i
  | SetPassive _ now | Enable now | Disable now | ForceReconnect now
  | Disconnected now _ | Connecting now | Listening now | ListenError now _
  | Connected now | ConnectFailed now _ | Activity now | Run now => time_ok now
  | ReceiveAttempted now => 0 <= now <= LLONG_MAX
  end.

Definition reconnect_system : system reconnect :=
  System (fun fsm => exists now, time_ok now /\ fsm = reconnect_create now)
         (fun fsm fsm' => exists o, op_ok o /\ fsm' = exec o fsm).

(** ** The invariant *)

Record fsm_base (fsm : reconnect) : Prop := {
  ok_backoff_range : 1000 <= r_min_backoff fsm <= r_max_backoff fsm
                     /\ r_max_backoff fsm <= INT_MAX;
  ok_probe : r_probe_interval fsm = 0
             \/ 1000 <= r_probe_interval fsm <= INT_MAX;
  ok_backoff : 0 <= r_backoff fsm <= INT_MAX;
  ok_max_tries : is_uint (r_max_tries fsm);
  ok_free_tries : is_uint (r_backoff_free_tries fsm);
  ok_attempted : is_uint (r_n_attempted_connections fsm);
  ok_successful : is_uint (r_n_successful_connections fsm);
  ok_duration : is_uint (r_total_connected_duration fsm);
  ok_seqno : is_uint (r_seqno fsm);
  ok_parity : Z.odd (r_seqno fsm) = is_connected_state (r_state fsm);
  ok_entered : time_ok (r_state_entered fsm);
  ok_activity : time_ok (r_last_activity fsm);
  ok_last_connected :
    r_last_connected fsm = LLONG_MAX \/ time_ok (r_last_connected fsm);
  ok_last_disconnected :
    r_last_disconnected fsm = LLONG_MAX \/ time_ok (r_last_disconnected fsm);
}.

Definition fsm_ok (fsm : reconnect) : Prop :=
  fsm_base fsm
  /\ (is_connected_state (r_state fsm) = true -> time_ok (r_last_connected fsm)).

Lemma odd_u32_succ x : Z.odd (u32 (x + 1)) = negb (Z.odd x).
Proof. rewrite uwrap_odd by lia. by rewrite Z.odd_add, xorb_true_r. Qed.

(** [is_uint] facts for the counters the code increments or decrements. *)
#[export] Hint Extern 1 (is_uint (u32 _)) => apply u32_is_uint : ovs.

Ltac base_solve :=
  first [ eassumption | solve [eauto with ovs]
        | unfold time_ok, is_uint, is_int, INT_MIN, INT_MAX, UINT_MAX,
            LLONG_MAX in *; lia ].

(** Close a goal [fsm_base (modified fsm)] member by member. *)
Ltac base_auto :=
  match goal with H : fsm_base _ |- _ => destruct H end;
  constructor; cbn in *; base_solve.

(** The tests on state bits decide membership. *)
Lemma state_is_spec s t : state_is s t = bool_decide (s = t).
Proof. by destruct s, t. Qed.

Lemma state_in_spec s set : state_in s set = bool_decide (s ∈ set).
Proof.
  induction set as [|t set IH]; [by destruct s |].
  rewrite (bool_decide_ext (s ∈ t :: set) (s = t \/ s ∈ set))
    by apply elem_of_cons.
  rewrite bool_decide_or, <- IH. unfold state_in. cbn.
  rewrite Z.land_lor_distr_r.
  destruct (decide (s = t)) as [->|Hne].
  - rewrite bool_decide_eq_true_2 by done. cbn.
    apply negb_true_iff, Z.eqb_neq. intros [H _]%Z.lor_eq_0_iff.
    by destruct t.
  - rewrite bool_decide_eq_false_2 by done. cbn.
    replace (Z.land (state_value s) (state_value t)) with 0; [done |].
    by destruct s, t.
Qed.

Lemma is_connected_spec s :
  is_connected_state s = bool_decide (s = S_ACTIVE \/ s = S_IDLE).
Proof. by destruct s. Qed.

Lemma transition_base fsm now s :
  fsm_base fsm -> time_ok now -> fsm_base (reconnect_transition__ fsm now s).
Proof.
  intros [] Hnow. unfold reconnect_transition__.
  destruct (state_is (r_state fsm) S_CONNECTING), (state_is s S_ACTIVE); cbn;
    destruct (is_connected_state (r_state fsm)) eqn:?,
             (is_connected_state s) eqn:?; cbn;
    constructor; cbn; rewrite ?odd_u32_succ, ?ok_parity0; base_solve.
Qed.

Lemma transition_state fsm now s :
  r_state (reconnect_transition__ fsm now s) = s.
Proof. done. Qed.

Lemma transition_last_connected fsm now s :
  r_last_connected (reconnect_transition__ fsm now s) = r_last_connected fsm.
Proof.
  unfold reconnect_transition__. split_ifs; done.
Qed.

Lemma may_retry_base fsm :
  fsm_base fsm -> fsm_base (reconnect_may_retry fsm).2.
Proof.
  intros H. unfold reconnect_may_retry. cbn. split_ifs; [| done]. base_auto.
Qed.

Lemma may_retry_frame fsm :
  exists n, (reconnect_may_retry fsm).2 = fsm <| r_max_tries := n |>.
Proof.
  unfold reconnect_may_retry. cbn. split_ifs; eauto.
  exists (r_max_tries fsm). by destruct fsm.
Qed.

(** Every entry point preserves the invariant. *)
Lemma base_ok_of_disconnected fsm :
  fsm_base fsm -> is_connected_state (r_state fsm) = false -> fsm_ok fsm.
Proof. by split; [| congruence]. Qed.

(** The backoff chosen on a failure, as a function of the record. *)
Definition next_backoff (fsm : reconnect) : Z :=
  if 1 <? r_backoff_free_tries fsm then 0
  else if state_in (r_state fsm) [S_ACTIVE; S_IDLE]
          && ((r_backoff fsm <=?
                 i64 (r_last_activity fsm - r_last_connected fsm))
              || r_passive fsm)
  then if r_passive fsm then 0 else r_min_backoff fsm
  else if r_backoff fsm <? r_min_backoff fsm then r_min_backoff fsm
  else if r_backoff fsm <? Z.quot (r_max_backoff fsm) 2
  then r_backoff fsm * 2
  else r_max_backoff fsm.

Lemma next_backoff_range fsm :
  fsm_base fsm -> 0 <= next_backoff fsm <= r_max_backoff fsm.
Proof.
  intros []. unfold next_backoff. split_ifs; reflect_bools; div_lia.
Qed.

(** The bookkeeping done on a failure before the transition. *)
Definition note_failure (fsm : reconnect) (now : Z) : reconnect :=
  let may_retry := 0 <? r_max_tries fsm in
  fsm <| r_last_disconnected :=
           if state_in (r_state fsm) [S_ACTIVE; S_IDLE] then now
           else r_last_disconnected fsm |>
      <| r_max_tries :=
           if may_retry && negb (r_max_tries fsm =? UINT_MAX)
           then u32 (r_max_tries fsm - 1) else r_max_tries fsm |>
      <| r_backoff_free_tries :=
           if may_retry && (1 <? r_backoff_free_tries fsm)
           then u32 (r_backoff_free_tries fsm - 1)
           else r_backoff_free_tries fsm |>.

(** [reconnect_disconnected] in the states where it acts. *)
Lemma disconnected_eq fsm now error :
  fsm_base fsm ->
  state_in (r_state fsm) [S_BACKOFF; S_VOID] = false ->
  reconnect_disconnected fsm now error
  = if 0 <? r_max_tries fsm
    then reconnect_transition__
           (note_failure fsm now <| r_backoff := next_backoff fsm |>)
           now S_BACKOFF
    else reconnect_transition__ (note_failure fsm now) now S_VOID.
Proof.
  intros Hok Hst. unfold reconnect_disconnected. rewrite Hst. cbn [negb].
  unfold next_backoff, note_failure, reconnect_may_retry.
  assert ((r_backoff fsm <? Z.quot (r_max_backoff fsm) 2) = true ->
          i32 (r_backoff fsm * 2) = r_backoff fsm * 2) as Hdouble.
  { intros. destruct Hok. apply i32_id. reflect_bools.
    unfold is_int, INT_MIN, INT_MAX in *. div_lia. }
  destruct fsm; cbn in *.
  destruct (state_in _ [S_ACTIVE; S_IDLE]) eqn:Hactive,
    (0 <? r_max_tries0) eqn:Htry, (r_max_tries0 =? UINT_MAX) eqn:Hmax;
    cbn; rewrite ?Hactive, ?Htry, ?Hmax; cbn; rewrite ?Hactive; cbn; try done;
    destruct (1 <? r_backoff_free_tries0); cbn; try done;
    destruct r_passive0,
      (r_backoff0 <=? i64 (r_last_activity0 - r_last_connected0));
    cbn; try done;
    destruct (r_backoff0 <? r_min_backoff0); cbn; try done;
    destruct (r_backoff0 <? Z.quot r_max_backoff0 2); cbn;
    rewrite ?Hdouble; done.
Qed.

Lemma note_failure_base fsm now :
  fsm_base fsm -> time_ok now -> fsm_base (note_failure fsm now).
Proof.
  intros H Hnow. unfold note_failure.
  destruct (state_in (r_state fsm) [S_ACTIVE; S_IDLE]); split_ifs; base_auto.
Qed.

Lemma transition_ok fsm now s :
  fsm_base fsm -> time_ok now -> is_connected_state s = false ->
  fsm_ok (reconnect_transition__ fsm now s).
Proof. intros. apply base_ok_of_disconnected; [by apply transition_base | done]. Qed.

Lemma backoff_base fsm b :
  fsm_base fsm -> 0 <= b <= INT_MAX -> fsm_base (fsm <| r_backoff := b |>).
Proof. intros H ?. base_auto. Qed.

Lemma back_off_now_ok fsm now :
  fsm_base fsm -> time_ok now ->
  fsm_ok (reconnect_transition__ fsm now S_BACKOFF <| r_backoff := 0 |>).
Proof.
  intros. apply base_ok_of_disconnected; [| done].
  apply backoff_base; [by apply transition_base | done].
Qed.

Lemma disconnected_ok fsm now error :
  fsm_ok fsm -> time_ok now -> fsm_ok (reconnect_disconnected fsm now error).
Proof.
  intros [Hb Hc] Hnow.
  destruct (state_in (r_state fsm) [S_BACKOFF; S_VOID]) eqn:Hst.
  - unfold reconnect_disconnected. by rewrite Hst.
  - rewrite disconnected_eq by done.
    pose proof (next_backoff_range fsm Hb) as Hn.
    pose proof (note_failure_base fsm now Hb Hnow).
    destruct Hb as [[? ?] _ _ _ _ _ _ _ _ _ _ _ _ _].
    split_ifs; apply transition_ok; try done. apply backoff_base; [done | lia].
Qed.

Lemma connecting_ok fsm now :
  fsm_ok fsm -> time_ok now -> fsm_ok (reconnect_connecting fsm now).
Proof.
  intros [] ?. unfold reconnect_connecting. split_ifs; [| done].
  by apply transition_ok.
Qed.

Lemma connected_ok fsm now :
  fsm_ok fsm -> time_ok now -> fsm_ok (reconnect_connected fsm now).
Proof.
  intros Hok Hnow. unfold reconnect_connected. split_ifs; [| done].
  destruct (connecting_ok fsm now Hok Hnow) as [Hb _].
  apply (transition_base _ now S_ACTIVE) in Hb; [| done].
  split; [| done]. base_auto.
Qed.

Lemma set_passive_ok fsm passive now :
  fsm_ok fsm -> time_ok now -> fsm_ok (reconnect_set_passive fsm passive now).
Proof.
  intros [Hb Hc] Hnow. unfold reconnect_set_passive. split_if; [| done].
  assert (fsm_base (fsm <| r_passive := passive |>)) as Hb' by base_auto.
  assert (fsm_ok (fsm <| r_passive := passive |>)) by by split.
  destruct passive.
  - split_ifs; [by apply back_off_now_ok | done].
  - split_if; [| done].
    pose proof (may_retry_base _ Hb') as Hr.
    destruct (may_retry_frame (fsm <| r_passive := false |>)) as [n Hn].
    destruct (reconnect_may_retry _) as [[|] fsm']; cbn in *.
    + by apply back_off_now_ok.
    + subst fsm'. by split.
Qed.

Lemma enable_ok fsm now :
  fsm_ok fsm -> time_ok now -> fsm_ok (reconnect_enable fsm now).
Proof.
  intros [Hb Hc] Hnow. unfold reconnect_enable. split_if; [| done].
  pose proof (may_retry_base _ Hb) as Hr.
  destruct (may_retry_frame fsm) as [n Hn].
  destruct (reconnect_may_retry _) as [[|] fsm']; cbn in *.
  - by apply back_off_now_ok.
  - subst fsm'. by split.
Qed.

Lemma activity_ok fsm now :
  fsm_ok fsm -> time_ok now -> fsm_ok (reconnect_activity fsm now).
Proof.
  intros [Hb Hc] Hnow. unfold reconnect_activity. rewrite state_is_spec.
  case_bool_decide as Hi.
  - apply (transition_base _ now S_ACTIVE) in Hb; [| done].
    split; [base_auto |]. cbn. rewrite transition_last_connected.
    intros _. apply Hc. by rewrite Hi.
  - split; [base_auto | done].
Qed.

Lemma run_ok fsm now :
  fsm_ok fsm -> time_ok now -> fsm_ok (reconnect_run fsm now).2.
Proof.
  intros [Hb Hc] Hnow. unfold reconnect_run. split_ifs; [| done].
  destruct (r_state fsm) eqn:Hst; try (split; cbn; [done | by rewrite Hst]).
  split; cbn; [by apply transition_base |].
  rewrite transition_last_connected. intros _. by apply Hc.
Qed.

Lemma set_backoff_ok fsm lo hi :
  fsm_ok fsm -> is_int lo -> 0 <= hi <= INT_MAX ->
  fsm_ok (reconnect_set_backoff fsm lo hi).
Proof.
  unfold reconnect_set_backoff, RECONNECT_DEFAULT_MAX_BACKOFF.
  intros [Hb Hc] Hlo Hhi. destruct (hi =? 0); cbn; split_ifs;
    (split; [| done]); destruct Hb; constructor; cbn in *;
    try base_solve; reflect_bools; base_solve.
Qed.

Lemma exec_ok o fsm : op_ok o -> fsm_ok fsm -> fsm_ok (exec o fsm).
Proof.
  intros Ho Hok. destruct o; cbn in *;
    eauto using disconnected_ok, connecting_ok, connected_ok, set_passive_ok,
      enable_ok, activity_ok, run_ok.
  - destruct Hok. split; [base_auto | done].
  - destruct Hok. split; [base_auto | done].
  - destruct Hok. split; [base_auto | done].
  - destruct Hok. split; [base_auto | done].
  - destruct Ho. by apply set_backoff_ok.
  - destruct Hok. split; [| done]. unfold reconnect_set_probe_interval.
    split_ifs; base_auto.
  - destruct Hok. unfold reconnect_disable. split_ifs; [| done].
    by apply transition_ok.
  - destruct Hok. unfold reconnect_force_reconnect. split_ifs; [| done].
    by apply transition_ok.
  - destruct Hok. unfold reconnect_listening. split_ifs; [| done].
    by apply transition_ok.
  - unfold reconnect_listen_error. split_ifs; [| done].
    by apply disconnected_ok.
  - destruct Hok. split; [base_auto | done].
Qed.

#[export] Instance fsm_ok_invariant : Invariant reconnect_system fsm_ok.
Proof.
  split.
  - intros s (now & Hnow & ->). split; [| done].
    unfold reconnect_create, RECONNECT_DEFAULT_MIN_BACKOFF,
      RECONNECT_DEFAULT_MAX_BACKOFF, RECONNECT_DEFAULT_PROBE_INTERVAL.
    constructor; cbn; first [reflexivity | base_solve].
  - intros s s' Hs (o & Ho & ->). by apply exec_ok.
Qed.

(** C8: in every state the API can reach, the configured intervals keep their
    documented lower bounds ([min_backoff] at least 1 s and at most
    [max_backoff], the probe interval 0 or at least 1 s), the backoff is a
    nonnegative [int], the counters are [unsigned int]s, the times are in
    range, and [seqno] is odd exactly while connected. *)
Theorem reconnect_reachable_ok fsm :
  reachable reconnect_system fsm -> fsm_ok fsm.
Proof. apply invariant_reachable, _. Qed.

Lemma reconnect_reachable_ok_witness :
  fsm_ok (exec (Connecting 5) (exec (Enable 0) (reconnect_create 0))).
Proof.
  apply reconnect_reachable_ok.
  eapply reachable_step; [| exists (Connecting 5); split; [cbn; unfold time_ok; lia | reflexivity]].
  eapply reachable_step; [| exists (Enable 0); split; [cbn; unfold time_ok; lia | reflexivity]].
  apply reachable_init. exists 0. split; [unfold time_ok; lia | reflexivity].
Defined.

(** ** Refinement: the connection history

    What a client of the FSM can observe of its connection, with unbounded
    counters: since when it has been connected, how long it has been connected
    in total, and how many times it connected or disconnected.  The history
    only looks at which entry points were called. *)

Record history := History {
  h_since : option Z;
  h_total : Z;
  h_events : Z;
}.

Definition connects (o : op) : bool :=
  match o with Connected _ => true | _ => false end.

Definition disconnects (o : op) : bool :=
  match o with
  | Disconnected _ _ | ConnectFailed _ _ | Disable _ | ForceReconnect _
  | Connecting _ | Listening _ => true
  | _ => false
  end.

Definition op_now (o : op) : Z :=
  match o with
  | SetPassive _ now | Enable now | Disable now | ForceReconnect now
  | Disconnected now _ | Connecting now | Listening now | ListenError now _
  | Connected now | ConnectFailed now _ | Activity now | ReceiveAttempted now
  | Run now => now
  | _ => 0
  end.

Definition history_step (o : op) (h : history) : history :=
  match h_since h with
  | None => if connects o
            then History (Some (op_now o)) (h_total h) (h_events h + 1) else h
  | Some t => if disconnects o
              then History None (h_total h + (op_now o - t)) (h_events h + 1)
              else h
  end.

Definition history_init : history := History None 0 0.

Record refines (fsm : reconnect) (h : history) : Prop := {
  ref_connected : is_connected_state (r_state fsm) = bool_decide (is_Some (h_since h));
  ref_since t : h_since h = Some t -> r_last_connected fsm = t;
  ref_total : r_total_connected_duration fsm = u32 (h_total h);
  ref_events : r_seqno fsm = u32 (h_events h);
}.

(** The fields the history depends on are only changed by transitions. *)
Definition same_conn (fsm fsm' : reconnect) : Prop :=
  is_connected_state (r_state fsm') = is_connected_state (r_state fsm)
  /\ r_last_connected fsm' = r_last_connected fsm
  /\ r_total_connected_duration fsm' = r_total_connected_duration fsm
  /\ r_seqno fsm' = r_seqno fsm.

#[export] Instance same_conn_preorder : PreOrder same_conn.
Proof.
  split; [by repeat split |].
  intros x y z (?&?&?&?) (?&?&?&?). repeat split; congruence.
Qed.

Lemma same_conn_refines fsm fsm' h :
  same_conn fsm fsm' -> refines fsm h -> refines fsm' h.
Proof.
  intros (H1 & H2 & H3 & H4) []. split; [congruence | | congruence..].
  intros t Ht. rewrite H2. auto.
Qed.

Lemma transition_same_conn fsm now s :
  is_connected_state s = is_connected_state (r_state fsm) ->
  same_conn fsm (reconnect_transition__ fsm now s).
Proof.
  intros H. unfold reconnect_transition__, same_conn.
  destruct (state_is (r_state fsm) S_CONNECTING), (state_is s S_ACTIVE); cbn;
    rewrite H, eqb_reflx; cbn; auto.
Qed.

Lemma transition_drop fsm now s h t :
  refines fsm h -> h_since h = Some t -> is_connected_state s = false ->
  refines (reconnect_transition__ fsm now s)
    (History None (h_total h + (now - t)) (h_events h + 1)).
Proof.
  intros [Hc Ht Htot Hev] Hs Hd. rewrite Hs in Hc. specialize (Ht t Hs).
  unfold reconnect_transition__.
  destruct (state_is (r_state fsm) S_CONNECTING), (state_is s S_ACTIVE); cbn;
    rewrite Hc, Hd; cbn; (split; cbn; [done | done | |]);
    rewrite ?Htot, ?Hev, ?Ht, ?uwrap_add_l; done.
Qed.

Lemma transition_raise fsm now s h :
  refines fsm h -> h_since h = None -> is_connected_state s = true ->
  refines (reconnect_transition__ fsm now s <| r_last_connected := now |>)
    (History (Some now) (h_total h) (h_events h + 1)).
Proof.
  intros [Hc Ht Htot Hev] Hs Hd. rewrite Hs in Hc.
  unfold reconnect_transition__.
  destruct (state_is (r_state fsm) S_CONNECTING), (state_is s S_ACTIVE); cbn;
    rewrite Hc, Hd; cbn; (split; cbn; [done | congruence | |]);
    rewrite ?Htot, ?Hev, ?uwrap_add_l; done.
Qed.

Definition hist_down (now : Z) (h : history) : history :=
  match h_since h with
  | None => h
  | Some t => History None (h_total h + (now - t)) (h_events h + 1)
  end.

Lemma down_idle fsm now h :
  refines fsm h -> is_connected_state (r_state fsm) = false ->
  hist_down now h = h.
Proof.
  intros [Hc _ _ _] Hd. unfold hist_down. destruct (h_since h); [| done].
  rewrite Hc in Hd. by apply bool_decide_eq_false in Hd as [].
Qed.

Lemma down_down now h : hist_down now (hist_down now h) = hist_down now h.
Proof. unfold hist_down. by destruct (h_since h) eqn:E; cbn; rewrite ?E. Qed.

Lemma transition_down fsm now s h :
  refines fsm h -> is_connected_state s = false ->
  refines (reconnect_transition__ fsm now s) (hist_down now h).
Proof.
  intros Hr Hs. unfold hist_down. destruct (h_since h) as [t|] eqn:Ht.
  - by eapply transition_drop.
  - eapply same_conn_refines, Hr. apply transition_same_conn.
    destruct Hr as [Hc _ _ _]. by rewrite Hs, Hc, Ht.
Qed.

Lemma note_failure_same_conn fsm now : same_conn fsm (note_failure fsm now).
Proof. done. Qed.

Lemma may_retry_same_conn fsm : same_conn fsm (reconnect_may_retry fsm).2.
Proof. destruct (may_retry_frame fsm) as [n ->]. done. Qed.

Lemma disconnected_refines fsm now error h :
  fsm_base fsm -> refines fsm h ->
  refines (reconnect_disconnected fsm now error) (hist_down now h).
Proof.
  intros Hb Hr.
  destruct (state_in (r_state fsm) [S_BACKOFF; S_VOID]) eqn:Hst.
  - unfold reconnect_disconnected. rewrite Hst. cbn.
    rewrite (down_idle fsm) by (done || by destruct (r_state fsm)). done.
  - rewrite disconnected_eq by done.
    split_if; apply transition_down; try done;
      by eapply same_conn_refines, Hr.
Qed.

Lemma connecting_refines fsm now h :
  refines fsm h -> refines (reconnect_connecting fsm now) (hist_down now h).
Proof.
  intros Hr. unfold reconnect_connecting. rewrite state_is_spec.
  case_bool_decide as Hst; cbn.
  - rewrite (down_idle fsm) by (done || by rewrite Hst). done.
  - by apply transition_down.
Qed.

Lemma connected_refines fsm now h :
  refines fsm h ->
  refines (reconnect_connected fsm now) (history_step (Connected now) h).
Proof.
  intros Hr. unfold reconnect_connected, history_step. cbn.
  pose proof (ref_connected _ _ Hr) as Hc.
  destruct (h_since h) as [t|] eqn:Ht; rewrite Hc; cbn; [done |].
  apply transition_raise; [| done | done].
  rewrite <- (down_idle fsm now h) by done. by apply connecting_refines.
Qed.

Lemma set_passive_refines fsm passive now h :
  refines fsm h -> refines (reconnect_set_passive fsm passive now) h.
Proof.
  intros Hr. unfold reconnect_set_passive. split_if; [| done].
  assert (refines (fsm <| r_passive := passive |>) h) as Hr'
    by by eapply same_conn_refines, Hr.
  destruct passive; cbn.
  - split_if; [| done].
    eapply (same_conn_refines (reconnect_transition__ _ _ _)); [done |].
    rewrite <- (down_idle _ now h Hr')
      by (cbn in *; by destruct (r_state fsm)).
    by apply transition_down.
  - split_if; [| done]. rewrite state_is_spec in *. reflect_bools.
    pose proof (may_retry_same_conn (fsm <| r_passive := false |>)) as Hm.
    destruct (reconnect_may_retry _) as [[|] fsm']; cbn in *;
      [| by eapply same_conn_refines].
    eapply (same_conn_refines (reconnect_transition__ _ _ _)); [done |].
    rewrite <- (down_idle _ now h Hr') by (cbn; by rewrite Hif0).
    apply transition_down; [| done]. by eapply same_conn_refines.
Qed.

Lemma enable_refines fsm now h :
  refines fsm h -> refines (reconnect_enable fsm now) h.
Proof.
  intros Hr. unfold reconnect_enable. rewrite state_is_spec.
  case_bool_decide as Hst; [| done].
  pose proof (may_retry_same_conn fsm) as Hm.
  destruct (reconnect_may_retry _) as [[|] fsm']; cbn in *;
    [| by eapply same_conn_refines].
  eapply (same_conn_refines (reconnect_transition__ _ _ _)); [done |].
  rewrite <- (down_idle _ now h Hr) by (by rewrite Hst).
  apply transition_down; [| done]. by eapply same_conn_refines.
Qed.

Lemma activity_refines fsm now h :
  refines fsm h -> refines (reconnect_activity fsm now) h.
Proof.
  intros Hr. unfold reconnect_activity. rewrite state_is_spec.
  case_bool_decide as Hst; [| by eapply same_conn_refines, Hr].
  eapply same_conn_refines, Hr.
  etransitivity; [apply (transition_same_conn _ now S_ACTIVE); by rewrite Hst |].
  done.
Qed.

Lemma run_refines fsm now h :
  refines fsm h -> refines (reconnect_run fsm now).2 h.
Proof.
  intros Hr. unfold reconnect_run. split_if; [| done].
  destruct (r_state fsm) eqn:Hst; cbn; try done.
  eapply same_conn_refines, Hr. apply transition_same_conn. by rewrite Hst.
Qed.

Lemma exec_refines o fsm h :
  fsm_ok fsm -> op_ok o -> refines fsm h ->
  refines (exec o fsm) (history_step o h).
Proof.
  intros [Hb _] Ho Hr. unfold history_step.
  replace (match h_since h with _ => _ end) with
    (if connects o then history_step o h
     else if disconnects o then hist_down (op_now o) h else h)
    by (unfold history_step, hist_down; by destruct (h_since h), o).
  destruct o; cbn in *; eauto using connected_refines, disconnected_refines,
    connecting_refines, set_passive_refines, enable_refines, activity_refines,
    run_refines; try by eapply same_conn_refines, Hr.
  - eapply same_conn_refines, Hr. unfold reconnect_set_backoff.
    destruct (max_backoff =? 0); cbn; split_ifs; done.
  - unfold reconnect_disable. rewrite state_is_spec. case_bool_decide as Hst.
    + rewrite (down_idle fsm) by (done || by rewrite Hst). done.
    + by apply transition_down.
  - unfold reconnect_force_reconnect. split_if; [by apply transition_down |].
    rewrite (down_idle fsm) by (done || by destruct (r_state fsm)). done.
  - unfold reconnect_listening. rewrite state_is_spec. case_bool_decide as Hst.
    + rewrite (down_idle fsm) by (done || by rewrite Hst). done.
    + by apply transition_down.
  - unfold reconnect_listen_error. rewrite state_is_spec.
    case_bool_decide as Hst; [| done].
    rewrite <- (down_idle fsm now h) by (done || by rewrite Hst).
    by apply disconnected_refines.
  - unfold reconnect_connect_failed. rewrite <- down_down.
    apply disconnected_refines; [| by apply connecting_refines].
    unfold reconnect_connecting. split_if; [by apply transition_base | done].
Qed.

Fixpoint exec_all (os : list op) (fsm : reconnect) : reconnect :=
  match os with [] => fsm | o :: os => exec_all os (exec o fsm) end.

Fixpoint history_all (os : list op) (h : history) : history :=
  match os with [] => h | o :: os => history_all os (history_step o h) end.

Lemma exec_all_refines os fsm h :
  fsm_ok fsm -> Forall op_ok os -> refines fsm h ->
  refines (exec_all os fsm) (history_all os h).
Proof.
  revert fsm h. induction os as [|o os IH]; intros fsm h Hok Hos Hr; [done |].
  inversion Hos; subst. apply IH; [by apply exec_ok | done |].
  by apply exec_refines.
Qed.

(** C20: the FSM implements the connection history.  After any sequence of
    calls, it reports being connected exactly when [reconnect_connected] was
    called more recently than any call that ends a connection: the three that the
    comment on [reconnect_is_connected] lists, [reconnect_connect_failed],
    [reconnect_disconnected] and [reconnect_disable], and the three that it does
    not list, [reconnect_force_reconnect], [reconnect_connecting] and
    [reconnect_listening].  [seqno] counts the connections and
    disconnections and [total_connected_duration] the milliseconds spent
    connected, both modulo 2^32.  Arguments are in range and times are at most
    2^62. *)
Theorem reconnect_refines_history start os :
  time_ok start -> Forall op_ok os ->
  let fsm := exec_all os (reconnect_create start) in
  let h := history_all os history_init in
  reconnect_is_connected fsm = bool_decide (is_Some (h_since h))
  /\ r_seqno fsm = u32 (h_events h)
  /\ forall now, rs_total_connected_duration (reconnect_get_stats fsm now)
       = u32 (h_total h
              + match h_since h with Some t => now - t | None => 0 end).
Proof.
  intros Hstart Hos fsm h.
  assert (fsm_ok (reconnect_create start)) as Hok
    by (apply (inv_init (sys:=reconnect_system)); by exists start).
  assert (refines fsm h) as Hr
    by (apply exec_all_refines; [done | done | by split]).
  assert (fsm_ok fsm) as [_ Hlast].
  { clear Hr h. subst fsm. revert Hok. generalize (reconnect_create start).
    induction Hos; intros; [done |]. cbn. eauto using exec_ok. }
  split; [apply Hr | split; [apply Hr |]]. intros now. cbn.
  rewrite (ref_total _ _ Hr), uwrap_add_l.
  pose proof (ref_connected _ _ Hr) as Hc. rewrite Hc in Hlast |- *.
  pose proof (ref_since _ _ Hr) as Hs.
  destruct (h_since h) as [t|]; cbn in *; [| done].
  unfold reconnect_get_last_connect_elapsed. rewrite (Hs t eq_refl).
  specialize (Hlast eq_refl). rewrite (Hs t eq_refl) in Hlast.
  replace (t =? LLONG_MAX) with false
    by (unfold time_ok, LLONG_MAX in *; lia).
  by rewrite Z.add_comm, uwrap_add_l, Z.add_comm.
Qed.

Lemma reconnect_refines_history_witness :
  let os := [Enable 1000; Connecting 1000; Connected 1200; Run 7000;
             Disconnected 9000 0] in
  r_seqno (exec_all os (reconnect_create 0)) = 2
  /\ rs_total_connected_duration
       (reconnect_get_stats (exec_all os (reconnect_create 0)) 10000) = 7800.
Proof.
  intros os.
  destruct (reconnect_refines_history 0 os) as (_ & Hseq & Htot);
    [unfold time_ok; lia
    | repeat constructor; unfold os, op_ok, time_ok; lia |].
  split; [rewrite Hseq | rewrite Htot]; reflexivity.
Defined.

(** ** Timers *)

Lemma deadline_no_overflow fsm now :
  fsm_ok fsm -> time_ok now ->
  reconnect_deadline__ fsm now = LLONG_MAX
  \/ 0 <= reconnect_deadline__ fsm now <= 2 ^ 62 + INT_MAX.
Proof.
  intros [[] _] Hnow. unfold reconnect_deadline__.
  destruct (r_state fsm); auto; split_ifs; auto; right; reflect_bools;
    rewrite ?i64_id; unfold time_ok, INT_MAX, LLONG_MIN, LLONG_MAX in *; lia.
Qed.

(** Before the deadline seen at [now] passes, it does not move. *)
Lemma deadline_stable fsm now t :
  fsm_ok fsm -> time_ok now -> time_ok t -> now <= t ->
  t < reconnect_deadline__ fsm now ->
  t < reconnect_deadline__ fsm t.
Proof.
  intros [[] _] Hnow Ht Hle. unfold reconnect_deadline__.
  destruct (r_state fsm); auto;
    (destruct (r_probe_interval fsm =? 0); cbn; [auto |]); reflect_bools.
  all: rewrite !(i64_id (_ + r_probe_interval fsm)), !(i64_id (_ + 1))
    by (unfold time_ok, INT_MAX, LLONG_MIN, LLONG_MAX in *; lia).
  all: split_ifs; reflect_bools; lia.
Qed.

Lemma run_none fsm t :
  t < reconnect_deadline__ fsm t -> (reconnect_run fsm t).1 = RECONNECT_NONE.
Proof.
  intros H. unfold reconnect_run.
  by replace (reconnect_deadline__ fsm t <=? t) with false by lia.
Qed.

Lemma run_some fsm t :
  reconnect_deadline__ fsm t <= t -> t < LLONG_MAX ->
  (reconnect_run fsm t).1 <> RECONNECT_NONE.
Proof.
  intros H Ht. unfold reconnect_run.
  replace (reconnect_deadline__ fsm t <=? t) with true by lia.
  unfold reconnect_deadline__ in H.
  destruct (r_state fsm); cbn; try done; lia.
Qed.

(** Once the deadline has come and the client has tried to receive, there is an
    action to report. *)
Lemma run_at_deadline fsm now t :
  fsm_ok fsm -> time_ok now -> time_ok t -> now <= t ->
  reconnect_deadline__ fsm now <= t ->
  (reconnect_run (reconnect_receive_attempted fsm t) t).1 <> RECONNECT_NONE.
Proof.
  intros [[] _] Hnow Ht Hle Hd. apply run_some; [| unfold time_ok, LLONG_MAX in *; lia].
  revert Hd. unfold reconnect_deadline__, reconnect_receive_attempted. simpl.
  destruct (r_state fsm); auto;
    (destruct (r_probe_interval fsm =? 0); cbn; [auto |]); reflect_bools.
  all: rewrite !(i64_id (_ + r_probe_interval fsm)), !(i64_id (_ + 1))
    by (unfold time_ok, INT_MAX, LLONG_MIN, LLONG_MAX in *; lia).
  all: split_ifs; reflect_bools; lia.
Qed.

(** C35: a client that sleeps for [reconnect_timeout] misses nothing.  The
    timeout is 0 exactly when [reconnect_run] has an action to report now; until
    the timeout has passed (at any time, if it is negative) calling
    [reconnect_run] would have been pointless; and when it has passed, unless it
    was cut to [INT_MAX], [reconnect_run] has an action to report to a client that
    has tried to receive by then.  (Without such an attempt an active or idle
    connection gets another millisecond.)  The state is one that the API can
    reach, where the assertion of [reconnect_deadline__] holds, and times are at
    most 2^62. *)
Theorem reconnect_timeout_run fsm now :
  fsm_ok fsm -> time_ok now ->
  r_state_entered fsm <> LLONG_MIN
  /\ (reconnect_timeout fsm now = 0
     <-> (reconnect_run fsm now).1 <> RECONNECT_NONE)
  /\ (forall t, now <= t -> time_ok t ->
       reconnect_timeout fsm now < 0 \/ t < now + reconnect_timeout fsm now ->
       (reconnect_run fsm t).1 = RECONNECT_NONE)
  /\ (forall t, time_ok t ->
       0 <= reconnect_timeout fsm now < INT_MAX ->
       now + reconnect_timeout fsm now <= t ->
       (reconnect_run (reconnect_receive_attempted fsm t) t).1 <> RECONNECT_NONE).
Proof.
  intros Hok Hnow.
  pose proof (deadline_no_overflow fsm now Hok Hnow) as Hd.
  set (d := reconnect_deadline__ fsm now) in *.
  assert (reconnect_timeout fsm now
          = if d =? LLONG_MAX then -1
            else Z.max 0 (Z.min INT_MAX (d - now))) as ->.
  { unfold reconnect_timeout. fold d. destruct (Z.eqb_spec d LLONG_MAX); [done |].
    cbn. rewrite i64_id; [done |].
    unfold time_ok, INT_MAX, LLONG_MIN, LLONG_MAX in *; lia. }
  split; [| split; [| split]].
  - pose proof (ok_entered _ (proj1 Hok)). unfold time_ok, LLONG_MIN in *. lia.
  - destruct (Z_le_gt_dec d now) as [Hle|Hgt].
    + split; intros _.
      * apply run_some; [done |]. unfold time_ok, LLONG_MAX in *; lia.
      * unfold time_ok, INT_MAX, LLONG_MAX in *. split_ifs; reflect_bools; lia.
    + rewrite run_none by (fold d; lia).
      split; [| done]. unfold INT_MAX. split_ifs; reflect_bools; lia.
  - intros t Hle Ht Hwait. apply run_none.
    apply (deadline_stable fsm now); try done. fold d.
    destruct (Z.eqb_spec d LLONG_MAX);
      unfold time_ok, INT_MAX, LLONG_MAX in *; lia.
  - intros t Ht Hcut Hle. apply (run_at_deadline fsm now); try done; fold d;
      destruct (Z.eqb_spec d LLONG_MAX); unfold INT_MAX in *; lia.
Qed.

Lemma reconnect_timeout_run_witness :
  let fsm := exec_all [Enable 1000; Connecting 1000; Connected 1200]
               (reconnect_create 0) in
  reconnect_timeout fsm 2000 = 4200
  /\ (reconnect_run fsm 6199).1 = RECONNECT_NONE
  /\ (reconnect_run (reconnect_receive_attempted fsm 6200) 6200).1 <> RECONNECT_NONE.
Proof.
  intros fsm.
  assert (fsm_ok fsm) as Hok.
  { subst fsm. cbn -[exec]. do 3 (apply exec_ok; [cbn; unfold time_ok; lia |]).
    apply (inv_init (sys:=reconnect_system)). exists 0. unfold time_ok. auto with lia. }
  split; [reflexivity |].
  destruct (reconnect_timeout_run fsm 2000 Hok) as (_ & _ & H1 & H2);
    [unfold time_ok; lia |].
  change (reconnect_timeout fsm 2000) with 4200 in *.
  split; [apply H1 | apply H2]; unfold time_ok, INT_MAX; lia.
Defined.

(** ** Repeated failures *)

(** A failed attempt made when [reconnect_run] asked to connect. *)
Fixpoint fail_all (nows : list Z) (fsm : reconnect) : reconnect :=
  match nows with
  | [] => fsm
  | now :: nows => fail_all nows (reconnect_connect_failed fsm now 0)
  end.

Definition grow (lo hi b : Z) : Z :=
  if b <? lo then lo else if b <? Z.quot hi 2 then b * 2 else hi.

(** A transition leaves the retry parameters alone. *)
Lemma transition_keeps fsm now st :
  let fsm' := reconnect_transition__ fsm now st in
  r_state fsm' = st /\ r_min_backoff fsm' = r_min_backoff fsm
  /\ r_max_backoff fsm' = r_max_backoff fsm /\ r_max_tries fsm' = r_max_tries fsm
  /\ r_backoff fsm' = r_backoff fsm
  /\ r_backoff_free_tries fsm' = r_backoff_free_tries fsm.
Proof.
  intros fsm'. subst fsm'. unfold reconnect_transition__. destruct fsm.
  cbn. split_ifs; done.
Qed.

(** One failure from [S_BACKOFF]. *)
Lemma connect_failed_eq fsm now :
  fsm_ok fsm -> time_ok now -> r_state fsm = S_BACKOFF ->
  let fsm' := reconnect_connect_failed fsm now 0 in
  r_state fsm' = (if 0 <? r_max_tries fsm then S_BACKOFF else S_VOID)
  /\ r_min_backoff fsm' = r_min_backoff fsm
  /\ r_max_backoff fsm' = r_max_backoff fsm
  /\ r_max_tries fsm' = (if (0 <? r_max_tries fsm)
                            && negb (r_max_tries fsm =? UINT_MAX)
                         then u32 (r_max_tries fsm - 1) else r_max_tries fsm)
  /\ (0 < r_max_tries fsm -> r_backoff_free_tries fsm <= 1 ->
      r_backoff fsm' = grow (r_min_backoff fsm) (r_max_backoff fsm)
                         (r_backoff fsm)
      /\ r_backoff_free_tries fsm' = r_backoff_free_tries fsm).
Proof.
  intros [Hb _] Hnow Hst fsm'. subst fsm'. unfold reconnect_connect_failed.
  assert (reconnect_connecting fsm now
          = fsm <| r_state := S_CONNECTING |> <| r_state_entered := now |>) as ->.
  { destruct fsm. cbn in Hst. by subst. }
  rewrite disconnected_eq;
    [| destruct Hb; rewrite Hst in *; constructor; cbn; base_solve | done].
  set (c := fsm <| r_state := S_CONNECTING |> <| r_state_entered := now |>).
  assert (r_min_backoff c = r_min_backoff fsm /\ r_max_backoff c = r_max_backoff fsm
    /\ r_max_tries c = r_max_tries fsm /\ r_backoff c = r_backoff fsm
    /\ r_backoff_free_tries c = r_backoff_free_tries fsm
    /\ r_state c = S_CONNECTING) as (Hmin & Hmax & Htries & Hbo & Hfree & Hc)
    by done.
  clearbody c. rewrite <- Hmin, <- Hmax, <- Htries, <- Hbo, <- Hfree.
  clear Hmin Hmax Htries Hbo Hfree.
  destruct (0 <? r_max_tries c) eqn:Htry.
  - destruct (transition_keeps (note_failure c now <| r_backoff := next_backoff c |>)
      now S_BACKOFF) as (-> & -> & -> & -> & -> & ->).
    split; [done |]. repeat (split; [by unfold note_failure; cbn; rewrite ?Htry |]).
    intros _ Hfree. unfold note_failure, next_backoff, grow. cbn. rewrite Hc.
    rewrite (proj2 (Z.ltb_ge _ _) Hfree). split; [done | by rewrite andb_false_r].
  - destruct (transition_keeps (note_failure c now) now S_VOID)
      as (-> & -> & -> & -> & -> & ->).
    split; [done |]. repeat (split; [by unfold note_failure; cbn; rewrite ?Htry |]).
    lia.
Qed.

Lemma fail_all_ok nows fsm :
  fsm_ok fsm -> Forall time_ok nows -> fsm_ok (fail_all nows fsm).
Proof.
  intros Hok Hnows. revert fsm Hok.
  induction Hnows as [|now nows Hnow Hnows IH]; intros; [done |].
  apply IH, (exec_ok (ConnectFailed now 0)); done.
Qed.

Lemma fail_all_snoc nows now fsm :
  fail_all (nows ++ [now]) fsm
  = reconnect_connect_failed (fail_all nows fsm) now 0.
Proof. revert fsm. induction nows; intros; cbn; auto. Qed.

(** The closed form of the backoff after [n + 1] failures. *)
Definition backoff_after (lo hi : Z) (n : nat) : Z :=
  match n with
  | O => lo
  | S m => if lo * 2 ^ Z.of_nat m <? Z.quot hi 2
           then lo * 2 ^ Z.of_nat (S m) else hi
  end.

Lemma grow_backoff_after lo hi n :
  1000 <= lo <= hi ->
  grow lo hi (backoff_after lo hi n) = backoff_after lo hi (S n).
Proof.
  intros Hlo. unfold grow, backoff_after.
  assert (forall k, lo * 2 ^ Z.of_nat (S k) = lo * 2 ^ Z.of_nat k * 2) as Hp.
  { intros k. rewrite Nat2Z.inj_succ, Z.pow_succ_r by lia. lia. }
  assert (forall k, lo <= lo * 2 ^ Z.of_nat k) as Hge.
  { intros k. pose proof (Z.pow_pos_nonneg 2 (Z.of_nat k)). nia. }
  destruct n as [|n].
  - change (2 ^ Z.of_nat 0) with 1. rewrite Hp.
    change (2 ^ Z.of_nat 0) with 1. rewrite !Z.mul_1_r.
    by rewrite Z.ltb_irrefl.
  - rewrite (Hp (S n)), (Hp n). specialize (Hge n).
    destruct (Z.ltb_spec (lo * 2 ^ Z.of_nat n) (Z.quot hi 2));
      split_ifs; reflect_bools; div_lia.
Qed.

Lemma fail_all_backoff fsm now nows :
  fsm_ok fsm -> r_state fsm = S_BACKOFF -> r_backoff fsm = 0 ->
  r_backoff_free_tries fsm <= 1 -> r_max_tries fsm = UINT_MAX ->
  Forall time_ok (now :: nows) ->
  let fsm' := fail_all (now :: nows) fsm in
  r_state fsm' = S_BACKOFF
  /\ r_backoff fsm'
     = backoff_after (r_min_backoff fsm) (r_max_backoff fsm) (length nows)
  /\ r_min_backoff fsm' = r_min_backoff fsm
  /\ r_max_backoff fsm' = r_max_backoff fsm
  /\ r_max_tries fsm' = UINT_MAX /\ r_backoff_free_tries fsm' <= 1.
Proof.
  intros Hok Hst Hb0 Hfree Htries Hnows. cbn zeta.
  assert (1000 <= r_min_backoff fsm <= r_max_backoff fsm) as Hlo
    by (destruct Hok as [[[? ?]]]; done).
  induction nows as [|now' nows IH] using rev_ind.
  - apply Forall_cons in Hnows as [Hn _]. cbn [fail_all length].
    destruct (connect_failed_eq fsm now) as (H1 & H2 & H3 & H4 & H5); try done.
    rewrite Htries in *. destruct H5 as [H5 H6]; [done | done |].
    rewrite H1, H2, H3, H4, H5, H6, Hb0. cbn. split_and!; try done.
    unfold grow. by replace (0 <? r_min_backoff fsm) with true by lia.
  - rewrite app_comm_cons in Hnows |- *. apply Forall_app in Hnows as [Hn Hn'].
    apply Forall_cons in Hn' as [? _]. destruct (IH Hn) as (I1 & I2 & I3 & I4 & I5 & I6).
    rewrite fail_all_snoc, length_app, Nat.add_1_r.
    destruct (connect_failed_eq (fail_all (now :: nows) fsm) now')
      as (H1 & H2 & H3 & H4 & H5); [by apply fail_all_ok | done | done |].
    rewrite I5 in *. destruct H5 as [H5 H6]; [done | done |].
    rewrite H1, H2, H3, H4, H5, H6, I2, I3, I4, grow_backoff_after by done.
    done.
Qed.

(** Exponential backoff.  A client without a limit on its tries, that was
    just enabled, backs off after its [n + 1]-th consecutive failed attempt for
    [min_backoff * 2^n] as long as that stays under the cap, and for
    [max_backoff] from then on; once [min_backoff * 2^n] reaches [max_backoff]
    the backoff is [max_backoff]. *)
Theorem reconnect_backoff_exponential fsm now nows :
  fsm_ok fsm -> r_state fsm = S_BACKOFF -> r_backoff fsm = 0 ->
  r_backoff_free_tries fsm <= 1 -> r_max_tries fsm = UINT_MAX ->
  Forall time_ok (now :: nows) ->
  let lo := r_min_backoff fsm in
  let hi := r_max_backoff fsm in
  let fsm' := fail_all (now :: nows) fsm in
  let n := length nows in
  r_state fsm' = S_BACKOFF
  /\ r_backoff fsm' = backoff_after lo hi n
  /\ (hi <= lo * 2 ^ Z.of_nat n -> r_backoff fsm' = hi).
Proof.
  intros Hok Hst Hb0 Hfree Htries Hnows lo hi fsm' n.
  assert (1000 <= lo <= hi) as Hlo by (destruct Hok as [[[? ?]]]; done).
  destruct (fail_all_backoff fsm now nows) as (Hs & Hb & _); try done.
  split_and!; [done | done |]. intros Hcap. subst fsm' lo hi. rewrite Hb.
  fold n. unfold backoff_after. destruct n as [|m].
  - change (2 ^ Z.of_nat 0) with 1 in Hcap. lia.
  - rewrite Nat2Z.inj_succ, Z.pow_succ_r in Hcap by lia.
    split_ifs; reflect_bools; div_lia.
Qed.

Lemma reconnect_backoff_exponential_witness :
  let fsm := reconnect_enable (reconnect_create 0) 0 in
  r_backoff (fail_all [0; 1000; 3000] fsm) = 4000
  /\ r_backoff (fail_all [0; 1000; 3000; 7000] fsm) = 8000.
Proof.
  intros fsm.
  assert (fsm_ok fsm) as Hok.
  { apply (exec_ok (Enable 0)); [cbn; unfold time_ok; lia |].
    apply (inv_init (sys:=reconnect_system)). exists 0. unfold time_ok. auto with lia. }
  split.
  - destruct (reconnect_backoff_exponential fsm 0 [1000; 3000])
      as (_ & H & _);
      [done | done | done | by vm_compute | done
      | repeat constructor; unfold time_ok; lia | exact H].
  - destruct (reconnect_backoff_exponential fsm 0 [1000; 3000; 7000])
      as (_ & _ & H);
      [done | done | done | by vm_compute | done
      | repeat constructor; unfold time_ok; lia |].
    apply H. vm_compute. discriminate.
Defined.

(** [max_tries] bounds the attempts.  From [S_BACKOFF] with [k] tries left,
    the first [k] failed attempts lead back to [S_BACKOFF], each using up a try;
    the next failure disables the FSM, after which [reconnect_run] asks for
    nothing and [reconnect_enable] has no effect. *)
Theorem reconnect_gives_up fsm nows now :
  fsm_ok fsm -> r_state fsm = S_BACKOFF -> r_max_tries fsm <> UINT_MAX ->
  Forall time_ok nows -> time_ok now ->
  let k := r_max_tries fsm in
  let n := Z.of_nat (length nows) in
  (n <= k -> r_state (fail_all nows fsm) = S_BACKOFF
             /\ r_max_tries (fail_all nows fsm) = k - n)
  /\ (n = k ->
      let fsm' := fail_all (nows ++ [now]) fsm in
      r_state fsm' = S_VOID
      /\ forall t, (reconnect_run fsm' t).1 = RECONNECT_NONE
                   /\ reconnect_enable fsm' t = fsm').
Proof.
  intros Hok Hst Hk Hnows Hnow k n.
  assert (n <= k -> r_state (fail_all nows fsm) = S_BACKOFF
                    /\ r_max_tries (fail_all nows fsm) = k - n) as Hfirst.
  { subst n. induction nows as [|now' nows IH] using rev_ind; intros Hn.
    { cbn. subst k. split; [done | lia]. }
    apply Forall_app in Hnows as [Hn1 Hn2]. apply Forall_cons in Hn2 as [? _].
    rewrite length_app in *. cbn in *.
    destruct (IH Hn1) as [I1 I2]; [lia |]. rewrite fail_all_snoc.
    destruct (connect_failed_eq (fail_all nows fsm) now')
      as (H1 & _ & _ & H4 & _); [by apply fail_all_ok | done | done |].
    assert (is_uint k) as Hu by apply Hok.
    unfold is_uint, UINT_MAX in *.
    rewrite H1, H4, I2.
    replace (0 <? k - Z.of_nat (length nows)) with true by lia.
    replace (k - Z.of_nat (length nows) =? 4294967295) with false by lia.
    cbn. rewrite uwrap_id by lia. split; [done | lia]. }
  split; [done |]. intros Heq fsm'. destruct Hfirst as [Hs Ht]; [lia |].
  subst fsm'. rewrite fail_all_snoc.
  destruct (connect_failed_eq (fail_all nows fsm) now)
    as (H1 & _ & _ & H4 & _); [by apply fail_all_ok | done | done |].
  rewrite Ht in *. replace (k - n) with 0 in * by lia. cbn in H1, H4.
  split; [done |]. intros t. unfold reconnect_run, reconnect_enable.
  rewrite H1. split; [by split_if |].
  unfold reconnect_may_retry. rewrite H4. done.
Qed.

Lemma reconnect_gives_up_witness :
  let fsm := reconnect_set_max_tries (reconnect_enable (reconnect_create 0) 0) 2 in
  r_state (fail_all [0; 1000] fsm) = S_BACKOFF
  /\ r_state (fail_all [0; 1000; 3000] fsm) = S_VOID.
Proof.
  intros fsm.
  assert (fsm_ok fsm) as Hok.
  { apply (exec_ok (SetMaxTries 2)); [cbn; unfold is_uint, UINT_MAX; lia |].
    apply (exec_ok (Enable 0)); [cbn; unfold time_ok; lia |].
    apply (inv_init (sys:=reconnect_system)). exists 0. unfold time_ok. auto with lia. }
  destruct (reconnect_gives_up fsm [0; 1000] 3000 Hok) as [H1 H2];
    [done | done | repeat constructor; unfold time_ok; lia
    | unfold time_ok; lia |].
  split; [by apply H1 | by apply H2].
Defined.

(** A maximum backoff of 0 asks [reconnect_set_backoff] for the default
    maximum, but a client that is backing off loses its backoff altogether:
    the argument, not the maximum it stands for, is stored. *)
Theorem reconnect_set_backoff_zero_drops_backoff fsm lo :
  r_state fsm = S_BACKOFF -> 0 < r_backoff fsm ->
  let fsm' := reconnect_set_backoff fsm lo 0 in
  RECONNECT_DEFAULT_MAX_BACKOFF <= r_max_backoff fsm' /\ r_backoff fsm' = 0.
Proof.
  intros Hst Hb. unfold reconnect_set_backoff, RECONNECT_DEFAULT_MAX_BACKOFF.
  assert (state_is (r_state fsm) S_BACKOFF && (0 <? r_backoff fsm) = true) as Ht.
  { rewrite Hst. apply andb_true_iff. split; [done | lia]. }
  cbn. destruct (Z.ltb_spec 8000 (Z.max lo 1000)); cbn; rewrite Ht; cbn;
    auto with lia.
Qed.

Lemma reconnect_set_backoff_zero_witness :
  let fsm := fail_all [0; 1000] (reconnect_enable (reconnect_create 0) 0) in
  r_backoff fsm = 2000 /\ r_backoff (reconnect_set_backoff fsm 0 0) = 0.
Proof.
  intros fsm. split; [reflexivity |].
  by apply (reconnect_set_backoff_zero_drops_backoff fsm 0).
Defined.
