(* ===== verification/Stp.v ===== *)
(** * IEEE 802.1D Spanning Tree Protocol: [ovs/lib/stp.c]

    [Module Stp] translates the protocol entity of a bridge: its ports and
    timers, the selection of the root port and of the designated ports, the
    port states, topology change notification, transmission and reception of
    BPDUs and the clock [stp_tick].  The theorems are in [StpProofs].

    The C code keeps the ports in an array inside [struct stp] and passes
    pointers into it; here a port is named by its index.  Handing a packet to
    the client's [send_bpdu] callback appends it to [s_sent] (the callback is
    not re-entered), and [s_conn_seq] counts the calls of [seq_change] on the
    connectivity sequence number.  The mutex that serialises the entry points,
    the log messages and the text output of [stp/show] are left out. *)
From stdpp Require Import base list strings.
From Stdlib Require Import ZArith Lia.
From S2P Require Import Prelude.

Local Open Scope Z_scope.

Module Stp.

(** ** Data *)

Definition STP_PROTOCOL_ID : Z := 0x0000.
Definition STP_PROTOCOL_VERSION : Z := 0x00.
Definition STP_TYPE_CONFIG : Z := 0x00.
Definition STP_TYPE_TCN : Z := 0x80.

Definition STP_CONFIG_TOPOLOGY_CHANGE_ACK : Z := 0x80.
Definition STP_CONFIG_TOPOLOGY_CHANGE : Z := 0x01.

(** A configuration BPDU, its members in host byte order. *)
Record stp_config_bpdu := mk_config {
  c_protocol_id : Z;
  c_protocol_version : Z;
  c_bpdu_type : Z;
  c_flags : Z;
  c_root_id : Z;
  c_root_path_cost : Z;
  c_bridge_id : Z;
  c_port_id : Z;
  c_message_age : Z;
  c_max_age : Z;
  c_hello_time : Z;
  c_forward_delay : Z;
}.

(** The packed layout on the wire (35 bytes). *)
Definition config_to_bytes (c : stp_config_bpdu) : list Z :=
  be_bytes 2 (c_protocol_id c) ++ be_bytes 1 (c_protocol_version c)
  ++ be_bytes 1 (c_bpdu_type c) ++ be_bytes 1 (c_flags c)
  ++ be_bytes 8 (c_root_id c) ++ be_bytes 4 (c_root_path_cost c)
  ++ be_bytes 8 (c_bridge_id c) ++ be_bytes 2 (c_port_id c)
  ++ be_bytes 2 (c_message_age c) ++ be_bytes 2 (c_max_age c)
  ++ be_bytes 2 (c_hello_time c) ++ be_bytes 2 (c_forward_delay c).

(** The [n] bytes at offset [ofs]. *)
Definition field (bs : list Z) (ofs n : nat) : Z :=
  be_value (take n (drop ofs bs)).

Definition config_of_bytes (bs : list Z) : stp_config_bpdu :=
  {| c_protocol_id := field bs 0 2;
     c_protocol_version := field bs 2 1;
     c_bpdu_type := field bs 3 1;
     c_flags := field bs 4 1;
     c_root_id := field bs 5 8;
     c_root_path_cost := field bs 13 4;
     c_bridge_id := field bs 17 8;
     c_port_id := field bs 25 2;
     c_message_age := field bs 27 2;
     c_max_age := field bs 29 2;
     c_hello_time := field bs 31 2;
     c_forward_delay := field bs 33 2 |}.

(** A topology change notification is just a header (4 bytes). *)
Definition tcn_to_bytes : list Z :=
  be_bytes 2 STP_PROTOCOL_ID ++ be_bytes 1 STP_PROTOCOL_VERSION
  ++ be_bytes 1 STP_TYPE_TCN.

Record stp_timer := mk_timer { t_active : bool; t_value : Z }.

#[export] Instance stp_timer_rebuild : Rebuild stp_timer := fun t =>
  mk_timer (t_active t) (t_value t).

(** [STP_UNSET] is the zero that [xzalloc] leaves in a port's state before
    [stp_create] initialises it; the other constructors are the enum's. *)
Inductive stp_state :=
| STP_UNSET | STP_DISABLED | STP_LISTENING | STP_LEARNING | STP_FORWARDING
| STP_BLOCKING.

#[export] Instance stp_state_eq_dec : EqDecision stp_state.
Proof. solve_decision. Defined.

Definition stp_state_value (st : stp_state) : Z :=
  match st with
  | STP_UNSET => 0
  | STP_DISABLED => Z.shiftl 1 0
  | STP_LISTENING => Z.shiftl 1 1
  | STP_LEARNING => Z.shiftl 1 2
  | STP_FORWARDING => Z.shiftl 1 3
  | STP_BLOCKING => Z.shiftl 1 4
  end.

(** [state & (STP_A | STP_B | ...)] used as a condition. *)
Definition stp_state_in (st : stp_state) (set : list stp_state) : bool :=
  negb (Z.land (stp_state_value st)
          (foldr Z.lor 0 (stp_state_value <$> set)) =? 0).

Inductive stp_role :=
| STP_ROLE_ROOT | STP_ROLE_DESIGNATED | STP_ROLE_ALTERNATE | STP_ROLE_DISABLED.

Record stp_port := mk_port {
  p_port_name : option string;
  p_aux : option Z;
  p_port_id : Z;
  p_state : stp_state;
  p_path_cost : Z;
  p_designated_root : Z;
  p_designated_cost : Z;
  p_designated_bridge : Z;
  p_designated_port : Z;
  p_topology_change_ack : bool;
  p_config_pending : bool;
  p_change_detection_enabled : bool;
  p_message_age_timer : stp_timer;
  p_forward_delay_timer : stp_timer;
  p_hold_timer : stp_timer;
  p_tx_count : Z;
  p_rx_count : Z;
  p_error_count : Z;
  p_state_changed : bool;
}.

#[export] Instance stp_port_rebuild : Rebuild stp_port := fun p =>
  mk_port (p_port_name p) (p_aux p) (p_port_id p) (p_state p) (p_path_cost p)
    (p_designated_root p) (p_designated_cost p) (p_designated_bridge p)
    (p_designated_port p) (p_topology_change_ack p) (p_config_pending p)
    (p_change_detection_enabled p) (p_message_age_timer p)
    (p_forward_delay_timer p) (p_hold_timer p) (p_tx_count p) (p_rx_count p)
    (p_error_count p) (p_state_changed p).

Definition zero_timer : stp_timer := mk_timer false 0.

(** A port in zeroed memory. *)
Definition zero_port : stp_port :=
  mk_port None None 0 STP_UNSET 0 0 0 0 0 false false false
    zero_timer zero_timer zero_timer 0 0 0 false.

#[export] Instance stp_port_inhabited : Inhabited stp_port :=
  populate zero_port.

Record stp := mk_stp {
  s_name : string;
  s_bridge_id : Z;
  s_max_age : Z;
  s_hello_time : Z;
  s_forward_delay : Z;
  s_bridge_max_age : Z;
  s_bridge_hello_time : Z;
  s_bridge_forward_delay : Z;
  s_rq_max_age : Z;
  s_rq_hello_time : Z;
  s_rq_forward_delay : Z;
  s_elapsed_remainder : Z;
  s_designated_root : Z;
  s_root_path_cost : Z;
  s_root_port : option nat;
  s_topology_change_detected : bool;
  s_topology_change : bool;
  s_hello_timer : stp_timer;
  s_tcn_timer : stp_timer;
  s_topology_change_timer : stp_timer;
  s_ports : list stp_port;
  s_fdb_needs_flush : bool;
  s_first_changed_port : nat;
  s_sent : list (nat * list Z);
  s_conn_seq : Z;
}.

#[export] Instance stp_rebuild : Rebuild stp := fun s =>
  mk_stp (s_name s) (s_bridge_id s) (s_max_age s) (s_hello_time s)
    (s_forward_delay s) (s_bridge_max_age s) (s_bridge_hello_time s)
    (s_bridge_forward_delay s) (s_rq_max_age s) (s_rq_hello_time s)
    (s_rq_forward_delay s) (s_elapsed_remainder s) (s_designated_root s)
    (s_root_path_cost s) (s_root_port s) (s_topology_change_detected s)
    (s_topology_change s) (s_hello_timer s) (s_tcn_timer s)
    (s_topology_change_timer s) (s_ports s) (s_fdb_needs_flush s)
    (s_first_changed_port s) (s_sent s) (s_conn_seq s).

Definition STP_MAX_PORTS : nat := 255.
Definition STP_DEFAULT_BRIDGE_PRIORITY : Z := 32768.
Definition STP_DEFAULT_PORT_PRIORITY : Z := 128.
Definition STP_DEFAULT_MAX_AGE : Z := 20000.
Definition STP_DEFAULT_HELLO_TIME : Z := 2000.
Definition STP_DEFAULT_FWD_DELAY : Z := 15000.
Definition MESSAGE_AGE_INCREMENT : Z := 1.

(** Port [i] of a bridge, and assignment to members of it. *)
Definition port (s : stp) (i : nat) : stp_port := s_ports s !!! i.

Definition upd_port (i : nat) (f : stp_port -> stp_port) (s : stp) : stp :=
  s <| s_ports ::= alter f i |>.

Definition stp_enabled (s : stp) (i : nat) : bool :=
  negb (stp_state_value (p_state (port s i)) =? stp_state_value STP_DISABLED).

(** The first enabled port at or after [i]; [None] past the last port. *)
Fixpoint stp_next_enabled_port_from (s : stp) (i : nat) (n : nat)
    : option nat :=
  match n with
  | O => None
  | S n => if stp_enabled s i then Some i
           else stp_next_enabled_port_from s (S i) n
  end.

Definition stp_next_enabled_port (s : stp) (i : nat) : option nat :=
  stp_next_enabled_port_from s i (STP_MAX_PORTS - i).

(** [FOR_EACH_ENABLED_PORT]: the body runs on each port found enabled when the
    iteration reaches it, in index order. *)
Definition for_each_enabled_port (body : nat -> stp -> stp) (s : stp) : stp :=
  foldl (fun s i => if stp_enabled s i then body i s else s) s
    (seq 0 STP_MAX_PORTS).

(** ** Timers *)

Definition stp_start_timer (value : Z) (t : stp_timer) : stp_timer :=
  t <| t_value := value |> <| t_active := true |>.

Definition stp_stop_timer (t : stp_timer) : stp_timer :=
  t <| t_active := false |>.

Definition stp_timer_expired (t : stp_timer) (elapsed timeout : Z)
    : bool * stp_timer :=
  if t_active t then
    let t := t <| t_value := i32 (t_value t + elapsed) |> in
    if timeout <=? t_value t then (true, t <| t_active := false |>)
    else (false, t)
  else (false, t).

Definition ms_to_timer (ms : Z) : Z := Z.quot (i32 (ms * 0x100)) 1000.

Definition timer_to_ms (timer : Z) : Z := Z.quot (i32 (timer * 1000)) 0x100.

Definition clamp (x min max : Z) : Z :=
  if x <? min then min else if max <? x then max else x.

(** ** Small predicates *)

Definition stp_is_root_bridge (s : stp) : bool :=
  s_bridge_id s =? s_designated_root s.

Definition stp_is_designated_port (s : stp) (i : nat) : bool :=
  (p_designated_bridge (port s i) =? s_bridge_id s)
  && (p_designated_port (port s i) =? p_port_id (port s i)).

Definition stp_is_designated_for_some_port (s : stp) : bool :=
  existsb (fun i => stp_enabled s i
                    && (p_designated_bridge (port s i) =? s_bridge_id s))
    (seq 0 STP_MAX_PORTS).

Definition seq_change (s : stp) : stp := s <| s_conn_seq ::= Z.succ |>.

(** ** Transmission *)

Definition eth_addr_stp : list Z := [0x01; 0x80; 0xC2; 0x00; 0x00; 0x00].
Definition ETH_HEADER_LEN : Z := 14.
Definition LLC_HEADER_LEN : Z := 3.
Definition STP_LLC_DSAP : Z := 0x42.
Definition STP_LLC_SSAP : Z := 0x42.
Definition STP_LLC_CNTL : Z := 0x03.

(** The frame: Ethernet header with a zero source address (filled in by the
    client) and the length of what follows, the LLC header, the BPDU. *)
Definition stp_frame (bpdu : list Z) : list Z :=
  eth_addr_stp ++ replicate 6 0
  ++ be_bytes 2 (LLC_HEADER_LEN + Z.of_nat (length bpdu))
  ++ [STP_LLC_DSAP; STP_LLC_SSAP; STP_LLC_CNTL] ++ bpdu.

Definition stp_send_bpdu (i : nat) (bpdu : list Z) (s : stp) : stp :=
  let s := s <| s_sent ::= fun sent => sent ++ [(i, stp_frame bpdu)] |> in
  upd_port i (fun p => p <| p_tx_count := i32 (p_tx_count p + 1) |>) s.

(** The configuration BPDU that port [i] would transmit. *)
Definition stp_config_to_send (s : stp) (i : nat) : stp_config_bpdu :=
  let p := port s i in
  let flags := if p_topology_change_ack p
               then STP_CONFIG_TOPOLOGY_CHANGE_ACK else 0 in
  let flags := if s_topology_change s
               then Z.lor flags STP_CONFIG_TOPOLOGY_CHANGE else flags in
  let message_age :=
    if stp_is_root_bridge s then 0
    else match s_root_port s with
         | Some r => u16 (t_value (p_message_age_timer (port s r))
                          + MESSAGE_AGE_INCREMENT)
         | None => 0
         end in
  {| c_protocol_id := STP_PROTOCOL_ID;
     c_protocol_version := STP_PROTOCOL_VERSION;
     c_bpdu_type := STP_TYPE_CONFIG;
     c_flags := flags;
     c_root_id := s_designated_root s;
     c_root_path_cost := s_root_path_cost s;
     c_bridge_id := s_bridge_id s;
     c_port_id := u16 (p_port_id p);
     c_message_age := message_age;
     c_max_age := u16 (s_max_age s);
     c_hello_time := u16 (s_hello_time s);
     c_forward_delay := u16 (s_forward_delay s) |}.

Definition stp_transmit_config (i : nat) (s : stp) : stp :=
  let root := stp_is_root_bridge s in
  if negb root && bool_decide (s_root_port s = None) then s
  else if t_active (p_hold_timer (port s i)) then
    upd_port i (fun p => p <| p_config_pending := true |>) s
  else
    let config := stp_config_to_send s i in
    if c_message_age config <? s_max_age s then
      let s := upd_port i (fun p => p <| p_topology_change_ack := false |>
                                      <| p_config_pending := false |>) s in
      let s := stp_send_bpdu i (config_to_bytes config) s in
      upd_port i (fun p => p <| p_hold_timer ::= stp_start_timer 0 |>) s
    else s.

Definition stp_config_bpdu_generation (s : stp) : stp :=
  for_each_enabled_port (fun i s =>
    if stp_is_designated_port s i then stp_transmit_config i s else s) s.

Definition stp_transmit_tcn (s : stp) : stp :=
  match s_root_port s with
  | None => s
  | Some r => stp_send_bpdu r tcn_to_bytes s
  end.

(** ** Comparing configurations *)

(** Does a received configuration supersede what port [i] holds? *)
Definition stp_supersedes_port_info (s : stp) (i : nat)
    (config : stp_config_bpdu) : bool :=
  let p := port s i in
  if negb (c_root_id config =? p_designated_root p) then
    c_root_id config <? p_designated_root p
  else if negb (c_root_path_cost config =? u32 (p_designated_cost p)) then
    c_root_path_cost config <? u32 (p_designated_cost p)
  else if negb (c_bridge_id config =? p_designated_bridge p) then
    c_bridge_id config <? p_designated_bridge p
  else negb (c_bridge_id config =? s_bridge_id s)
       || (c_port_id config <=? p_designated_port p).

Definition stp_record_config_information (i : nat) (config : stp_config_bpdu)
    (s : stp) : stp :=
  upd_port i (fun p =>
    p <| p_designated_root := c_root_id config |>
      <| p_designated_cost := i32 (c_root_path_cost config) |>
      <| p_designated_bridge := c_bridge_id config |>
      <| p_designated_port := c_port_id config |>
      <| p_message_age_timer ::= stp_start_timer (c_message_age config) |>) s.

Definition stp_record_config_timeout_values (config : stp_config_bpdu)
    (s : stp) : stp :=
  s <| s_max_age := c_max_age config |>
    <| s_hello_time := c_hello_time config |>
    <| s_forward_delay := c_forward_delay config |>
    <| s_topology_change :=
         negb (Z.land (c_flags config) STP_CONFIG_TOPOLOGY_CHANGE =? 0) |>.

(** Is [p] a better root port than [root]? *)
Definition stp_supersedes_root (root p : stp_port) : bool :=
  let p_cost := i32 (p_designated_cost p + p_path_cost p) in
  let root_cost := i32 (p_designated_cost root + p_path_cost root) in
  if negb (p_designated_root p =? p_designated_root root) then
    p_designated_root p <? p_designated_root root
  else if negb (p_cost =? root_cost) then p_cost <? root_cost
  else if negb (p_designated_bridge p =? p_designated_bridge root) then
    p_designated_bridge p <? p_designated_bridge root
  else if negb (p_designated_port p =? p_designated_port root) then
    p_designated_port p <? p_designated_port root
  else p_port_id p <? p_port_id root.

(** ** Selection of the root port and of the designated ports *)

Definition stp_root_candidate (s : stp) (root : option nat) (i : nat)
    : option nat :=
  if stp_is_designated_port s i
     || (s_bridge_id s <=? p_designated_root (port s i)) then root
  else match root with
       | Some r => if negb (stp_supersedes_root (port s r) (port s i))
                   then root else Some i
       | None => Some i
       end.

Definition stp_root_selection (s : stp) : stp :=
  let root := foldl (fun root i =>
      if stp_enabled s i then stp_root_candidate s root i else root)
    None (seq 0 STP_MAX_PORTS) in
  let s := s <| s_root_port := root |> in
  match root with
  | None => s <| s_designated_root := s_bridge_id s |>
              <| s_root_path_cost := 0 |>
  | Some r => s <| s_designated_root := p_designated_root (port s r) |>
                <| s_root_path_cost :=
                     u32 (i32 (p_designated_cost (port s r)
                               + p_path_cost (port s r))) |>
  end.

Definition stp_become_designated_port (i : nat) (s : stp) : stp :=
  upd_port i (fun p =>
    p <| p_designated_root := s_designated_root s |>
      <| p_designated_cost := i32 (s_root_path_cost s) |>
      <| p_designated_bridge := s_bridge_id s |>
      <| p_designated_port := p_port_id p |>) s.

Definition stp_designated_port_selection (s : stp) : stp :=
  for_each_enabled_port (fun i s =>
    let p := port s i in
    if stp_is_designated_port s i
       || negb (p_designated_root p =? s_designated_root s)
       || (s_root_path_cost s <? u32 (p_designated_cost p))
       || ((s_root_path_cost s =? u32 (p_designated_cost p))
           && ((s_bridge_id s <? p_designated_bridge p)
               || ((s_bridge_id s =? p_designated_bridge p)
                   && (p_port_id p <=? p_designated_port p))))
    then stp_become_designated_port i s else s) s.

Definition stp_configuration_update (s : stp) : stp :=
  let s := stp_root_selection s in
  let s := stp_designated_port_selection s in
  seq_change s.

(** ** Port states *)

Definition stp_set_port_state (i : nat) (st : stp_state) (s : stp) : stp :=
  let p := port s i in
  let s :=
    if negb (stp_state_value st =? stp_state_value (p_state p))
       && negb (p_state_changed p) then
      let s := upd_port i (fun p => p <| p_state_changed := true |>) s in
      let s := if (i <? s_first_changed_port s)%nat
               then s <| s_first_changed_port := i |> else s in
      seq_change s
    else s in
  upd_port i (fun p => p <| p_state := st |>) s.

Definition stp_topology_change_detection (s : stp) : stp :=
  let s :=
    if stp_is_root_bridge s then
      let s := s <| s_topology_change := true |> in
      s <| s_topology_change_timer ::= stp_start_timer 0 |>
    else if negb (s_topology_change_detected s) then
      let s := stp_transmit_tcn s in
      s <| s_tcn_timer ::= stp_start_timer 0 |>
    else s in
  let s := s <| s_fdb_needs_flush := true |> in
  let s := s <| s_topology_change_detected := true |> in
  seq_change s.

Definition stp_topology_change_acknowledged (s : stp) : stp :=
  let s := s <| s_topology_change_detected := false |> in
  s <| s_tcn_timer ::= stp_stop_timer |>.

Definition stp_acknowledge_topology_change (i : nat) (s : stp) : stp :=
  let s := upd_port i (fun p => p <| p_topology_change_ack := true |>) s in
  stp_transmit_config i s.

Definition stp_make_forwarding (i : nat) (s : stp) : stp :=
  if stp_state_value (p_state (port s i)) =? stp_state_value STP_BLOCKING then
    let s := stp_set_port_state i STP_LISTENING s in
    upd_port i (fun p => p <| p_forward_delay_timer ::= stp_start_timer 0 |>) s
  else s.

Definition stp_make_blocking (i : nat) (s : stp) : stp :=
  if negb (stp_state_in (p_state (port s i)) [STP_DISABLED; STP_BLOCKING]) then
    let s :=
      if stp_state_in (p_state (port s i)) [STP_FORWARDING; STP_LEARNING]
         && p_change_detection_enabled (port s i)
      then stp_topology_change_detection s else s in
    let s := stp_set_port_state i STP_BLOCKING s in
    upd_port i (fun p => p <| p_forward_delay_timer ::= stp_stop_timer |>) s
  else s.

Definition stp_port_state_selection (s : stp) : stp :=
  for_each_enabled_port (fun i s =>
    if bool_decide (s_root_port s = Some i) then
      let s := upd_port i (fun p => p <| p_config_pending := false |>
                                      <| p_topology_change_ack := false |>) s in
      stp_make_forwarding i s
    else if stp_is_designated_port s i then
      let s := upd_port i (fun p =>
                 p <| p_message_age_timer ::= stp_stop_timer |>) s in
      stp_make_forwarding i s
    else
      let s := upd_port i (fun p => p <| p_config_pending := false |>
                                      <| p_topology_change_ack := false |>) s in
      stp_make_blocking i s) s.

(** ** Becoming root, initialisation, bridge timers *)

Definition stp_become_root_bridge (s : stp) : stp :=
  let s := s <| s_max_age := s_bridge_max_age s |> in
  let s := s <| s_hello_time := s_bridge_hello_time s |> in
  let s := s <| s_forward_delay := s_bridge_forward_delay s |> in
  let s := stp_topology_change_detection s in
  let s := s <| s_tcn_timer ::= stp_stop_timer |> in
  let s := stp_config_bpdu_generation s in
  s <| s_hello_timer ::= stp_start_timer 0 |>.

Definition stp_initialize_port (i : nat) (st : stp_state) (s : stp) : stp :=
  let s := stp_become_designated_port i s in
  let s :=
    if (stp_state_value (p_state (port s i)) =? 0)
       && (stp_state_value st =? stp_state_value STP_DISABLED)
    then upd_port i (fun p => p <| p_state := st |>) s
    else stp_set_port_state i st s in
  upd_port i (fun p =>
    p <| p_topology_change_ack := false |>
      <| p_config_pending := false |>
      <| p_change_detection_enabled := true |>
      <| p_aux := None |>
      <| p_message_age_timer ::= stp_stop_timer |>
      <| p_forward_delay_timer ::= stp_stop_timer |>
      <| p_hold_timer ::= stp_stop_timer |>
      <| p_error_count := 0 |>
      <| p_rx_count := 0 |>
      <| p_tx_count := 0 |>) s.

Definition stp_update_bridge_timers (s : stp) : stp :=
  let ht := clamp (s_rq_hello_time s) 1000 10000 in
  let ma := clamp (s_rq_max_age s) (Z.max (2 * (ht + 1000)) 6000) 40000 in
  let fd := clamp (s_rq_forward_delay s) (Z.quot ma 2 + 1000) 30000 in
  let s := s <| s_bridge_hello_time := ms_to_timer ht |> in
  let s := s <| s_bridge_max_age := ms_to_timer ma |> in
  let s := s <| s_bridge_forward_delay := ms_to_timer fd |> in
  if stp_is_root_bridge s then
    let s := s <| s_max_age := s_bridge_max_age s |> in
    let s := s <| s_hello_time := s_bridge_hello_time s |> in
    s <| s_forward_delay := s_bridge_forward_delay s |>
  else s.

(** [struct stp] as [xzalloc] returns it, with the name copied in. *)
Definition zero_stp (name : string) : stp :=
  mk_stp name 0 0 0 0 0 0 0 0 0 0 0 0 0 None false false
    zero_timer zero_timer zero_timer (replicate STP_MAX_PORTS zero_port)
    false 0 [] 0.

(** The assignments of [stp_create], in three parts: the bridge's identity and
    requested times, its view of the network and its timers, and one port. *)
Definition stp_create_identity (name : string) (bridge_id : Z) : stp :=
  let s := zero_stp name in
  let s := s <| s_bridge_id := bridge_id |> in
  let s := if Z.shiftr (s_bridge_id s) 48 =? 0
           then s <| s_bridge_id ::= fun b =>
                       Z.lor b (Z.shiftl STP_DEFAULT_BRIDGE_PRIORITY 48) |>
           else s in
  let s := s <| s_rq_max_age := STP_DEFAULT_MAX_AGE |> in
  let s := s <| s_rq_hello_time := STP_DEFAULT_HELLO_TIME |> in
  let s := s <| s_rq_forward_delay := STP_DEFAULT_FWD_DELAY |> in
  stp_update_bridge_timers s.

Definition stp_create_as_root (s : stp) : stp :=
  let s := s <| s_max_age := s_bridge_max_age s |> in
  let s := s <| s_hello_time := s_bridge_hello_time s |> in
  let s := s <| s_forward_delay := s_bridge_forward_delay s |> in
  let s := s <| s_designated_root := s_bridge_id s |> in
  let s := s <| s_root_path_cost := 0 |> in
  let s := s <| s_root_port := None |> in
  let s := s <| s_topology_change_detected := false |> in
  let s := s <| s_topology_change := false |> in
  let s := s <| s_tcn_timer ::= stp_stop_timer |> in
  let s := s <| s_topology_change_timer ::= stp_stop_timer |> in
  let s := s <| s_hello_timer ::= stp_start_timer (s_hello_time s) |> in
  s <| s_first_changed_port := STP_MAX_PORTS |>.

Definition stp_create_port (i : nat) (s : stp) : stp :=
  let s := upd_port i (fun p =>
      p <| p_port_id := Z.lor (Z.of_nat i + 1)
                          (Z.shiftl STP_DEFAULT_PORT_PRIORITY 8) |>
        <| p_path_cost := 2 |>) s in
  stp_initialize_port i STP_DISABLED s.

Definition stp_create (name : string) (bridge_id : Z) : stp :=
  foldl (fun s i => stp_create_port i s)
    (stp_create_as_root (stp_create_identity name bridge_id))
    (seq 0 STP_MAX_PORTS).

(** ** Reception *)

Definition stp_received_config_bpdu (i : nat) (config : stp_config_bpdu)
    (s : stp) : stp :=
  if c_max_age config <=? c_message_age config then s
  else if stp_enabled s i then
    let root := stp_is_root_bridge s in
    if stp_supersedes_port_info s i config then
      let s := stp_record_config_information i config s in
      let s := stp_configuration_update s in
      let s := stp_port_state_selection s in
      let s :=
        if negb (stp_is_root_bridge s) && root then
          let s := s <| s_hello_timer ::= stp_stop_timer |> in
          if s_topology_change_detected s then
            let s := s <| s_topology_change_timer ::= stp_stop_timer |> in
            let s := stp_transmit_tcn s in
            s <| s_tcn_timer ::= stp_start_timer 0 |>
          else s
        else s in
      if bool_decide (s_root_port s = Some i) then
        let s := stp_record_config_timeout_values config s in
        let s := stp_config_bpdu_generation s in
        let s :=
          if negb (Z.land (c_flags config) STP_CONFIG_TOPOLOGY_CHANGE_ACK =? 0)
          then stp_topology_change_acknowledged s else s in
        if negb (Z.land (c_flags config) STP_CONFIG_TOPOLOGY_CHANGE =? 0)
        then s <| s_fdb_needs_flush := true |> else s
      else s
    else if stp_is_designated_port s i then stp_transmit_config i s
    else s
  else s.

Definition stp_received_tcn_bpdu (i : nat) (s : stp) : stp :=
  if stp_enabled s i then
    if stp_is_designated_port s i then
      let s := stp_topology_change_detection s in
      stp_acknowledge_topology_change i s
    else s
  else s.

Definition count_error (i : nat) (s : stp) : stp :=
  upd_port i (fun p => p <| p_error_count := i32 (p_error_count p + 1) |>) s.

Definition count_rx (i : nat) (s : stp) : stp :=
  upd_port i (fun p => p <| p_rx_count := i32 (p_rx_count p + 1) |>) s.

Definition sizeof_stp_bpdu_header : nat := 4.
Definition sizeof_stp_config_bpdu : nat := 35.
Definition sizeof_stp_tcn_bpdu : nat := 4.

Definition stp_received_bpdu (i : nat) (bpdu : list Z) (s : stp) : stp :=
  let bpdu_size := length bpdu in
  if negb (stp_enabled s i) then s
  else if (bpdu_size <? sizeof_stp_bpdu_header)%nat then count_error i s
  else if negb (field bpdu 0 2 =? STP_PROTOCOL_ID) then count_error i s
  else
    let bpdu_type := field bpdu 3 1 in
    if bpdu_type =? STP_TYPE_CONFIG then
      if (bpdu_size <? sizeof_stp_config_bpdu)%nat then count_error i s
      else count_rx i (stp_received_config_bpdu i (config_of_bytes bpdu) s)
    else if bpdu_type =? STP_TYPE_TCN then
      if negb (bpdu_size =? sizeof_stp_tcn_bpdu)%nat then count_error i s
      else count_rx i (stp_received_tcn_bpdu i s)
    else count_error i s.

(** ** Timer expiry and the clock *)

Definition stp_hello_timer_expiry (s : stp) : stp :=
  let s := stp_config_bpdu_generation s in
  s <| s_hello_timer ::= stp_start_timer 0 |>.

Definition stp_message_age_timer_expiry (i : nat) (s : stp) : stp :=
  let root := stp_is_root_bridge s in
  let s := stp_become_designated_port i s in
  let s := stp_configuration_update s in
  let s := stp_port_state_selection s in
  if stp_is_root_bridge s && negb root then
    let s := s <| s_max_age := s_bridge_max_age s |> in
    let s := s <| s_hello_time := s_bridge_hello_time s |> in
    let s := s <| s_forward_delay := s_bridge_forward_delay s |> in
    let s := stp_topology_change_detection s in
    let s := s <| s_tcn_timer ::= stp_stop_timer |> in
    let s := stp_config_bpdu_generation s in
    s <| s_hello_timer ::= stp_start_timer 0 |>
  else s.

Definition stp_forward_delay_timer_expiry (i : nat) (s : stp) : stp :=
  if stp_state_value (p_state (port s i)) =? stp_state_value STP_LISTENING then
    let s := stp_set_port_state i STP_LEARNING s in
    upd_port i (fun p => p <| p_forward_delay_timer ::= stp_start_timer 0 |>) s
  else if stp_state_value (p_state (port s i)) =? stp_state_value STP_LEARNING
  then
    let s := stp_set_port_state i STP_FORWARDING s in
    if stp_is_designated_for_some_port s
       && p_change_detection_enabled (port s i)
    then stp_topology_change_detection s else s
  else s.

Definition stp_tcn_timer_expiry (s : stp) : stp :=
  let s := stp_transmit_tcn s in
  s <| s_tcn_timer ::= stp_start_timer 0 |>.

Definition stp_topology_change_timer_expiry (s : stp) : stp :=
  let s := s <| s_topology_change_detected := false |> in
  s <| s_topology_change := false |>.

Definition stp_hold_timer_expiry (i : nat) (s : stp) : stp :=
  if p_config_pending (port s i) then stp_transmit_config i s else s.

(** [if (stp_timer_expired(&timer, elapsed, timeout)) handler;] for a timer of
    the bridge and for a timer of a port. *)
Definition bridge_timer (get : stp -> stp_timer) (set : stp_timer -> stp -> stp)
    (elapsed timeout : Z) (handler : stp -> stp) (s : stp) : stp :=
  let '(expired, t) := stp_timer_expired (get s) elapsed timeout in
  let s := set t s in
  if expired then handler s else s.

Definition port_timer (get : stp_port -> stp_timer)
    (set : stp_timer -> stp_port -> stp_port)
    (elapsed timeout : Z) (handler : nat -> stp -> stp) (i : nat) (s : stp)
    : stp :=
  let '(expired, t) := stp_timer_expired (get (port s i)) elapsed timeout in
  let s := upd_port i (set t) s in
  if expired then handler i s else s.

(** What [stp_tick] does when [elapsed] (nonzero) timer ticks have passed. *)
Definition stp_run_timers (elapsed : Z) (s : stp) : stp :=
  let s := bridge_timer s_hello_timer (fun t s => s <| s_hello_timer := t |>)
             elapsed (s_hello_time s) stp_hello_timer_expiry s in
  let s := bridge_timer s_tcn_timer (fun t s => s <| s_tcn_timer := t |>)
             elapsed (s_bridge_hello_time s) stp_tcn_timer_expiry s in
  let s := bridge_timer s_topology_change_timer
             (fun t s => s <| s_topology_change_timer := t |>)
             elapsed (i32 (s_max_age s + s_forward_delay s))
             stp_topology_change_timer_expiry s in
  let s := for_each_enabled_port (fun i s =>
             port_timer p_message_age_timer
               (fun t p => p <| p_message_age_timer := t |>)
               elapsed (s_max_age s) stp_message_age_timer_expiry i s) s in
  for_each_enabled_port (fun i s =>
    let s := port_timer p_forward_delay_timer
               (fun t p => p <| p_forward_delay_timer := t |>)
               elapsed (s_forward_delay s) stp_forward_delay_timer_expiry i s in
    port_timer p_hold_timer (fun t p => p <| p_hold_timer := t |>)
      elapsed (ms_to_timer 1000) stp_hold_timer_expiry i s) s.

Definition stp_tick (ms : Z) (s : stp) : stp :=
  let ms := i32 (clamp ms 0 (INT_MAX - 1000) + s_elapsed_remainder s) in
  let elapsed := ms_to_timer ms in
  let s := s <| s_elapsed_remainder := i32 (ms - timer_to_ms elapsed) |> in
  if elapsed =? 0 then s else stp_run_timers elapsed s.

(** ** Management *)

Definition set_bridge_id (new_bridge_id : Z) (s : stp) : stp :=
  if negb (new_bridge_id =? s_bridge_id s) then
    let root := stp_is_root_bridge s in
    let s := for_each_enabled_port (fun i s =>
               if stp_is_designated_port s i
               then upd_port i (fun p =>
                      p <| p_designated_bridge := new_bridge_id |>) s
               else s) s in
    let s := s <| s_bridge_id := new_bridge_id |> in
    let s := stp_configuration_update s in
    let s := stp_port_state_selection s in
    if stp_is_root_bridge s && negb root then stp_become_root_bridge s else s
  else s.

Definition mac_bits : Z := Z.shiftl 1 48 - 1.
Definition pri_bits : Z := u64 (Z.lnot mac_bits).

Definition stp_set_bridge_id (bridge_id : Z) (s : stp) : stp :=
  set_bridge_id (Z.lor (Z.land (s_bridge_id s) pri_bits)
                       (Z.land bridge_id mac_bits)) s.

Definition stp_set_bridge_priority (new_priority : Z) (s : stp) : stp :=
  set_bridge_id (Z.lor (Z.land (s_bridge_id s) mac_bits)
                       (Z.shiftl new_priority 48)) s.

Definition stp_set_hello_time (ms : Z) (s : stp) : stp :=
  stp_update_bridge_timers (s <| s_rq_hello_time := ms |>).

Definition stp_set_max_age (ms : Z) (s : stp) : stp :=
  stp_update_bridge_timers (s <| s_rq_max_age := ms |>).

Definition stp_set_forward_delay (ms : Z) (s : stp) : stp :=
  stp_update_bridge_timers (s <| s_rq_forward_delay := ms |>).

Definition stp_get_name (s : stp) : string := s_name s.
Definition stp_get_bridge_id (s : stp) : Z := s_bridge_id s.
Definition stp_get_designated_root (s : stp) : Z := s_designated_root s.
Definition stp_get_root_path_cost (s : stp) : Z := i32 (s_root_path_cost s).
Definition stp_get_hello_time (s : stp) : Z :=
  timer_to_ms (s_bridge_hello_time s).
Definition stp_get_max_age (s : stp) : Z := timer_to_ms (s_bridge_max_age s).
Definition stp_get_forward_delay (s : stp) : Z :=
  timer_to_ms (s_bridge_forward_delay s).

Definition stp_check_and_reset_fdb_flush (s : stp) : bool * stp :=
  (s_fdb_needs_flush s, s <| s_fdb_needs_flush := false |>).

Definition stp_get_root_port (s : stp) : option nat := s_root_port s.

(** The next port at or after [first_changed_port] whose state changed. *)
Fixpoint stp_find_changed_from (s : stp) (i n : nat) : option nat :=
  match n with
  | O => None
  | S n => if p_state_changed (port s i) then Some i
           else stp_find_changed_from s (S i) n
  end.

Definition stp_get_changed_port (s : stp) : option nat * stp :=
  match stp_find_changed_from s (s_first_changed_port s)
          (STP_MAX_PORTS - s_first_changed_port s) with
  | Some i =>
      let s := upd_port i (fun p => p <| p_state_changed := false |>) s in
      (Some i, s <| s_first_changed_port := S i |>)
  | None => (None, s <| s_first_changed_port := STP_MAX_PORTS |>)
  end.

Definition stp_state_name (st : stp_state) : option string :=
  match st with
  | STP_DISABLED => Some "disabled"
  | STP_LISTENING => Some "listening"
  | STP_LEARNING => Some "learning"
  | STP_FORWARDING => Some "forwarding"
  | STP_BLOCKING => Some "blocking"
  | STP_UNSET => None
  end.

Definition stp_forward_in_state (st : stp_state) : bool :=
  stp_state_in st [STP_FORWARDING].

Definition stp_learn_in_state (st : stp_state) : bool :=
  stp_state_in st [STP_LEARNING; STP_FORWARDING].

Definition stp_should_forward_bpdu (st : stp_state) : bool :=
  stp_state_in st [STP_DISABLED; STP_LISTENING; STP_LEARNING; STP_FORWARDING].

Definition stp_role_name (role : stp_role) : string :=
  match role with
  | STP_ROLE_ROOT => "root"
  | STP_ROLE_DESIGNATED => "designated"
  | STP_ROLE_ALTERNATE => "alternate"
  | STP_ROLE_DISABLED => "disabled"
  end.

Definition stp_port_get_role (s : stp) (i : nat) : stp_role :=
  let p := port s i in
  let is_root := match s_root_port s with
                 | Some r => p_port_id (port s r) =? p_port_id p
                 | None => false
                 end in
  if is_root then STP_ROLE_ROOT
  else if stp_is_designated_port s i then STP_ROLE_DESIGNATED
  else if stp_state_value (p_state p) =? stp_state_value STP_DISABLED
  then STP_ROLE_DISABLED
  else STP_ROLE_ALTERNATE.

Definition stp_port_set_name (i : nat) (name : string) (s : stp) : stp :=
  upd_port i (fun p => p <| p_port_name := Some name |>) s.

Definition stp_port_set_aux (i : nat) (aux : option Z) (s : stp) : stp :=
  upd_port i (fun p => p <| p_aux := aux |>) s.

Definition stp_port_get_aux (s : stp) (i : nat) : option Z := p_aux (port s i).

Definition stp_port_get_state (s : stp) (i : nat) : stp_state :=
  p_state (port s i).

Definition stp_port_get_counts (s : stp) (i : nat) : Z * Z * Z :=
  (p_tx_count (port s i), p_rx_count (port s i), p_error_count (port s i)).

Definition stp_port_get_status (s : stp) (i : nat)
    : Z * stp_state * stp_role :=
  (p_port_id (port s i), p_state (port s i), stp_port_get_role s i).

Definition stp_port_disable (i : nat) (s : stp) : stp :=
  if stp_enabled s i then
    let root := stp_is_root_bridge s in
    let s := stp_become_designated_port i s in
    let s := stp_set_port_state i STP_DISABLED s in
    let s := upd_port i (fun p =>
        p <| p_topology_change_ack := false |>
          <| p_config_pending := false |>
          <| p_message_age_timer ::= stp_stop_timer |>
          <| p_forward_delay_timer ::= stp_stop_timer |>) s in
    let s := stp_configuration_update s in
    let s := stp_port_state_selection s in
    let s := if stp_is_root_bridge s && negb root
             then stp_become_root_bridge s else s in
    upd_port i (fun p => p <| p_aux := None |>) s
  else s.

Definition stp_port_enable (i : nat) (s : stp) : stp :=
  if negb (stp_enabled s i) then
    let s := stp_initialize_port i STP_BLOCKING s in
    stp_port_state_selection s
  else s.

Definition stp_port_set_priority (i : nat) (new_priority : Z) (s : stp) : stp :=
  let new_port_id := u16 (Z.lor (Z.land (p_port_id (port s i)) 0xff)
                                (Z.shiftl new_priority 8)) in
  if negb (p_port_id (port s i) =? new_port_id) then
    let s := if stp_is_designated_port s i
             then upd_port i (fun p => p <| p_designated_port := new_port_id |>) s
             else s in
    let s := upd_port i (fun p => p <| p_port_id := new_port_id |>) s in
    if (s_bridge_id s =? p_designated_bridge (port s i))
       && (p_port_id (port s i) <? p_designated_port (port s i)) then
      let s := stp_become_designated_port i s in
      stp_port_state_selection s
    else s
  else s.

Definition stp_convert_speed_to_cost (speed : Z) : Z :=
  if 10000 <=? speed then 2
  else if 1000 <=? speed then 4
  else if 100 <=? speed then 19
  else if 16 <=? speed then 62
  else if 10 <=? speed then 100
  else if 4 <=? speed then 250
  else 2.

Definition stp_port_set_path_cost (i : nat) (path_cost : Z) (s : stp) : stp :=
  if negb (p_path_cost (port s i) =? path_cost) then
    let s := upd_port i (fun p => p <| p_path_cost := path_cost |>) s in
    let s := stp_configuration_update s in
    stp_port_state_selection s
  else s.

Definition stp_port_set_speed (i : nat) (speed : Z) (s : stp) : stp :=
  stp_port_set_path_cost i (stp_convert_speed_to_cost speed) s.

Definition stp_port_enable_change_detection (i : nat) (s : stp) : stp :=
  upd_port i (fun p => p <| p_change_detection_enabled := true |>) s.

Definition stp_port_disable_change_detection (i : nat) (s : stp) : stp :=
  upd_port i (fun p => p <| p_change_detection_enabled := false |>) s.

(** ** The [stp/tcn] command, over the list of all bridges *)

Definition stp_find (name : string) (all_stps : list stp) : option nat :=
  fst <$> list_find (fun s => s_name s = name) all_stps.

Definition stp_unixctl_tcn (bridge : option string) (all_stps : list stp)
    : option (list stp) :=
  match bridge with
  | Some name =>
      match stp_find name all_stps with
      | None => None   (* "no such stp object" *)
      | Some k => Some (alter stp_topology_change_detection k all_stps)
      end
  | None => Some (stp_topology_change_detection <$> all_stps)
  end.

End Stp.
