(* ===== verification/StpLemmas.v ===== *)
(** * Lemmas on the STP model shared by its theorems

    Reading a port after a member assignment, induction over
    [FOR_EACH_ENABLED_PORT], and the operations that do not touch the members
    the invariants are about. *)
From stdpp Require Import base list strings.
From Stdlib Require Import ZArith Lia.
From S2P Require Import Prelude Stp.
Import Stp.

Local Open Scope Z_scope.

(** ** State bits *)

Lemma stp_state_value_eqb st st' :
  (stp_state_value st =? stp_state_value st') = bool_decide (st = st').
Proof. by destruct st, st'. Qed.

Lemma stp_state_in_spec st set :
  Forall (fun st' => st' <> STP_UNSET) set ->
  stp_state_in st set = bool_decide (st ∈ set).
Proof.
  induction 1 as [|st' set Hst' _ IH].
  { unfold stp_state_in. cbn. by rewrite Z.land_0_r. }
  rewrite (bool_decide_ext (st ∈ st' :: set) (st = st' \/ st ∈ set))
    by apply elem_of_cons.
  rewrite bool_decide_or, <- IH. unfold stp_state_in. cbn.
  rewrite Z.land_lor_distr_r.
  destruct (decide (st = st')) as [->|Hne].
  - rewrite bool_decide_eq_true_2 by done. cbn.
    apply negb_true_iff, Z.eqb_neq. intros [H _]%Z.lor_eq_0_iff.
    by destruct st'.
  - rewrite bool_decide_eq_false_2 by done. cbn.
    replace (Z.land (stp_state_value st) (stp_state_value st')) with 0; [done |].
    by destruct st, st'.
Qed.

Lemma stp_enabled_spec s i :
  stp_enabled s i = bool_decide (p_state (port s i) <> STP_DISABLED).
Proof.
  unfold stp_enabled. rewrite stp_state_value_eqb. by rewrite bool_decide_not.
Qed.

(** ** Ports *)

Lemma port_upd_eq s i f :
  (i < length (s_ports s))%nat -> port (upd_port i f s) i = f (port s i).
Proof.
  intros Hi. unfold port, upd_port. cbn.
  destruct (lookup_lt_is_Some_2 (s_ports s) i Hi) as [p Hp].
  rewrite !list_lookup_total_alt, list_lookup_alter_eq, Hp. done.
Qed.

Lemma port_upd_ne s i j f :
  i <> j -> port (upd_port i f s) j = port s j.
Proof.
  intros Hij. unfold port, upd_port. cbn.
  by rewrite !list_lookup_total_alt, list_lookup_alter_ne.
Qed.

Lemma length_upd_port s i f :
  length (s_ports (upd_port i f s)) = length (s_ports s).
Proof. apply length_alter. Qed.

(** Reading any function of a port that the assignment leaves alone. *)
Lemma port_upd_proj {A} (g : stp_port -> A) s i j f :
  (forall p, g (f p) = g p) -> g (port (upd_port i f s) j) = g (port s j).
Proof.
  intros Hg. destruct (decide (i = j)) as [->|Hij];
    [| by rewrite port_upd_ne].
  destruct (decide (j < length (s_ports s))%nat) as [Hj|Hj].
  - by rewrite port_upd_eq.
  - unfold port, upd_port. cbn.
    rewrite !list_lookup_total_alt, !lookup_ge_None_2; [done | lia |].
    rewrite length_alter. lia.
Qed.

Create Rewrite HintDb stp.
#[export] Hint Rewrite length_upd_port : stp.

(** ** Iterating over the enabled ports *)

Lemma foldl_seq_ind {A} (P : nat -> A -> Prop) (f : A -> nat -> A) n a :
  P 0%nat a ->
  (forall i x, (i < n)%nat -> P i x -> P (S i) (f x i)) ->
  P n (foldl f a (seq 0 n)).
Proof.
  intros H0 Hstep. induction n as [|n IH]; [done |].
  rewrite seq_S, foldl_app. cbn. apply Hstep; [lia |].
  apply IH. intros. apply Hstep; [lia | done].
Qed.

Lemma for_each_ext body body' s :
  (forall i s, body i s = body' i s) ->
  for_each_enabled_port body s = for_each_enabled_port body' s.
Proof.
  intros Hb. unfold for_each_enabled_port. generalize (seq 0 STP_MAX_PORTS).
  intros l. revert s. induction l as [|i l IH]; intros s; cbn; [done |].
  by rewrite Hb, IH.
Qed.

Lemma for_each_ind (P : nat -> stp -> Prop) body s :
  P 0%nat s ->
  (forall i s, (i < STP_MAX_PORTS)%nat -> P i s ->
     stp_enabled s i = true -> P (S i) (body i s)) ->
  (forall i s, (i < STP_MAX_PORTS)%nat -> P i s ->
     stp_enabled s i = false -> P (S i) s) ->
  P STP_MAX_PORTS (for_each_enabled_port body s).
Proof.
  intros H0 Hon Hoff. apply (foldl_seq_ind P); [done |].
  intros i x Hi HP. destruct (stp_enabled x i) eqn:E; auto.
Qed.

Lemma for_each_inv (P : stp -> Prop) body s :
  P s ->
  (forall i s, (i < STP_MAX_PORTS)%nat -> P s -> stp_enabled s i = true ->
     P (body i s)) ->
  P (for_each_enabled_port body s).
Proof. intros H0 Hon. apply (for_each_ind (fun _ => P)); auto. Qed.

(** The loop as written in C: repeatedly find the next enabled port. *)
Fixpoint enabled_loop (body : nat -> stp -> stp) (s : stp) (i fuel : nat)
    : stp :=
  match fuel with
  | O => s
  | S fuel =>
      match stp_next_enabled_port s i with
      | None => s
      | Some j => enabled_loop body (body j s) (S j) fuel
      end
  end.

Lemma next_enabled_from_spec s i n :
  match stp_next_enabled_port_from s i n with
  | Some j => (i <= j < i + n)%nat /\ stp_enabled s j = true
              /\ forall k, (i <= k < j)%nat -> stp_enabled s k = false
  | None => forall k, (i <= k < i + n)%nat -> stp_enabled s k = false
  end.
Proof.
  revert i. induction n as [|n IH]; intros i; cbn; [lia |].
  destruct (stp_enabled s i) eqn:E.
  - split; [lia | split; [done | lia]].
  - specialize (IH (S i)).
    destruct (stp_next_enabled_port_from s (S i) n) as [j|].
    + destruct IH as (? & ? & Hk). split; [lia | split; [done |]].
      intros k Hk'. destruct (decide (k = i)) as [->|]; [done |].
      apply Hk. lia.
    + intros k Hk. destruct (decide (k = i)) as [->|]; [done |].
      apply IH. lia.
Qed.

Lemma foldl_skip_disabled body s i n :
  (forall k, (i <= k < i + n)%nat -> stp_enabled s k = false) ->
  foldl (fun s i => if stp_enabled s i then body i s else s) s (seq i n) = s.
Proof.
  revert i. induction n as [|n IH]; intros i Hk; cbn; [done |].
  rewrite (Hk i) by lia. apply IH. intros. apply Hk. lia.
Qed.

Lemma enabled_loop_foldl body s i fuel :
  (i <= STP_MAX_PORTS)%nat -> (STP_MAX_PORTS - i <= fuel)%nat ->
  enabled_loop body s i fuel
  = foldl (fun s i => if stp_enabled s i then body i s else s) s
      (seq i (STP_MAX_PORTS - i)).
Proof.
  revert s i. induction fuel as [|fuel IH]; intros s i Hi Hfuel.
  { by replace (STP_MAX_PORTS - i)%nat with 0%nat by lia. }
  cbn [enabled_loop].
  pose proof (next_enabled_from_spec s i (STP_MAX_PORTS - i)) as Hn.
  unfold stp_next_enabled_port.
  destruct (stp_next_enabled_port_from _ _ _) as [j|].
  - destruct Hn as (Hj & Hen & Hoff).
    assert (seq i (STP_MAX_PORTS - i)
            = seq i (j - i) ++ j :: seq (S j) (STP_MAX_PORTS - S j)) as ->.
    { replace (STP_MAX_PORTS - i)%nat
        with ((j - i) + S (STP_MAX_PORTS - S j))%nat by lia.
      rewrite seq_app. by replace (i + (j - i))%nat with j by lia. }
    rewrite IH by lia. rewrite foldl_app.
    rewrite (foldl_skip_disabled _ _ i) by (intros; apply Hoff; lia).
    cbn. by rewrite Hen.
  - by rewrite foldl_skip_disabled.
Qed.

(** [for_each_enabled_port] is that loop. *)
Lemma for_each_is_loop body s :
  for_each_enabled_port body s = enabled_loop body s 0 STP_MAX_PORTS.
Proof. rewrite enabled_loop_foldl; [done | lia | lia]. Qed.

(** ** Operations that keep roles and states

    [quiet s s'] says that [s'] differs from [s] at most in BPDU bookkeeping:
    pending and acknowledgement flags, message age and hold timers, counters,
    the topology change flags, the bridge's own timers and times, and what was
    sent. *)

Definition port_key (p : stp_port)
    : Z * stp_state * Z * (Z * Z * Z * Z) * bool * bool :=
  (p_port_id p, p_state p, p_path_cost p,
   (p_designated_root p, p_designated_cost p, p_designated_bridge p,
    p_designated_port p),
   t_active (p_forward_delay_timer p), p_state_changed p).

Record quiet (s s' : stp) : Prop := {
  q_bridge_id : s_bridge_id s' = s_bridge_id s;
  q_designated_root : s_designated_root s' = s_designated_root s;
  q_root_path_cost : s_root_path_cost s' = s_root_path_cost s;
  q_root_port : s_root_port s' = s_root_port s;
  q_first_changed : s_first_changed_port s' = s_first_changed_port s;
  q_length : length (s_ports s') = length (s_ports s);
  q_ports i : port_key (port s' i) = port_key (port s i);
}.

#[export] Instance quiet_preorder : PreOrder quiet.
Proof.
  split; [by split |].
  intros x y z [] []. split; congruence.
Qed.

Lemma upd_port_quiet i f s :
  (forall p, port_key (f p) = port_key p) -> quiet s (upd_port i f s).
Proof.
  intros Hf. split; try done; [apply length_upd_port |].
  intros j. by apply (port_upd_proj port_key).
Qed.

Create HintDb quiet discriminated.
#[export] Hint Constants Opaque : quiet.

(** Peel the operations off the right-hand state, last one first. *)
Ltac quiet_step :=
  lazymatch goal with
  | |- quiet ?s ?s => reflexivity
  | |- quiet _ (if ?b then _ else _) => destruct b eqn:?
  | |- quiet _ (upd_port ?i ?f ?s') =>
      trans s'; [| by apply upd_port_quiet]
  | |- quiet _ (@modify_field _ _ _ _ _ ?s') =>
      trans s'; [| generalize s'; intros ?; by split]
  | |- quiet _ (seq_change ?s') =>
      trans s'; [| generalize s'; intros ?; by split]
  | |- quiet _ (_ ?s') =>
      trans s'; [| solve [auto with quiet nocore]]
  end.
Ltac quiet_auto := cbv zeta; repeat quiet_step.

Lemma send_bpdu_quiet i bpdu s : quiet s (stp_send_bpdu i bpdu s).
Proof. unfold stp_send_bpdu. quiet_auto. Qed.
#[export] Hint Resolve send_bpdu_quiet : quiet.

Lemma transmit_config_quiet i s : quiet s (stp_transmit_config i s).
Proof. unfold stp_transmit_config. quiet_auto. Qed.
#[export] Hint Resolve transmit_config_quiet : quiet.

Lemma for_each_quiet body s :
  (forall i s, quiet s (body i s)) -> quiet s (for_each_enabled_port body s).
Proof.
  intros Hb. apply (for_each_inv (quiet s)); [done |].
  intros. etransitivity; eauto.
Qed.

Lemma config_bpdu_generation_quiet s : quiet s (stp_config_bpdu_generation s).
Proof. apply for_each_quiet. intros i s'. quiet_auto. Qed.
#[export] Hint Resolve config_bpdu_generation_quiet : quiet.

Lemma transmit_tcn_quiet s : quiet s (stp_transmit_tcn s).
Proof. unfold stp_transmit_tcn. destruct (s_root_port s); quiet_auto. Qed.
#[export] Hint Resolve transmit_tcn_quiet : quiet.

Lemma topology_change_detection_quiet s :
  quiet s (stp_topology_change_detection s).
Proof. unfold stp_topology_change_detection. quiet_auto. Qed.
#[export] Hint Resolve topology_change_detection_quiet : quiet.

Lemma acknowledge_topology_change_quiet i s :
  quiet s (stp_acknowledge_topology_change i s).
Proof. unfold stp_acknowledge_topology_change. quiet_auto. Qed.
#[export] Hint Resolve acknowledge_topology_change_quiet : quiet.

Lemma become_root_bridge_quiet s : quiet s (stp_become_root_bridge s).
Proof. unfold stp_become_root_bridge. quiet_auto. Qed.
#[export] Hint Resolve become_root_bridge_quiet : quiet.
