(* ===== verification/StpInvariant.v ===== *)
(** * The invariant of the STP entity

    What holds of a bridge between calls, and the proof that every entry point
    of [Stp] preserves it. *)
From stdpp Require Import base list strings.
From Stdlib Require Import ZArith Lia.
From S2P Require Import Prelude Stp StpLemmas.
Import Stp.

Local Open Scope Z_scope.
Local Abbreviation MAX := STP_MAX_PORTS.

(** ** The invariant *)

(** The port array, and the bookkeeping of changed ports. *)
Record ports_base (s : stp) : Prop := {
  pb_length : length (s_ports s) = MAX;
  pb_state i : (i < MAX)%nat -> p_state (port s i) <> STP_UNSET;
  pb_first : (s_first_changed_port s <= MAX)%nat;
  pb_changed i : (i < MAX)%nat -> p_state_changed (port s i) = true ->
                 (s_first_changed_port s <= i)%nat;
}.

(** The forward delay timer runs exactly in the two transient states. *)
Definition timer_ok (p : stp_port) : Prop :=
  t_active (p_forward_delay_timer p)
  = bool_decide (p_state p = STP_LISTENING \/ p_state p = STP_LEARNING).

(** An enabled port that is neither the root port nor designated is blocked. *)
Definition blocked_ok (s : stp) (i : nat) : Prop :=
  stp_enabled s i = true -> s_root_port s <> Some i ->
  stp_is_designated_port s i = false -> p_state (port s i) = STP_BLOCKING.

(** The bridge is the root exactly when it has no root port; the root is never
    worse than the bridge itself; the root port is an enabled port; and the
    enabled ports agree with the bridge on who is root. *)
Record roots_ok (s : stp) : Prop := {
  ro_root : stp_is_root_bridge s = bool_decide (s_root_port s = None);
  ro_le : s_designated_root s <= s_bridge_id s;
  ro_port r : s_root_port s = Some r -> (r < MAX)%nat /\ stp_enabled s r = true;
  ro_agree i : (i < MAX)%nat -> stp_enabled s i = true ->
               p_designated_root (port s i) = s_designated_root s;
}.

Record stp_ok (s : stp) : Prop := {
  ok_base : ports_base s;
  ok_timers i : (i < MAX)%nat -> timer_ok (port s i);
  ok_roots : roots_ok s;
  ok_blocked i : (i < MAX)%nat -> blocked_ok s i;
}.

(** ** Quiet operations *)

Section Quiet.
  Context (s s' : stp) (Hq : quiet s s').

Lemma quiet_key i : port_key (port s' i) = port_key (port s i).
Proof using Hq. apply Hq. Qed.

Lemma quiet_state i : p_state (port s' i) = p_state (port s i).
Proof using Hq. pose proof (quiet_key i). unfold port_key in *. congruence. Qed.

Lemma quiet_enabled i : stp_enabled s' i = stp_enabled s i.
Proof using Hq. unfold stp_enabled. by rewrite quiet_state. Qed.

Lemma quiet_designated i :
  stp_is_designated_port s' i = stp_is_designated_port s i.
Proof using Hq.
  pose proof (quiet_key i). unfold stp_is_designated_port, port_key in *.
  rewrite (q_bridge_id _ _ Hq). congruence.
Qed.

Lemma quiet_base : ports_base s -> ports_base s'.
Proof using Hq.
  intros []. split.
  - by rewrite (q_length _ _ Hq).
  - intros. rewrite quiet_state. auto.
  - by rewrite (q_first_changed _ _ Hq).
  - intros i Hi. rewrite (q_first_changed _ _ Hq).
    pose proof (quiet_key i). unfold port_key in *.
    replace (p_state_changed (port s' i)) with (p_state_changed (port s i))
      by congruence. auto.
Qed.

Lemma quiet_timer i : timer_ok (port s i) -> timer_ok (port s' i).
Proof using Hq.
  pose proof (quiet_key i). unfold timer_ok, port_key in *.
  replace (p_state (port s' i)) with (p_state (port s i)) by congruence.
  congruence.
Qed.

Lemma quiet_roots : roots_ok s -> roots_ok s'.
Proof using Hq.
  intros []. split; unfold stp_is_root_bridge in *;
    rewrite ?(q_root_port _ _ Hq), ?(q_designated_root _ _ Hq),
      ?(q_bridge_id _ _ Hq); try done.
  - intros r. rewrite quiet_enabled. auto.
  - intros i Hi. rewrite quiet_enabled. intros Hen.
    pose proof (quiet_key i) as Hk. unfold port_key in Hk.
    rewrite <- (ro_agree0 i Hi Hen). congruence.
Qed.

Lemma quiet_blocked i : blocked_ok s i -> blocked_ok s' i.
Proof using Hq.
  unfold blocked_ok. rewrite quiet_enabled, quiet_designated, quiet_state.
  by rewrite (q_root_port _ _ Hq).
Qed.

Lemma quiet_ok : stp_ok s -> stp_ok s'.
Proof using Hq.
  intros []. split; eauto using quiet_base, quiet_timer, quiet_roots,
    quiet_blocked.
Qed.
End Quiet.

(** ** Changing the state of one port *)

(** [local i s s']: only the state of port [i], its forward delay timer and the
    record of changed ports may differ, besides quiet members. *)
Definition port_info (p : stp_port) : Z * Z * (Z * Z * Z * Z) :=
  (p_port_id p, p_path_cost p,
   (p_designated_root p, p_designated_cost p, p_designated_bridge p,
    p_designated_port p)).

Record local (i : nat) (s s' : stp) : Prop := {
  l_bridge_id : s_bridge_id s' = s_bridge_id s;
  l_designated_root : s_designated_root s' = s_designated_root s;
  l_root_path_cost : s_root_path_cost s' = s_root_path_cost s;
  l_root_port : s_root_port s' = s_root_port s;
  l_length : length (s_ports s') = length (s_ports s);
  l_info j : port_info (port s' j) = port_info (port s j);
  l_ports j : j <> i -> port_key (port s' j) = port_key (port s j);
}.

#[export] Instance local_preorder i : PreOrder (local i).
Proof.
  split; [by split |]. intros x y z [] []. split; try congruence.
  intros j Hj. rewrite l_ports1 by done. auto.
Qed.

Lemma key_info p p' : port_key p = port_key p' -> port_info p = port_info p'.
Proof. unfold port_key, port_info. congruence. Qed.

Lemma quiet_local i s s' : quiet s s' -> local i s s'.
Proof. intros []. split; auto. intros. by apply key_info. Qed.

Lemma upd_port_local i f s :
  (forall p, port_info (f p) = port_info p) -> local i s (upd_port i f s).
Proof.
  intros Hf. split; try done; [apply length_upd_port | |].
  - intros j. by apply (port_upd_proj port_info).
  - intros j Hj. by rewrite port_upd_ne.
Qed.

Create HintDb stp_local discriminated.
#[export] Hint Constants Opaque : stp_local.

Ltac local_step :=
  lazymatch goal with
  | |- local _ ?s ?s => reflexivity
  | |- local _ _ (if ?b then _ else _) => destruct b eqn:?
  | |- local _ _ (upd_port ?i ?f ?s') =>
      trans s'; [| by apply upd_port_local]
  | |- local _ _ (@modify_field _ _ _ _ _ ?s') =>
      trans s'; [| generalize s'; intros ?; by split]
  | |- local _ _ (seq_change ?s') =>
      trans s'; [| generalize s'; intros ?; by split]
  | |- local _ _ (_ ?s') =>
      trans s'; [| solve [ auto with stp_local nocore
                         | apply quiet_local; auto with quiet nocore]]
  end.
Ltac local_auto := cbv zeta; repeat local_step.

Lemma set_port_state_local i st s : local i s (stp_set_port_state i st s).
Proof. unfold stp_set_port_state. local_auto. Qed.
#[export] Hint Resolve set_port_state_local : stp_local.

Lemma make_forwarding_local i s : local i s (stp_make_forwarding i s).
Proof. unfold stp_make_forwarding. local_auto. Qed.

Lemma make_blocking_local i s : local i s (stp_make_blocking i s).
Proof. unfold stp_make_blocking. local_auto. Qed.

Lemma forward_delay_timer_expiry_local i s :
  local i s (stp_forward_delay_timer_expiry i s).
Proof. unfold stp_forward_delay_timer_expiry. local_auto. Qed.
#[export] Hint Resolve make_forwarding_local make_blocking_local
  forward_delay_timer_expiry_local : stp_local.

Section Local.
  Context (i : nat) (s s' : stp) (Hl : local i s s').

Lemma local_state j : j <> i -> p_state (port s' j) = p_state (port s j).
Proof using Hl.
  intros Hj. pose proof (l_ports _ _ _ Hl j Hj). unfold port_key in *. congruence.
Qed.

Lemma local_enabled j : j <> i -> stp_enabled s' j = stp_enabled s j.
Proof using Hl. intros. unfold stp_enabled. by rewrite local_state. Qed.

Lemma local_designated j :
  stp_is_designated_port s' j = stp_is_designated_port s j.
Proof using Hl.
  pose proof (l_info _ _ _ Hl j). unfold stp_is_designated_port, port_info in *.
  rewrite (l_bridge_id _ _ _ Hl). congruence.
Qed.

Lemma local_blocked j : j <> i -> blocked_ok s j -> blocked_ok s' j.
Proof using Hl.
  intros Hj. unfold blocked_ok.
  by rewrite local_enabled, local_designated, local_state,
    (l_root_port _ _ _ Hl).
Qed.

Lemma local_timer j : j <> i -> timer_ok (port s j) -> timer_ok (port s' j).
Proof using Hl.
  intros Hj. pose proof (l_ports _ _ _ Hl j Hj). unfold timer_ok, port_key in *.
  replace (p_state (port s' j)) with (p_state (port s j)) by congruence.
  congruence.
Qed.

  (** As long as port [i] stays (or becomes) disabled, or was enabled. *)
Lemma local_roots :
  (stp_enabled s' i = true -> stp_enabled s i = true) ->
  (s_root_port s = Some i -> stp_enabled s' i = true) ->
  roots_ok s -> roots_ok s'.
Proof using Hl.
  intros Hen Hr []. split; unfold stp_is_root_bridge in *;
    rewrite ?(l_root_port _ _ _ Hl), ?(l_designated_root _ _ _ Hl),
      ?(l_bridge_id _ _ _ Hl); try done.
  - intros r Hrr.
    destruct (ro_port0 r Hrr) as [? ?]. split; [done |].
    destruct (decide (r = i)) as [->|]; [auto | by rewrite local_enabled].
  - intros j Hj Hej. pose proof (l_info _ _ _ Hl j). unfold port_info in *.
    rewrite <- (ro_agree0 j Hj); [congruence |].
    destruct (decide (j = i)) as [->|]; [auto | by rewrite <- local_enabled].
Qed.
End Local.

(** ** Preservation by the operations on one port *)

Lemma ports_base_ext s s' :
  s_ports s' = s_ports s -> s_first_changed_port s' = s_first_changed_port s ->
  ports_base s -> ports_base s'.
Proof.
  intros Hp Hf []. assert (forall i, port s' i = port s i) as Hport
    by (intros; unfold port; by rewrite Hp).
  split; intros *; rewrite ?Hport, ?Hp, ?Hf; eauto.
Qed.

Lemma upd_port_base i f s :
  (forall p, p_state p <> STP_UNSET -> p_state (f p) <> STP_UNSET) ->
  (forall p, p_state_changed (f p) = p_state_changed p) ->
  ports_base s -> ports_base (upd_port i f s).
Proof.
  intros Hst Hch []. split.
  - by rewrite length_upd_port.
  - intros j Hj. destruct (decide (j = i)) as [->|].
    + rewrite port_upd_eq by lia. auto.
    + rewrite port_upd_ne by done. auto.
  - done.
  - intros j Hj. rewrite (port_upd_proj p_state_changed) by done. auto.
Qed.

Lemma set_port_state_base i st s :
  st <> STP_UNSET -> ports_base s -> ports_base (stp_set_port_state i st s).
Proof.
  intros Hst Hs. unfold stp_set_port_state. apply upd_port_base; [done..|].
  split_if; [| done]. destruct Hs as [Hlen Hun Hfst Hch]. cbv zeta.
  set (t := upd_port i _ s).
  apply (ports_base_ext (if (i <? s_first_changed_port t)%nat
                         then t <| s_first_changed_port := i |> else t));
    [destruct (i <? _)%nat; done.. |].
  assert (s_first_changed_port t = s_first_changed_port s) as Hft by done.
  assert (forall j, (j < MAX)%nat -> p_state (port t j) = p_state (port s j)) as Hts
    by (intros; unfold t; by rewrite (port_upd_proj p_state)).
  assert (forall j, j <> i -> p_state_changed (port t j)
                              = p_state_changed (port s j)) as Htc
    by (intros; unfold t; by rewrite port_upd_ne).
  assert (length (s_ports t) = MAX) as Htl by (unfold t; by rewrite length_upd_port).
  clearbody t. destruct (Nat.ltb_spec i (s_first_changed_port t)) as [Hlt|Hge].
  - split; cbn; [done | | lia |].
    + intros j Hj. change (p_state (port t j) <> STP_UNSET). rewrite Hts; auto.
    + intros j Hj. change (p_state_changed (port t j) = true -> (i <= j)%nat).
      destruct (decide (j = i)) as [->|]; [lia |].
      rewrite Htc by done. intros Hc. pose proof (Hch j Hj Hc). lia.
  - split; [done | | lia |].
    + intros j Hj. rewrite Hts; auto.
    + intros j Hj. destruct (decide (j = i)) as [->|]; [lia |].
      rewrite Htc by done. intros Hc. pose proof (Hch j Hj Hc). lia.
Qed.

Lemma set_port_state_at i st s :
  (i < length (s_ports s))%nat ->
  p_state (port (stp_set_port_state i st s) i) = st.
Proof.
  intros Hi. unfold stp_set_port_state. rewrite port_upd_eq; [done |].
  match goal with |- (_ < length (s_ports ?t))%nat =>
    assert (local i s t) as Hl by local_auto; by rewrite (l_length _ _ _ Hl)
  end.
Qed.

Lemma set_port_state_timer i st s j :
  p_forward_delay_timer (port (stp_set_port_state i st s) j)
  = p_forward_delay_timer (port s j).
Proof.
  unfold stp_set_port_state.
  rewrite (port_upd_proj p_forward_delay_timer) by done.
  split_if; [| done]. cbv zeta. unfold seq_change.
  set (t := upd_port i _ s).
  transitivity (p_forward_delay_timer (port t j)).
  - clearbody t. by destruct (_ <? _)%nat.
  - unfold t. by rewrite (port_upd_proj p_forward_delay_timer).
Qed.

(** Well-formed ports, and the same except for the timer of port [i] while its
    state is being changed. *)
Definition ports_ok (s : stp) : Prop :=
  ports_base s /\ forall i, (i < MAX)%nat -> timer_ok (port s i).

Definition ports_ok_but (i : nat) (s : stp) : Prop :=
  ports_base s /\ forall j, (j < MAX)%nat -> j <> i -> timer_ok (port s j).

Lemma ports_ok_weaken i s : ports_ok s -> ports_ok_but i s.
Proof. intros [? ?]. split; auto. Qed.

Lemma ports_ok_close i s :
  ports_ok_but i s -> timer_ok (port s i) -> ports_ok s.
Proof.
  intros [? Ht] Hi. split; [done |]. intros j Hj.
  destruct (decide (j = i)) as [->|]; auto.
Qed.

Lemma quiet_ports s s' : quiet s s' -> ports_ok s -> ports_ok s'.
Proof. intros Hq []. split; eauto using quiet_base, quiet_timer. Qed.

Lemma quiet_ports_but i s s' : quiet s s' -> ports_ok_but i s -> ports_ok_but i s'.
Proof. intros Hq []. split; eauto using quiet_base, quiet_timer. Qed.

Lemma set_port_state_but i st s :
  st <> STP_UNSET -> ports_ok_but i s ->
  ports_ok_but i (stp_set_port_state i st s).
Proof.
  intros Hst [Hb Ht]. split; [by apply set_port_state_base |].
  intros j Hj Hne. eapply local_timer; eauto using set_port_state_local.
Qed.

Lemma upd_port_but i f s :
  (forall p, p_state (f p) = p_state p) ->
  (forall p, p_state_changed (f p) = p_state_changed p) ->
  ports_ok_but i s -> ports_ok_but i (upd_port i f s).
Proof.
  intros Hst Hch [Hb Ht]. split.
  - apply upd_port_base; auto. intros p. by rewrite Hst.
  - intros j Hj Hne. rewrite port_upd_ne; auto.
Qed.

(** Entering state [st], the update [f] setting the timer accordingly. *)
Lemma enter_ports i st f s :
  (i < MAX)%nat -> st <> STP_UNSET ->
  (forall p, p_state (f p) = p_state p) ->
  (forall p, p_state_changed (f p) = p_state_changed p) ->
  (forall p, t_active (p_forward_delay_timer (f p))
             = bool_decide (st = STP_LISTENING \/ st = STP_LEARNING)) ->
  ports_ok_but i s -> ports_ok (upd_port i f (stp_set_port_state i st s)).
Proof.
  intros Hi Hst Hf1 Hf2 Hf3 Hs. apply (ports_ok_close i).
  - apply upd_port_but; auto using set_port_state_but.
  - pose proof (set_port_state_local i st s) as Hl.
    assert (i < length (s_ports s))%nat by (destruct Hs as [[-> ?? ?] ?]; done).
    unfold timer_ok. rewrite port_upd_eq by (by rewrite (l_length _ _ _ Hl)).
    by rewrite Hf3, Hf1, set_port_state_at.
Qed.

Lemma ports_length s i : ports_base s -> (i < MAX)%nat -> (i < length (s_ports s))%nat.
Proof. by intros [-> ? ? ?]. Qed.

Lemma enter_state i st f s :
  (i < length (s_ports s))%nat -> (forall p, p_state (f p) = p_state p) ->
  p_state (port (upd_port i f (stp_set_port_state i st s)) i) = st.
Proof.
  intros Hi Hf. rewrite (port_upd_proj p_state) by done.
  by apply set_port_state_at.
Qed.

Lemma make_forwarding_ports i s :
  (i < MAX)%nat -> ports_ok s -> ports_ok (stp_make_forwarding i s).
Proof.
  intros Hi Hs. unfold stp_make_forwarding. split_if; [| done].
  apply enter_ports; auto using ports_ok_weaken.
Qed.

Lemma make_forwarding_state i s :
  (i < length (s_ports s))%nat ->
  p_state (port (stp_make_forwarding i s) i)
  = if decide (p_state (port s i) = STP_BLOCKING) then STP_LISTENING
    else p_state (port s i).
Proof.
  intros Hi. unfold stp_make_forwarding. rewrite stp_state_value_eqb.
  case_bool_decide as Hb; case_decide; try done. by apply enter_state.
Qed.

Lemma make_blocking_ports i s :
  (i < MAX)%nat -> ports_ok s -> ports_ok (stp_make_blocking i s).
Proof.
  intros Hi Hs. unfold stp_make_blocking. split_if; [| done].
  apply enter_ports; auto. apply ports_ok_weaken.
  split_if; [| done]. eauto using quiet_ports with quiet.
Qed.

Lemma make_blocking_state i s :
  (i < length (s_ports s))%nat ->
  p_state (port (stp_make_blocking i s) i)
  = if decide (p_state (port s i) = STP_DISABLED) then STP_DISABLED
    else STP_BLOCKING.
Proof.
  intros Hi. unfold stp_make_blocking.
  destruct (stp_state_in (p_state (port s i)) [STP_DISABLED; STP_BLOCKING])
    eqn:Hin; cbn [negb].
  - by destruct (p_state (port s i)).
  - rewrite enter_state; [by destruct (p_state (port s i)) | | done].
    split_if; [| done].
    by rewrite (q_length _ _ (topology_change_detection_quiet s)).
Qed.

(** ** Port state selection *)

(** The body of the loop of [stp_port_state_selection]. *)
Definition select_state (i : nat) (s : stp) : stp :=
  if bool_decide (s_root_port s = Some i) then
    stp_make_forwarding i
      (upd_port i (fun p => p <| p_config_pending := false |>
                              <| p_topology_change_ack := false |>) s)
  else if stp_is_designated_port s i then
    stp_make_forwarding i
      (upd_port i (fun p => p <| p_message_age_timer ::= stp_stop_timer |>) s)
  else
    stp_make_blocking i
      (upd_port i (fun p => p <| p_config_pending := false |>
                              <| p_topology_change_ack := false |>) s).

Lemma port_state_selection_eq s :
  stp_port_state_selection s = for_each_enabled_port select_state s.
Proof. reflexivity. Qed.

(** The state it gives to a port: root and designated ports leave the blocking
    state for the listening state, the other enabled ports block. *)
Definition active_role (s : stp) (i : nat) : bool :=
  bool_decide (s_root_port s = Some i) || stp_is_designated_port s i.

Definition selected_state (s : stp) (i : nat) : stp_state :=
  match p_state (port s i) with
  | STP_DISABLED => STP_DISABLED
  | STP_BLOCKING => if active_role s i then STP_LISTENING else STP_BLOCKING
  | st => if active_role s i then st else STP_BLOCKING
  end.

Lemma select_state_local i s : local i s (select_state i s).
Proof. unfold select_state. local_auto. Qed.

Lemma select_state_ports i s :
  (i < MAX)%nat -> ports_ok s -> ports_ok (select_state i s).
Proof.
  intros Hi Hs. unfold select_state.
  split_ifs; [apply make_forwarding_ports | apply make_forwarding_ports
             | apply make_blocking_ports]; try done;
  by (eapply quiet_ports; [| exact Hs]; apply upd_port_quiet).
Qed.

Lemma select_state_at i s :
  (i < length (s_ports s))%nat -> stp_enabled s i = true ->
  p_state (port (select_state i s) i) = selected_state s i.
Proof.
  intros Hi Hen. unfold select_state, selected_state, active_role.
  rewrite stp_enabled_spec in Hen. apply bool_decide_eq_true_1 in Hen.
  case_bool_decide; cbn [orb]; [| destruct (stp_is_designated_port s i)];
    rewrite ?make_forwarding_state, ?make_blocking_state by
      (by rewrite length_upd_port);
    rewrite (port_upd_proj p_state) by done;
    by destruct (p_state (port s i)).
Qed.

(** After the first [k] ports have been treated. *)
Record selecting (s0 : stp) (k : nat) (s : stp) : Prop := {
  sg_bridge_id : s_bridge_id s = s_bridge_id s0;
  sg_designated_root : s_designated_root s = s_designated_root s0;
  sg_root_path_cost : s_root_path_cost s = s_root_path_cost s0;
  sg_root_port : s_root_port s = s_root_port s0;
  sg_length : length (s_ports s) = length (s_ports s0);
  sg_info j : port_info (port s j) = port_info (port s0 j);
  sg_done j : (j < k)%nat -> p_state (port s j) = selected_state s0 j;
  sg_todo j : (k <= j)%nat -> p_state (port s j) = p_state (port s0 j);
}.

Lemma selecting_designated s0 k s i :
  selecting s0 k s ->
  stp_is_designated_port s i = stp_is_designated_port s0 i.
Proof.
  intros []. pose proof (sg_info0 i). unfold stp_is_designated_port, port_info in *.
  rewrite sg_bridge_id0. congruence.
Qed.

Lemma selecting_role s0 k s i :
  selecting s0 k s -> active_role s i = active_role s0 i.
Proof.
  intros H. unfold active_role. rewrite (selecting_designated _ _ _ _ H).
  by rewrite (sg_root_port _ _ _ H).
Qed.

Lemma port_state_selection_spec s :
  length (s_ports s) = MAX ->
  selecting s MAX (stp_port_state_selection s).
Proof.
  intros Hlen. rewrite port_state_selection_eq.
  apply (for_each_ind (selecting s)).
  - split; auto. lia.
  - intros i t Hi Ht Hen. pose proof (select_state_local i t) as Hl.
    destruct Ht, Hl. split; try congruence.
    + intros j Hj. destruct (decide (j = i)) as [->|].
      * rewrite select_state_at by congruence. unfold selected_state.
        rewrite sg_todo0 by done. rewrite (selecting_role s i); [done | by split].
      * rewrite <- sg_done0 by lia. by apply (local_state i); [split |].
    + intros j Hj. rewrite <- sg_todo0 by lia. apply (local_state i); [by split | lia].
  - intros i t Hi [] Hoff. split; auto.
    + intros j Hj. destruct (decide (j = i)) as [->|]; [| apply sg_done0; lia].
      rewrite stp_enabled_spec in Hoff. apply bool_decide_eq_false_1, dec_stable in Hoff.
      unfold selected_state. rewrite <- sg_todo0 by done. by rewrite Hoff.
    + intros j Hj. apply sg_todo0. lia.
Qed.

Lemma port_state_selection_ports s :
  ports_ok s -> ports_ok (stp_port_state_selection s).
Proof.
  intros Hs. rewrite port_state_selection_eq.
  apply for_each_inv; auto using select_state_ports.
Qed.

Lemma selected_state_disabled s i :
  selected_state s i = STP_DISABLED <-> p_state (port s i) = STP_DISABLED.
Proof.
  unfold selected_state.
  by destruct (p_state (port s i)), (active_role s i).
Qed.

Lemma port_state_selection_enabled s i :
  length (s_ports s) = MAX -> (i < MAX)%nat ->
  stp_enabled (stp_port_state_selection s) i = stp_enabled s i.
Proof.
  intros Hlen Hi. rewrite !stp_enabled_spec.
  rewrite (sg_done _ _ _ (port_state_selection_spec s Hlen)) by done.
  apply bool_decide_ext. by rewrite selected_state_disabled.
Qed.

(** From well-formed ports and a settled root, it establishes the invariant. *)
Lemma port_state_selection_ok s :
  ports_ok s -> roots_ok s -> stp_ok (stp_port_state_selection s).
Proof.
  intros Hp Hr. pose proof (pb_length _ (proj1 Hp)) as Hlen.
  pose proof (port_state_selection_spec s Hlen) as Hsel.
  pose proof (fun i => port_state_selection_enabled s i Hlen) as Hen.
  destruct (port_state_selection_ports s Hp) as [Hb Ht].
  split; [done | done | |].
  - destruct Hr. split; unfold stp_is_root_bridge in *;
      rewrite ?(sg_root_port _ _ _ Hsel), ?(sg_designated_root _ _ _ Hsel),
        ?(sg_bridge_id _ _ _ Hsel); try done.
    + intros r Hrr. destruct (ro_port0 r Hrr). by rewrite Hen.
    + intros i Hi. rewrite Hen by done. intros Hei.
      rewrite <- (ro_agree0 i Hi Hei).
      pose proof (sg_info _ _ _ Hsel i). unfold port_info in *. congruence.
  - intros i Hi. unfold blocked_ok. rewrite Hen by done.
    rewrite (sg_done _ _ _ Hsel), (selecting_designated _ _ _ _ Hsel),
      (sg_root_port _ _ _ Hsel) by done.
    rewrite stp_enabled_spec, bool_decide_eq_true. intros Hne Hroot Hdes.
    unfold selected_state, active_role.
    rewrite bool_decide_eq_false_2, Hdes by done.
    by destruct (p_state (port s i)).
Qed.
