(* ===== verification/StpRoles.v ===== *)
(** * Root port and designated port selection

    [stp_root_selection] picks the best eligible port under the spanning tree
    priority order, and [stp_configuration_update] leaves every enabled port
    either designated or holding information at least as good as the bridge's
    own. *)
From stdpp Require Import base list strings.
From Stdlib Require Import ZArith Lia.
From S2P Require Import Prelude Stp StpLemmas StpInvariant.
Import Stp.

Local Open Scope Z_scope.
Local Abbreviation MAX := STP_MAX_PORTS.

(** ** Priority vectors *)

(** Lexicographic order on equally long vectors; the smaller is the better. *)
Fixpoint lex_ltb (v w : list Z) : bool :=
  match v, w with
  | x :: v, y :: w => (x <? y) || ((x =? y) && lex_ltb v w)
  | _, _ => false
  end.

Lemma lex_irrefl v : lex_ltb v v = false.
Proof. induction v as [|x v IH]; cbn; [done |]. rewrite IH. lia. Qed.

Lemma lex_trans u v w :
  lex_ltb u v = true -> lex_ltb v w = true -> lex_ltb u w = true.
Proof.
  revert v w. induction u as [|x u IH]; intros [|y v] [|z w]; cbn; try done.
  specialize (IH v w). destruct (lex_ltb u v), (lex_ltb v w), (lex_ltb u w); lia.
Qed.

Lemma lex_connected v w :
  length v = length w -> lex_ltb v w = false -> lex_ltb w v = false -> v = w.
Proof.
  revert w. induction v as [|x v IH]; intros [|y w]; cbn; try done.
  intros Hlen Hvw Hwv. specialize (IH w ltac:(lia)).
  assert (x = y) as -> by lia. rewrite Z.eqb_refl, Z.ltb_irrefl in *.
  f_equal. auto.
Qed.

Lemma lex_trans_r u v w :
  length v = length w ->
  lex_ltb u v = true -> lex_ltb w v = false -> lex_ltb u w = true.
Proof.
  intros Hlen Huv Hwv. destruct (lex_ltb v w) eqn:Hvw; [by eapply lex_trans |].
  by rewrite <- (lex_connected v w).
Qed.

Lemma lex_asym u v : lex_ltb u v = true -> lex_ltb v u = false.
Proof.
  intros Huv. apply not_true_iff_false. intros Hvu.
  pose proof (lex_trans _ _ _ Huv Hvu) as Huu. by rewrite lex_irrefl in Huu.
Qed.

(** The vector by which root ports are compared. *)
Definition root_vector (p : stp_port) : list Z :=
  [p_designated_root p; i32 (p_designated_cost p + p_path_cost p);
   p_designated_bridge p; p_designated_port p; p_port_id p].

Lemma supersedes_root_spec root p :
  stp_supersedes_root root p = lex_ltb (root_vector p) (root_vector root).
Proof.
  unfold stp_supersedes_root. cbn. split_ifs; lia.
Qed.

(** ** Root selection *)

Definition eligible (s : stp) (i : nat) : bool :=
  stp_enabled s i && negb (stp_is_designated_port s i)
  && (p_designated_root (port s i) <? s_bridge_id s).

(** [r] is the best of the eligible ports below [k]: no such port beats it, and
    it beats the ones before it. *)
Record best_root (s : stp) (k r : nat) : Prop := {
  br_range : (r < k)%nat;
  br_eligible : eligible s r = true;
  br_best i : (i < k)%nat -> eligible s i = true ->
    lex_ltb (root_vector (port s i)) (root_vector (port s r)) = false;
  br_first i : (i < r)%nat -> eligible s i = true ->
    lex_ltb (root_vector (port s r)) (root_vector (port s i)) = true;
}.

Definition root_choice (s : stp) (k : nat) (root : option nat) : Prop :=
  match root with
  | Some r => best_root s k r
  | None => forall i, (i < k)%nat -> eligible s i = false
  end.

Lemma root_choice_start s k :
  root_choice s k None -> eligible s k = true -> best_root s (S k) k.
Proof.
  intros Hnone Hk. split; [lia | done | |].
  - intros i Hi Hei. destruct (decide (i = k)) as [->|]; [apply lex_irrefl |].
    by rewrite Hnone in Hei by lia.
  - intros i Hi Hei. by rewrite Hnone in Hei.
Qed.

Lemma best_root_replace s k r :
  best_root s k r -> eligible s k = true ->
  lex_ltb (root_vector (port s k)) (root_vector (port s r)) = true ->
  best_root s (S k) k.
Proof.
  intros [Hr Her Hbest Hfirst] Hk Hlt.
  assert (forall i, (i < k)%nat -> eligible s i = true ->
    lex_ltb (root_vector (port s k)) (root_vector (port s i)) = true) as Hall.
  { intros i Hi Hei. apply (lex_trans_r _ (root_vector (port s r))); auto. }
  split; [lia | done | | done].
  intros i Hi Hei. destruct (decide (i = k)) as [->|]; [apply lex_irrefl |].
  apply lex_asym, Hall; [lia | done].
Qed.

Lemma best_root_keep s k r :
  best_root s k r ->
  (eligible s k = true ->
   lex_ltb (root_vector (port s k)) (root_vector (port s r)) = false) ->
  best_root s (S k) r.
Proof.
  intros [Hr Her Hbest Hfirst] Hk. split; [lia | done | | done].
  intros i Hi Hei. destruct (decide (i = k)) as [->|]; [auto |].
  apply Hbest; [lia | done].
Qed.

Lemma root_candidate_eq s k root :
  (if stp_enabled s k then stp_root_candidate s root k else root)
  = if eligible s k then
      match root with
      | Some r => if lex_ltb (root_vector (port s k)) (root_vector (port s r))
                  then Some k else Some r
      | None => Some k
      end
    else root.
Proof.
  unfold eligible, stp_root_candidate. rewrite Z.leb_antisym.
  destruct (stp_enabled s k), (stp_is_designated_port s k),
    (p_designated_root (port s k) <? s_bridge_id s), root; cbn [negb andb orb];
    try done. rewrite supersedes_root_spec. by destruct (lex_ltb _ _).
Qed.

Lemma root_candidate_step s k root :
  root_choice s k root ->
  root_choice s (S k)
    (if stp_enabled s k then stp_root_candidate s root k else root).
Proof.
  intros Hc. rewrite root_candidate_eq.
  destruct (eligible s k) eqn:Hk, root as [r|].
  - destruct (lex_ltb (root_vector (port s k)) _) eqn:Hlt.
    + by apply (best_root_replace s k r).
    + by apply best_root_keep.
  - by apply root_choice_start.
  - apply best_root_keep; [done | congruence].
  - intros i Hi. destruct (decide (i = k)) as [->|]; [done |]. apply Hc. lia.
Qed.

Lemma root_selection_choice s :
  root_choice s MAX (s_root_port (stp_root_selection s)).
Proof.
  unfold stp_root_selection. cbv zeta.
  assert (root_choice s MAX (foldl (fun root i =>
    if stp_enabled s i then stp_root_candidate s root i else root) None
    (seq 0 MAX))) as Hc.
  { apply (foldl_seq_ind (root_choice s)); [cbn; lia |].
    intros. by apply root_candidate_step. }
  by destruct (foldl _ _ _).
Qed.

(** What else it assigns. *)
Lemma root_selection_root s :
  s_designated_root (stp_root_selection s)
  = match s_root_port (stp_root_selection s) with
    | Some r => p_designated_root (port s r)
    | None => s_bridge_id s
    end.
Proof. unfold stp_root_selection. cbv zeta. by destruct (foldl _ _ _). Qed.

Lemma root_selection_cost s :
  s_root_path_cost (stp_root_selection s)
  = match s_root_port (stp_root_selection s) with
    | Some r => u32 (i32 (p_designated_cost (port s r) + p_path_cost (port s r)))
    | None => 0
    end.
Proof. unfold stp_root_selection. cbv zeta. by destruct (foldl _ _ _). Qed.

Lemma root_selection_same s :
  s_ports (stp_root_selection s) = s_ports s
  /\ s_bridge_id (stp_root_selection s) = s_bridge_id s
  /\ s_first_changed_port (stp_root_selection s) = s_first_changed_port s.
Proof. unfold stp_root_selection. cbv zeta. by destruct (foldl _ _ _). Qed.

(** ** Designated port selection *)

(** The bridge's own claim to the segment of port [i], and what the port holds. *)
Definition own_vector (s : stp) (i : nat) : list Z :=
  [s_root_path_cost s; s_bridge_id s; p_port_id (port s i)].

Definition held_vector (p : stp_port) : list Z :=
  [u32 (p_designated_cost p); p_designated_bridge p; p_designated_port p].

(** Does the bridge take over (or keep) the segment of port [i]? *)
Definition claims (s : stp) (i : nat) : bool :=
  stp_is_designated_port s i
  || negb (p_designated_root (port s i) =? s_designated_root s)
  || negb (lex_ltb (held_vector (port s i)) (own_vector s i)).

Lemma unclaimed s i :
  claims s i = false ->
  p_designated_root (port s i) = s_designated_root s
  /\ lex_ltb (held_vector (port s i)) (own_vector s i) = true.
Proof.
  unfold claims. rewrite !orb_false_iff, !negb_false_iff, Z.eqb_eq. tauto.
Qed.

Definition designate (s : stp) (p : stp_port) : stp_port :=
  p <| p_designated_root := s_designated_root s |>
    <| p_designated_cost := i32 (s_root_path_cost s) |>
    <| p_designated_bridge := s_bridge_id s |>
    <| p_designated_port := p_port_id p |>.

Lemma designate_spec s p :
  p_designated_root (designate s p) = s_designated_root s
  /\ p_designated_cost (designate s p) = i32 (s_root_path_cost s)
  /\ (p_designated_bridge (designate s p) =? s_bridge_id s)
     && (p_designated_port (designate s p) =? p_port_id (designate s p)) = true.
Proof. cbn. by rewrite !Z.eqb_refl. Qed.

Definition select_designated (i : nat) (s : stp) : stp :=
  if claims s i then stp_become_designated_port i s else s.

Lemma claims_eq s i :
  stp_is_designated_port s i
  || negb (p_designated_root (port s i) =? s_designated_root s)
  || (s_root_path_cost s <? u32 (p_designated_cost (port s i)))
  || ((s_root_path_cost s =? u32 (p_designated_cost (port s i)))
      && ((s_bridge_id s <? p_designated_bridge (port s i))
          || ((s_bridge_id s =? p_designated_bridge (port s i))
              && (p_port_id (port s i) <=? p_designated_port (port s i)))))
  = claims s i.
Proof.
  unfold claims. rewrite <- orb_assoc. f_equal. cbn.
  generalize (s_root_path_cost s), (u32 (p_designated_cost (port s i))),
    (s_bridge_id s), (p_designated_bridge (port s i)), (p_port_id (port s i)),
    (p_designated_port (port s i)). intros. lia.
Qed.

Lemma designated_port_selection_eq s :
  stp_designated_port_selection s = for_each_enabled_port select_designated s.
Proof.
  apply for_each_ext. intros i t. cbv zeta. by rewrite claims_eq.
Qed.

(** The outcome, port by port: every enabled port the bridge claims becomes
    designated, the others keep their information. *)
Record designating (s0 : stp) (k : nat) (s : stp) : Prop := {
  dg_bridge_id : s_bridge_id s = s_bridge_id s0;
  dg_designated_root : s_designated_root s = s_designated_root s0;
  dg_root_path_cost : s_root_path_cost s = s_root_path_cost s0;
  dg_root_port : s_root_port s = s_root_port s0;
  dg_first_changed : s_first_changed_port s = s_first_changed_port s0;
  dg_length : length (s_ports s) = length (s_ports s0);
  dg_done j : (j < k)%nat ->
    port s j = if stp_enabled s0 j && claims s0 j
               then designate s0 (port s0 j) else port s0 j;
  dg_todo j : (k <= j)%nat -> port s j = port s0 j;
}.

Lemma become_designated_at i s :
  (i < length (s_ports s))%nat ->
  port (stp_become_designated_port i s) i = designate s (port s i).
Proof. intros. unfold stp_become_designated_port. by rewrite port_upd_eq. Qed.

Lemma select_designated_step s0 i s :
  (i < length (s_ports s0))%nat -> designating s0 i s ->
  designating s0 (S i) (if stp_enabled s i then select_designated i s else s).
Proof.
  intros Hi [].
  assert (stp_enabled s i = stp_enabled s0 i) as ->
    by (unfold stp_enabled; by rewrite dg_todo0).
  assert (claims s i = claims s0 i) as Hc.
  { unfold claims, stp_is_designated_port, own_vector.
    by rewrite dg_todo0, dg_bridge_id0, dg_designated_root0, dg_root_path_cost0. }
  unfold select_designated. rewrite Hc.
  destruct (stp_enabled s0 i && claims s0 i) eqn:Hb.
  - apply andb_true_iff in Hb as [Hen Hcl]. rewrite Hen, Hcl.
    split; try done; [by rewrite <- dg_length0; apply length_upd_port | |].
    + intros j Hj. destruct (decide (j = i)) as [->|].
      * rewrite become_designated_at, Hen, Hcl by lia. unfold designate.
        by rewrite dg_todo0, dg_bridge_id0, dg_designated_root0, dg_root_path_cost0.
      * unfold stp_become_designated_port. rewrite port_upd_ne by done.
        apply dg_done0. lia.
    + intros j Hj. unfold stp_become_designated_port.
      rewrite port_upd_ne by lia. apply dg_todo0. lia.
  - assert ((if stp_enabled s0 i then if claims s0 i
             then stp_become_designated_port i s else s else s) = s) as ->
      by (destruct (stp_enabled s0 i), (claims s0 i); done).
    split; try done.
    + intros j Hj. destruct (decide (j = i)) as [->|]; [| apply dg_done0; lia].
      by rewrite Hb, dg_todo0.
    + intros j Hj. apply dg_todo0. lia.
Qed.

Lemma designated_port_selection_spec s :
  length (s_ports s) = MAX ->
  designating s MAX (stp_designated_port_selection s).
Proof.
  intros Hlen. rewrite designated_port_selection_eq.
  apply (foldl_seq_ind (designating s)); [by split; try lia |].
  intros. apply select_designated_step; [lia | done].
Qed.

Lemma designating_seq_change s0 k s :
  designating s0 k s -> designating s0 k (seq_change s).
Proof. intros []. by split. Qed.

(** ** Configuration update *)

#[local] Opaque stp_root_selection stp_designated_port_selection.

Section ConfigurationUpdate.
  Context (s : stp) (Hlen : length (s_ports s) = MAX).

Local Abbreviation r := (stp_root_selection s).
Local Abbreviation u := (stp_configuration_update s).

Lemma root_selection_port i : port r i = port s i.
Proof using. unfold port. by rewrite (proj1 (root_selection_same s)). Qed.

Lemma root_selection_enabled i : stp_enabled r i = stp_enabled s i.
Proof using. unfold stp_enabled. by rewrite root_selection_port. Qed.

  (** The update is [designating] from the root selection. *)
Lemma configuration_update_spec : designating r MAX u.
Proof using Hlen.
  assert (length (s_ports r) = MAX) as Hr
    by (by rewrite (proj1 (root_selection_same s))).
  apply designating_seq_change, (designated_port_selection_spec r Hr).
Qed.

Lemma configuration_update_length : length (s_ports u) = MAX.
Proof using Hlen.
  rewrite (dg_length _ _ _ configuration_update_spec).
  by rewrite (proj1 (root_selection_same s)).
Qed.

Lemma configuration_update_port i :
  (i < MAX)%nat ->
  port u i = if stp_enabled s i && claims r i
             then designate r (port s i) else port s i.
Proof using Hlen.
  intros Hi. rewrite (dg_done _ _ _ configuration_update_spec) by done.
  by rewrite root_selection_enabled, root_selection_port.
Qed.

Lemma configuration_update_proj {A} (g : stp_port -> A) i :
  (i < MAX)%nat -> (forall p, g (designate r p) = g p) ->
  g (port u i) = g (port s i).
Proof using Hlen.
  intros Hi Hg. rewrite configuration_update_port by done. split_if; auto.
Qed.

Lemma configuration_update_bridge_id : s_bridge_id u = s_bridge_id s.
Proof using Hlen.
  rewrite (dg_bridge_id _ _ _ configuration_update_spec). apply root_selection_same.
Qed.

Lemma configuration_update_enabled i :
  (i < MAX)%nat -> stp_enabled u i = stp_enabled s i.
Proof using Hlen.
  intros Hi. unfold stp_enabled. by rewrite (configuration_update_proj p_state).
Qed.

Lemma configuration_update_root_choice : root_choice s MAX (s_root_port u).
Proof using Hlen.
  rewrite (dg_root_port _ _ _ configuration_update_spec).
  apply root_selection_choice.
Qed.

Lemma configuration_update_root :
  s_designated_root u = match s_root_port u with
                        | Some i => p_designated_root (port s i)
                        | None => s_bridge_id s
                        end.
Proof using Hlen.
  rewrite (dg_designated_root _ _ _ configuration_update_spec),
    (dg_root_port _ _ _ configuration_update_spec).
  apply root_selection_root.
Qed.

Lemma configuration_update_cost :
  s_root_path_cost u
  = match s_root_port u with
    | Some i => u32 (i32 (p_designated_cost (port s i) + p_path_cost (port s i)))
    | None => 0
    end.
Proof using Hlen.
  rewrite (dg_root_path_cost _ _ _ configuration_update_spec),
    (dg_root_port _ _ _ configuration_update_spec).
  apply root_selection_cost.
Qed.

  (** Every enabled port ends up designated, with the bridge's information, or
      holds better information about the same root. *)
Lemma configuration_update_settled i :
  (i < MAX)%nat -> stp_enabled s i = true ->
  p_designated_root (port u i) = s_designated_root u
  /\ (stp_is_designated_port u i = true
        /\ p_designated_cost (port u i) = i32 (s_root_path_cost u)
      \/ lex_ltb (held_vector (port u i)) (own_vector u i) = true).
Proof using Hlen.
  intros Hi Hen. pose proof configuration_update_spec as [Hb Hd Hc _ _ _ _ _].
  unfold own_vector, stp_is_designated_port.
  rewrite Hb, Hd, Hc, configuration_update_port, Hen by done. cbn [andb].
  destruct (claims r i) eqn:Hcl.
  - destruct (designate_spec r (port s i)) as (-> & -> & ->). auto.
  - apply unclaimed in Hcl as [Hroot Hlt]. unfold own_vector in Hlt.
    rewrite root_selection_port in Hroot, Hlt. by split; [|right].
Qed.

Lemma configuration_update_roots : roots_ok u.
Proof using Hlen.
  pose proof configuration_update_root_choice as Hch.
  pose proof configuration_update_root as Hroot.
  unfold root_choice in Hch. split.
  - unfold stp_is_root_bridge. rewrite configuration_update_bridge_id, Hroot.
    destruct (s_root_port u) as [i|]; [| by rewrite Z.eqb_refl].
    destruct Hch as [_ Hel _ _]. unfold eligible in Hel.
    rewrite bool_decide_eq_false_2 by done. lia.
  - rewrite configuration_update_bridge_id, Hroot.
    destruct (s_root_port u) as [i|]; [| done].
    destruct Hch as [_ Hel _ _]. unfold eligible in Hel. lia.
  - intros i Hi. rewrite Hi in Hch. destruct Hch as [Hlt Hel _ _].
    split; [done |]. rewrite configuration_update_enabled by done.
    unfold eligible in Hel. by destruct (stp_enabled s i).
  - intros i Hi. rewrite configuration_update_enabled by done. intros Hen.
    by apply configuration_update_settled.
Qed.
End ConfigurationUpdate.

Lemma configuration_update_ports s :
  ports_ok s -> ports_ok (stp_configuration_update s).
Proof.
  intros [Hb Ht]. pose proof (pb_length _ Hb) as Hlen.
  pose proof (configuration_update_spec s Hlen) as Hspec.
  pose proof (root_selection_same s) as (Hp & _ & Hf). split.
  - destruct Hb. split.
    + by rewrite (dg_length _ _ _ Hspec), Hp.
    + intros i Hi. rewrite (configuration_update_proj _ Hlen p_state); auto.
    + by rewrite (dg_first_changed _ _ _ Hspec), Hf.
    + intros i Hi. rewrite (dg_first_changed _ _ _ Hspec), Hf.
      rewrite (configuration_update_proj _ Hlen p_state_changed); auto.
  - intros i Hi. unfold timer_ok.
    rewrite (configuration_update_proj _ Hlen p_state),
      (configuration_update_proj _ Hlen p_forward_delay_timer) by done. by apply Ht.
Qed.

(** Update, then state selection: the pair of calls at the heart of the
    protocol re-establishes the invariant from well-formed ports alone. *)
Lemma reconfigure_ok s :
  ports_ok s -> stp_ok (stp_port_state_selection (stp_configuration_update s)).
Proof.
  intros Hs. apply port_state_selection_ok; [by apply configuration_update_ports |].
  apply configuration_update_roots, Hs.
Qed.
