(* ===== verification/StpPreserve.v ===== *)
(** * Every entry point of the STP entity preserves its invariant *)
From stdpp Require Import base list strings.
From Stdlib Require Import ZArith Lia.
From S2P Require Import Prelude Stp StpLemmas StpInvariant StpRoles.
Import Stp.

Local Open Scope Z_scope.
Local Abbreviation MAX := STP_MAX_PORTS.
#[local] Opaque stp_root_selection stp_designated_port_selection
  stp_configuration_update stp_port_state_selection.

Lemma ok_ports s : stp_ok s -> ports_ok s.
Proof. intros []. by split. Qed.

(** ** Quiet entry points *)

Lemma update_bridge_timers_quiet s : quiet s (stp_update_bridge_timers s).
Proof. unfold stp_update_bridge_timers. quiet_auto. Qed.
#[export] Hint Resolve update_bridge_timers_quiet : quiet.

Lemma set_hello_time_quiet ms s : quiet s (stp_set_hello_time ms s).
Proof. unfold stp_set_hello_time. quiet_auto. Qed.

Lemma set_max_age_quiet ms s : quiet s (stp_set_max_age ms s).
Proof. unfold stp_set_max_age. quiet_auto. Qed.

Lemma set_forward_delay_quiet ms s : quiet s (stp_set_forward_delay ms s).
Proof. unfold stp_set_forward_delay. quiet_auto. Qed.

Lemma fdb_flush_quiet s : quiet s (snd (stp_check_and_reset_fdb_flush s)).
Proof. cbn [stp_check_and_reset_fdb_flush snd]. quiet_auto. Qed.

Lemma port_set_name_quiet i name s : quiet s (stp_port_set_name i name s).
Proof. unfold stp_port_set_name. quiet_auto. Qed.

Lemma port_set_aux_quiet i aux s : quiet s (stp_port_set_aux i aux s).
Proof. unfold stp_port_set_aux. quiet_auto. Qed.

Lemma enable_change_detection_quiet i s :
  quiet s (stp_port_enable_change_detection i s).
Proof. unfold stp_port_enable_change_detection. quiet_auto. Qed.

Lemma disable_change_detection_quiet i s :
  quiet s (stp_port_disable_change_detection i s).
Proof. unfold stp_port_disable_change_detection. quiet_auto. Qed.

Lemma received_tcn_bpdu_quiet i s : quiet s (stp_received_tcn_bpdu i s).
Proof. unfold stp_received_tcn_bpdu. quiet_auto. Qed.

Lemma count_error_quiet i s : quiet s (count_error i s).
Proof. unfold count_error. quiet_auto. Qed.

Lemma count_rx_quiet i s : quiet s (count_rx i s).
Proof. unfold count_rx. quiet_auto. Qed.

Lemma topology_change_acknowledged_quiet s :
  quiet s (stp_topology_change_acknowledged s).
Proof. unfold stp_topology_change_acknowledged. quiet_auto. Qed.

Lemma record_config_timeout_values_quiet config s :
  quiet s (stp_record_config_timeout_values config s).
Proof. unfold stp_record_config_timeout_values. quiet_auto. Qed.
#[export] Hint Resolve set_hello_time_quiet set_max_age_quiet
  set_forward_delay_quiet fdb_flush_quiet port_set_name_quiet port_set_aux_quiet
  enable_change_detection_quiet disable_change_detection_quiet
  received_tcn_bpdu_quiet count_error_quiet count_rx_quiet
  topology_change_acknowledged_quiet record_config_timeout_values_quiet : quiet.

Lemma hello_timer_expiry_quiet s : quiet s (stp_hello_timer_expiry s).
Proof. unfold stp_hello_timer_expiry. quiet_auto. Qed.

Lemma tcn_timer_expiry_quiet s : quiet s (stp_tcn_timer_expiry s).
Proof. unfold stp_tcn_timer_expiry. quiet_auto. Qed.

Lemma topology_change_timer_expiry_quiet s :
  quiet s (stp_topology_change_timer_expiry s).
Proof. unfold stp_topology_change_timer_expiry. quiet_auto. Qed.

Lemma hold_timer_expiry_quiet i s : quiet s (stp_hold_timer_expiry i s).
Proof. unfold stp_hold_timer_expiry. quiet_auto. Qed.
#[export] Hint Resolve hello_timer_expiry_quiet tcn_timer_expiry_quiet
  topology_change_timer_expiry_quiet hold_timer_expiry_quiet : quiet.

Lemma bridge_timer_quiet get set elapsed timeout handler s :
  (forall t s, quiet s (set t s)) -> (forall s, quiet s (handler s)) ->
  quiet s (bridge_timer get set elapsed timeout handler s).
Proof.
  intros Hset Hh. unfold bridge_timer.
  destruct (stp_timer_expired _ _ _) as [[] t]; [| done].
  etransitivity; [apply Hset | apply Hh].
Qed.

Lemma port_timer_quiet get set elapsed timeout handler i s :
  (forall t p, port_key (set t p) = port_key p) ->
  (forall i s, quiet s (handler i s)) ->
  quiet s (port_timer get set elapsed timeout handler i s).
Proof.
  intros Hset Hh. unfold port_timer.
  destruct (stp_timer_expired _ _ _) as [[] t]; [| by apply upd_port_quiet].
  etransitivity; [| apply Hh]. by apply upd_port_quiet.
Qed.

(** ** Entry points that reconfigure the bridge *)

(** An assignment to a port that leaves its state and timer alone. *)
Lemma upd_port_ports i f s :
  (forall p, p_state (f p) = p_state p) ->
  (forall p, p_state_changed (f p) = p_state_changed p) ->
  (forall p, t_active (p_forward_delay_timer (f p))
             = t_active (p_forward_delay_timer p)) ->
  ports_ok s -> ports_ok (upd_port i f s).
Proof.
  intros H1 H2 H3 [Hb Ht]. split.
  - apply upd_port_base; auto. intros p. by rewrite H1.
  - intros j Hj. unfold timer_ok. rewrite (port_upd_proj p_state) by done.
    rewrite (port_upd_proj (fun p => t_active (p_forward_delay_timer p))) by done.
    by apply Ht.
Qed.

Lemma become_designated_ports i s :
  ports_ok s -> ports_ok (stp_become_designated_port i s).
Proof. by apply upd_port_ports. Qed.

Lemma record_config_information_ports i config s :
  ports_ok s -> ports_ok (stp_record_config_information i config s).
Proof. by apply upd_port_ports. Qed.

Ltac ok_quiet := eapply quiet_ok; [quiet_auto | ].

Lemma received_config_bpdu_ok i config s :
  stp_ok s -> stp_ok (stp_received_config_bpdu i config s).
Proof.
  intros Hs. unfold stp_received_config_bpdu. cbv zeta.
  split_if; [done |]. split_if; [| done]. split_if.
  - pose proof (reconfigure_ok (stp_record_config_information i config s)
      (record_config_information_ports _ _ _ (ok_ports _ Hs))) as Hr.
    revert Hr. generalize (stp_port_state_selection (stp_configuration_update
      (stp_record_config_information i config s))). intros t Ht.
    eapply quiet_ok; [| exact Ht]. quiet_auto.
  - split_if; [| done]. eapply quiet_ok; [| exact Hs]. quiet_auto.
Qed.

Lemma message_age_timer_expiry_ok i s :
  ports_ok s -> stp_ok (stp_message_age_timer_expiry i s).
Proof.
  intros Hs. unfold stp_message_age_timer_expiry. cbv zeta.
  pose proof (reconfigure_ok (stp_become_designated_port i s)
    (become_designated_ports _ _ Hs)) as Hr.
  revert Hr. generalize (stp_port_state_selection (stp_configuration_update
    (stp_become_designated_port i s))). intros t Ht.
  eapply quiet_ok; [| exact Ht]. quiet_auto.
Qed.

Lemma message_age_port_timer_ok elapsed timeout i s :
  stp_ok s ->
  stp_ok (port_timer p_message_age_timer
            (fun t p => p <| p_message_age_timer := t |>)
            elapsed timeout stp_message_age_timer_expiry i s).
Proof.
  intros Hs. unfold port_timer.
  destruct (stp_timer_expired _ _ _) as [expired t]. cbv zeta.
  assert (stp_ok (upd_port i (fun p => p <| p_message_age_timer := t |>) s)) as Hu
    by (eapply quiet_ok; [| exact Hs]; quiet_auto).
  split_if; [| done]. by apply message_age_timer_expiry_ok, ok_ports.
Qed.

(** A port that is not blocked may change state as long as it stays enabled. *)
Lemma unblocked_local_ok i s s' :
  stp_ok s -> local i s s' -> ports_ok s' -> (i < MAX)%nat ->
  p_state (port s i) <> STP_BLOCKING ->
  stp_enabled s i = true -> stp_enabled s' i = true -> stp_ok s'.
Proof.
  intros [_ _ Hroots Hblk] Hl [Hb Ht] Hi Hnb Hen Hen'. split; [done | done | |].
  - eapply local_roots; eauto.
  - intros j Hj. destruct (decide (j = i)) as [->|]; [| eapply local_blocked; eauto].
    intros _. rewrite (l_root_port _ _ _ Hl), (local_designated _ _ _ Hl).
    intros Hr Hd. by destruct Hnb; apply Hblk.
Qed.

Lemma timer_expired_cases t elapsed timeout :
  let '(expired, t') := stp_timer_expired t elapsed timeout in
  if expired then t_active t = true /\ t_active t' = false
  else t_active t' = t_active t.
Proof.
  unfold stp_timer_expired. destruct (t_active t) eqn:Ha; [| done].
  cbv zeta. by split_if.
Qed.

(** From a transient state with the timer just stopped. *)
Lemma forward_delay_timer_expiry_ports i s :
  (i < MAX)%nat -> ports_ok_but i s ->
  t_active (p_forward_delay_timer (port s i)) = false ->
  p_state (port s i) = STP_LISTENING \/ p_state (port s i) = STP_LEARNING ->
  ports_ok (stp_forward_delay_timer_expiry i s)
  /\ p_state (port (stp_forward_delay_timer_expiry i s) i)
     = if decide (p_state (port s i) = STP_LISTENING)
       then STP_LEARNING else STP_FORWARDING.
Proof.
  intros Hi Hs Ht Hst. pose proof (ports_length s i (proj1 Hs) Hi) as Hlen.
  unfold stp_forward_delay_timer_expiry. rewrite !stp_state_value_eqb.
  destruct Hst as [Hst|Hst]; rewrite Hst.
  { rewrite bool_decide_eq_true_2, decide_True by done.
    split; [by apply enter_ports | by apply enter_state]. }
  rewrite bool_decide_eq_false_2, bool_decide_eq_true_2, decide_False by done.
  set (t := stp_set_port_state i STP_FORWARDING s). cbv zeta.
  assert (quiet t (if stp_is_designated_for_some_port t
                      && p_change_detection_enabled (port t i)
                   then stp_topology_change_detection t else t)) as Hq
    by quiet_auto.
  assert (p_state (port t i) = STP_FORWARDING) as Hti
    by (by apply set_port_state_at).
  split; [| by rewrite (quiet_state _ _ Hq)].
  apply (quiet_ports t); [done |]. apply (ports_ok_close i).
  - by apply set_port_state_but.
  - unfold timer_ok. rewrite Hti. unfold t. by rewrite set_port_state_timer.
Qed.

Lemma forward_delay_port_timer_ok elapsed timeout i s :
  (i < MAX)%nat -> stp_ok s ->
  stp_ok (port_timer p_forward_delay_timer
            (fun t p => p <| p_forward_delay_timer := t |>)
            elapsed timeout stp_forward_delay_timer_expiry i s).
Proof.
  intros Hi Hs. pose proof (ports_length s i (ok_base _ Hs) Hi) as Hlen.
  unfold port_timer.
  pose proof (timer_expired_cases (p_forward_delay_timer (port s i))
    elapsed timeout) as Hc.
  destruct (stp_timer_expired _ _ _) as [[] t]; cbv zeta.
  - destruct Hc as [Ha Hi'].
    rewrite (ok_timers _ Hs i Hi) in Ha. apply bool_decide_eq_true_1 in Ha.
    set (u := upd_port i _ s).
    assert (port u i = port s i <| p_forward_delay_timer := t |>) as Hu
      by (by apply port_upd_eq).
    assert (local i s u) as Hlu by (unfold u; local_auto).
    assert (ports_ok_but i u) as Hbu
      by (apply upd_port_but; auto using ports_ok_weaken, ok_ports).
    clearbody u.
    assert (p_state (port u i) = p_state (port s i)) as Hsu by (by rewrite Hu).
    destruct (forward_delay_timer_expiry_ports i u) as [Hp Hst];
      [done | done | by rewrite Hu | by rewrite Hsu |].
    apply (unblocked_local_ok i s); auto.
    + etransitivity; [exact Hlu |]. apply forward_delay_timer_expiry_local.
    + intros Hb. rewrite Hb in Ha. by destruct Ha.
    + rewrite stp_enabled_spec. apply bool_decide_eq_true_2. by destruct Ha as [->| ->].
    + rewrite stp_enabled_spec, Hst. apply bool_decide_eq_true_2. by case_decide.
  - apply (quiet_ok s); [| done]. split; try done; [apply length_upd_port |].
    intros j. destruct (decide (i = j)) as [<-|]; [| by rewrite port_upd_ne].
    rewrite port_upd_eq by done. unfold port_key. cbn. by rewrite Hc.
Qed.

Lemma bridge_timer_ok get set elapsed timeout handler s :
  (forall t s, quiet s (set t s)) -> (forall s, quiet s (handler s)) ->
  stp_ok s -> stp_ok (bridge_timer get set elapsed timeout handler s).
Proof. intros. eapply quiet_ok; [by apply bridge_timer_quiet | done]. Qed.

Lemma run_timers_ok elapsed s : stp_ok s -> stp_ok (stp_run_timers elapsed s).
Proof.
  intros Hs. unfold stp_run_timers. cbv zeta.
  apply for_each_inv.
  - apply for_each_inv; [| intros; by apply message_age_port_timer_ok].
    apply bridge_timer_ok; [intros; quiet_auto | auto with quiet |].
    apply bridge_timer_ok; [intros; quiet_auto | auto with quiet |].
    apply bridge_timer_ok; [intros; quiet_auto | auto with quiet | done].
  - intros i t Hi Ht _.
    apply (quiet_ok (port_timer p_forward_delay_timer
      (fun t p => p <| p_forward_delay_timer := t |>) elapsed
      (s_forward_delay t) stp_forward_delay_timer_expiry i t)).
    + apply port_timer_quiet; auto with quiet.
    + by apply forward_delay_port_timer_ok.
Qed.

Lemma tick_ok ms s : stp_ok s -> stp_ok (stp_tick ms s).
Proof.
  intros Hs. unfold stp_tick. cbv zeta.
  set (t := s <| s_elapsed_remainder := _ |>).
  assert (stp_ok t) by (apply (quiet_ok s); [unfold t; quiet_auto | done]).
  split_if; [done | by apply run_timers_ok].
Qed.

Lemma received_bpdu_ok i bpdu s : stp_ok s -> stp_ok (stp_received_bpdu i bpdu s).
Proof.
  intros Hs. unfold stp_received_bpdu. cbv zeta.
  split_ifs; try done; try (by apply (quiet_ok s); [apply count_error_quiet |]).
  - eapply quiet_ok; [apply count_rx_quiet |]. by apply received_config_bpdu_ok.
  - apply (quiet_ok s); [| done]. quiet_auto.
Qed.

Lemma quiet_if_new_root root s :
  quiet s (if stp_is_root_bridge s && negb root
           then stp_become_root_bridge s else s).
Proof. quiet_auto. Qed.

Lemma bridge_id_ports id s : ports_ok s -> ports_ok (s <| s_bridge_id := id |>).
Proof. intros [Hb Ht]. split; [by apply (ports_base_ext s) | done]. Qed.

Lemma set_bridge_id_ok id s : stp_ok s -> stp_ok (set_bridge_id id s).
Proof.
  intros Hs. unfold set_bridge_id. split_if; [| done].
  eapply quiet_ok; [apply quiet_if_new_root |].
  apply reconfigure_ok, bridge_id_ports, for_each_inv; [by apply ok_ports |].
  intros. split_if; [| done]. by apply upd_port_ports.
Qed.

Lemma port_disable_ok i s :
  (i < MAX)%nat -> stp_ok s -> stp_ok (stp_port_disable i s).
Proof.
  intros Hi Hs. unfold stp_port_disable. split_if; [| done].
  eapply quiet_ok; [by apply upd_port_quiet |].
  eapply quiet_ok; [apply quiet_if_new_root |].
  apply reconfigure_ok, enter_ports; try done.
  by apply ports_ok_weaken, become_designated_ports, ok_ports.
Qed.

Lemma port_set_path_cost_ok i cost s :
  stp_ok s -> stp_ok (stp_port_set_path_cost i cost s).
Proof.
  intros Hs. unfold stp_port_set_path_cost. split_if; [| done].
  apply reconfigure_ok. apply upd_port_ports; auto using ok_ports.
Qed.

(** Taking over a segment on behalf of the current root. *)
Lemma become_designated_roots i s :
  (i < length (s_ports s))%nat -> roots_ok s -> roots_ok (stp_become_designated_port i s).
Proof.
  intros Hi [? ? Hport Hagree]. split; try done.
  - intros r Hr. unfold stp_enabled, stp_become_designated_port.
    rewrite (port_upd_proj p_state) by done. by apply Hport.
  - intros j Hj. unfold stp_enabled, stp_become_designated_port.
    rewrite (port_upd_proj p_state) by done. intros Hen.
    destruct (decide (j = i)) as [->|]; [| rewrite port_upd_ne; auto].
    by rewrite port_upd_eq.
Qed.

Lemma initialize_port_ports i s :
  (i < MAX)%nat -> ports_ok s ->
  ports_ok (stp_initialize_port i STP_BLOCKING s).
Proof.
  intros Hi Hs. unfold stp_initialize_port. rewrite andb_false_r.
  apply enter_ports; try done.
  by apply ports_ok_weaken, become_designated_ports.
Qed.

Lemma initialize_port_roots i s :
  (i < MAX)%nat -> ports_ok s -> roots_ok s ->
  stp_enabled s i = false ->
  roots_ok (stp_initialize_port i STP_BLOCKING s).
Proof.
  intros Hi Hp Hr Hoff. unfold stp_initialize_port. rewrite andb_false_r.
  set (t := stp_become_designated_port i s). cbv zeta.
  set (u := upd_port i _ _).
  assert (local i t u) as Hl by (unfold u; local_auto).
  pose proof (become_designated_roots i s (ports_length s i (proj1 Hp) Hi) Hr) as Ht. fold t in Ht.
  assert (p_designated_root (port t i) = s_designated_root t) as Hag.
  { pose proof (become_designated_at i s (ports_length s i (proj1 Hp) Hi)) as Hat.
    fold t in Hat. by rewrite Hat. }
  assert (stp_enabled t i = false) as Htoff.
  { unfold t, stp_enabled, stp_become_designated_port.
    by rewrite (port_upd_proj p_state). }
  clearbody t u. destruct Ht as [H1 H2 H3 H4].
  split; unfold stp_is_root_bridge in *;
    rewrite ?(l_root_port _ _ _ Hl), ?(l_designated_root _ _ _ Hl),
      ?(l_bridge_id _ _ _ Hl); try done.
  - intros r Hrr. destruct (H3 r Hrr) as [? Hen]. split; [done |].
    destruct (decide (r = i)) as [->|]; [congruence |].
    by rewrite (local_enabled _ _ _ Hl).
  - intros j Hj Hen. pose proof (l_info _ _ _ Hl j) as Hinfo.
    unfold port_info in Hinfo.
    assert (p_designated_root (port t j) = s_designated_root t) by
      (destruct (decide (j = i)) as [->|]; [done |];
       rewrite (local_enabled _ _ _ Hl) in Hen; auto).
    congruence.
Qed.

Lemma port_enable_ok i s :
  (i < MAX)%nat -> stp_ok s -> stp_ok (stp_port_enable i s).
Proof.
  intros Hi Hs. unfold stp_port_enable. split_if; [| done].
  apply port_state_selection_ok.
  - by apply initialize_port_ports; [| apply ok_ports].
  - apply initialize_port_roots; auto using ok_ports, ok_roots.
    by apply negb_true_iff.
Qed.

(** Renumbering a port: it may become designated, and only then does it matter. *)
Lemma renumber_ok i f s :
  (forall p, p_state (f p) = p_state p) ->
  (forall p, p_state_changed (f p) = p_state_changed p) ->
  (forall p, p_forward_delay_timer (f p) = p_forward_delay_timer p) ->
  (forall p, p_designated_root (f p) = p_designated_root p) ->
  (stp_is_designated_port s i = true ->
   stp_is_designated_port (upd_port i f s) i = true) ->
  stp_ok s -> stp_ok (upd_port i f s).
Proof.
  intros H1 H2 H3 H4 Hd Hs.
  assert (ports_ok (upd_port i f s)) as [Hb Ht].
  { apply upd_port_ports; auto using ok_ports. intros. by rewrite H3. }
  assert (forall j, stp_enabled (upd_port i f s) j = stp_enabled s j) as Hen.
  { intros. unfold stp_enabled. by rewrite (port_upd_proj p_state). }
  destruct Hs as [_ _ [R1 R2 R3 R4] Hblk]. split; [done | done | |].
  - split; try done.
    + intros r Hr. rewrite Hen. by apply R3.
    + intros j Hj. rewrite Hen, (port_upd_proj p_designated_root) by done. auto.
  - intros j Hj. unfold blocked_ok.
    rewrite Hen, (port_upd_proj p_state) by done. intros Hej Hr Hnd.
    apply Hblk; auto. destruct (decide (j = i)) as [->|].
    + destruct (stp_is_designated_port s i); [| done]. rewrite Hd in Hnd; done.
    + unfold stp_is_designated_port in *. by rewrite port_upd_ne in Hnd.
Qed.

Lemma alter_alter {A} (f g : A -> A) (l : list A) i :
  alter g i (alter f i l) = alter (fun x => g (f x)) i l.
Proof.
  revert i. induction l as [|x l IH]; intros [|i]; try done. cbn. f_equal. apply IH.
Qed.

Lemma upd_port_compose i f g s :
  upd_port i g (upd_port i f s) = upd_port i (fun p => g (f p)) s.
Proof.
  destruct s as [? ? ? ? ? ? ? ? ? ? ? ? ? ? ? ? ? ? ? ? ports ? ? ? ?].
  exact (f_equal (fun l => mk_stp _ _ _ _ _ _ _ _ _ _ _ _ _ _ _ _ _ _ _ _ l _ _ _ _)
           (alter_alter f g ports i)).
Qed.

Lemma port_set_priority_ok i priority s :
  (i < MAX)%nat -> stp_ok s -> stp_ok (stp_port_set_priority i priority s).
Proof.
  intros Hi Hs. pose proof (ports_length s i (ok_base _ Hs) Hi) as Hlen.
  unfold stp_port_set_priority. cbv zeta. set (id := u16 _).
  split_if; [| done].
  set (t := upd_port i (fun p => p <| p_port_id := id |>) _).
  assert (stp_ok t) as Ht.
  { unfold t. destruct (stp_is_designated_port s i) eqn:Hd.
    - rewrite upd_port_compose. apply renumber_ok; try done.
      intros _. unfold stp_is_designated_port in *. rewrite port_upd_eq by done.
      cbn. by apply andb_true_iff in Hd as [-> _]; rewrite Z.eqb_refl.
    - apply renumber_ok; try done. congruence. }
  assert (length (s_ports t) = MAX) as Htl by apply Ht.
  clearbody t. split_if; [| done].
  apply port_state_selection_ok.
  - by apply become_designated_ports, ok_ports.
  - apply become_designated_roots; [lia |]. by apply ok_roots.
Qed.

(** ** Reporting changed ports *)

Lemma find_changed_spec s i n :
  match stp_find_changed_from s i n with
  | Some j => (i <= j < i + n)%nat /\ p_state_changed (port s j) = true
              /\ forall k, (i <= k < j)%nat -> p_state_changed (port s k) = false
  | None => forall k, (i <= k < i + n)%nat -> p_state_changed (port s k) = false
  end.
Proof.
  revert i. induction n as [|n IH]; intros i; cbn; [lia |].
  destruct (p_state_changed (port s i)) eqn:E.
  - split; [lia | split; [done | lia]].
  - specialize (IH (S i)).
    destruct (stp_find_changed_from s (S i) n) as [j|].
    + destruct IH as (? & ? & Hk). split; [lia | split; [done |]].
      intros k Hk'. destruct (decide (k = i)) as [->|]; [done |]. apply Hk. lia.
    + intros k Hk. destruct (decide (k = i)) as [->|]; [done |]. apply IH. lia.
Qed.

(** Under the bookkeeping invariant, [stp_get_changed_port] returns the lowest
    changed port and clears its mark, or there is none. *)
Lemma get_changed_port_spec s :
  ports_base s ->
  match stp_get_changed_port s with
  | (Some i, s') =>
      (i < MAX)%nat /\ p_state_changed (port s i) = true
      /\ (forall j, (j < i)%nat -> p_state_changed (port s j) = false)
      /\ s' = upd_port i (fun p => p <| p_state_changed := false |>) s
                <| s_first_changed_port := S i |>
  | (None, s') =>
      (forall j, (j < MAX)%nat -> p_state_changed (port s j) = false)
      /\ s' = s <| s_first_changed_port := MAX |>
  end.
Proof.
  intros [_ _ Hfirst Hmarks]. unfold stp_get_changed_port.
  pose proof (find_changed_spec s (s_first_changed_port s)
    (MAX - s_first_changed_port s)) as Hf.
  assert (forall j, (j < MAX)%nat -> (j < s_first_changed_port s)%nat ->
          p_state_changed (port s j) = false) as Hlow.
  { intros j Hj Hlt. apply not_true_iff_false. intros Hc.
    pose proof (Hmarks j Hj Hc). lia. }
  destruct (stp_find_changed_from _ _ _) as [i|]; cbv zeta.
  - destruct Hf as (Hi & Hc & Hbelow). split; [lia |]. split; [done |].
    split; [| done]. intros j Hj.
    destruct (decide (j < s_first_changed_port s)%nat); [apply Hlow | apply Hbelow]; lia.
  - split; [| done]. intros j Hj.
    destruct (decide (j < s_first_changed_port s)%nat); [apply Hlow | apply Hf]; lia.
Qed.

(** The marks of changed ports do not bear on the rest of the invariant. *)
Lemma unmarked_ok i n s :
  ports_base (upd_port i (fun p => p <| p_state_changed := false |>) s
                <| s_first_changed_port := n |>) ->
  stp_ok s ->
  stp_ok (upd_port i (fun p => p <| p_state_changed := false |>) s
            <| s_first_changed_port := n |>).
Proof.
  set (t := upd_port i _ s). intros Hb [_ Ht Hr Hblk].
  assert (forall j, p_state (port t j) = p_state (port s j)) as Hst
    by (intros; unfold t; by rewrite (port_upd_proj p_state)).
  assert (forall j, timer_ok (port t j) <-> timer_ok (port s j)) as Htm
    by (intros; unfold t; by rewrite (port_upd_proj timer_ok)).
  assert (local i s t) as Hl by (unfold t; local_auto).
  assert (forall j, stp_enabled t j = stp_enabled s j) as Hen
    by (intros; unfold stp_enabled; by rewrite Hst).
  clearbody t. split; [done | intros j Hj; by apply Htm, Ht | |].
  - assert (roots_ok t) as []; [| by split].
    apply (local_roots i s t Hl); rewrite ?Hen; [done | | done].
    intros Hri. by apply Hr.
  - intros j Hj. change (blocked_ok t j). unfold blocked_ok.
    rewrite Hst, Hen, (local_designated _ _ _ Hl), (l_root_port _ _ _ Hl).
    by apply Hblk.
Qed.

Lemma get_changed_port_ok s : stp_ok s -> stp_ok (snd (stp_get_changed_port s)).
Proof.
  intros Hs. pose proof (ok_base _ Hs) as Hb.
  pose proof (get_changed_port_spec s Hb) as Hc.
  destruct (stp_get_changed_port s) as [[i|] s']; cbn [snd].
  - destruct Hc as (Hi & Hch & Hlow & ->). apply unmarked_ok; [| done].
    assert (ports_base s) as [Hl Hun _ _] by done. split.
    + by rewrite <- Hl; apply length_upd_port.
    + intros j Hj. change (p_state (port (upd_port i (fun p =>
        p <| p_state_changed := false |>) s) j) <> STP_UNSET).
      rewrite (port_upd_proj p_state) by done. auto.
    + cbn. lia.
    + intros j Hj. change (p_state_changed (port (upd_port i (fun p =>
        p <| p_state_changed := false |>) s) j) = true -> (S i <= j)%nat).
      destruct (decide (i = j)) as [<-|]; [rewrite port_upd_eq by lia; done |].
      rewrite port_upd_ne by done. intros Hcj.
      destruct (decide (j < i)%nat) as [Hlt|]; [| lia]. by rewrite Hlow in Hcj.
  - destruct Hc as [Hnone ->]. destruct Hs as [[] Ht [] Hblk].
    split; [| done | by split | done]. split; try done. intros j Hj Hc.
    change (p_state_changed (port s j) = true) in Hc. rewrite Hnone in Hc; done.
Qed.

(** ** Creation *)

Record creating (k : nat) (s : stp) : Prop := {
  cr_length : length (s_ports s) = MAX;
  cr_first : s_first_changed_port s = MAX;
  cr_root_port : s_root_port s = None;
  cr_root : s_designated_root s = s_bridge_id s;
  cr_marks j : (j < MAX)%nat -> p_state_changed (port s j) = false;
  cr_done j : (j < k)%nat -> p_state (port s j) = STP_DISABLED
                             /\ t_active (p_forward_delay_timer (port s j)) = false;
  cr_todo j : (k <= j < MAX)%nat -> p_state (port s j) = STP_UNSET;
}.

Lemma creating_step i s f :
  (i < MAX)%nat -> creating i s ->
  (forall p, p_state (f p) = STP_DISABLED) ->
  (forall p, t_active (p_forward_delay_timer (f p)) = false) ->
  (forall p, p_state_changed (f p) = p_state_changed p) ->
  creating (S i) (upd_port i f s).
Proof.
  intros Hi [Hl Hf Hrp Hr Hm Hd Ht] H1 H2 H3. split; try done.
  - by rewrite length_upd_port.
  - intros j Hj. rewrite (port_upd_proj p_state_changed) by done. auto.
  - intros j Hj. destruct (decide (i = j)) as [->|].
    + rewrite port_upd_eq by lia. auto.
    + rewrite port_upd_ne by done. apply Hd. lia.
  - intros j Hj. rewrite port_upd_ne by lia. apply Ht. lia.
Qed.

(** Initialising a fresh port is one assignment to it. *)
Lemma initialize_fresh_port i f s :
  (i < length (s_ports s))%nat -> p_state (port s i) = STP_UNSET ->
  (forall p, p_state (f p) = p_state p) ->
  exists g, stp_initialize_port i STP_DISABLED (upd_port i f s) = upd_port i g s
    /\ forall p, p_state (g p) = STP_DISABLED
                 /\ t_active (p_forward_delay_timer (g p)) = false
                 /\ p_state_changed (g p) = p_state_changed (f p).
Proof.
  intros Hi Hst Hf. unfold stp_initialize_port, stp_become_designated_port.
  cbv zeta. rewrite (port_upd_proj p_state) by done.
  rewrite (port_upd_proj p_state), Hst by done.
  change ((stp_state_value STP_UNSET =? 0)
    && (stp_state_value STP_DISABLED =? stp_state_value STP_DISABLED)) with true.
  cbv iota. rewrite !upd_port_compose. eexists. split; [reflexivity |]. done.
Qed.

Lemma creating_ok s : creating MAX s -> stp_ok s.
Proof.
  intros [Hl Hf Hrp Hr Hm Hd _]. split.
  - split; [done | | lia |].
    + intros i Hi. by destruct (Hd i Hi) as [-> _].
    + intros i Hi. by rewrite Hm.
  - intros i Hi. unfold timer_ok. by destruct (Hd i Hi) as [-> ->].
  - split.
    + unfold stp_is_root_bridge. by rewrite Hr, Hrp, Z.eqb_refl.
    + lia.
    + congruence.
    + intros i Hi. rewrite stp_enabled_spec. by destruct (Hd i Hi) as [-> _].
  - intros i Hi. unfold blocked_ok. rewrite stp_enabled_spec.
    by destruct (Hd i Hi) as [-> _].
Qed.

Lemma update_bridge_timers_same_ports s :
  s_ports (stp_update_bridge_timers s) = s_ports s.
Proof. unfold stp_update_bridge_timers. cbv zeta. by split_if. Qed.

Lemma creating_start s :
  s_ports s = replicate MAX zero_port -> s_first_changed_port s = MAX ->
  s_root_port s = None -> s_designated_root s = s_bridge_id s -> creating 0 s.
Proof.
  intros Hp Hf Hrp Hr.
  assert (forall j, (j < MAX)%nat -> port s j = zero_port) as Hport.
  { intros j Hj. unfold port. rewrite Hp. by apply lookup_total_replicate_2. }
  split; try done.
  - by rewrite Hp, length_replicate.
  - intros j Hj. by rewrite Hport.
  - lia.
  - intros j Hj. rewrite Hport; [done | lia].
Qed.

Lemma create_identity_ports name id :
  s_ports (stp_create_identity name id) = replicate MAX zero_port.
Proof.
  unfold stp_create_identity. rewrite update_bridge_timers_same_ports. by split_if.
Qed.

Lemma create_as_root_start s :
  s_ports s = replicate MAX zero_port -> creating 0 (stp_create_as_root s).
Proof. intros Hp. by apply creating_start. Qed.

Lemma create_port_step i s :
  (i < MAX)%nat -> creating i s -> creating (S i) (stp_create_port i s).
Proof.
  intros Hi Hc. unfold stp_create_port. cbv zeta.
  edestruct (initialize_fresh_port i) as (g & -> & Hg);
    [| | | by apply creating_step; [| | apply Hg ..]]; try done.
  - by rewrite (cr_length _ _ Hc).
  - by apply Hc.
Qed.

Lemma create_ok name id : stp_ok (stp_create name id).
Proof.
  apply creating_ok, (foldl_seq_ind creating); [| apply create_port_step].
  apply create_as_root_start, create_identity_ports.
Qed.
