(* ===== verification/StpProofs.v ===== *)
(** * The spanning tree entity: theorems

    The system of all entry points of [Stp], its invariant, and the properties
    of role selection, of the port state machine, of BPDU reception and
    transmission and of the clock. *)
From stdpp Require Import base list strings.
From Stdlib Require Import ZArith Lia.
From S2P Require Import Prelude Stp StpLemmas StpInvariant StpRoles StpPreserve.
Import Stp.

Local Open Scope Z_scope.
Local Abbreviation MAX := STP_MAX_PORTS.
#[local] Opaque stp_root_selection stp_designated_port_selection
  stp_configuration_update stp_port_state_selection.

(** ** The entry points *)

Inductive stp_op :=
| Tick (ms : Z)
| SetBridgeId (id : Z)
| SetBridgePriority (priority : Z)
| SetHelloTime (ms : Z)
| SetMaxAge (ms : Z)
| SetForwardDelay (ms : Z)
| CheckAndResetFdbFlush
| GetChangedPort
| ReceivedBpdu (i : nat) (bpdu : list Z)
| PortSetName (i : nat) (name : string)
| PortSetAux (i : nat) (aux : option Z)
| PortDisable (i : nat)
| PortEnable (i : nat)
| PortSetPriority (i : nat) (priority : Z)
| PortSetPathCost (i : nat) (cost : Z)
| PortSetSpeed (i : nat) (speed : Z)
| PortEnableChangeDetection (i : nat)
| PortDisableChangeDetection (i : nat)
| UnixctlTcn.

Definition stp_exec (o : stp_op) (s : stp) : stp :=
  match o with
  | Tick ms => stp_tick ms s
  | SetBridgeId id => stp_set_bridge_id id s
  | SetBridgePriority priority => stp_set_bridge_priority priority s
  | SetHelloTime ms => stp_set_hello_time ms s
  | SetMaxAge ms => stp_set_max_age ms s
  | SetForwardDelay ms => stp_set_forward_delay ms s
  | CheckAndResetFdbFlush => snd (stp_check_and_reset_fdb_flush s)
  | GetChangedPort => snd (stp_get_changed_port s)
  | ReceivedBpdu i bpdu => stp_received_bpdu i bpdu s
  | PortSetName i name => stp_port_set_name i name s
  | PortSetAux i aux => stp_port_set_aux i aux s
  | PortDisable i => stp_port_disable i s
  | PortEnable i => stp_port_enable i s
  | PortSetPriority i priority => stp_port_set_priority i priority s
  | PortSetPathCost i cost => stp_port_set_path_cost i cost s
  | PortSetSpeed i speed => stp_port_set_speed i speed s
  | PortEnableChangeDetection i => stp_port_enable_change_detection i s
  | PortDisableChangeDetection i => stp_port_disable_change_detection i s
  | UnixctlTcn => stp_topology_change_detection s
  end.

(** [stp_get_port] asserts that the port number is in range. *)
Definition op_port (o : stp_op) : nat :=
  match o with
  | ReceivedBpdu i _ | PortSetName i _ | PortSetAux i _ | PortDisable i
  | PortEnable i | PortSetPriority i _ | PortSetPathCost i _ | PortSetSpeed i _
  | PortEnableChangeDetection i | PortDisableChangeDetection i => i
  | _ => 0%nat
  end.

Definition stp_system : system stp :=
  System (fun s => exists name id, s = stp_create name id)
         (fun s s' => exists o, (op_port o < MAX)%nat /\ s' = stp_exec o s).

(** ** The invariant *)

Lemma stp_exec_ok o s :
  (op_port o < MAX)%nat -> stp_ok s -> stp_ok (stp_exec o s).
Proof.
  intros Ho Hs. destruct o; cbn [stp_exec op_port] in *;
    try (apply (quiet_ok s); [by auto with quiet | done]);
    unfold stp_set_bridge_id, stp_set_bridge_priority, stp_port_set_speed;
    auto using tick_ok, set_bridge_id_ok, get_changed_port_ok, received_bpdu_ok,
      port_disable_ok, port_enable_ok, port_set_priority_ok,
      port_set_path_cost_ok.
Qed.

#[export] Instance stp_ok_invariant : Invariant stp_system stp_ok.
Proof.
  split.
  - intros s (name & id & ->). apply create_ok.
  - intros s s' Hs (o & Ho & ->). by apply stp_exec_ok.
Qed.

(** C2: in every state that the entry points can reach, whatever BPDUs arrive,
    the port array has its 255 ports in one of the five named states, a port's
    forward delay timer runs exactly while it is listening or learning, the
    bridge considers itself root exactly when it has no root port, the root is
    never worse than the bridge itself, the root port is enabled, the enabled
    ports agree on the root, and every enabled port that is neither root nor
    designated is blocked. *)
Theorem stp_reachable_ok s : reachable stp_system s -> stp_ok s.
Proof. apply invariant_reachable, _. Qed.

(** A bridge with two enabled ports that has heard a better bridge. *)
Definition example_config : stp_config_bpdu :=
  mk_config STP_PROTOCOL_ID STP_PROTOCOL_VERSION STP_TYPE_CONFIG 0
    0x800000000001 0 0x800000000001 0x8001 0 5120 512 3840.

Definition example_bridge : stp :=
  stp_exec (ReceivedBpdu 1 (config_to_bytes example_config))
    (stp_exec (PortEnable 1) (stp_exec (PortEnable 0)
      (stp_create "br0" 0x8000000000000002))).

Lemma example_bridge_reachable : reachable stp_system example_bridge.
Proof.
  eapply reachable_step; [| eexists; split; [| reflexivity]; vm_compute; lia].
  eapply reachable_step; [| eexists; split; [| reflexivity]; vm_compute; lia].
  eapply reachable_step; [| eexists; split; [| reflexivity]; vm_compute; lia].
  apply reachable_init. by do 2 eexists.
Qed.

Lemma stp_reachable_ok_witness :
  stp_ok example_bridge /\ s_root_port example_bridge = Some 1%nat.
Proof.
  split; [| by vm_compute].
  apply stp_reachable_ok, example_bridge_reachable.
Defined.

(** ** Elections *)

(** C16: [stp_configuration_update] elects.  The root port is the best eligible
    port under the spanning tree order (root identifier, path cost through the
    port, designated bridge, designated port, port identifier), the lowest
    numbered one among equals, and there is none only if no port is eligible.
    The bridge then uses that port's root and cost.  Every enabled port agrees
    on the root and is either designated, announcing the bridge's own cost, or
    holds information strictly better than the bridge's own. *)
Theorem stp_configuration_update_elects s :
  length (s_ports s) = MAX ->
  let u := stp_configuration_update s in
  root_choice s MAX (s_root_port u)
  /\ s_designated_root u = match s_root_port u with
                           | Some r => p_designated_root (port s r)
                           | None => s_bridge_id s
                           end
  /\ s_root_path_cost u
     = match s_root_port u with
       | Some r => u32 (i32 (p_designated_cost (port s r) + p_path_cost (port s r)))
       | None => 0
       end
  /\ forall i, (i < MAX)%nat -> stp_enabled s i = true ->
     p_designated_root (port u i) = s_designated_root u
     /\ (stp_is_designated_port u i = true
           /\ p_designated_cost (port u i) = i32 (s_root_path_cost u)
         \/ lex_ltb (held_vector (port u i)) (own_vector u i) = true).
Proof.
  intros Hlen u. split; [by apply configuration_update_root_choice |].
  split; [by apply configuration_update_root |].
  split; [by apply configuration_update_cost |].
  by apply configuration_update_settled.
Qed.

Lemma stp_configuration_update_elects_witness :
  length (s_ports example_bridge) = MAX
  /\ best_root example_bridge MAX 1
  /\ s_root_path_cost (stp_configuration_update example_bridge) = 2.
Proof.
  assert (s_root_port (stp_configuration_update example_bridge) = Some 1%nat)
    as Hr by (by vm_compute).
  destruct (stp_configuration_update_elects example_bridge) as (Hc & _ & Hp & _);
    [by vm_compute |].
  rewrite Hr in Hc, Hp. split; [by vm_compute | split; [done |]].
  rewrite Hp. by vm_compute.
Defined.

(** ** The port state machine *)

(** How close a state is to forwarding. *)
Definition level (st : stp_state) : nat :=
  match st with
  | STP_FORWARDING => 3
  | STP_LEARNING => 2
  | STP_LISTENING => 1
  | _ => 0
  end.

(** No port got further than listening, or than it was. *)
Definition tame (s s' : stp) : Prop :=
  length (s_ports s) = MAX ->
  length (s_ports s') = MAX /\
  forall i, (i < MAX)%nat ->
  (level (p_state (port s' i)) <= max 1 (level (p_state (port s i))))%nat.

#[export] Instance tame_preorder : PreOrder tame.
Proof.
  split; [split; [done | lia] |].
  intros x y z Hxy Hyz Hx. destruct (Hxy Hx) as [Hy Hl].
  destruct (Hyz Hy) as [Hz Hl']. split; [done |].
  intros i Hi. specialize (Hl i Hi). specialize (Hl' i Hi). lia.
Qed.

Create HintDb tame discriminated.
#[export] Hint Constants Opaque : tame.

Lemma quiet_tame s s' : quiet s s' -> tame s s'.
Proof.
  intros Hq Hs. split; [by rewrite (q_length _ _ Hq) |].
  intros i _. rewrite (quiet_state _ _ Hq). lia.
Qed.

Lemma same_ports_tame s s' : s_ports s' = s_ports s -> tame s s'.
Proof. intros Hp Hs. unfold port. rewrite Hp. split; [done | lia]. Qed.

Lemma upd_port_tame i f s :
  (forall p, p_state (f p) = p_state p) -> tame s (upd_port i f s).
Proof.
  intros Hf Hs. split; [by rewrite length_upd_port |].
  intros j _. rewrite (port_upd_proj p_state) by done. lia.
Qed.

Lemma set_port_state_tame i st s :
  (level st <= 1)%nat -> tame s (stp_set_port_state i st s).
Proof.
  intros Hst Hs. pose proof (set_port_state_local i st s) as Hl.
  split; [by rewrite (l_length _ _ _ Hl) |]. intros j Hj.
  destruct (decide (j = i)) as [->|].
  - rewrite set_port_state_at by lia. lia.
  - rewrite (local_state _ _ _ Hl) by done. lia.
Qed.

Lemma configuration_update_tame s : tame s (stp_configuration_update s).
Proof.
  intros Hs. split; [by apply configuration_update_length |].
  intros i Hi. rewrite (configuration_update_proj s Hs p_state) by done. lia.
Qed.

Lemma port_state_selection_tame s : tame s (stp_port_state_selection s).
Proof.
  intros Hs. pose proof (port_state_selection_spec s Hs) as Hsel.
  split; [by rewrite (sg_length _ _ _ Hsel) |]. intros i Hi.
  rewrite (sg_done _ _ _ Hsel) by done. unfold selected_state.
  destruct (p_state (port s i)), (active_role s i); cbn; lia.
Qed.
#[export] Hint Resolve configuration_update_tame port_state_selection_tame : tame.

Lemma for_each_tame body s :
  (forall i s, tame s (body i s)) -> tame s (for_each_enabled_port body s).
Proof.
  intros Hb. apply (for_each_inv (tame s)); [done |]. intros. etransitivity; eauto.
Qed.

Ltac tame_step :=
  lazymatch goal with
  | |- tame ?s ?s => reflexivity
  | |- tame _ (if ?b then _ else _) => destruct b eqn:?
  | |- tame _ (upd_port ?i ?f ?s') => trans s'; [| by apply upd_port_tame]
  | |- tame _ (@modify_field _ _ _ _ _ ?s') =>
      trans s'; [| apply same_ports_tame; by generalize s']
  | |- tame _ (for_each_enabled_port _ ?s') =>
      trans s'; [| apply for_each_tame; intros]
  | |- tame _ (stp_set_port_state _ _ ?s') =>
      trans s'; [| apply set_port_state_tame; cbn; lia]
  | |- tame _ (_ ?s') =>
      trans s'; [| solve [ auto with tame nocore
                         | apply quiet_tame; auto with quiet nocore]]
  end.
Ltac tame_auto := cbv zeta; repeat tame_step.

Lemma become_designated_tame i s : tame s (stp_become_designated_port i s).
Proof. by apply upd_port_tame. Qed.

Lemma record_config_information_tame i config s :
  tame s (stp_record_config_information i config s).
Proof. by apply upd_port_tame. Qed.
#[export] Hint Resolve become_designated_tame record_config_information_tame : tame.

Lemma received_config_bpdu_tame i config s :
  tame s (stp_received_config_bpdu i config s).
Proof.
  unfold stp_received_config_bpdu. cbv zeta.
  split_if; [done |]. split_if; [| done]. split_if; [| by tame_auto].
  trans (stp_port_state_selection
           (stp_configuration_update (stp_record_config_information i config s)));
    [by tame_auto |].
  apply quiet_tame. generalize (stp_port_state_selection
    (stp_configuration_update (stp_record_config_information i config s))).
  intros t. quiet_auto.
Qed.

Lemma message_age_timer_expiry_tame i s :
  tame s (stp_message_age_timer_expiry i s).
Proof.
  unfold stp_message_age_timer_expiry. cbv zeta.
  trans (stp_port_state_selection
           (stp_configuration_update (stp_become_designated_port i s)));
    [by tame_auto |].
  apply quiet_tame. generalize (stp_port_state_selection
    (stp_configuration_update (stp_become_designated_port i s))).
  intros t. quiet_auto.
Qed.

Lemma initialize_port_tame i s : tame s (stp_initialize_port i STP_BLOCKING s).
Proof. unfold stp_initialize_port. rewrite andb_false_r. tame_auto. Qed.
#[export] Hint Resolve received_config_bpdu_tame message_age_timer_expiry_tame
  initialize_port_tame : tame.

Lemma received_bpdu_tame i bpdu s : tame s (stp_received_bpdu i bpdu s).
Proof. unfold stp_received_bpdu. tame_auto. Qed.

Lemma bridge_id_tame id s : tame s (s <| s_bridge_id := id |>).
Proof. by apply same_ports_tame. Qed.

Lemma set_bridge_id_tame id s : tame s (set_bridge_id id s).
Proof.
  unfold set_bridge_id. split_if; [| done].
  eapply transitivity; [| apply quiet_tame, quiet_if_new_root].
  eapply transitivity; [| apply port_state_selection_tame].
  eapply transitivity; [| apply configuration_update_tame].
  eapply transitivity; [| apply bridge_id_tame].
  apply for_each_tame. intros. tame_auto.
Qed.

Lemma get_changed_port_tame s : tame s (snd (stp_get_changed_port s)).
Proof.
  unfold stp_get_changed_port. destruct (stp_find_changed_from _ _ _);
    cbn [snd]; tame_auto.
Qed.

Lemma port_disable_tame i s : tame s (stp_port_disable i s).
Proof.
  unfold stp_port_disable. split_if; [| done]. tame_auto.
Qed.

Lemma port_enable_tame i s : tame s (stp_port_enable i s).
Proof. unfold stp_port_enable. tame_auto. Qed.

Lemma port_set_priority_tame i priority s :
  tame s (stp_port_set_priority i priority s).
Proof. unfold stp_port_set_priority. tame_auto. Qed.

Lemma port_set_path_cost_tame i cost s : tame s (stp_port_set_path_cost i cost s).
Proof. unfold stp_port_set_path_cost. tame_auto. Qed.
#[export] Hint Resolve received_bpdu_tame set_bridge_id_tame get_changed_port_tame
  port_disable_tame port_enable_tame port_set_priority_tame
  port_set_path_cost_tame : tame.

Lemma forward_delay_expiry_level i s :
  (i < length (s_ports s))%nat ->
  (level (p_state (port (stp_forward_delay_timer_expiry i s) i))
   <= S (level (p_state (port s i))))%nat.
Proof.
  intros Hi. unfold stp_forward_delay_timer_expiry. rewrite !stp_state_value_eqb.
  case_bool_decide as H1; [| case_bool_decide as H2; [| lia]].
  - rewrite enter_state, H1; [done | done | done].
  - cbv zeta. set (t := stp_set_port_state i STP_FORWARDING s).
    assert (p_state (port t i) = STP_FORWARDING) as Ht
      by (by apply set_port_state_at).
    assert (quiet t (if stp_is_designated_for_some_port t
      && p_change_detection_enabled (port t i)
      then stp_topology_change_detection t else t)) as Hq by quiet_auto.
    rewrite (quiet_state _ _ Hq), Ht, H2. done.
Qed.

(** One run of the forward delay timer of port [i]. *)
Lemma forward_delay_timer_level elapsed timeout i s :
  let s' := port_timer p_forward_delay_timer
              (fun t p => p <| p_forward_delay_timer := t |>)
              elapsed timeout stp_forward_delay_timer_expiry i s in
  (i < length (s_ports s))%nat ->
  local i s s'
  /\ (level (p_state (port s' i)) <= S (level (p_state (port s i))))%nat.
Proof.
  intros s' Hi. unfold s', port_timer.
  destruct (stp_timer_expired _ _ _) as [expired t]. cbv zeta.
  set (u := upd_port i _ s). assert (local i s u) as Hl by (unfold u; local_auto).
  assert (p_state (port u i) = p_state (port s i)) as Hst
    by (unfold u; by rewrite (port_upd_proj p_state)).
  clearbody u. destruct expired; [| rewrite Hst; auto with lia].
  split; [etransitivity; [exact Hl | apply forward_delay_timer_expiry_local] |].
  rewrite <- Hst. apply forward_delay_expiry_level. by rewrite (l_length _ _ _ Hl).
Qed.

Lemma forward_delay_loop_level elapsed s i :
  length (s_ports s) = MAX -> (i < MAX)%nat ->
  (level (p_state (port (for_each_enabled_port (fun i s =>
     port_timer p_hold_timer (fun t p => p <| p_hold_timer := t |>)
       elapsed (ms_to_timer 1000) stp_hold_timer_expiry i
       (port_timer p_forward_delay_timer
          (fun t p => p <| p_forward_delay_timer := t |>) elapsed
          (s_forward_delay s) stp_forward_delay_timer_expiry i s)) s) i))
   <= S (level (p_state (port s i))))%nat.
Proof.
  intros Hlen. revert i.
  match goal with |- forall i, _ -> (level (p_state (port ?t i)) <= _)%nat =>
    cut (length (s_ports t) = MAX /\ forall i, (i < MAX)%nat ->
      (level (p_state (port t i)) <= level (p_state (port s i))
         + Nat.b2n (i <? MAX))%nat) end.
  { intros [_ H] i Hi. specialize (H i Hi). destruct (i <? MAX)%nat; cbn [Nat.b2n] in *; lia. }
  apply (for_each_ind (fun k t => length (s_ports t) = MAX /\ forall i,
    (i < MAX)%nat -> (level (p_state (port t i)) <= level (p_state (port s i))
         + Nat.b2n (i <? k))%nat)).
  - split; [done |]. intros. lia.
  - intros k t Hk [Ht Hlev] _.
    destruct (forward_delay_timer_level elapsed (s_forward_delay t) k t)
      as [Hl Hk']; [lia |]. revert Hl Hk'.
    generalize (port_timer p_forward_delay_timer
          (fun t p => p <| p_forward_delay_timer := t |>) elapsed
          (s_forward_delay t) stp_forward_delay_timer_expiry k t). intros u Hl Hu.
    assert (quiet u (port_timer p_hold_timer (fun t p => p <| p_hold_timer := t |>)
       elapsed (ms_to_timer 1000) stp_hold_timer_expiry k u)) as Hq
      by (apply port_timer_quiet; auto with quiet).
    split; [by rewrite (q_length _ _ Hq), (l_length _ _ _ Hl) |].
    intros i Hi. rewrite (quiet_state _ _ Hq). specialize (Hlev i Hi).
    destruct (decide (i = k)) as [->|].
    + destruct (Nat.ltb_spec k k), (Nat.ltb_spec k (S k)); cbn [Nat.b2n] in *; lia.
    + rewrite (local_state _ _ _ Hl) by done.
      destruct (Nat.ltb_spec i k), (Nat.ltb_spec i (S k)); cbn [Nat.b2n] in *; lia.
  - intros k t Hk [Ht Hlev] _. split; [done |]. intros i Hi.
    specialize (Hlev i Hi).
    destruct (Nat.ltb_spec i k), (Nat.ltb_spec i (S k)); cbn [Nat.b2n] in *; lia.
Qed.

Lemma bridge_timer_tame get set elapsed timeout handler s0 s :
  (forall t s, quiet s (set t s)) -> (forall s, quiet s (handler s)) ->
  tame s0 s -> tame s0 (bridge_timer get set elapsed timeout handler s).
Proof.
  intros Hset Hh Hs. etransitivity; [exact Hs |].
  by apply quiet_tame, bridge_timer_quiet.
Qed.

Lemma message_age_timer_tame elapsed timeout i s :
  tame s (port_timer p_message_age_timer
            (fun t p => p <| p_message_age_timer := t |>)
            elapsed timeout stp_message_age_timer_expiry i s).
Proof.
  unfold port_timer. destruct (stp_timer_expired _ _ _) as [[] t]; tame_auto.
Qed.

Lemma run_timers_level elapsed s i :
  length (s_ports s) = MAX -> (i < MAX)%nat ->
  (level (p_state (port (stp_run_timers elapsed s) i))
   <= S (max 1 (level (p_state (port s i)))))%nat.
Proof.
  intros Hlen Hi. unfold stp_run_timers. cbv zeta.
  match goal with |- (level (p_state (port (for_each_enabled_port _ ?t) _)) <= _)%nat
    => assert (tame s t) as Ht end.
  { apply for_each_inv;
      [| intros; etransitivity; [eassumption | apply message_age_timer_tame]].
    apply bridge_timer_tame; [intros; quiet_auto | auto with quiet |].
    apply bridge_timer_tame; [intros; quiet_auto | auto with quiet |].
    apply bridge_timer_tame; [intros; quiet_auto | auto with quiet | done]. }
  etransitivity; [apply forward_delay_loop_level; [apply Ht |]; done |].
  apply le_n_S. by apply Ht.
Qed.

Lemma tick_level ms s i :
  length (s_ports s) = MAX -> (i < MAX)%nat ->
  (level (p_state (port (stp_tick ms s) i))
   <= S (max 1 (level (p_state (port s i)))))%nat.
Proof.
  intros Hlen Hi. unfold stp_tick. cbv zeta. split_if.
  - change (level (p_state (port s i)) <= S (max 1 (level (p_state (port s i)))))%nat.
    lia.
  - set (t := s <| s_elapsed_remainder := _ |>).
    change (port s i) with (port t i). by apply run_timers_level.
Qed.

(** C33: a port cannot jump to forwarding.  Ranking the states disabled and
    blocking 0, listening 1, learning 2, forwarding 3, no call but [stp_tick]
    takes a port beyond listening unless it was already there, and one call of
    [stp_tick], however long, takes a port at most one rank beyond listening or
    beyond the rank that it had, whichever is higher.  So a port that forwards
    after a tick was learning or forwarding before it, while a blocked port may
    come to listen and, in the same long tick, to learn. *)
Theorem stp_forwarding_is_gradual o s i :
  length (s_ports s) = MAX -> (i < MAX)%nat ->
  (level (p_state (port (stp_exec o s) i))
   <= match o with
      | Tick _ => S (max 1 (level (p_state (port s i))))
      | _ => max 1 (level (p_state (port s i)))
      end)%nat.
Proof.
  intros Hlen Hi.
  destruct o; cbn [stp_exec]; try (by apply tick_level);
    unfold stp_set_bridge_id, stp_set_bridge_priority, stp_port_set_speed;
    match goal with |- (level (p_state (port ?t i)) <= _)%nat =>
      assert (tame s t) as Ht by
        (solve [auto with tame nocore | apply quiet_tame; auto with quiet nocore])
    end; by apply Ht.
Qed.

Lemma stp_forwarding_is_gradual_witness :
  length (s_ports example_bridge) = MAX
  /\ p_state (port example_bridge 1) = STP_LISTENING
  /\ (level (p_state (port (stp_exec (Tick 100000) example_bridge) 1)) <= 2)%nat.
Proof.
  split; [by vm_compute | split; [by vm_compute |]].
  apply (stp_forwarding_is_gradual (Tick 100000) example_bridge 1);
    [by vm_compute | vm_compute; lia].
Defined.
