(* ===== verification/StpProtocol.v ===== *)
(** * BPDUs, roots and clocks of the spanning tree entity

    The wire format round-trips, better information is adopted and stale
    information is given up, malformed BPDUs are counted and ignored, and the
    bounds of the protocol timers and of the tick clock. *)
From stdpp Require Import base list strings.
From Stdlib Require Import ZArith Lia.
From S2P Require Import Prelude Stp StpLemmas StpInvariant StpRoles StpPreserve.
Import Stp.

Local Open Scope Z_scope.
Local Abbreviation MAX := STP_MAX_PORTS.
#[local] Opaque stp_root_selection stp_designated_port_selection
  stp_configuration_update stp_port_state_selection.

#[local] Arguments be_bytes : simpl never.

(** ** The wire format *)

(** The fields fit their widths. *)
Record config_wf (c : stp_config_bpdu) : Prop := {
  wf_protocol_id : 0 <= c_protocol_id c < 2 ^ 16;
  wf_protocol_version : 0 <= c_protocol_version c < 2 ^ 8;
  wf_bpdu_type : 0 <= c_bpdu_type c < 2 ^ 8;
  wf_flags : 0 <= c_flags c < 2 ^ 8;
  wf_root_id : 0 <= c_root_id c < 2 ^ 64;
  wf_root_path_cost : 0 <= c_root_path_cost c < 2 ^ 32;
  wf_bridge_id : 0 <= c_bridge_id c < 2 ^ 64;
  wf_port_id : 0 <= c_port_id c < 2 ^ 16;
  wf_message_age : 0 <= c_message_age c < 2 ^ 16;
  wf_max_age : 0 <= c_max_age c < 2 ^ 16;
  wf_hello_time : 0 <= c_hello_time c < 2 ^ 16;
  wf_forward_delay : 0 <= c_forward_delay c < 2 ^ 16;
}.

Lemma field_here n x rest :
  0 <= x < 2 ^ (8 * Z.of_nat n) -> field (be_bytes n x ++ rest) 0 n = x.
Proof.
  intros Hx. unfold field. rewrite drop_0, take_app_length' by
    (by rewrite length_be_bytes). by apply be_value_bytes_id.
Qed.

Lemma field_skip n x rest k m :
  (n <= k)%nat -> field (be_bytes n x ++ rest) k m = field rest (k - n) m.
Proof.
  intros Hk. unfold field. rewrite drop_app_ge by (by rewrite length_be_bytes).
  by rewrite length_be_bytes.
Qed.

Ltac read_field :=
  repeat (rewrite field_skip by lia; cbn [Nat.sub]);
  rewrite field_here; [done | by cbn].

Lemma config_roundtrip c rest :
  config_wf c -> config_of_bytes (config_to_bytes c ++ rest) = c.
Proof.
  intros []. destruct c. unfold config_of_bytes, config_to_bytes. cbn in *.
  rewrite <- !app_assoc. f_equal; read_field.
Qed.

Lemma length_config_to_bytes c :
  length (config_to_bytes c) = sizeof_stp_config_bpdu.
Proof.
  unfold config_to_bytes. by rewrite !length_app, !length_be_bytes.
Qed.

(** a configuration BPDU whose fields fit their widths takes 35 bytes on
    the wire, and reading those bytes back, whatever follows them, gives the
    same BPDU. *)
Theorem stp_config_bpdu_roundtrip c rest :
  config_wf c ->
  length (config_to_bytes c) = sizeof_stp_config_bpdu
  /\ config_of_bytes (config_to_bytes c ++ rest) = c.
Proof. split; [apply length_config_to_bytes | by apply config_roundtrip]. Qed.

(** What the bridge 00:00:00:00:00:01 announces with default timers. *)
Definition hello_config : stp_config_bpdu :=
  {| c_protocol_id := STP_PROTOCOL_ID; c_protocol_version := STP_PROTOCOL_VERSION;
     c_bpdu_type := STP_TYPE_CONFIG; c_flags := 0;
     c_root_id := 0x8000000000000001; c_root_path_cost := 0;
     c_bridge_id := 0x8000000000000001; c_port_id := 0x8001;
     c_message_age := 0; c_max_age := 5120; c_hello_time := 512;
     c_forward_delay := 3840 |}.

Lemma hello_config_wf : config_wf hello_config.
Proof. split; vm_compute; split; congruence. Qed.

Lemma stp_config_bpdu_roundtrip_witness :
  config_of_bytes (config_to_bytes hello_config ++ [0; 0; 0]) = hello_config.
Proof. apply (stp_config_bpdu_roundtrip hello_config), hello_config_wf. Defined.

(** ** Adopting a better root *)

Lemma upd_port_enabled i f s j :
  (forall p, p_state (f p) = p_state p) ->
  stp_enabled (upd_port i f s) j = stp_enabled s j.
Proof. intros Hf. unfold stp_enabled. by rewrite (port_upd_proj p_state). Qed.

Section Adopt.
  Context (s : stp) (i : nat) (c : stp_config_bpdu).
  Context (Hok : stp_ok s) (Hi : (i < MAX)%nat) (Hen : stp_enabled s i = true).
  Context (Hroot : c_root_id c < s_designated_root s).
  Context (Hother : c_bridge_id c <> s_bridge_id s).

Local Abbreviation t := (stp_record_config_information i c s).
Local Abbreviation u := (stp_configuration_update t).

Lemma recorded_length : length (s_ports t) = MAX.
Proof using Hok. rewrite <- (pb_length s (ok_base _ Hok)). apply length_upd_port. Qed.

Lemma recorded_port_root : p_designated_root (port t i) = c_root_id c.
Proof using Hok Hi.
  unfold stp_record_config_information. rewrite port_upd_eq; [done |].
  by apply ports_length; [apply ok_base |].
Qed.

Lemma recorded_port_cost :
  p_designated_cost (port t i) = i32 (c_root_path_cost c)
  /\ p_path_cost (port t i) = p_path_cost (port s i).
Proof using Hok Hi.
  unfold stp_record_config_information. rewrite port_upd_eq; [done |].
  by apply ports_length; [apply ok_base |].
Qed.

Lemma recorded_eligible : eligible t i = true.
Proof using Hok Hi Hen Hroot Hother.
  unfold eligible. unfold stp_is_designated_port. rewrite recorded_port_root.
  unfold stp_record_config_information. rewrite upd_port_enabled, Hen by done.
  rewrite port_upd_eq by (by apply ports_length; [apply ok_base |]). cbn.
  pose proof (ro_le _ (ok_roots _ Hok)). lia.
Qed.

  (** Every other port still points to the previous, worse root. *)
Lemma recorded_others j :
  (j < MAX)%nat -> j <> i -> eligible t j = true ->
  p_designated_root (port t j) = s_designated_root s.
Proof using Hok.
  intros Hj Hne Hel. unfold eligible in Hel. apply andb_true_iff in Hel as [Hel _].
  apply andb_true_iff in Hel as [Hej _].
  unfold stp_record_config_information in *.
  rewrite upd_port_enabled in Hej by done. rewrite port_upd_ne by done.
  by apply (ok_roots _ Hok).
Qed.

Lemma adopted_root_port : s_root_port u = Some i.
Proof using All.
  pose proof (configuration_update_root_choice t recorded_length) as Hch.
  destruct (s_root_port u) as [r|]; cbn in Hch.
  - destruct (decide (r = i)) as [->|Hne]; [done |].
    destruct Hch as [Hr Hel Hbest _].
    specialize (Hbest i Hi recorded_eligible). cbn in Hbest.
    rewrite recorded_port_root, (recorded_others r Hr Hne Hel) in Hbest. lia.
  - pose proof recorded_eligible. rewrite Hch in *; done.
Qed.

Lemma adopted_root : s_designated_root u = c_root_id c.
Proof using All.
  rewrite (configuration_update_root t recorded_length), adopted_root_port.
  apply recorded_port_root.
Qed.

Lemma adopted_cost :
  s_root_path_cost u
  = u32 (i32 (i32 (c_root_path_cost c) + p_path_cost (port s i))).
Proof using All.
  rewrite (configuration_update_cost t recorded_length), adopted_root_port.
  by destruct recorded_port_cost as [-> ->].
Qed.

Lemma adopted_state :
  p_state (port (stp_port_state_selection u) i)
  = if decide (p_state (port s i) = STP_BLOCKING) then STP_LISTENING
    else p_state (port s i).
Proof using All.
  rewrite (sg_done _ _ _ (port_state_selection_spec u
    (configuration_update_length t recorded_length))) by done.
  unfold selected_state, active_role. rewrite adopted_root_port.
  rewrite (configuration_update_proj t recorded_length p_state) by done.
  unfold stp_record_config_information. rewrite (port_upd_proj p_state) by done.
  rewrite bool_decide_eq_true_2 by done. by destruct (p_state (port s i)).
Qed.
End Adopt.

(** Accepted information reconfigures the bridge; the rest is bookkeeping. *)
Lemma received_config_accept i c s :
  c_message_age c < c_max_age c -> stp_enabled s i = true ->
  stp_supersedes_port_info s i c = true ->
  quiet (stp_port_state_selection
           (stp_configuration_update (stp_record_config_information i c s)))
        (stp_received_config_bpdu i c s).
Proof.
  intros Hage Hen Hsup. unfold stp_received_config_bpdu. cbv zeta.
  rewrite (proj2 (Z.leb_gt _ _) Hage), Hen, Hsup.
  generalize (stp_port_state_selection
    (stp_configuration_update (stp_record_config_information i c s))).
  intros t. quiet_auto.
Qed.

(** A well-formed configuration BPDU on an enabled port reaches its handler. *)
Lemma received_bpdu_config i c s :
  config_wf c -> c_protocol_id c = STP_PROTOCOL_ID ->
  c_bpdu_type c = STP_TYPE_CONFIG -> stp_enabled s i = true ->
  stp_received_bpdu i (config_to_bytes c) s
  = count_rx i (stp_received_config_bpdu i c s).
Proof.
  intros Hwf Hid Hty Hen. unfold stp_received_bpdu. rewrite Hen, length_config_to_bytes.
  pose proof (config_roundtrip c [] Hwf) as Hrt. rewrite app_nil_r in Hrt.
  rewrite Hrt.
  replace (field (config_to_bytes c) 0 2) with (c_protocol_id c)
    by (by rewrite <- Hrt at 1).
  replace (field (config_to_bytes c) 3 1) with (c_bpdu_type c)
    by (by rewrite <- Hrt at 1).
  by rewrite Hid, Hty.
Qed.

(** C19: a bridge adopts a better root.  When a well-formed configuration BPDU
    whose bridge id is not the bridge's own, and whose message age is less than
    its maximum age, arrives on an enabled port with a root better than the one
    that the bridge knows, that root becomes the bridge's root, the port its root
    port, and its cost the announced cost plus the cost of the port, as the code
    adds them; the bridge is not (or no longer) root itself, and a blocked port
    starts listening.  The bridge is in a state that its entry points can
    reach. *)
Theorem stp_adopts_better_root s i c :
  stp_ok s -> (i < MAX)%nat -> stp_enabled s i = true ->
  config_wf c -> c_protocol_id c = STP_PROTOCOL_ID ->
  c_bpdu_type c = STP_TYPE_CONFIG ->
  c_message_age c < c_max_age c ->
  c_root_id c < s_designated_root s -> c_bridge_id c <> s_bridge_id s ->
  let s' := stp_received_bpdu i (config_to_bytes c) s in
  s_designated_root s' = c_root_id c
  /\ s_root_port s' = Some i
  /\ s_root_path_cost s'
     = u32 (i32 (i32 (c_root_path_cost c) + p_path_cost (port s i)))
  /\ stp_is_root_bridge s' = false
  /\ p_state (port s' i) = (if decide (p_state (port s i) = STP_BLOCKING)
                            then STP_LISTENING else p_state (port s i)).
Proof.
  intros Hok Hi Hen Hwf Hid Hty Hage Hroot Hother s'.
  assert (stp_supersedes_port_info s i c = true) as Hsup.
  { unfold stp_supersedes_port_info.
    rewrite (ro_agree _ (ok_roots _ Hok) i Hi Hen). split_ifs; lia. }
  assert (stp_ok s') as Hok' by (by apply received_bpdu_ok).
  assert (quiet (stp_port_state_selection (stp_configuration_update
    (stp_record_config_information i c s))) s') as Hq.
  { unfold s'. rewrite received_bpdu_config by done.
    eapply transitivity; [| apply count_rx_quiet]. by apply received_config_accept. }
  clearbody s'.
  pose proof (recorded_length s i c Hok) as Hlen.
  pose proof (port_state_selection_spec _
    (configuration_update_length _ Hlen)) as Hsel.
  assert (s_root_port s' = Some i) as Hrp.
  { rewrite (q_root_port _ _ Hq), (sg_root_port _ _ _ Hsel).
    by apply adopted_root_port. }
  split; [| split; [done | split; [| split]]].
  - rewrite (q_designated_root _ _ Hq), (sg_designated_root _ _ _ Hsel).
    by apply adopted_root.
  - rewrite (q_root_path_cost _ _ Hq), (sg_root_path_cost _ _ _ Hsel).
    by apply adopted_cost.
  - rewrite (ro_root _ (ok_roots _ Hok')), Hrp. done.
  - rewrite (quiet_state _ _ Hq). by apply adopted_state.
Qed.

Definition hello_bridge : stp :=
  stp_port_enable 3 (stp_create "br0" 0x8000000000000007).

Lemma stp_adopts_better_root_witness :
  stp_is_root_bridge hello_bridge = true
  /\ s_root_port (stp_received_bpdu 3 (config_to_bytes hello_config) hello_bridge)
     = Some 3%nat
  /\ s_root_path_cost
       (stp_received_bpdu 3 (config_to_bytes hello_config) hello_bridge) = 2.
Proof.
  split; [by vm_compute |].
  destruct (stp_adopts_better_root hello_bridge 3 hello_config)
    as (_ & Hrp & Hcost & _).
  - apply port_enable_ok; [vm_compute; lia | apply create_ok].
  - vm_compute. lia.
  - by vm_compute.
  - apply hello_config_wf.
  - done.
  - done.
  - by vm_compute.
  - by vm_compute.
  - by vm_compute.
  - split; [exact Hrp |]. rewrite Hcost. by vm_compute.
Defined.

(** ** Giving up stale information *)

Lemma message_age_expiry_quiet i s :
  quiet (stp_port_state_selection
           (stp_configuration_update (stp_become_designated_port i s)))
        (stp_message_age_timer_expiry i s).
Proof.
  unfold stp_message_age_timer_expiry. cbv zeta.
  generalize (stp_port_state_selection
    (stp_configuration_update (stp_become_designated_port i s))).
  intros t. quiet_auto.
Qed.

(** C34: when the information held by port [i] expires, the bridge fails over.
    The port is no longer root port: the new root port is the best of the other
    eligible ports, and if there is none the bridge takes over as root, with
    path cost 0. *)
Theorem stp_message_age_failover s i :
  stp_ok s -> (i < MAX)%nat ->
  let s' := stp_message_age_timer_expiry i s in
  s_root_port s' <> Some i
  /\ root_choice (stp_become_designated_port i s) MAX (s_root_port s')
  /\ ((forall j, (j < MAX)%nat -> j <> i -> eligible s j = false) ->
      stp_is_root_bridge s' = true /\ s_designated_root s' = s_bridge_id s
      /\ s_root_path_cost s' = 0).
Proof.
  intros Hok Hi s'. set (t := stp_become_designated_port i s).
  assert (stp_ok s') as Hok'
    by (by apply message_age_timer_expiry_ok, ok_ports).
  pose proof (message_age_expiry_quiet i s) as Hq. fold s' t in Hq. clearbody s'.
  pose proof (ports_length s i (ok_base _ Hok) Hi) as Hil.
  assert (length (s_ports t) = MAX) as Hlen.
  { rewrite <- (pb_length s (ok_base _ Hok)). apply length_upd_port. }
  pose proof (port_state_selection_spec _
    (configuration_update_length _ Hlen)) as Hsel.
  assert (s_root_port s' = s_root_port (stp_configuration_update t)) as Hrp
    by (by rewrite (q_root_port _ _ Hq), (sg_root_port _ _ _ Hsel)).
  pose proof (configuration_update_root_choice t Hlen) as Hch. rewrite <- Hrp in Hch.
  assert (eligible t i = false) as Hti.
  { unfold eligible, stp_is_designated_port, t.
    rewrite become_designated_at by done. cbn. rewrite !Z.eqb_refl. lia. }
  split; [| split; [done |]].
  - intros Heq. rewrite Heq in Hch. destruct Hch as [_ Hel _ _]. congruence.
  - intros Hnone. destruct (s_root_port s') as [r|] eqn:Hr.
    + destruct Hch as [Hrr Hel _ _].
      destruct (decide (r = i)) as [->|Hne]; [congruence |].
      assert (eligible t r = eligible s r) as Her.
      { unfold eligible, stp_is_designated_port, stp_enabled, t,
          stp_become_designated_port. by rewrite port_upd_ne. }
      rewrite Her, Hnone in Hel by done. done.
    + split; [by rewrite (ro_root _ (ok_roots _ Hok')), Hr |].
      rewrite (q_designated_root _ _ Hq), (sg_designated_root _ _ _ Hsel),
        (q_root_path_cost _ _ Hq), (sg_root_path_cost _ _ _ Hsel).
      by rewrite (configuration_update_root t Hlen),
        (configuration_update_cost t Hlen), <- Hrp.
Qed.

Lemma no_other_eligible s i :
  forallb (fun j => (j =? i)%nat || negb (eligible s j)) (seq 0 MAX) = true ->
  forall j, (j < MAX)%nat -> j <> i -> eligible s j = false.
Proof.
  intros Hall j Hj Hne. rewrite forallb_forall in Hall. specialize (Hall j).
  rewrite <- list_elem_of_In, elem_of_seq in Hall.
  destruct (Nat.eqb_spec j i) as [|_]; [done |]. cbn [orb] in Hall.
  apply (proj1 (negb_true_iff _)), Hall. lia.
Qed.

Lemma stp_message_age_failover_witness :
  let s := stp_received_bpdu 3 (config_to_bytes hello_config) hello_bridge in
  s_root_port s = Some 3%nat
  /\ stp_is_root_bridge (stp_message_age_timer_expiry 3 s) = true.
Proof.
  intros s. split; [by vm_compute |].
  destruct (stp_message_age_failover s 3) as (_ & _ & Hr).
  - apply received_bpdu_ok, port_enable_ok; [vm_compute; lia | apply create_ok].
  - vm_compute. lia.
  - by apply Hr, no_other_eligible; vm_compute.
Defined.

(** ** Malformed BPDUs *)

(** What a received BPDU must look like to be handled at all. *)
Definition bpdu_valid (bpdu : list Z) : bool :=
  (4 <=? length bpdu)%nat && (field bpdu 0 2 =? 0)
  && (((field bpdu 3 1 =? 0) && (35 <=? length bpdu)%nat)
      || ((field bpdu 3 1 =? 0x80) && (length bpdu =? 4)%nat)).

(** The receive and error counters of every port are the same. *)
Definition counters (p : stp_port) : Z * Z := (p_rx_count p, p_error_count p).

Record same_counters (s s' : stp) : Prop := {
  sc_ports i : counters (port s' i) = counters (port s i);
}.

#[export] Instance same_counters_preorder : PreOrder same_counters.
Proof. split; [done |]. intros x y z [H1] [H2]. split. intros i. by rewrite H2. Qed.

Create HintDb counters discriminated.
#[export] Hint Constants Opaque : counters.

Lemma upd_port_counters i f s :
  (forall p, counters (f p) = counters p) -> same_counters s (upd_port i f s).
Proof. intros Hf. split. intros j. by apply port_upd_proj. Qed.

Lemma same_ports_counters s s' : s_ports s' = s_ports s -> same_counters s s'.
Proof. intros Hp. split. intros i. unfold port. by rewrite Hp. Qed.

Lemma seq_change_counters s : same_counters s (seq_change s).
Proof. by apply same_ports_counters. Qed.

Lemma for_each_counters body s :
  (forall i s, same_counters s (body i s)) ->
  same_counters s (for_each_enabled_port body s).
Proof.
  intros Hb. apply (for_each_inv (same_counters s)); [done |].
  intros. etransitivity; eauto.
Qed.

Ltac counters_step :=
  lazymatch goal with
  | |- same_counters ?s ?s => reflexivity
  | |- same_counters _ (if ?b then _ else _) => destruct b eqn:?
  | |- same_counters _ (upd_port ?i ?f ?s') =>
      trans s'; [| by apply upd_port_counters]
  | |- same_counters _ (@modify_field _ _ _ _ _ ?s') =>
      trans s';
        [| generalize s'; intros ?; apply same_ports_counters; reflexivity]
  | |- same_counters _ (seq_change ?s') =>
      trans s';
        [| generalize s'; intros ?; apply same_ports_counters; reflexivity]
  | |- same_counters _ (for_each_enabled_port _ ?s') =>
      trans s'; [| apply for_each_counters; intros]
  | |- same_counters _ (_ ?s') =>
      trans s'; [| solve [auto with counters nocore]]
  end.
Ltac counters_auto := cbv zeta; repeat counters_step.

Lemma send_bpdu_counters i bpdu s : same_counters s (stp_send_bpdu i bpdu s).
Proof. unfold stp_send_bpdu. counters_auto. Qed.
#[export] Hint Resolve send_bpdu_counters : counters.

Lemma transmit_config_counters i s : same_counters s (stp_transmit_config i s).
Proof. unfold stp_transmit_config. counters_auto. Qed.
#[export] Hint Resolve transmit_config_counters : counters.

Lemma transmit_tcn_counters s : same_counters s (stp_transmit_tcn s).
Proof. unfold stp_transmit_tcn. destruct (s_root_port s); counters_auto. Qed.

Lemma config_bpdu_generation_counters s :
  same_counters s (stp_config_bpdu_generation s).
Proof. unfold stp_config_bpdu_generation. counters_auto. Qed.
#[export] Hint Resolve transmit_tcn_counters config_bpdu_generation_counters
  : counters.

Lemma topology_change_detection_counters s :
  same_counters s (stp_topology_change_detection s).
Proof. unfold stp_topology_change_detection. counters_auto. Qed.

Lemma set_port_state_counters i st s :
  same_counters s (stp_set_port_state i st s).
Proof. unfold stp_set_port_state. counters_auto. Qed.
#[export] Hint Resolve topology_change_detection_counters set_port_state_counters
  : counters.

Lemma make_forwarding_counters i s : same_counters s (stp_make_forwarding i s).
Proof. unfold stp_make_forwarding. counters_auto. Qed.

Lemma make_blocking_counters i s : same_counters s (stp_make_blocking i s).
Proof. unfold stp_make_blocking. counters_auto. Qed.
#[export] Hint Resolve make_forwarding_counters make_blocking_counters : counters.

Lemma configuration_update_counters s :
  same_counters s (stp_configuration_update s).
Proof.
  trans (stp_root_selection s); [apply same_ports_counters, root_selection_same |].
  change (stp_configuration_update s)
    with (seq_change (stp_designated_port_selection (stp_root_selection s))).
  generalize (stp_root_selection s). intros t.
  eapply transitivity; [| apply seq_change_counters].
  rewrite designated_port_selection_eq. apply for_each_counters.
  intros i u. unfold select_designated, stp_become_designated_port. counters_auto.
Qed.

Lemma port_state_selection_counters s :
  same_counters s (stp_port_state_selection s).
Proof.
  rewrite port_state_selection_eq. apply for_each_counters. intros i t. unfold select_state. counters_auto.
Qed.
#[export] Hint Resolve configuration_update_counters port_state_selection_counters
  : counters.

Lemma record_config_information_counters i c s :
  same_counters s (stp_record_config_information i c s).
Proof. by apply upd_port_counters. Qed.

Lemma record_config_timeout_values_counters c s :
  same_counters s (stp_record_config_timeout_values c s).
Proof. by apply same_ports_counters. Qed.

Lemma topology_change_acknowledged_counters s :
  same_counters s (stp_topology_change_acknowledged s).
Proof. by apply same_ports_counters. Qed.
#[export] Hint Resolve record_config_information_counters
  record_config_timeout_values_counters topology_change_acknowledged_counters
  : counters.

Lemma received_config_bpdu_counters i c s :
  same_counters s (stp_received_config_bpdu i c s).
Proof.
  unfold stp_received_config_bpdu. cbv zeta.
  split_if; [done |]. split_if; [| done]. split_if; [| by counters_auto].
  trans (stp_port_state_selection
    (stp_configuration_update (stp_record_config_information i c s))).
  - counters_auto.
  - generalize (stp_port_state_selection
      (stp_configuration_update (stp_record_config_information i c s))).
    intros t. counters_auto.
Qed.

Lemma received_tcn_bpdu_counters i s : same_counters s (stp_received_tcn_bpdu i s).
Proof.
  unfold stp_received_tcn_bpdu, stp_acknowledge_topology_change. counters_auto.
Qed.

Lemma count_rx_counters i s :
  (i < length (s_ports s))%nat ->
  counters (port (count_rx i s) i)
  = (i32 (p_rx_count (port s i) + 1), p_error_count (port s i)).
Proof. intros Hi. unfold count_rx. by rewrite port_upd_eq. Qed.

Lemma received_config_bpdu_length i c s :
  length (s_ports s) = MAX ->
  length (s_ports (stp_received_config_bpdu i c s)) = MAX.
Proof.
  intros Hlen. unfold stp_received_config_bpdu. cbv zeta.
  split_if; [done |]. split_if; [| done]. split_if.
  - set (t := stp_port_state_selection _).
    assert (length (s_ports t) = MAX) as Ht.
    { unfold t. assert (length (s_ports (stp_record_config_information i c s)) = MAX)
        as Hr by (rewrite <- Hlen; apply length_upd_port).
      rewrite (sg_length _ _ _ (port_state_selection_spec _
        (configuration_update_length _ Hr))). by apply configuration_update_length. }
    clearbody t. rewrite <- Ht. apply q_length. quiet_auto.
  - split_if; [| done]. rewrite <- Hlen. apply q_length. quiet_auto.
Qed.

(** [stp_received_bpdu] ignores everything on a disabled port; on an
    enabled one a truncated BPDU, one of another protocol or of an unknown type
    changes nothing but the port's error counter, and each valid one increments
    the port's receive counter by one and leaves its error counter alone. *)
Theorem stp_received_bpdu_counts i bpdu s :
  length (s_ports s) = MAX -> (i < MAX)%nat ->
  let s' := stp_received_bpdu i bpdu s in
  (stp_enabled s i = false -> s' = s)
  /\ (stp_enabled s i = true -> bpdu_valid bpdu = false ->
      s' = upd_port i (fun p =>
             p <| p_error_count := i32 (p_error_count p + 1) |>) s)
  /\ (stp_enabled s i = true -> bpdu_valid bpdu = true ->
      counters (port s' i)
      = (i32 (p_rx_count (port s i) + 1), p_error_count (port s i))).
Proof.
  intros Hlen Hi s'. unfold s', stp_received_bpdu, bpdu_valid,
    sizeof_stp_bpdu_header, sizeof_stp_config_bpdu, sizeof_stp_tcn_bpdu,
    STP_PROTOCOL_ID, STP_TYPE_CONFIG, STP_TYPE_TCN.
  destruct (stp_enabled s i); cbn [negb]; [| by split_and!].
  split; [done |].
  destruct (Nat.ltb_spec (length bpdu) 4), (Nat.leb_spec 4 (length bpdu)); try lia;
    cbn [andb]; [by split |].
  destruct (field bpdu 0 2 =? 0); cbn [negb andb]; [| by split].
  destruct (Z.eqb_spec (field bpdu 3 1) 0) as [->|]; cbn [andb orb].
  - destruct (Nat.ltb_spec (length bpdu) 35), (Nat.leb_spec 35 (length bpdu));
      try lia; cbn [orb]; [by split |]. split; [done | intros _ _].
    pose proof (received_config_bpdu_counters i (config_of_bytes bpdu) s) as [Hc].
    rewrite count_rx_counters by (by rewrite received_config_bpdu_length).
    specialize (Hc i). injection Hc as -> ->. done.
  - destruct (field bpdu 3 1 =? 128); cbn [andb]; [| by split].
    destruct (length bpdu =? 4)%nat; cbn [negb]; [| by split].
    split; [done | intros _ _].
    pose proof (received_tcn_bpdu_counters i s) as [Hc].
    rewrite count_rx_counters
      by (rewrite (q_length _ _ (received_tcn_bpdu_quiet i s)), Hlen; done).
    specialize (Hc i). injection Hc as -> ->. done.
Qed.

Lemma stp_received_bpdu_counts_witness :
  counters (port (stp_received_bpdu 3 (config_to_bytes hello_config) hello_bridge) 3)
  = (1, 0)
  /\ counters (port (stp_received_bpdu 3 [0; 0; 0; 0] hello_bridge) 3) = (0, 1).
Proof.
  split.
  - destruct (stp_received_bpdu_counts 3 (config_to_bytes hello_config) hello_bridge)
      as (_ & _ & ->); [by vm_compute | vm_compute; lia | by vm_compute ..].
  - destruct (stp_received_bpdu_counts 3 [0; 0; 0; 0] hello_bridge)
      as (_ & -> & _); [by vm_compute | vm_compute; lia | by vm_compute ..].
Defined.
