(* ===== verification/StpClock.v ===== *)
(** * Timers, clock and change reports of the spanning tree entity *)
From stdpp Require Import base list strings.
From Stdlib Require Import ZArith Lia.
From S2P Require Import Prelude Stp StpLemmas StpInvariant StpPreserve.
Import Stp.

Local Open Scope Z_scope.
Local Abbreviation MAX := STP_MAX_PORTS.

(** ** Milliseconds and ticks *)

Lemma ms_to_timer_eq ms :
  0 <= ms <= 8388607 -> ms_to_timer ms = ms * 256 / 1000.
Proof.
  intros Hms. unfold ms_to_timer. rewrite i32_id; [apply Z.quot_div_nonneg; lia |].
  unfold is_int, INT_MIN, INT_MAX. lia.
Qed.

Lemma timer_to_ms_eq t :
  0 <= t <= 2147483 -> timer_to_ms t = t * 1000 / 256.
Proof.
  intros Ht. unfold timer_to_ms. rewrite i32_id; [apply Z.quot_div_nonneg; lia |].
  unfold is_int, INT_MIN, INT_MAX. lia.
Qed.

(** ** Bridge timers *)

Lemma clamp_range x lo hi : lo <= hi -> lo <= clamp x lo hi <= hi.
Proof. intros H. unfold clamp. split_ifs; lia. Qed.

(** Whatever times were requested, [stp_update_bridge_timers] settles on a
    hello time of 1 to 10 s, a maximum age of 6 to 40 s and a forward delay of 4
    to 30 s (in 1/256 s ticks), the maximum age is at least twice the hello time
    plus one second, and twice the forward delay less one second covers the
    maximum age up to the rounding to ticks; a root bridge uses its own values. *)
Theorem stp_bridge_timers_bounds s :
  let s' := stp_update_bridge_timers s in
  256 <= s_bridge_hello_time s' <= 2560
  /\ 1536 <= s_bridge_max_age s' <= 10240
  /\ 1024 <= s_bridge_forward_delay s' <= 7680
  /\ 2 * (s_bridge_hello_time s' + 256) <= s_bridge_max_age s'
  /\ s_bridge_max_age s' <= 2 * (s_bridge_forward_delay s' - 256) + 2
  /\ (stp_is_root_bridge s = true ->
      s_max_age s' = s_bridge_max_age s'
      /\ s_hello_time s' = s_bridge_hello_time s'
      /\ s_forward_delay s' = s_bridge_forward_delay s').
Proof.
  intros s'.
  set (ht := clamp (s_rq_hello_time s) 1000 10000).
  set (ma := clamp (s_rq_max_age s) (Z.max (2 * (ht + 1000)) 6000) 40000).
  set (fd := clamp (s_rq_forward_delay s) (Z.quot ma 2 + 1000) 30000).
  assert (1000 <= ht <= 10000) as Hht by (apply clamp_range; lia).
  assert (Z.max (2 * (ht + 1000)) 6000 <= ma <= 40000) as Hma
    by (apply clamp_range; lia).
  assert (Z.quot ma 2 + 1000 <= fd <= 30000) as Hfd by (apply clamp_range; div_lia).
  assert (s_bridge_hello_time s' = ms_to_timer ht
          /\ s_bridge_max_age s' = ms_to_timer ma
          /\ s_bridge_forward_delay s' = ms_to_timer fd
          /\ (stp_is_root_bridge s = true ->
              s_max_age s' = s_bridge_max_age s'
              /\ s_hello_time s' = s_bridge_hello_time s'
              /\ s_forward_delay s' = s_bridge_forward_delay s'))
    as (-> & -> & -> & Hroot).
  { unfold s', stp_update_bridge_timers. cbv zeta. fold ht ma fd.
    clearbody ht ma fd.
    change (stp_is_root_bridge (s <| s_bridge_hello_time := ms_to_timer ht |>
      <| s_bridge_max_age := ms_to_timer ma |>
      <| s_bridge_forward_delay := ms_to_timer fd |>)) with (stp_is_root_bridge s).
    by destruct (stp_is_root_bridge s). }
  clearbody ht ma fd.
  rewrite !ms_to_timer_eq in * by div_lia. split_and!; try done; div_lia.
Qed.

Lemma stp_bridge_timers_bounds_witness :
  s_max_age (stp_update_bridge_timers (zero_stp "br0"))
  = s_bridge_max_age (stp_update_bridge_timers (zero_stp "br0")).
Proof.
  destruct (stp_bridge_timers_bounds (zero_stp "br0")) as (_ & _ & _ & _ & _ & H).
  exact (proj1 (H eq_refl)).
Defined.

(** The documented relation itself can fail by a tick once rounded: a requested
    maximum age of 6.007 s gives 1537 ticks, and the smallest forward delay then
    allowed gives 2 * (1024 - 256) = 1536. *)
Lemma bridge_timers_round_down :
  let s := stp_set_forward_delay 0 (stp_set_max_age 6007 (stp_create "br0" 1)) in
  s_bridge_max_age s = 1537 /\ 2 * (s_bridge_forward_delay s - 256) = 1536.
Proof. by vm_compute. Qed.

(** ** The clock *)

(** The clock.  As long as no more than 8388607 ms (about 2 h 20 min) are
    accounted for in one call, [stp_tick] runs the timers for the whole number of
    1/256 s ticks contained in the time that passed plus the remainder, and the
    new remainder stays within 0 to 4 ms; ticks and remainder together never fall
    short of the time that passed, and exceed it by less than a millisecond. *)
Theorem stp_tick_clock ms s :
  0 <= ms -> 0 <= s_elapsed_remainder s <= 4 ->
  ms + s_elapsed_remainder s <= 8388607 ->
  exists elapsed rem,
    (elapsed = 0 -> stp_tick ms s = s <| s_elapsed_remainder := rem |>)
    /\ (elapsed <> 0 ->
        stp_tick ms s = stp_run_timers elapsed (s <| s_elapsed_remainder := rem |>))
    /\ elapsed = (ms + s_elapsed_remainder s) * 256 / 1000
    /\ 0 <= rem <= 4
    /\ 256 * (ms + s_elapsed_remainder s) <= 1000 * elapsed + 256 * rem
       < 256 * (ms + s_elapsed_remainder s) + 256.
Proof.
  intros Hms Hrem Htotal. unfold stp_tick. cbv zeta.
  assert (clamp ms 0 (INT_MAX - 1000) = ms) as ->
    by (unfold clamp, INT_MAX; split_ifs; lia).
  rewrite (i32_id (ms + _)) by (unfold is_int, INT_MIN, INT_MAX; lia).
  set (m := ms + s_elapsed_remainder s) in *.
  assert (0 <= m) as Hm by lia. clearbody m.
  rewrite ms_to_timer_eq by lia. rewrite timer_to_ms_eq by div_lia.
  rewrite (i32_id (m - _)) by (unfold is_int, INT_MIN, INT_MAX; div_lia).
  exists (m * 256 / 1000), (m - m * 256 / 1000 * 1000 / 256).
  split; [intros ->; reflexivity |].
  split; [intros Hne; by rewrite (proj2 (Z.eqb_neq _ _) Hne) |].
  split; [done |]. div_lia.
Qed.

Lemma stp_tick_clock_witness :
  stp_tick 1000 (zero_stp "br0")
  = stp_run_timers 256 (zero_stp "br0" <| s_elapsed_remainder := 0 |>).
Proof.
  destruct (stp_tick_clock 1000 (zero_stp "br0")) as (e & r & _ & Heq & He & Hr & Hb);
    [lia | by vm_compute | by vm_compute |].
  change (s_elapsed_remainder (zero_stp "br0")) with 0 in He, Hb.
  assert (e = 256) as -> by (rewrite He; reflexivity).
  assert (r = 0) as -> by lia.
  by apply Heq.
Defined.

(** Beyond that the multiplication in [ms_to_timer] overflows although
    [stp_tick] accepts up to [INT_MAX - 1000] ms: after one call with 8388608 ms
    the timers are run backwards. *)
Theorem stp_tick_overflow s :
  s_elapsed_remainder s = 0 ->
  stp_tick 8388608 s
  = stp_run_timers (-2147483) (s <| s_elapsed_remainder := 16777213 |>).
Proof.
  intros Hrem. unfold stp_tick. cbv zeta. rewrite Hrem. reflexivity.
Qed.

Lemma stp_tick_overflow_witness :
  stp_tick 8388608 (zero_stp "br0")
  = stp_run_timers (-2147483) (zero_stp "br0" <| s_elapsed_remainder := 16777213 |>).
Proof. exact (stp_tick_overflow (zero_stp "br0") eq_refl). Defined.

(** ** Change reports *)

(** [while ((sp = stp_get_changed_port(stp))) { ... }], the ports reported. *)
Fixpoint drain (fuel : nat) (s : stp) : list nat * stp :=
  match fuel with
  | O => ([], s)
  | S fuel =>
      match stp_get_changed_port s with
      | (Some i, s') => let '(l, s'') := drain fuel s' in (i :: l, s'')
      | (None, s') => ([], s')
      end
  end.

Definition changed_from (s : stp) (k : nat) : list nat :=
  List.filter (fun i => p_state_changed (port s i)) (seq k (MAX - k)).

Lemma filter_none {A} (f : A -> bool) l :
  (forall x, In x l -> f x = false) -> List.filter f l = [].
Proof.
  induction l as [|x l IH]; intros Hf; cbn; [done |].
  rewrite Hf by (by left). apply IH. intros. apply Hf. by right.
Qed.

(** Skipping ports that are not marked. *)
Lemma changed_from_skip s k i :
  (k <= i < MAX)%nat ->
  (forall j, (k <= j < i)%nat -> p_state_changed (port s j) = false) ->
  p_state_changed (port s i) = true ->
  changed_from s k = i :: changed_from s (S i).
Proof.
  intros Hi Hlow Hc. unfold changed_from.
  replace (MAX - k)%nat with ((i - k) + S (MAX - S i))%nat by lia.
  rewrite seq_app, List.filter_app. replace (k + (i - k))%nat with i by lia.
  rewrite filter_none; [cbn [seq List.filter app]; by rewrite Hc |].
  intros j Hj%in_seq. apply Hlow. lia.
Qed.

Lemma changed_from_none s k :
  (forall j, (k <= j < MAX)%nat -> p_state_changed (port s j) = false) ->
  changed_from s k = [].
Proof. intros H. apply filter_none. intros j Hj%in_seq. apply H. lia. Qed.

Lemma changed_from_ext s s' k :
  (forall j, (k <= j < MAX)%nat ->
     p_state_changed (port s' j) = p_state_changed (port s j)) ->
  changed_from s' k = changed_from s k.
Proof. intros H. apply filter_ext_in. intros j Hj%in_seq. apply H. lia. Qed.

(** Ports below [k] already reported, [fuel] enough for the others. *)
Lemma drain_from fuel k s :
  stp_ok s -> (MAX < k + fuel)%nat ->
  (forall j, (j < k)%nat -> p_state_changed (port s j) = false) ->
  fst (drain fuel s) = changed_from s k
  /\ forall i, (i < MAX)%nat ->
     p_state_changed (port (snd (drain fuel s)) i) = false.
Proof.
  revert k s. induction fuel as [|fuel IH]; intros k s Hok Hfuel Hlow.
  { cbn [drain fst snd]. split; [| intros; apply Hlow; lia]. symmetry. apply changed_from_none. lia. }
  cbn [drain]. pose proof (get_changed_port_spec s (ok_base _ Hok)) as Hg.
  pose proof (get_changed_port_ok s Hok) as Hok'.
  destruct (stp_get_changed_port s) as [[i|] s']; cbn [snd] in Hok'.
  - destruct Hg as (Hi & Hc & Hbelow & Hs').
    assert (k <= i)%nat as Hki.
    { destruct (decide (k <= i)%nat); [done |]. rewrite Hlow in Hc by lia. done. }
    assert (forall j, j <> i -> p_state_changed (port s' j)
                                = p_state_changed (port s j)) as Hother.
    { intros j Hj. rewrite Hs'. change (p_state_changed (port (upd_port i (fun p =>
        p <| p_state_changed := false |>) s) j) = p_state_changed (port s j)).
      by rewrite port_upd_ne. }
    assert (p_state_changed (port s' i) = false) as Hci.
    { rewrite Hs'. change (p_state_changed (port (upd_port i (fun p =>
        p <| p_state_changed := false |>) s) i) = false).
      rewrite port_upd_eq; [done |]. by rewrite (pb_length s (ok_base _ Hok)). }
    clear Hs'. destruct (IH (S i) s') as [Hfst Hsnd]; [done | lia | |].
    + intros j Hj. destruct (decide (j = i)) as [->|]; [done |].
      rewrite Hother by done. apply Hbelow. lia.
    + destruct (drain fuel s') as [l s'']. cbn [fst snd] in *. split; [| done].
      rewrite (changed_from_skip s k i) by (auto with lia).
      rewrite Hfst. f_equal. apply changed_from_ext. intros. apply Hother. lia.
  - destruct Hg as [Hnone ->]. cbn [fst snd]. split; [| done].
    symmetry. apply changed_from_none. intros. apply Hnone. lia.
Qed.

(** A client that calls [stp_get_changed_port] until it returns no port
    sees exactly the ports whose state changed, each once and in increasing
    order, and leaves none marked. *)
Theorem stp_changed_ports_reported s :
  stp_ok s ->
  fst (drain (S MAX) s) = List.filter (fun i => p_state_changed (port s i)) (seq 0 MAX)
  /\ forall i, (i < MAX)%nat ->
     p_state_changed (port (snd (drain (S MAX) s)) i) = false.
Proof.
  intros Hok. generalize (drain_from (S MAX) 0 s Hok). generalize (drain (S MAX) s).
  intros [l t] Hd. destruct Hd as [Hl Ht]; [lia | lia |]. split; [| done].
  rewrite Hl. unfold changed_from. replace (MAX - 0)%nat with MAX by lia. reflexivity.
Qed.

Lemma stp_changed_ports_reported_witness :
  let s := stp_port_enable 7 (stp_port_enable 3 (stp_create "br0" 1)) in
  fst (drain (S MAX) s)
  = List.filter (fun i => p_state_changed (port s i)) (seq 0 MAX).
Proof.
  intros s. apply stp_changed_ports_reported. apply port_enable_ok; [vm_compute; lia |].
  apply port_enable_ok; [vm_compute; lia | apply create_ok].
Defined.
