(* ===== verification/Strings.v ===== *)
(** * Strings of bytes

    Characters and lemmas on strings that the components share, and decimal
    numbers as [%lld] and [str] print them. *)

From stdpp Require Import base option list strings.
From Stdlib Require Import ZArith Lia Ascii DecimalString.
From S2P Require Import Prelude.

Local Open Scope Z_scope.
Local Open Scope string_scope.

Definition dquote : Ascii.ascii := Ascii.ascii_of_N 34.
Definition squote : Ascii.ascii := Ascii.ascii_of_N 39.
Definition backslash : Ascii.ascii := Ascii.ascii_of_N 92.

Definition newline : ascii := ascii_of_N 10.

Fixpoint has_char (c : Ascii.ascii) (s : string) : bool :=
  match s with
  | EmptyString => false
  | String d s => Ascii.eqb c d || has_char c s
  end.

Fixpoint str_all (f : ascii -> bool) (s : string) : bool :=
  match s with
  | EmptyString => true
  | String c s => f c && str_all f s
  end.

Lemma str_all_app f s t : str_all f (s +:+ t) = str_all f s && str_all f t.
Proof.
  induction s as [| c s IH]; simpl; [done |]. by rewrite IH, andb_assoc.
Qed.

Lemma str_all_impl (f g : ascii -> bool) s :
  (forall c, f c = true -> g c = true) -> str_all f s = true -> str_all g s = true.
Proof.
  intros H. induction s as [| c s IH]; simpl; [done |].
  intros [Hc Hs]%andb_true_iff. by rewrite (H c Hc), IH.
Qed.

Lemma app_assoc_str (a b c : string) : (a +:+ b) +:+ c = a +:+ (b +:+ c).
Proof. induction a as [| x a IH]; [done |]. exact (f_equal (String x) IH). Qed.

Lemma app_nil_str (a : string) : a +:+ EmptyString = a.
Proof. induction a as [| x a IH]; [done |]. exact (f_equal (String x) IH). Qed.

Lemma app_cons_str c (s t : string) : String c s +:+ t = String c (s +:+ t).
Proof. done. Qed.

Lemma app_empty_str (t : string) : EmptyString +:+ t = t.
Proof. done. Qed.

(** Concatenations to the right, characters in front *)
Ltac str_simpl :=
  repeat first [rewrite app_assoc_str | rewrite app_cons_str | rewrite app_empty_str].

Lemma string_length_app s t :
  String.length (s +:+ t) = (String.length s + String.length t)%nat.
Proof. induction s; simpl; [done |]. by f_equal. Qed.

(** ** Decimal numbers *)

Definition str_int (z : Z) : string := NilZero.string_of_int (Z.to_int z).

Definition num_char (c : ascii) : bool :=
  has_char c "-0123456789".

Lemma uint_num_chars u : str_all num_char (NilEmpty.string_of_uint u) = true.
Proof. induction u; simpl; by rewrite ?IHu. Qed.

Lemma str_int_chars z : str_all num_char (str_int z) = true.
Proof.
  unfold str_int, NilZero.string_of_int. destruct (Z.to_int z) as [u | u]; simpl;
    unfold NilZero.string_of_uint; destruct u; simpl; by rewrite ?uint_num_chars.
Qed.

Lemma str_int_nonempty z : str_int z <> EmptyString.
Proof.
  unfold str_int, NilZero.string_of_int. destruct (Z.to_int z) as [u | u]; [| done].
  unfold NilZero.string_of_uint. by destruct u.
Qed.

Lemma num_char_inv c (P : ascii -> bool) :
  str_all P "-0123456789" = true -> num_char c = true -> P c = true.
Proof.
  unfold num_char. intros HP Hc. simpl in HP, Hc.
  repeat match goal with
  | H : _ && _ = true |- _ => apply andb_true_iff in H as [? H]
  | H : _ || _ = true |- _ => apply orb_true_iff in H as [H | H]
  end; try done; apply Ascii.eqb_eq in Hc; by subst.
Qed.
