(* ===== verification/CString.v ===== *)
(** * C strings and characters

    The functions of the C library on characters, in the C locale, C strings as
    strings without a null byte, and digits as the components read and print
    them. *)

From stdpp Require Import base option list strings.
From Stdlib Require Import ZArith Lia Ascii.
From Stdlib Require Import DecimalString DecimalPos DecimalN DecimalFacts.
From S2P Require Import Prelude Strings.

Local Open Scope Z_scope.
Local Open Scope string_scope.

(** ** Characters *)

Definition code (c : ascii) : Z := Z.of_N (N_of_ascii c).
Definition chr (z : Z) : ascii := ascii_of_N (Z.to_N z).

Definition isdigit (c : ascii) : bool := (48 <=? code c)%Z && (code c <=? 57)%Z.
Definition islower (c : ascii) : bool := (97 <=? code c)%Z && (code c <=? 122)%Z.
Definition isalpha (c : ascii) : bool :=
  islower c || (65 <=? code c)%Z && (code c <=? 90)%Z.
Definition isprint (c : ascii) : bool := (32 <=? code c)%Z && (code c <=? 126)%Z.

(** The C string in a buffer *)
Fixpoint ds_cstr (s : string) : string :=
  match s with
  | EmptyString => EmptyString
  | String c s => if Z.eqb (code c) 0 then EmptyString else String c (ds_cstr s)
  end.

(** [strchr(set, c)]: also finds the null byte at the end of [set]. *)
Definition strchr (set : string) (c : ascii) : bool :=
  Z.eqb (code c) 0 || has_char c set.

Definition first_is (f : ascii -> bool) (s : string) : bool :=
  match s with String c _ => f c | EmptyString => false end.

Definition str_tail (s : string) : string :=
  match s with String _ s => s | EmptyString => EmptyString end.

Definition no_nul (s : string) : bool := str_all (fun c => negb (Z.eqb (code c) 0)) s.

Lemma ds_cstr_no_nul s : no_nul (ds_cstr s) = true.
Proof.
  induction s as [| c s IH]; [done |]. unfold no_nul in *. cbn [ds_cstr].
  destruct (Z.eqb (code c) 0) eqn:Hc; [done |]. cbn [str_all]. by rewrite Hc.
Qed.

Lemma ds_cstr_id s : no_nul s = true -> ds_cstr s = s.
Proof.
  induction s as [| c s IH]; [done |]. intros [Hc Hs]%andb_true_iff. cbn [ds_cstr].
  apply negb_true_iff in Hc. rewrite Hc. by rewrite IH.
Qed.

Lemma has_char_app c s t : has_char c (s +:+ t) = has_char c s || has_char c t.
Proof. induction s as [| d s IH]; simpl; [done |]. by rewrite IH, orb_assoc. Qed.

(** ** Hexadecimal digits *)

Definition hexit_value (c : ascii) : Z :=
  let x := code c in
  if (48 <=? x)%Z && (x <=? 57)%Z then x - 48
  else if (97 <=? x)%Z && (x <=? 102)%Z then x - 97 + 10
  else if (65 <=? x)%Z && (x <=? 70)%Z then x - 65 + 10
  else -1.

(** [None] where [*ok] is set to false *)
Fixpoint hexits_value (value : Z) (s : string) : option Z :=
  match s with
  | EmptyString => Some value
  | String c s =>
      let hexit := hexit_value c in
      if (hexit <? 0)%Z then None
      else hexits_value (u64 (Z.shiftl value 4 + hexit)) s
  end.

Definition lower_hexit (d : Z) : ascii := if (d <? 10)%Z then chr (48 + d) else chr (87 + d).

(** ** Digits *)

(** The value of [u] after the digits that make [acc] *)
Fixpoint digits_value (acc : Z) (u : Decimal.uint) : Z :=
  match u with
  | Decimal.Nil => acc
  | Decimal.D0 u => digits_value (acc * 10 + 0) u
  | Decimal.D1 u => digits_value (acc * 10 + 1) u
  | Decimal.D2 u => digits_value (acc * 10 + 2) u
  | Decimal.D3 u => digits_value (acc * 10 + 3) u
  | Decimal.D4 u => digits_value (acc * 10 + 4) u
  | Decimal.D5 u => digits_value (acc * 10 + 5) u
  | Decimal.D6 u => digits_value (acc * 10 + 6) u
  | Decimal.D7 u => digits_value (acc * 10 + 7) u
  | Decimal.D8 u => digits_value (acc * 10 + 8) u
  | Decimal.D9 u => digits_value (acc * 10 + 9) u
  end.

Abbreviation digits := NilEmpty.string_of_uint.

Lemma digits_value_ge acc u : 0 <= acc -> acc <= digits_value acc u.
Proof.
  revert acc. induction u as [| u IH | u IH | u IH | u IH | u IH | u IH | u IH | u IH | u IH
    | u IH]; intros acc H; cbn [digits_value]; [lia |..];
    (etransitivity; [| apply IH]; lia).
Qed.

(** A digit in front of others *)
Lemma digits_cons u :
  u = Decimal.Nil \/
  exists c u', digits u = String c (digits u') /\ isdigit c = true /\
    0 <= code c - 48 <= 9 /\
    (forall acc, digits_value acc u = digits_value (acc * 10 + (code c - 48)) u') /\
    (Ascii.eqb "0"%char c = true <-> exists v, u = Decimal.D0 v) /\
    Decimal.nb_digits u = S (Decimal.nb_digits u').
Proof.
  assert (forall acc v u d, code d - 48 = v ->
    digits_value (acc * 10 + v) u = digits_value (acc * 10 + (code d - 48)) u) as Hv
    by congruence.
  destruct u as [| u | u | u | u | u | u | u | u | u | u]; [by left | right..];
    (eexists _, u; split; [reflexivity |]; split; [done |]; split; [done |];
     split; [intros; cbn [digits_value]; apply Hv; reflexivity |];
     split; [split; [by eauto | by intros [? ?]] | done]).
Qed.

Lemma digits_first_digit u : u <> Decimal.Nil -> forall rest,
  first_is isdigit (digits u +:+ rest) = true.
Proof.
  intros Hu rest. destruct (digits_cons u) as [| (c & u' & Ht & Hd & _)]; [done |].
  by rewrite Ht.
Qed.

Lemma of_uint_acc_value u p : Z.pos (Pos.of_uint_acc u p) = digits_value (Z.pos p) u.
Proof.
  revert p. induction u as [| u IH | u IH | u IH | u IH | u IH | u IH | u IH | u IH | u IH
    | u IH]; intros p; cbn [Pos.of_uint_acc digits_value]; [done |..];
    rewrite IH; f_equal; lia.
Qed.

Lemma of_uint_value u : Z.of_N (Pos.of_uint u) = digits_value 0 u.
Proof.
  induction u as [| u IH | u _ | u _ | u _ | u _ | u _ | u _ | u _ | u _ | u _];
    cbn [Pos.of_uint digits_value]; [done | done |..]; apply of_uint_acc_value.
Qed.

Lemma to_uint_value p : digits_value 0 (Pos.to_uint p) = Z.pos p.
Proof. by rewrite <- of_uint_value, DecimalPos.Unsigned.of_to. Qed.

Lemma to_uint_leading p u : Pos.to_uint p <> Decimal.D0 u.
Proof.
  intros H. pose proof (DecimalPos.Unsigned.of_to p) as Hof.
  pose proof (DecimalN.Unsigned.to_of (Pos.to_uint p)) as Hto. unfold N.of_uint in Hto.
  rewrite Hof in Hto. cbn [N.to_uint] in Hto. rewrite H in Hto, Hof.
  unfold Decimal.unorm in Hto. cbn [Decimal.nzhead] in Hto.
  destruct (Decimal.nzhead u) eqn:Hn; try done.
  - injection Hto as ->. done.
  - by apply (DecimalFacts.nzhead_nonzero u u0).
Qed.

Lemma str_int_digits z :
  0 <= z -> exists u, str_int z = digits u /\ u <> Decimal.Nil /\ digits_value 0 u = z /\
    (forall v, u = Decimal.D0 v -> v = Decimal.Nil).
Proof.
  intros Hz. destruct z as [| p | p]; [| | lia].
  - exists (Decimal.D0 Decimal.Nil). split; [done |]. split; [done |]. split; [done |].
    by intros v [= <-].
  - exists (Pos.to_uint p). pose proof (DecimalPos.Unsigned.to_uint_nonnil p) as Hn.
    split; [| split; [done | split; [apply to_uint_value |]]].
    + unfold str_int, NilZero.string_of_int, NilZero.string_of_uint. cbn.
      by destruct (Pos.to_uint p).
    + intros v H. by apply to_uint_leading in H.
Qed.

Lemma digits_all (f : ascii -> bool) u :
  (forall c, isdigit c = true -> f c = true) -> str_all f (digits u) = true.
Proof.
  intros Hf. remember (Decimal.nb_digits u) as n eqn:Hn. revert u Hn.
  induction n as [| n IH]; intros u Hn;
    destruct (digits_cons u) as [-> | (c & u' & -> & Hd & _ & _ & _ & Hnb)]; try done; [lia |].
  cbn [str_all]. rewrite (Hf c Hd), IH by lia. done.
Qed.

(** A property of small numbers, checked for all of them *)
Lemma range_check (n : nat) (P : Z -> bool) b :
  forallb P (map Z.of_nat (seq 0 n)) = true -> 0 <= b < Z.of_nat n -> P b = true.
Proof.
  intros H Hb. rewrite forallb_forall in H. apply H. apply in_map_iff.
  exists (Z.to_nat b). split; [lia |]. apply in_seq. lia.
Qed.
