(* ===== verification/Binary64.v ===== *)
(** * Binary64 floating point numbers

    IEEE 754 binary64 arithmetic as the code uses it, through [double] in C and
    [float] in Python. *)

From stdpp Require Import base option list strings.
From Stdlib Require Import ZArith Lia.
From Stdlib Require SpecFloat.
From S2P Require Import Prelude.

Local Open Scope Z_scope.

Module Float.
Import SpecFloat.

Definition float : Type := spec_float.

Definition of_Z (z : Z) : float := binary_normalize 53 1024 z 0 false.
Definition zero : float := S754_zero false.
Definition add : float -> float -> float := SFadd 53 1024.
Definition sub : float -> float -> float := SFsub 53 1024.
Definition mul : float -> float -> float := SFmul 53 1024.
Definition div : float -> float -> float := SFdiv 53 1024.
Definition eqb : float -> float -> bool := SFeqb.
Definition leb : float -> float -> bool := SFleb.
Definition ltb : float -> float -> bool := SFltb.

(** [a / b] for integers, [b] positive: the nearest number to the quotient *)
Definition round_quotient (s : bool) (a b : positive) : float :=
  let '(m, e, l) := SFdiv_core_binary 53 1024 (Zpos a) 0 (Zpos b) 0 in
  binary_round_aux 53 1024 s m e l.
Definition int_div (a : Z) (b : positive) : float :=
  match a with
  | Z0 => zero
  | Zpos a => round_quotient false a b
  | Zneg a => round_quotient true a b
  end.

(** [max(a, b)] *)
Definition max (a b : float) : float := if ltb a b then b else a.

(** The integer nearest to [m * 2 ^ e], the even one of two *)
Definition nearest_integer (m : positive) (e : Z) : Z :=
  if 0 <=? e then Zpos m * 2 ^ e
  else
    let d := 2 ^ (- e) in
    let q := Zpos m / d in
    match (2 * (Zpos m mod d)) ?= d with
    | Lt => q
    | Gt => q + 1
    | Eq => if Z.even q then q else q + 1
    end.

(** [int(x)] of a finite number *)
Definition trunc (x : float) : Z :=
  match x with
  | S754_finite s m e =>
      let q := if 0 <=? e then Zpos m * 2 ^ e else Zpos m / 2 ^ (- e) in
      if s then - q else q
  | _ => 0
  end.

(** [round(x, 3)]: the number nearest to [x] among those of three decimals,
    and then the float nearest to it *)
Definition round3 (x : float) : float :=
  match x with
  | S754_finite s m e =>
      match nearest_integer (m * 1000) e with
      | Zpos q => round_quotient s q 1000
      | _ => S754_zero s
      end
  | _ => x
  end.

(** Not below zero, a NaN included *)
Definition nonneg (x : float) : Prop :=
  match x with
  | S754_infinity s | S754_finite s _ _ => s = false
  | _ => True
  end.

Lemma binary_round_nonneg m e l : nonneg (binary_round_aux 53 1024 false m e l).
Proof.
  unfold binary_round_aux.
  destruct (shr_fexp _ _ m e l) as [mrs e'].
  destruct (shr_fexp _ _ _ e' loc_Exact) as [mrs' e''].
  destruct (shr_m mrs') ; simpl; [done | by destruct (e'' <=? _) | done].
Qed.

Lemma round_quotient_nonneg a b : nonneg (round_quotient false a b).
Proof.
  unfold round_quotient.
  destruct (SFdiv_core_binary _ _ _ _ _ _) as [[m e] l].
  apply binary_round_nonneg.
Qed.

Lemma round3_nonneg x : nonneg x -> nonneg (round3 x).
Proof.
  destruct x as [s | s | | s m e]; simpl; try done. intros ->.
  destruct (nearest_integer _ _); try done. apply round_quotient_nonneg.
Qed.

Lemma max_zero_nonneg x : nonneg (max x zero).
Proof.
  unfold max, ltb, SFltb, zero.
  destruct x as [s | s | | s m e]; simpl; try done; by destruct s.
Qed.
End Float.

Abbreviation float := Float.float.
