(* ===== verification/OvsJson.v ===== *)
(** * JSON: src/ovs/lib/json.c

    JSON values, the incremental parser and the serializer that OVSDB speaks
    with, and what they use of unicode.c, util.c, dynamic-string.c and shash.c.

    A value is a tree: [struct json] values have one owner here, and reference
    counts are not modelled.  An object is the list of its members; the order in
    which [SHASH_FOR_EACH] visits them is the parameter [ShashOrder].  The
    storage of arrays and strings is the subject of [OvsJsonArray].

    The parser is the record [json_parser].  Its stack holds the open containers;
    the code links a new container into its parent when it is opened and fills it
    afterwards, the model when it is closed, under the name that the parent was
    given then.  A null pointer, an access below the stack and [OVS_NOT_REACHED]
    are [None].  Bytes are [ascii]; [ds_cstr] cuts a buffer at a null byte as the
    code that reads it as a C string does. *)

From stdpp Require Import base option list strings sorting.
From Stdlib Require Import ZArith Lia Ascii.
From S2P Require Import Prelude Strings CString Binary64.

Local Open Scope Z_scope.
Local Open Scope string_scope.

Module OvsJson.

(** ** Values *)

Inductive json :=
| JSON_NULL
| JSON_FALSE
| JSON_TRUE
| JSON_OBJECT (members : list (string * json))
| JSON_ARRAY (elements : list json)
| JSON_INTEGER (integer : Z)
| JSON_REAL (real : float)
| JSON_STRING (str : string)
| JSON_SERIALIZED_OBJECT (str : string).

(** [json_object_put]: the member is replaced where it is there. *)
Fixpoint json_object_put {A} (l : list (string * A)) (name : string) (value : A) :
    list (string * A) :=
  match l with
  | [] => [(name, value)]
  | (k, v) :: l =>
      if String.eqb k name then (k, value) :: l
      else (k, v) :: json_object_put l name value
  end.

Fixpoint shash_find {A} (l : list (string * A)) (name : string) : option A :=
  match l with
  | [] => None
  | (k, v) :: l => if String.eqb k name then Some v else shash_find l name
  end.

(** [json_equal] of values; that a value equals itself if it is the same object
    is not visible here, except for a real number that is not a number. *)
Fixpoint json_equal (a b : json) : bool :=
  match a, b with
  | JSON_OBJECT la, JSON_OBJECT lb =>
      (length la =? length lb)%nat &&
      forallb (fun '(k, v) => match shash_find lb k with
                              | Some w => json_equal v w
                              | None => false
                              end) la
  | JSON_ARRAY la, JSON_ARRAY lb =>
      (fix equal_array la lb :=
         match la, lb with
         | [], [] => true
         | x :: la, y :: lb => json_equal x y && equal_array la lb
         | _, _ => false
         end) la lb
  | JSON_STRING s, JSON_STRING t => String.eqb s t
  | JSON_SERIALIZED_OBJECT s, JSON_SERIALIZED_OBJECT t => String.eqb s t
  | JSON_NULL, JSON_NULL | JSON_FALSE, JSON_FALSE | JSON_TRUE, JSON_TRUE => true
  | JSON_INTEGER x, JSON_INTEGER y => Z.eqb x y
  | JSON_REAL x, JSON_REAL y => Float.eqb x y
  | _, _ => false
  end.

(** ** UTF-8 *)

Definition utf8_bytes (l : list Z) : string :=
  foldr (fun z s => String (chr (u8 z)) s) EmptyString l.

Definition continuation (z : Z) : Z := Z.lor 128 (Z.land z 63).

(** What [ds_put_utf8] appends *)
Definition ds_put_utf8 (uc : Z) : string :=
  let encode uc :=
    if (uc <=? 127)%Z then [uc]
    else if (uc <=? 2047)%Z then [Z.lor 192 (Z.shiftr uc 6); continuation uc]
    else if (uc <=? 65535)%Z then
      [Z.lor 224 (Z.shiftr uc 12); continuation (Z.shiftr uc 6); continuation uc]
    else [Z.lor 240 (Z.shiftr uc 18); continuation (Z.shiftr uc 12);
          continuation (Z.shiftr uc 6); continuation uc] in
  utf8_bytes (encode (if (uc <=? 1114111)%Z then uc else 65533)).

Definition uc_is_leading_surrogate (c : Z) : bool := (55296 <=? c)%Z && (c <=? 56319)%Z.
Definition uc_is_trailing_surrogate (c : Z) : bool := (56320 <=? c)%Z && (c <=? 57343)%Z.

Definition utf16_decode_surrogate_pair (leading trailing : Z) : Z :=
  let w := Z.land (Z.shiftr leading 6) 15 in
  let u := w + 1 in
  let x0 := Z.land leading 63 in
  let x1 := Z.land trailing 1023 in
  Z.lor (Z.lor (Z.shiftl u 16) (Z.shiftl x0 10)) x1.

(** ** Strings *)

(** Four digits and what follows them; [inl] is an error. *)
Definition json_lex_4hex (s : string) : string + (Z * string) :=
  match s with
  | String a (String b (String c (String d rest))) =>
      match hexits_value 0 (String a (String b (String c (String d EmptyString)))) with
      | None => inl "malformed \u escape"
      | Some value =>
          if Z.eqb value 0 then inl "null bytes not supported in quoted strings"
          else inr (value, rest)
      end
  | _ => inl "quoted string ends within \u escape"
  end.

Definition json_lex_unicode (s : string) : string + (string * string) :=
  match json_lex_4hex s with
  | inl e => inl e
  | inr (c0, s) =>
      if negb (uc_is_leading_surrogate c0) then inr (ds_put_utf8 c0, s)
      else
        match s with
        | String c (String d s) =>
            if negb (Ascii.eqb c backslash) || negb (Ascii.eqb d "u"%char)
            then inl "malformed escaped surrogate pair"
            else
              match json_lex_4hex s with
              | inl e => inl e
              | inr (c1, s) =>
                  if negb (uc_is_trailing_surrogate c1)
                  then inl "second half of escaped surrogate pair is not trailing surrogate"
                  else inr (ds_put_utf8 (utf16_decode_surrogate_pair c0 c1), s)
              end
        | _ => inl "malformed escaped surrogate pair"
        end
  end.

(** [json_string_unescape]; every iteration takes a byte, so that the length of
    the string is fuel enough.  [None] stands for running out of it. *)
Fixpoint unescape_from (fuel : nat) (out s : string) : option (string + string) :=
  match fuel with
  | O => None
  | S fuel =>
      let put c s := unescape_from fuel (out +:+ String c EmptyString) s in
      match s with
      | EmptyString => Some (inr out)
      | String c s =>
          if Ascii.eqb c dquote then
            Some (inl ("quoted string may not include unescaped "
                       +:+ String dquote EmptyString))
          else if negb (Ascii.eqb c backslash) then put c s
          else
            match s with
            | EmptyString => Some (inl "quoted string may not end with backslash")
            | String e s =>
                if Ascii.eqb e dquote || Ascii.eqb e backslash || Ascii.eqb e "/"%char
                then put e s
                else if Ascii.eqb e "b"%char then put (chr 8) s
                else if Ascii.eqb e "f"%char then put (chr 12) s
                else if Ascii.eqb e "n"%char then put (chr 10) s
                else if Ascii.eqb e "r"%char then put (chr 13) s
                else if Ascii.eqb e "t"%char then put (chr 9) s
                else if Ascii.eqb e "u"%char then
                  match json_lex_unicode s with
                  | inl error => Some (inl error)
                  | inr (text, s) => unescape_from fuel (out +:+ text) s
                  end
                else Some (inl ("bad escape " +:+ String backslash (String e EmptyString)))
            end
      end
  end.

Definition json_string_unescape (s : string) : option (string + string) :=
  unescape_from (S (String.length s)) EmptyString s.

Definition chars_escaping (c : ascii) : string :=
  let short e := String backslash (String e EmptyString) in
  let x := code c in
  if Z.eqb x 8 then short "b"%char
  else if Z.eqb x 9 then short "t"%char
  else if Z.eqb x 10 then short "n"%char
  else if Z.eqb x 12 then short "f"%char
  else if Z.eqb x 13 then short "r"%char
  else if (x <? 32)%Z then
    String backslash ("u00" +:+ String (lower_hexit (x / 16))
                                  (String (lower_hexit (x mod 16)) EmptyString))
  else if Ascii.eqb c dquote then short dquote
  else if Ascii.eqb c backslash then short backslash
  else String c EmptyString.

(** What [json_serialize_string] writes between the quotes: runs of characters
    that need no escape are copied, the others go through the table. *)
Fixpoint escape_chars (s : string) : string :=
  match s with
  | EmptyString => EmptyString
  | String c s =>
      (if (32 <=? code c)%Z && negb (Ascii.eqb c dquote) && negb (Ascii.eqb c backslash)
       then String c EmptyString else chars_escaping c) +:+ escape_chars s
  end.

Definition json_serialize_string (s : string) : string :=
  String dquote (escape_chars (ds_cstr s) +:+ String dquote EmptyString).

(** ** Numbers *)

Inductive json_token :=
| T_BEGIN_ARRAY | T_END_ARRAY | T_BEGIN_OBJECT | T_END_OBJECT
| T_NAME_SEPARATOR | T_VALUE_SEPARATOR
| T_FALSE | T_NULL | T_TRUE
| T_INTEGER (integer : Z) | T_REAL (real : float) | T_STRING (string_ : string).

(** The C library: [strtod] with the rest of the string and [errno], and the
    conversion [%.*g] with [DBL_DIG] *)
Inductive errno := E_OK | EINVAL | ERANGE.

Class Libc := {
  strtod : string -> float * string * errno;
  printf_g : float -> string;
}.

Definition ULLONG_MAX : Z := 18446744073709551615.
Definition LLONG_MAX : Z := 9223372036854775807.
Definition INT_MAX : Z := 2147483647.
Definition INT_MIN : Z := -2147483648.

Section Lexer.
Context {HL : Libc}.

Definition str_to_double (s : string) : option float :=
  let '(d, tail, e) := strtod s in
  let erange := match e with ERANGE => negb (Float.eqb d Float.zero) | _ => false end in
  let einval := match e with EINVAL => true | _ => false end in
  if einval || erange || String.eqb tail s || negb (String.eqb tail EmptyString)
  then None else Some d.

(** The digits of the integer part: the significand, the power of ten that was
    dropped, whether a digit was lost, and the rest *)
Fixpoint integer_digits (significand pow10 : Z) (imprecise : bool) (s : string) :
    Z * Z * bool * string :=
  match s with
  | String c s' =>
      if isdigit c then
        if (significand <=? ULLONG_MAX / 10)%Z
        then integer_digits (u64 (significand * 10 + (code c - 48))) pow10 imprecise s'
        else integer_digits significand (pow10 + 1)
               (imprecise || negb (Ascii.eqb c "0"%char)) s'
      else (significand, pow10, imprecise, s)
  | EmptyString => (significand, pow10, imprecise, s)
  end.

Fixpoint fraction_digits (significand pow10 : Z) (imprecise : bool) (s : string) :
    Z * Z * bool * string :=
  match s with
  | String c s' =>
      if isdigit c then
        if (significand <=? ULLONG_MAX / 10)%Z
        then fraction_digits (u64 (significand * 10 + (code c - 48))) (pow10 - 1)
               imprecise s'
        else fraction_digits significand pow10
               (imprecise || negb (Ascii.eqb c "0"%char)) s'
      else (significand, pow10, imprecise, s)
  | EmptyString => (significand, pow10, imprecise, s)
  end.

(** [None] is [bad_exponent]. *)
Fixpoint exponent_digits (exponent : Z) (s : string) : option (Z * string) :=
  match s with
  | String c s' =>
      if isdigit c then
        if (INT_MAX / 10 <=? exponent)%Z then None
        else exponent_digits (exponent * 10 + (code c - 48)) s'
      else Some (exponent, s)
  | EmptyString => Some (exponent, s)
  end.

(** The optional exponent applied to [pow10] *)
Definition lex_exponent (pow10 : Z) (s : string) : string + (Z * string) :=
  if first_is (fun c => Ascii.eqb c "e"%char || Ascii.eqb c "E"%char) s then
    let s := str_tail s in
    let negative := first_is (Ascii.eqb "-"%char) s in
    let s := if first_is (fun c => Ascii.eqb c "+"%char || Ascii.eqb c "-"%char) s
             then str_tail s else s in
    if negb (first_is isdigit s) then inl "exponent must contain at least one digit"
    else
      match exponent_digits 0 s with
      | None => inl "exponent outside valid range"
      | Some (exponent, s) =>
          if negative then
            if (pow10 <? INT_MIN + exponent)%Z then inl "exponent outside valid range"
            else inr (pow10 - exponent, s)
          else
            if (INT_MAX - exponent <? pow10)%Z then inl "exponent outside valid range"
            else inr (pow10 + exponent, s)
      end
  else inr (pow10, s).

(** The two loops that bring [pow10] to 0.  A significand that is not 0 can be
    multiplied or divided by ten 20 times at most. *)
Fixpoint scale_up (fuel : nat) (significand pow10 : Z) : Z * Z :=
  match fuel with
  | O => (significand, pow10)
  | S fuel =>
      if (0 <? pow10)%Z && (significand <? ULLONG_MAX / 10)%Z
      then scale_up fuel (significand * 10) (pow10 - 1) else (significand, pow10)
  end.

Fixpoint scale_down (fuel : nat) (significand pow10 : Z) : Z * Z :=
  match fuel with
  | O => (significand, pow10)
  | S fuel =>
      if (pow10 <? 0)%Z && Z.eqb (significand mod 10) 0
      then scale_down fuel (significand / 10) (pow10 + 1) else (significand, pow10)
  end.

(** The token for a number that was read without an error *)
Definition number_token (text : string) (negative : bool) (significand pow10 : Z)
    (imprecise : bool) : string + json_token :=
  let real :=
    match str_to_double text with
    | None => inl "number outside valid range"
    | Some d => inr (T_REAL (if Float.eqb d Float.zero then Float.zero else d))
    end in
  if Z.eqb significand 0 then inr (T_INTEGER 0)
  else if imprecise then real
  else
    let '(significand, pow10) := scale_up 20 significand pow10 in
    let '(significand, pow10) := scale_down 20 significand pow10 in
    if Z.eqb pow10 0 &&
       (significand <=? (if negative then LLONG_MAX + 1 else LLONG_MAX))%Z
    then inr (T_INTEGER (if negative then - significand else significand))
    else real.

Definition json_lex_number (text : string) : string + json_token :=
  let negative := first_is (Ascii.eqb "-"%char) text in
  let s := if negative then str_tail text else text in
  let integer_part :=
    if first_is (Ascii.eqb "0"%char) s then
      if first_is isdigit (str_tail s) then inl "leading zeros not allowed"
      else inr (0, 0, false, str_tail s)
    else if first_is isdigit s then inr (integer_digits 0 0 false s)
    else inl "'-' must be followed by digit" in
  match integer_part with
  | inl e => inl e
  | inr (significand, pow10, imprecise, s) =>
      let fraction :=
        if first_is (Ascii.eqb "."%char) s then
          if negb (first_is isdigit (str_tail s))
          then inl "decimal point must be followed by digit"
          else inr (fraction_digits significand pow10 imprecise (str_tail s))
        else inr (significand, pow10, imprecise, s) in
      match fraction with
      | inl e => inl e
      | inr (significand, pow10, imprecise, s) =>
          match lex_exponent pow10 s with
          | inl e => inl e
          | inr (pow10, s) =>
              if negb (String.eqb s EmptyString) then inl "syntax error in number"
              else number_token text negative significand pow10 imprecise
          end
      end
  end.

Definition json_lex_keyword (s : string) : string + json_token :=
  if String.eqb s "false" then inr T_FALSE
  else if String.eqb s "true" then inr T_TRUE
  else if String.eqb s "null" then inr T_NULL
  else inl ("invalid keyword '" +:+ s +:+ "'").

(** [json_lex_string]; [None] if the unescaping ran out of fuel *)
Definition json_lex_string (raw : string) : option (string + json_token) :=
  if negb (has_char backslash raw) then Some (inr (T_STRING raw))
  else
    match json_string_unescape raw with
    | None => None
    | Some (inl e) => Some (inl e)
    | Some (inr cooked) => Some (inr (T_STRING (ds_cstr cooked)))
    end.
End Lexer.

(** ** The parser *)

Inductive json_lex_state :=
| JSON_LEX_START | JSON_LEX_NUMBER | JSON_LEX_KEYWORD | JSON_LEX_STRING
| JSON_LEX_ESCAPE.

Inductive json_parse_state :=
| JSON_PARSE_START | JSON_PARSE_END
| JSON_PARSE_OBJECT_INIT | JSON_PARSE_OBJECT_NAME | JSON_PARSE_OBJECT_COLON
| JSON_PARSE_OBJECT_VALUE | JSON_PARSE_OBJECT_NEXT
| JSON_PARSE_ARRAY_INIT | JSON_PARSE_ARRAY_VALUE | JSON_PARSE_ARRAY_NEXT.

(** An open container; an object with an open member has its name. *)
Inductive container :=
| Object (members : list (string * json)) (open : option string)
| Array (elements : list json).

Definition JSON_MAX_HEIGHT : nat := 1000.

(** The top of the stack is its head; [height] is its length. *)
Record json_parser := Parser {
  trailer : bool;
  lex_state : json_lex_state;
  buffer : string;
  line_number : Z;
  column_number : Z;
  byte_number : Z;
  parse_state : json_parse_state;
  stack : list container;
  member_name : option string;
  done : bool;
  error : option string;
}.

#[export] Instance rebuild_parser : Rebuild json_parser := fun p =>
  Parser (trailer p) (lex_state p) (buffer p) (line_number p) (column_number p)
    (byte_number p) (parse_state p) (stack p) (member_name p) (done p) (error p).

Definition json_parser_create (trailer : bool) : json_parser :=
  Parser trailer JSON_LEX_START EmptyString 0 0 0 JSON_PARSE_START [] None false None.

Definition json_error (msg : string) (p : json_parser) : json_parser :=
  match error p with
  | Some _ => p
  | None =>
      p <| error := Some ("line " +:+ str_int (line_number p) +:+ ", column "
             +:+ str_int (column_number p) +:+ ", byte "
             +:+ str_int (byte_number p) +:+ ": " +:+ msg) |>
        <| done := true |>
  end.

Definition json_parser_put_value (value : json) (p : json_parser) :
    option json_parser :=
  match stack p with
  | Object l open :: st =>
      name ← member_name p;
      Some (p <| stack := Object (json_object_put l name value) open :: st |>
              <| member_name := None |>)
  | Array l :: st => Some (p <| stack := Array (l ++ [value]) :: st |>)
  | [] => None
  end.

Definition json_parser_push (new : container) (new_state : json_parse_state)
    (p : json_parser) : option json_parser :=
  if (length (stack p) <? JSON_MAX_HEIGHT)%nat then
    parents ←
      match stack p with
      | Object l _ :: st => name ← member_name p; Some (Object l (Some name) :: st)
      | st => Some st
      end;
    Some (p <| stack := new :: parents |> <| member_name := None |>
            <| parse_state := new_state |>)
  else Some (json_error "input exceeds maximum nesting depth 1000" p).

Definition json_parser_push_object : json_parser -> option json_parser :=
  json_parser_push (Object [] None) JSON_PARSE_OBJECT_INIT.
Definition json_parser_push_array : json_parser -> option json_parser :=
  json_parser_push (Array []) JSON_PARSE_ARRAY_INIT.

Definition scalar (token : json_token) : option json :=
  match token with
  | T_FALSE => Some JSON_FALSE
  | T_NULL => Some JSON_NULL
  | T_TRUE => Some JSON_TRUE
  | T_INTEGER z => Some (JSON_INTEGER z)
  | T_REAL d => Some (JSON_REAL d)
  | T_STRING s => Some (JSON_STRING s)
  | _ => None
  end.

Definition json_parse_value (token : json_token) (next_state : json_parse_state)
    (p : json_parser) : option json_parser :=
  match token with
  | T_BEGIN_OBJECT => json_parser_push_object p
  | T_BEGIN_ARRAY => json_parser_push_array p
  | _ =>
      match scalar token with
      | None => Some (json_error "syntax error expecting value" p)
      | Some value =>
          p ← json_parser_put_value value p;
          Some (p <| parse_state := next_state |>)
      end
  end.

Definition closed (c : container) : json :=
  match c with Object l _ => JSON_OBJECT l | Array l => JSON_ARRAY l end.

Definition json_parser_pop (p : json_parser) : option json_parser :=
  match stack p with
  | [] => None
  | [_] =>
      let p := p <| parse_state := JSON_PARSE_END |> in
      Some (if trailer p then p else p <| done := true |>)
  | top :: Array l :: st =>
      Some (p <| stack := Array (l ++ [closed top]) :: st |>
              <| parse_state := JSON_PARSE_ARRAY_NEXT |>)
  | top :: Object l open :: st =>
      name ← open;
      Some (p <| stack := Object (json_object_put l name (closed top)) None :: st |>
              <| parse_state := JSON_PARSE_OBJECT_NEXT |>)
  end.

(** The switch of [json_parser_input] *)
Definition object_name (token : json_token) (p : json_parser) : json_parser :=
  match token with
  | T_STRING s =>
      p <| member_name := Some s |> <| parse_state := JSON_PARSE_OBJECT_COLON |>
  | _ => json_error "syntax error parsing object expecting string" p
  end.

Definition parse_token (token : json_token) (p : json_parser) : option json_parser :=
  match parse_state p with
  | JSON_PARSE_START =>
      match token with
      | T_BEGIN_OBJECT => json_parser_push_object p
      | T_BEGIN_ARRAY => json_parser_push_array p
      | _ => Some (json_error "syntax error at beginning of input" p)
      end
  | JSON_PARSE_END => Some (json_error "trailing garbage at end of input" p)
  | JSON_PARSE_OBJECT_INIT =>
      match token with
      | T_END_OBJECT => json_parser_pop p
      | _ => Some (object_name token p)
      end
  | JSON_PARSE_OBJECT_NAME => Some (object_name token p)
  | JSON_PARSE_OBJECT_COLON =>
      match token with
      | T_NAME_SEPARATOR => Some (p <| parse_state := JSON_PARSE_OBJECT_VALUE |>)
      | _ => Some (json_error "syntax error parsing object expecting ':'" p)
      end
  | JSON_PARSE_OBJECT_VALUE => json_parse_value token JSON_PARSE_OBJECT_NEXT p
  | JSON_PARSE_OBJECT_NEXT =>
      match token with
      | T_VALUE_SEPARATOR => Some (p <| parse_state := JSON_PARSE_OBJECT_NAME |>)
      | T_END_OBJECT => json_parser_pop p
      | _ => Some (json_error "syntax error expecting '}' or ','" p)
      end
  | JSON_PARSE_ARRAY_INIT =>
      match token with
      | T_END_ARRAY => json_parser_pop p
      | _ => json_parse_value token JSON_PARSE_ARRAY_NEXT p
      end
  | JSON_PARSE_ARRAY_VALUE => json_parse_value token JSON_PARSE_ARRAY_NEXT p
  | JSON_PARSE_ARRAY_NEXT =>
      match token with
      | T_VALUE_SEPARATOR => Some (p <| parse_state := JSON_PARSE_ARRAY_VALUE |>)
      | T_END_ARRAY => json_parser_pop p
      | _ => Some (json_error "syntax error expecting ']' or ','" p)
      end
  end.

Definition json_parser_input (token : json_token) (p : json_parser) :
    option json_parser :=
  p ← parse_token token p;
  Some (p <| lex_state := JSON_LEX_START |> <| buffer := EmptyString |>).

(** What a lexer function does with its token or error *)
Definition lexed (r : string + json_token) (p : json_parser) : option json_parser :=
  match r with
  | inl e => Some (json_error e p)
  | inr token => json_parser_input token p
  end.

(** [n++] on an [int], wrapped where C has undefined behaviour *)
Definition int_succ (n : Z) : Z := i32 (n + 1).

Definition json_parser_account_byte (c : ascii) (p : json_parser) : json_parser :=
  let p := p <| byte_number ::= int_succ |> in
  if Ascii.eqb c newline
  then p <| column_number := 0 |> <| line_number ::= int_succ |>
  else p <| column_number ::= int_succ |>.

Section Parser.
Context {HL : Libc}.

Definition punctuation (c : ascii) : option json_token :=
  if Ascii.eqb c "["%char then Some T_BEGIN_ARRAY
  else if Ascii.eqb c "{"%char then Some T_BEGIN_OBJECT
  else if Ascii.eqb c "]"%char then Some T_END_ARRAY
  else if Ascii.eqb c "}"%char then Some T_END_OBJECT
  else if Ascii.eqb c ":"%char then Some T_NAME_SEPARATOR
  else if Ascii.eqb c ","%char then Some T_VALUE_SEPARATOR
  else None.

Definition is_json_space (c : ascii) : bool :=
  Ascii.eqb c " "%char || Z.eqb (code c) 9 || Z.eqb (code c) 10 || Z.eqb (code c) 13.

(** [%04x] of a byte *)
Definition hex4 (z : Z) : string :=
  "00" +:+ String (lower_hexit (z / 16)) (String (lower_hexit (z mod 16)) EmptyString).
Definition upper_hexit (d : Z) : ascii := if (d <? 10)%Z then chr (48 + d) else chr (55 + d).
Definition HEX4 (z : Z) : string :=
  "00" +:+ String (upper_hexit (z / 16)) (String (upper_hexit (z mod 16)) EmptyString).

(** One iteration of the loop of [json_parser_feed] on the byte [c] in state
    [JSON_LEX_START].  [tok] is the text from [token_start] to the current byte;
    the result has the text with this byte if it is part of the token. *)
Definition feed_start (c : ascii) (tok : string) (p : json_parser) :
    option (json_parser * string) :=
  let here := String c EmptyString in
  if is_json_space c then Some (p, EmptyString)
  else if islower c then Some (p <| lex_state := JSON_LEX_KEYWORD |>, here)
  else
    match punctuation c with
    | Some token => p ← json_parser_input token p; Some (p, EmptyString)
    | None =>
        if Ascii.eqb c "-"%char || isdigit c
        then Some (p <| lex_state := JSON_LEX_NUMBER |>, here)
        else if Ascii.eqb c dquote
        then Some (p <| lex_state := JSON_LEX_STRING |>, EmptyString)
        else Some (json_error (if isprint c then "invalid character '" +:+ here +:+ "'"
                               else "invalid character U+" +:+ hex4 (code c)) p,
                   tok +:+ here)
    end.

(** The iteration in any state; [false] if the byte is to be read again *)
Definition feed_byte (c : ascii) (tok : string) (p : json_parser) :
    option (json_parser * string * bool) :=
  let longer := tok +:+ String c EmptyString in
  let ended := p <| buffer ::= fun b => b +:+ tok |> in
  match lex_state p with
  | JSON_LEX_START => '(p, tok) ← feed_start c tok p; Some (p, tok, true)
  | JSON_LEX_KEYWORD =>
      if negb (isalpha c) then
        p ← lexed (json_lex_keyword (ds_cstr (buffer ended))) ended;
        Some (p, tok, false)
      else Some (p, longer, true)
  | JSON_LEX_NUMBER =>
      if negb (strchr ".0123456789eE-+" c) then
        p ← lexed (json_lex_number (ds_cstr (buffer ended))) ended;
        Some (p, tok, false)
      else Some (p, longer, true)
  | JSON_LEX_STRING =>
      if Ascii.eqb c backslash then Some (p <| lex_state := JSON_LEX_ESCAPE |>, longer, true)
      else if Ascii.eqb c dquote then
        r ← json_lex_string (ds_cstr (buffer ended));
        p ← lexed r ended;
        Some (p, longer, true)
      else if (code c <? 32)%Z then
        Some (json_error ("U+" +:+ HEX4 (code c) +:+ " must be escaped in quoted string") p,
              longer, true)
      else Some (p, longer, true)
  | JSON_LEX_ESCAPE => Some (p <| lex_state := JSON_LEX_STRING |>, longer, true)
  end.

(** The loop.  A byte that ended a number or a keyword is read again, now in
    state [JSON_LEX_START], unless there was an error. *)
Fixpoint feed_loop (tok : string) (p : json_parser) (input : string) :
    option (json_parser * string * string) :=
  match input with
  | EmptyString => Some (p, tok, input)
  | String c rest =>
      if done p then Some (p, tok, input)
      else
        match feed_byte c tok p with
        | None => None
        | Some (p, tok, true) => feed_loop tok (json_parser_account_byte c p) rest
        | Some (p, tok, false) =>
            if done p then Some (p, tok, input)
            else
              match feed_start c tok p with
              | None => None
              | Some (p, tok) => feed_loop tok (json_parser_account_byte c p) rest
              end
        end
  end.

(** [json_parser_feed] and the number of bytes it took *)
Definition json_parser_feed (input : string) (p : json_parser) :
    option (json_parser * nat) :=
  '(p, tok, rest) ← feed_loop EmptyString p input;
  let n := (String.length input - String.length rest)%nat in
  Some (if done p then p else p <| buffer ::= fun b => b +:+ tok |>, n).

Definition json_parser_finish (p : json_parser) : option json :=
  p ←
    match lex_state p with
    | JSON_LEX_START => Some p
    | JSON_LEX_STRING | JSON_LEX_ESCAPE =>
        Some (json_error "unexpected end of input in quoted string" p)
    | JSON_LEX_NUMBER | JSON_LEX_KEYWORD => fst <$> json_parser_feed " " p
    end;
  let p :=
    match parse_state p with
    | JSON_PARSE_START => json_error "empty input stream" p
    | JSON_PARSE_END => p
    | _ => json_error "unexpected end of input" p
    end in
  match error p with
  | Some e => Some (JSON_STRING e)
  | None => match stack p with [c] => Some (closed c) | _ => None end
  end.

Definition json_from_string (s : string) : option json :=
  '(p, _) ← json_parser_feed (ds_cstr s) (json_parser_create true);
  json_parser_finish p.

(** [json_from_stream], for the chunks that [fread] returned, all not empty and
    without an error of the stream *)
Fixpoint feed_chunks (chunks : list string) (p : json_parser) : option json_parser :=
  match chunks with
  | [] => Some p
  | chunk :: chunks =>
      '(p, n) ← json_parser_feed chunk p;
      if (n =? String.length chunk)%nat then feed_chunks chunks p else Some p
  end.

Definition json_from_stream (chunks : list string) : option json :=
  p ← feed_chunks chunks (json_parser_create true);
  json_parser_finish p.
End Parser.

(** ** The serializer *)

(** The order in which a hash table is visited, given the names in it *)
Class ShashOrder := shash_order : list string -> list string.
Class ShashOrderLaws {HS : ShashOrder} := shash_order_perm l : shash_order l ≡ₚ l.

(** [shash_sort]: the names are distinct, so that there is one sorted order. *)
Definition sorted_names (names : list string) : list string :=
  merge_sort String.le names.

(** The members in the order of the names *)
Definition arranged {A} (order : list string -> list string)
    (l : list (string * A)) : list (string * A) :=
  omap (fun name => pair name <$> shash_find l name) (order (map fst l)).

Record json_flags := Flags { pretty : bool; sort : bool }.

Section Serializer.
Context {HL : Libc} {HS : ShashOrder} (flags : json_flags).

Fixpoint spaces (n : nat) : string :=
  match n with O => EmptyString | S n => String " " (spaces n) end.

Definition indent_line (depth : nat) : string :=
  if pretty flags then String newline (spaces (2 * depth)) else EmptyString.

Definition member_order : list string -> list string :=
  if sort flags then sorted_names else shash_order.

(** Members or elements, with a comma and a new line between them *)
Fixpoint separated (depth : nat) (l : list string) : string :=
  match l with
  | [] => EmptyString
  | [s] => s
  | s :: l => s +:+ String "," (indent_line depth +:+ separated depth l)
  end.

Definition member_text (name value : string) : string :=
  json_serialize_string name +:+ String ":"
    ((if pretty flags then " " else EmptyString) +:+ value).

Fixpoint json_serialize (depth : nat) (j : json) : string :=
  match j with
  | JSON_NULL => "null"
  | JSON_FALSE => "false"
  | JSON_TRUE => "true"
  | JSON_OBJECT l =>
      let members := map (fun '(k, v) => (k, json_serialize (S depth) v)) l in
      String "{" (indent_line (S depth) +:+
        separated (S depth)
          (map (fun '(k, text) => member_text k text) (arranged member_order members))
        +:+ "}")
  | JSON_ARRAY [] => "[]"
  | JSON_ARRAY l =>
      String "[" (indent_line (S depth) +:+
        separated (S depth) (map (json_serialize (S depth)) l) +:+ "]")
  | JSON_INTEGER z => str_int z
  | JSON_REAL d => printf_g d
  | JSON_STRING s => json_serialize_string s
  | JSON_SERIALIZED_OBJECT s => s
  end.

Definition json_to_string (j : json) : string := json_serialize 0 j.
End Serializer.

End OvsJson.
