(* ===== verification/OvsJsonSafe.v ===== *)
(** * The JSON parser is safe

    Whatever bytes are fed to the parser, in whatever pieces, it touches neither
    an element below its stack nor a missing member name, reaches no
    [OVS_NOT_REACHED] and fails no assertion; what it returns is an error message
    or a well-formed object or array.  The proof is an invariant that ties the
    parse state to the top of the stack. *)

From stdpp Require Import base option list strings.
From Stdlib Require Import ZArith Lia Ascii.
From S2P Require Import Prelude Strings CString Binary64 OvsJson.

Local Open Scope Z_scope.
Local Open Scope string_scope.

Module OvsJsonSafe.
Import OvsJson.

(** ** Well-formed values *)

(** Names are distinct, strings are C strings and integers have 64 bits. *)
Fixpoint json_ok (j : json) : Prop :=
  match j with
  | JSON_OBJECT l =>
      NoDup (map fst l) /\ Forall (fun k => no_nul k = true) (map fst l) /\
      (fix all l := match l with
                    | [] => True
                    | (_, v) :: l => json_ok v /\ all l
                    end) l
  | JSON_ARRAY l =>
      (fix all l := match l with [] => True | v :: l => json_ok v /\ all l end) l
  | JSON_INTEGER z => - (LLONG_MAX + 1) <= z <= LLONG_MAX
  | JSON_STRING s | JSON_SERIALIZED_OBJECT s => no_nul s = true
  | _ => True
  end.

Lemma json_ok_array l : json_ok (JSON_ARRAY l) <-> Forall json_ok l.
Proof.
  induction l as [| v l IH]; simpl; [by split |]. rewrite Forall_cons. by rewrite <- IH.
Qed.

Lemma json_ok_object l :
  json_ok (JSON_OBJECT l) <->
  NoDup (map fst l) /\ Forall (fun k => no_nul k = true) (map fst l) /\
  Forall json_ok (map snd l).
Proof.
  simpl. do 2 (apply and_iff_compat_l). induction l as [| [k v] l IH]; simpl; [by split |].
  rewrite Forall_cons. by rewrite IH.
Qed.

(** The nesting of containers *)
Fixpoint height (j : json) : nat :=
  match j with
  | JSON_OBJECT l =>
      S ((fix deepest l := match l with
                           | [] => O
                           | (_, v) :: l => Nat.max (height v) (deepest l)
                           end) l)
  | JSON_ARRAY l =>
      S ((fix deepest l := match l with
                           | [] => O
                           | v :: l => Nat.max (height v) (deepest l)
                           end) l)
  | _ => O
  end.

Lemma height_array l n :
  (height (JSON_ARRAY l) <= S n)%nat <-> Forall (fun v => height v <= n)%nat l.
Proof.
  induction l as [| v l IH]; simpl in *; [split; [done | lia] |].
  rewrite Forall_cons, <- IH. lia.
Qed.

Lemma height_object l n :
  (height (JSON_OBJECT l) <= S n)%nat <->
  Forall (fun v => height v <= n)%nat (map snd l).
Proof.
  induction l as [| [k v] l IH]; simpl in *; [split; [done | lia] |].
  rewrite Forall_cons, <- IH. lia.
Qed.

Lemma put_names (l : list (string * json)) k v :
  map fst (json_object_put l k v) =
    if bool_decide (k ∈ map fst l) then map fst l else (map fst l ++ [k])%list.
Proof.
  induction l as [| [k' v'] l IH]; simpl; [done |].
  destruct (String.eqb_spec k' k) as [-> | Hne]; simpl.
  - by rewrite bool_decide_eq_true_2 by (by left).
  - rewrite IH. case_bool_decide as H; case_bool_decide as H'; try done; exfalso.
    + apply H'. by right.
    + apply H. by apply elem_of_cons in H' as [-> | ?].
Qed.

Lemma put_values (P : json -> Prop) l k v :
  Forall P (map snd l) -> P v -> Forall P (map snd (json_object_put l k v)).
Proof.
  intros Hl Hv. induction l as [| [k' v'] l IH]; simpl in *; [by constructor |].
  apply Forall_cons in Hl as [? Hl].
  destruct (String.eqb k' k); simpl; constructor; auto.
Qed.

Lemma json_ok_put l k v :
  json_ok (JSON_OBJECT l) -> no_nul k = true -> json_ok v ->
  json_ok (JSON_OBJECT (json_object_put l k v)).
Proof.
  rewrite !json_ok_object. intros (H1 & H2 & H3) Hk Hv. rewrite put_names.
  split; [| split; [| by apply put_values]]; case_bool_decide; try done.
  - apply NoDup_app. split; [done |]. split; [| by apply NoDup_singleton].
    by intros x Hx ->%list_elem_of_singleton.
  - apply Forall_app. by split; [| constructor].
Qed.

Lemma json_ok_add l v :
  json_ok (JSON_ARRAY l) -> json_ok v -> json_ok (JSON_ARRAY (l ++ [v])).
Proof. rewrite !json_ok_array. intros. apply Forall_app. by split; [| constructor]. Qed.

Lemma height_put l k v n :
  (height (JSON_OBJECT l) <= S n)%nat -> (height v <= n)%nat ->
  (height (JSON_OBJECT (json_object_put l k v)) <= S n)%nat.
Proof. rewrite !height_object. apply (put_values (fun v => height v <= n)%nat). Qed.

Lemma height_add l v n :
  (height (JSON_ARRAY l) <= S n)%nat -> (height v <= n)%nat ->
  (height (JSON_ARRAY (l ++ [v])) <= S n)%nat.
Proof. rewrite !height_array. intros. apply Forall_app. by split; [| constructor]. Qed.

(** ** Tokens *)

Definition token_ok (t : json_token) : Prop :=
  match t with
  | T_STRING s => no_nul s = true
  | T_INTEGER z => - (LLONG_MAX + 1) <= z <= LLONG_MAX
  | _ => True
  end.

Lemma integer_digits_nonneg sig pow10 i s :
  0 <= sig -> 0 <= (integer_digits sig pow10 i s).1.1.1.
Proof.
  revert sig pow10 i. induction s as [| c s IH]; intros sig pow10 i H; simpl; [done |].
  destruct (isdigit c); [| done]. destruct (_ <=? _)%Z; apply IH; [| done].
  apply Z.mod_pos_bound. lia.
Qed.

Lemma fraction_digits_nonneg sig pow10 i s :
  0 <= sig -> 0 <= (fraction_digits sig pow10 i s).1.1.1.
Proof.
  revert sig pow10 i. induction s as [| c s IH]; intros sig pow10 i H; simpl; [done |].
  destruct (isdigit c); [| done]. destruct (_ <=? _)%Z; apply IH; [| done].
  apply Z.mod_pos_bound. lia.
Qed.

Lemma scale_up_nonneg fuel sig pow10 : 0 <= sig -> 0 <= (scale_up fuel sig pow10).1.
Proof.
  revert sig pow10. induction fuel as [| fuel IH]; intros sig pow10 H; simpl; [done |].
  destruct (_ && _); [| done]. apply IH. lia.
Qed.

Lemma scale_down_nonneg fuel sig pow10 : 0 <= sig -> 0 <= (scale_down fuel sig pow10).1.
Proof.
  revert sig pow10. induction fuel as [| fuel IH]; intros sig pow10 H; simpl; [done |].
  destruct (_ && _); [| done]. apply IH. apply Z.div_pos; lia.
Qed.

Section Tokens.
Context {HL : Libc}.

Lemma number_token_ok text neg sig pow10 i t :
  0 <= sig -> number_token text neg sig pow10 i = inr t -> token_ok t.
Proof.
  intros Hs. unfold number_token. intros H.
  assert (forall d, match str_to_double text with
    | None => inl "number outside valid range"
    | Some d => inr (T_REAL (if Float.eqb d Float.zero then Float.zero else d))
    end = (inr d : string + json_token) -> token_ok d) as Hreal.
  { intros d. destruct (str_to_double text); by intros [= <-]. }
  destruct (Z.eqb sig 0); [injection H as <-; simpl; unfold LLONG_MAX; lia |].
  destruct i; [by apply Hreal |].
  pose proof (scale_up_nonneg 20 sig pow10 Hs) as H1.
  destruct (scale_up 20 sig pow10) as [sig1 pow1].
  pose proof (scale_down_nonneg 20 sig1 pow1 H1) as H2.
  destruct (scale_down 20 sig1 pow1) as [sig2 pow2]. simpl in H2.
  destruct (Z.eqb pow2 0 && _) eqn:Hc; [| by apply Hreal].
  apply andb_true_iff in Hc as [_ Hc]. injection H as <-. simpl.
  apply Z.leb_le in Hc. unfold LLONG_MAX in *. destruct neg; lia.
Qed.

Lemma json_lex_number_ok text t : json_lex_number text = inr t -> token_ok t.
Proof.
  unfold json_lex_number. cbv zeta.
  generalize (first_is (Ascii.eqb "-"%char) text). intros neg.
  generalize (if neg then str_tail text else text). intros start.
  match goal with |- context [match ?x with inl _ => _ | inr _ => _ end] =>
    destruct x as [e | [[[sig pow10] i] s]] eqn:H1 end; [done |].
  assert (0 <= sig) as Hsig.
  { repeat case_match; simplify_eq/=; [lia |].
    match goal with H : integer_digits ?a ?b ?c ?d = _ |- _ =>
      pose proof (integer_digits_nonneg a b c d) as Hn; rewrite H in Hn end.
    by apply Hn. }
  clear H1.
  match goal with |- context [match ?x with inl _ => _ | inr _ => _ end] =>
    destruct x as [e | [[[sig' pow10'] i'] s']] eqn:H2 end; [done |].
  assert (0 <= sig') as Hsig'.
  { destruct (first_is _ _); [destruct (negb _); [done |] | by simplify_eq].
    injection H2 as H2.
    match goal with H : fraction_digits ?a ?b ?c ?d = _ |- _ =>
      pose proof (fraction_digits_nonneg a b c d) as Hn; rewrite H in Hn end.
    by apply Hn. }
  clear H2. destruct (lex_exponent pow10' s') as [e | [pow s'']]; [done |].
  destruct (negb _); [done |]. by apply number_token_ok.
Qed.

Lemma json_lex_keyword_ok s t : json_lex_keyword s = inr t -> token_ok t.
Proof. unfold json_lex_keyword. repeat case_match; intros [= <-]; done. Qed.
End Tokens.

(** *** Unescaping has fuel enough. *)

Lemma json_lex_4hex_rest s v rest :
  json_lex_4hex s = inr (v, rest) -> (String.length rest < String.length s)%nat.
Proof.
  unfold json_lex_4hex. destruct s as [| a [| b [| c [| d s]]]]; try done.
  destruct (hexits_value _ _); [| done]. destruct (Z.eqb _ 0); [done |].
  intros [= <- <-]. simpl. lia.
Qed.

Lemma json_lex_unicode_rest s t rest :
  json_lex_unicode s = inr (t, rest) -> (String.length rest < String.length s)%nat.
Proof.
  unfold json_lex_unicode. destruct (json_lex_4hex s) as [| [c0 s1]] eqn:H1; [done |].
  apply json_lex_4hex_rest in H1. destruct (negb _); [by intros [= <- <-] |].
  destruct s1 as [| c [| d s2]]; try done. destruct (_ || _); [done |].
  destruct (json_lex_4hex s2) as [| [c1 s3]] eqn:H2; [done |].
  apply json_lex_4hex_rest in H2. destruct (negb _); [done |].
  intros [= <- <-]. simpl in *. lia.
Qed.

Lemma unescape_from_some fuel out s :
  (String.length s < fuel)%nat -> is_Some (unescape_from fuel out s).
Proof.
  revert out s. induction fuel as [| fuel IH]; intros out s Hl; [lia |].
  cbn [unescape_from]. destruct s as [| c s]; [done |]. simpl in Hl.
  destruct (Ascii.eqb c dquote); [done |].
  destruct (negb _); [apply IH; lia |].
  destruct s as [| e s]; [done |]. simpl in Hl.
  repeat match goal with |- is_Some (if ?b then _ else _) => destruct b end;
    try done; try (apply IH; lia).
  destruct (json_lex_unicode s) as [| [text rest]] eqn:Hu; [done |].
  apply json_lex_unicode_rest in Hu. apply IH. lia.
Qed.

Lemma json_lex_string_ok raw :
  no_nul raw = true -> exists r, json_lex_string raw = Some r /\
    forall t, r = inr t -> token_ok t.
Proof.
  intros Hn. unfold json_lex_string. destruct (negb _).
  { eexists. split; [done |]. by intros t [= <-]. }
  destruct (unescape_from_some (S (String.length raw)) EmptyString raw) as [r Hr]; [lia |].
  unfold json_string_unescape. rewrite Hr. destruct r as [e | cooked].
  - by exists (inl e).
  - eexists. split; [done |]. intros t [= <-]. simpl. apply ds_cstr_no_nul.
Qed.

(** ** The invariant of the parser *)

Definition named (o : option string) : Prop :=
  match o with Some name => no_nul name = true | None => False end.

(** The parse state says what the top of the stack is, and a member has its name
    from the name to the value. *)
Definition state_ok (p : json_parser) : Prop :=
  match parse_state p, stack p with
  | JSON_PARSE_START, [] => True
  | JSON_PARSE_END, [_] => True
  | (JSON_PARSE_OBJECT_INIT | JSON_PARSE_OBJECT_NAME | JSON_PARSE_OBJECT_NEXT),
    Object _ _ :: _ => True
  | (JSON_PARSE_OBJECT_COLON | JSON_PARSE_OBJECT_VALUE), Object _ _ :: _ =>
      named (member_name p)
  | (JSON_PARSE_ARRAY_INIT | JSON_PARSE_ARRAY_VALUE | JSON_PARSE_ARRAY_NEXT),
    Array _ :: _ => True
  | _, _ => False
  end.

(** A container below the top waits for one that is open. *)
Definition parent_ok (c : container) : Prop :=
  match c with Object _ open => named open | Array _ => True end.

Fixpoint frames_ok (st : list container) : Prop :=
  match st with
  | [] => True
  | c :: st =>
      json_ok (closed c) /\ (height (closed c) + length st <= JSON_MAX_HEIGHT)%nat /\
      frames_ok st
  end.

Record parser_ok (p : json_parser) : Prop := {
  ok_state : state_ok p;
  ok_parents : Forall parent_ok (tail (stack p));
  ok_frames : frames_ok (stack p);
}.

Definition run_ok (r : option json_parser) : Prop :=
  exists p, r = Some p /\ parser_ok p.

Lemma parser_ok_ext p q :
  parse_state q = parse_state p -> stack q = stack p -> member_name q = member_name p ->
  parser_ok p -> parser_ok q.
Proof.
  intros H1 H2 H3 [? ? ?]. split; [| by rewrite H2..].
  unfold state_ok. by rewrite H1, H2, H3.
Qed.

Lemma json_error_ok msg p : parser_ok p -> parser_ok (json_error msg p).
Proof. unfold json_error. destruct (error p); [done |]. by apply parser_ok_ext. Qed.

Lemma json_error_run msg p : parser_ok p -> run_ok (Some (json_error msg p)).
Proof. eexists. split; [done |]. by apply json_error_ok. Qed.

Lemma json_parser_account_byte_ok c p :
  parser_ok p -> parser_ok (json_parser_account_byte c p).
Proof. unfold json_parser_account_byte. case_match; by apply parser_ok_ext. Qed.

Lemma frames_length c st : frames_ok (c :: st) -> (length (c :: st) <= JSON_MAX_HEIGHT)%nat.
Proof. intros (_ & H & _). destruct c; simpl in *; lia. Qed.

Lemma frame_put l open name v st :
  frames_ok (Object l open :: st) -> no_nul name = true -> json_ok v ->
  (height v + S (length st) <= JSON_MAX_HEIGHT)%nat ->
  forall open', frames_ok (Object (json_object_put l name v) open' :: st).
Proof.
  intros (H1 & H2 & H3) Hn Hv Hh open'. cbn [frames_ok closed] in *.
  split; [by apply json_ok_put | split; [| done]].
  pose proof (height_put l name v (JSON_MAX_HEIGHT - S (length st))%nat). lia.
Qed.

Lemma frame_add l v st :
  frames_ok (Array l :: st) -> json_ok v ->
  (height v + S (length st) <= JSON_MAX_HEIGHT)%nat ->
  frames_ok (Array (l ++ [v]) :: st).
Proof.
  intros (H1 & H2 & H3) Hv Hh. cbn [frames_ok closed] in *.
  split; [by apply json_ok_add | split; [| done]].
  pose proof (height_add l v (JSON_MAX_HEIGHT - S (length st))%nat). lia.
Qed.

(** *** Tokens *)

(** The states in which a value may come *)
Definition expects_value (p : json_parser) : Prop :=
  match parse_state p with
  | JSON_PARSE_START | JSON_PARSE_OBJECT_VALUE | JSON_PARSE_ARRAY_INIT
  | JSON_PARSE_ARRAY_VALUE => True
  | _ => False
  end.

Lemma json_parser_push_ok new s p :
  parser_ok p -> expects_value p ->
  (new = Object [] None /\ s = JSON_PARSE_OBJECT_INIT \/
   new = Array [] /\ s = JSON_PARSE_ARRAY_INIT) ->
  run_ok (json_parser_push new s p).
Proof.
  intros Hp He Hnew. unfold json_parser_push.
  destruct (Nat.ltb_spec (length (stack p)) JSON_MAX_HEIGHT); [| by apply json_error_run].
  destruct Hp as [Hs Hpar Hf]. unfold state_ok, expects_value in *.
  assert (exists parents,
    (match stack p with
     | Object l _ :: st => name ← member_name p; Some (Object l (Some name) :: st)
     | st => Some st
     end) = Some parents /\ frames_ok parents /\ Forall parent_ok parents /\
    length parents = length (stack p)) as (parents & -> & H1 & H2 & H3).
  { destruct (stack p) as [| [l open | l] st]; [by exists [] | |].
    - destruct (parse_state p); try done.
      destruct (member_name p) as [name |]; [| done]. simpl.
      exists (Object l (Some name) :: st). split; [done |]. split; [exact Hf |].
      by split; [constructor |].
    - exists (Array l :: st). split; [done |]. split; [exact Hf |].
      by split; [constructor |]. }
  cbn. eexists. split; [done |].
  destruct Hnew as [[-> ->] | [-> ->]]; split; try done; cbn; rewrite H3;
    repeat split; try done; try constructor; lia.
Qed.

Lemma json_parser_put_value_ok v next p :
  parser_ok p -> parse_state p <> JSON_PARSE_START -> expects_value p ->
  json_ok v -> height v = O ->
  next = match parse_state p with
         | JSON_PARSE_OBJECT_VALUE => JSON_PARSE_OBJECT_NEXT
         | _ => JSON_PARSE_ARRAY_NEXT
         end ->
  run_ok (p ← json_parser_put_value v p; Some (p <| parse_state := next |>)).
Proof.
  intros [Hs Hpar Hf] Hns He Hv Hh ->. unfold json_parser_put_value, state_ok, expects_value in *.
  destruct (stack p) as [| [l open | l] st] eqn:Hst; [by destruct (parse_state p) | |];
    pose proof (frames_length _ _ Hf) as Hlen; simpl in Hlen.
  - destruct (parse_state p); try done. destruct (member_name p) as [name |]; [| done].
    eexists. split; [done |]. split; try done.
    apply (frame_put l open); auto; lia.
  - eexists. split; [done |].
    destruct (parse_state p); try done; (split; [done | done |]);
      apply frame_add; auto; lia.
Qed.

Lemma json_parse_value_ok t next p :
  parser_ok p -> token_ok t -> parse_state p <> JSON_PARSE_START -> expects_value p ->
  next = match parse_state p with
         | JSON_PARSE_OBJECT_VALUE => JSON_PARSE_OBJECT_NEXT
         | _ => JSON_PARSE_ARRAY_NEXT
         end ->
  run_ok (json_parse_value t next p).
Proof.
  intros Hp Ht Hns He Hnext. destruct t; cbn [json_parse_value scalar];
    try (by apply json_error_run); try (apply json_parser_put_value_ok; by auto);
    apply json_parser_push_ok; auto.
Qed.

(** A container may be closed where the top is one that may end. *)
Lemma json_parser_pop_ok p : parser_ok p -> stack p <> [] -> run_ok (json_parser_pop p).
Proof.
  intros [Hs Hpar Hf] Hne. unfold json_parser_pop.
  destruct (stack p) as [| top [| [l open | l] st]] eqn:Hst; [done | | |].
  - assert (parser_ok (p <| parse_state := JSON_PARSE_END |>)) as Hq.
    { split; unfold state_ok; cbn; by rewrite Hst. }
    eexists. split; [done |]. cbv zeta. case_match; [done |].
    by apply (parser_ok_ext (p <| parse_state := JSON_PARSE_END |>)).
  - simpl in Hpar. apply Forall_cons in Hpar as [Ho Hpar]. simpl in Ho.
    destruct open as [name |]; [| done]. destruct Hf as (Hv & Hh & Hf).
    eexists. split; [done |]. split; try done.
    apply (frame_put l (Some name)); auto.
  - simpl in Hpar. apply Forall_cons in Hpar as [Ho Hpar]. destruct Hf as (Hv & Hh & Hf).
    eexists. split; [done |]. split; try done.
    apply frame_add; auto.
Qed.

Lemma object_name_ok t p :
  parser_ok p -> token_ok t ->
  (parse_state p = JSON_PARSE_OBJECT_INIT \/ parse_state p = JSON_PARSE_OBJECT_NAME) ->
  parser_ok (object_name t p).
Proof.
  intros Hp Ht Hs. destruct t; cbn [object_name]; try (by apply json_error_ok).
  destruct Hp as [Hst Hpar Hf]. split; try done. unfold state_ok in *. cbn.
  by destruct Hs as [Hs | Hs]; rewrite Hs in Hst; destruct (stack p) as [| [] ?].
Qed.

Lemma parse_token_ok t p : parser_ok p -> token_ok t -> run_ok (parse_token t p).
Proof.
  intros Hp Ht. pose proof (ok_state p Hp) as Hs.
  assert (forall q, parser_ok q -> run_ok (Some q)) as Hret by (intros q ?; by exists q).
  assert (parse_state p <> JSON_PARSE_START -> stack p <> []) as Hne.
  { unfold state_ok in Hs. by destruct (parse_state p), (stack p) as [| [] ?]. }
  assert (forall s, match parse_state p, s with
    | JSON_PARSE_OBJECT_COLON, JSON_PARSE_OBJECT_VALUE
    | JSON_PARSE_OBJECT_NEXT, JSON_PARSE_OBJECT_NAME
    | JSON_PARSE_ARRAY_NEXT, JSON_PARSE_ARRAY_VALUE => True
    | _, _ => False
    end -> run_ok (Some (p <| parse_state := s |>))) as Hmove.
  { intros s Hm. apply Hret. destruct Hp as [_ Hpar Hf]. split; try done.
    unfold state_ok in *. cbn. destruct (parse_state p), s; try done;
      by destruct (stack p) as [| [] ?]. }
  unfold parse_token. destruct (parse_state p) eqn:Hst; destruct t;
    first [ by apply json_error_run
          | by apply Hmove
          | by apply json_parser_pop_ok; auto
          | by apply Hret, object_name_ok; auto
          | apply json_parse_value_ok; unfold expects_value; rewrite ?Hst; by auto
          | apply json_parser_push_ok; unfold expects_value; rewrite ?Hst; by auto ].
Qed.

Lemma json_parser_input_ok t p : parser_ok p -> token_ok t -> run_ok (json_parser_input t p).
Proof.
  intros Hp Ht. destruct (parse_token_ok t p Hp Ht) as (q & Hq & Hok).
  unfold json_parser_input. rewrite Hq. eexists. split; [done |]. by apply (parser_ok_ext q).
Qed.

Lemma lexed_ok r p :
  parser_ok p -> (forall t, r = inr t -> token_ok t) -> run_ok (lexed r p).
Proof.
  intros Hp Ht. destruct r as [e | t]; [by apply json_error_run |].
  apply json_parser_input_ok; auto.
Qed.

(** *** Bytes *)

Section Feed.
Context {HL : Libc}.

Lemma feed_start_ok c tok p :
  parser_ok p -> exists q tok', feed_start c tok p = Some (q, tok') /\ parser_ok q.
Proof.
  intros Hp. unfold feed_start.
  destruct (is_json_space c); [by eauto |].
  destruct (islower c); [do 2 eexists; split; [done |]; by apply (parser_ok_ext p) |].
  destruct (punctuation c) as [t |] eqn:Hc.
  - destruct (json_parser_input_ok t p Hp) as (q & -> & Hq); [| by eauto].
    unfold punctuation in Hc. repeat case_match; by simplify_eq.
  - repeat case_match; do 2 eexists; (split; [done |]);
      first [by apply json_error_ok | by apply (parser_ok_ext p)].
Qed.

Lemma feed_byte_ok c tok p :
  parser_ok p -> exists q tok' b, feed_byte c tok p = Some (q, tok', b) /\ parser_ok q.
Proof.
  intros Hp. unfold feed_byte.
  assert (parser_ok (p <| buffer ::= fun b => b +:+ tok |>)) as Hend
    by (by apply (parser_ok_ext p)).
  assert (forall s, parser_ok (p <| lex_state := s |>)) as Hlex
    by (intros; by apply (parser_ok_ext p)).
  destruct (lex_state p).
  - destruct (feed_start_ok c tok p Hp) as (q & tok' & -> & Hq). by eauto 6.
  - destruct (negb _); [| by eauto 6].
    edestruct (lexed_ok (json_lex_number (ds_cstr (buffer (p <| buffer ::= fun b => b +:+ tok |>)))) _ Hend)
      as (q & -> & Hq); [apply json_lex_number_ok | by eauto 6].
  - destruct (negb _); [| by eauto 6].
    edestruct (lexed_ok (json_lex_keyword (ds_cstr (buffer (p <| buffer ::= fun b => b +:+ tok |>)))) _ Hend)
      as (q & -> & Hq); [apply json_lex_keyword_ok | by eauto 6].
  - destruct (Ascii.eqb c backslash); [by eauto 6 |].
    destruct (Ascii.eqb c dquote).
    + destruct (json_lex_string_ok _ (ds_cstr_no_nul (buffer (p <| buffer ::= fun b => b +:+ tok |>))))
        as (r & -> & Hr). cbn.
      destruct (lexed_ok r _ Hend Hr) as (q & -> & Hq). by eauto 6.
    + destruct (_ <? _)%Z; [| by eauto 6].
      do 3 eexists. split; [done |]. by apply json_error_ok.
  - by eauto 6.
Qed.

Lemma feed_loop_ok tok p input :
  parser_ok p ->
  exists q tok' rest, feed_loop tok p input = Some (q, tok', rest) /\ parser_ok q.
Proof.
  revert tok p. induction input as [| c input IH]; intros tok p Hp; cbn [feed_loop];
    [by eauto 6 |].
  destruct (done p); [by eauto 6 |].
  destruct (feed_byte_ok c tok p Hp) as (q & tok' & b & -> & Hq).
  destruct b; [by apply IH, json_parser_account_byte_ok |].
  destruct (done q); [by eauto 6 |].
  destruct (feed_start_ok c tok' q Hq) as (q' & tok'' & -> & Hq').
  by apply IH, json_parser_account_byte_ok.
Qed.

Lemma json_parser_feed_ok input p :
  parser_ok p -> exists q n, json_parser_feed input p = Some (q, n) /\ parser_ok q.
Proof.
  intros Hp. unfold json_parser_feed.
  destruct (feed_loop_ok EmptyString p input Hp) as (q & tok & rest & -> & Hq). cbn.
  do 2 eexists. split; [done |]. destruct (done q); [done |]. by apply (parser_ok_ext q).
Qed.

Lemma feed_chunks_ok chunks p : parser_ok p -> run_ok (feed_chunks chunks p).
Proof.
  revert p. induction chunks as [| c chunks IH]; intros p Hp; cbn [feed_chunks]; [by exists p |].
  destruct (json_parser_feed_ok c p Hp) as (q & n & -> & Hq). cbn.
  destruct (n =? _)%nat; [by apply IH | by exists q].
Qed.

(** What a parse may return *)
Definition parse_result (j : json) : Prop :=
  (exists msg, j = JSON_STRING msg) \/
  ((exists l, j = JSON_OBJECT l) \/ (exists l, j = JSON_ARRAY l)) /\
  json_ok j /\ (height j <= JSON_MAX_HEIGHT)%nat.

Lemma json_parser_finish_ok p :
  parser_ok p -> exists j, json_parser_finish p = Some j /\ parse_result j.
Proof.
  intros Hp. unfold json_parser_finish.
  assert (run_ok match lex_state p with
    | JSON_LEX_START => Some p
    | JSON_LEX_STRING | JSON_LEX_ESCAPE =>
        Some (json_error "unexpected end of input in quoted string" p)
    | JSON_LEX_NUMBER | JSON_LEX_KEYWORD => fst <$> json_parser_feed " " p
    end) as (q & -> & Hq).
  { destruct (json_parser_feed_ok " " p Hp) as (q & n & -> & Hq).
    destruct (lex_state p); try (by eexists); by apply json_error_run. }
  cbn [mbind option_bind].
  assert (forall msg, is_Some (error (json_error msg q))) as Herr.
  { intros msg. unfold json_error. by destruct (error q) eqn:He; [rewrite He |]. }
  pose proof (Herr "empty input stream") as [e1 E1].
  pose proof (Herr "unexpected end of input") as [e2 E2].
  destruct (parse_state q) eqn:Hst; rewrite ?E1, ?E2;
    try (by eexists; split; [done |]; left; eexists).
  destruct (error q); [by eexists; split; [done |]; left; eexists |].
  destruct Hq as [Hs _ Hf]. unfold state_ok in Hs. rewrite Hst in Hs.
  destruct (stack q) as [| c [| ? ?]]; try done. destruct Hf as (H1 & H2 & _).
  eexists. split; [done |]. right. simpl in H2. split; [destruct c; eauto |]. split; [done | lia].
Qed.

Lemma json_parser_create_ok b : parser_ok (json_parser_create b).
Proof. by split. Qed.

(** C7: Whatever the bytes and however they are cut into chunks, parsing a stream or
    a string ends with a value and without a fault: no access below the stack, no
    member without a name, no failed assertion.  The value is a message or an
    object or array with distinct names, 64-bit integers and at most
    [JSON_MAX_HEIGHT] levels. *)
Theorem json_parse_safe (chunks : list string) (s : string) :
  (exists j, json_from_stream chunks = Some j /\ parse_result j) /\
  (exists j, json_from_string s = Some j /\ parse_result j).
Proof.
  unfold json_from_stream, json_from_string. split.
  - destruct (feed_chunks_ok chunks _ (json_parser_create_ok true)) as (p & -> & Hp).
    by apply json_parser_finish_ok.
  - destruct (json_parser_feed_ok (ds_cstr s) _ (json_parser_create_ok true))
      as (p & n & -> & Hp).
    by apply json_parser_finish_ok.
Qed.
End Feed.

End OvsJsonSafe.
