(* ===== verification/OvsJsonLex.v ===== *)
(** * The lexer of the JSON parser

    What the lexer functions of src/ovs/lib/json.c compute: a string that was
    escaped by the serializer is unescaped to itself, and a number is read to the
    integer or real that its digits and exponent denote. *)

From stdpp Require Import base option list strings.
From Stdlib Require Import ZArith Lia Ascii.
From Stdlib Require Import DecimalString DecimalPos DecimalN DecimalFacts.
From S2P Require Import Prelude Strings CString Binary64 OvsJson OvsJsonSafe.

Local Open Scope Z_scope.
Local Open Scope string_scope.

Module OvsJsonLex.
Import OvsJson OvsJsonSafe.

(** ** Escapes *)

(** A character that stands for itself in a quoted string *)
Definition plain (c : ascii) : bool :=
  (32 <=? code c)%Z && negb (Ascii.eqb c dquote) && negb (Ascii.eqb c backslash).

Definition escape (c : ascii) : string :=
  if plain c then String c EmptyString else chars_escaping c.

Lemma escape_chars_cons c s : escape_chars (String c s) = escape c +:+ escape_chars s.
Proof. done. Qed.

(** The text of an escape: a character, a pair, or [\u00] and two digits *)
Inductive escaped (c : ascii) : string -> Prop :=
| Escaped_plain : plain c = true -> escaped c (String c EmptyString)
| Escaped_short e :
    (forall fuel out s, unescape_from (S fuel) out (String backslash (String e s)) =
                        unescape_from fuel (out +:+ String c EmptyString) s) ->
    code e <> 0 ->
    escaped c (String backslash (String e EmptyString))
| Escaped_unicode a b :
    plain a = true -> plain b = true ->
    (forall s, json_lex_unicode (String "0" (String "0" (String a (String b s)))) =
               inr (String c EmptyString, s)) ->
    escaped c (String backslash (String "u" (String "0" (String "0"
                 (String a (String b EmptyString)))))).

Lemma escape_escaped c : code c <> 0 -> escaped c (escape c).
Proof.
  intros H0.
  destruct c as [[] [] [] [] [] [] [] []];
    first [ by apply Escaped_plain
          | apply Escaped_short; [intros; reflexivity | done]
          | apply Escaped_unicode; [done | done | intros; reflexivity]
          | by destruct H0 ].
Qed.

Lemma unescape_escape c fuel out s :
  code c <> 0 ->
  unescape_from (S fuel) out (escape c +:+ s) =
  unescape_from fuel (out +:+ String c EmptyString) s.
Proof.
  intros H0. destruct (escape_escaped c H0) as [Hc | e He _ | a b _ _ Hu].
  - apply andb_true_iff in Hc as [[_ H1%negb_true_iff]%andb_true_iff H2%negb_true_iff].
    str_simpl. cbn [unescape_from]. by rewrite H1, H2.
  - apply He.
  - str_simpl. cbn [unescape_from]. cbn. by rewrite Hu.
Qed.

Lemma escape_length c : (0 < String.length (escape c))%nat.
Proof.
  unfold escape, chars_escaping. repeat case_match; simpl; lia.
Qed.

Lemma unescape_escape_chars s fuel out :
  no_nul s = true -> (String.length (escape_chars s) < fuel)%nat ->
  unescape_from fuel out (escape_chars s) = Some (inr (out +:+ s)).
Proof.
  revert fuel out. induction s as [| c s IH]; intros fuel out Hn Hf.
  - destruct fuel; [lia |]. simpl. by rewrite app_nil_str.
  - apply andb_true_iff in Hn as [Hc Hn]. apply negb_true_iff, Z.eqb_neq in Hc.
    rewrite escape_chars_cons in *. rewrite string_length_app in Hf.
    pose proof (escape_length c). destruct fuel as [| fuel]; [lia |].
    rewrite unescape_escape by done. rewrite IH; [| done | lia].
    by rewrite app_assoc_str.
Qed.

Lemma escape_chars_no_nul s : no_nul s = true -> no_nul (escape_chars s) = true.
Proof.
  induction s as [| c s IH]; [done |]. intros [Hc Hs]%andb_true_iff.
  apply negb_true_iff, Z.eqb_neq in Hc. rewrite escape_chars_cons.
  unfold no_nul in *. rewrite str_all_app, IH, andb_true_r by done.
  assert (forall d, plain d = true -> code d <> 0) as Hp.
  { intros d [[Hd%Z.leb_le _]%andb_true_iff _]%andb_true_iff. lia. }
  destruct (escape_escaped c Hc) as [H | e _ He | a b Ha Hb _]; cbn [str_all].
  - by rewrite (proj2 (Z.eqb_neq _ _) Hc).
  - by rewrite (proj2 (Z.eqb_neq _ _) He).
  - by rewrite (proj2 (Z.eqb_neq _ _) (Hp a Ha)), (proj2 (Z.eqb_neq _ _) (Hp b Hb)).
Qed.

Lemma escape_chars_plain s :
  no_nul s = true -> has_char backslash (escape_chars s) = false -> escape_chars s = s.
Proof.
  induction s as [| c s IH]; [done |]. intros [Hc Hs]%andb_true_iff.
  apply negb_true_iff, Z.eqb_neq in Hc. rewrite escape_chars_cons, has_char_app.
  intros [H1 H2]%orb_false_iff. rewrite IH by done.
  by destruct (escape_escaped c Hc).
Qed.

(** Between the quotes that [json_serialize_string] writes, the lexer reads the
    string that was written. *)
Lemma json_lex_string_escape s :
  no_nul s = true -> json_lex_string (escape_chars s) = Some (inr (T_STRING s)).
Proof.
  intros Hn. unfold json_lex_string, json_string_unescape.
  destruct (has_char backslash (escape_chars s)) eqn:Hb; cbn [negb].
  - rewrite unescape_escape_chars by (done || lia). cbn. by rewrite ds_cstr_id.
  - by rewrite escape_chars_plain.
Qed.

(** Reading digits up to something else, as long as the significand has 64 bits *)
Lemma integer_digits_read u acc pow10 i rest :
  0 <= acc -> digits_value acc u <= ULLONG_MAX -> first_is isdigit rest = false ->
  integer_digits acc pow10 i (digits u +:+ rest) = (digits_value acc u, pow10, i, rest).
Proof.
  remember (Decimal.nb_digits u) as n eqn:Hn. revert u Hn acc.
  induction n as [| n IH]; intros u Hn acc Ha Hmax Hrest;
    destruct (digits_cons u) as [-> | (c & u' & Ht & Hd & Hc & Hval & _ & Hnb)]; try lia.
  - simpl. str_simpl. destruct rest; [done |]. cbn [first_is] in Hrest. cbn [integer_digits].
    by rewrite Hrest.
  - done.
  - rewrite Hval in Hmax. rewrite Ht, Hval, app_cons_str. cbn [integer_digits]. rewrite Hd.
    pose proof (digits_value_ge (acc * 10 + (code c - 48)) u' ltac:(lia)).
    replace (acc <=? ULLONG_MAX / 10)%Z with true; cycle 1.
    { symmetry. apply Z.leb_le, Z.div_le_lower_bound; lia. }
    replace (u64 (acc * 10 + (code c - 48))) with (acc * 10 + (code c - 48)).
    + apply IH; [lia | lia | lia | done].
    + symmetry. apply Z.mod_small. unfold ULLONG_MAX in *. lia.
Qed.

Lemma fraction_digits_read u acc pow10 i rest :
  0 <= acc -> digits_value acc u <= ULLONG_MAX -> first_is isdigit rest = false ->
  fraction_digits acc pow10 i (digits u +:+ rest) =
    (digits_value acc u, pow10 - Z.of_nat (Decimal.nb_digits u), i, rest).
Proof.
  remember (Decimal.nb_digits u) as n eqn:Hn. revert u Hn acc pow10.
  induction n as [| n IH]; intros u Hn acc pow10 Ha Hmax Hrest;
    destruct (digits_cons u) as [-> | (c & u' & Ht & Hd & Hc & Hval & _ & Hnb)]; try lia.
  - simpl. str_simpl. rewrite Z.sub_0_r. destruct rest; [done |]. cbn [first_is] in Hrest.
    cbn [fraction_digits]. by rewrite Hrest.
  - done.
  - rewrite Hval in Hmax. rewrite Ht, Hval, app_cons_str. cbn [fraction_digits]. rewrite Hd.
    pose proof (digits_value_ge (acc * 10 + (code c - 48)) u' ltac:(lia)).
    replace (acc <=? ULLONG_MAX / 10)%Z with true; cycle 1.
    { symmetry. apply Z.leb_le, Z.div_le_lower_bound; lia. }
    replace (u64 (acc * 10 + (code c - 48))) with (acc * 10 + (code c - 48)).
    + rewrite IH by (lia || done). by replace (pow10 - 1 - Z.of_nat n) with (pow10 - Z.of_nat (S n)) by lia.
    + symmetry. apply Z.mod_small. unfold ULLONG_MAX in *. lia.
Qed.

Lemma exponent_digits_read u acc :
  0 <= acc -> digits_value acc u < INT_MAX / 10 * 10 ->
  exponent_digits acc (digits u) = Some (digits_value acc u, EmptyString).
Proof.
  remember (Decimal.nb_digits u) as n eqn:Hn. revert u Hn acc.
  induction n as [| n IH]; intros u Hn acc Ha Hmax;
    destruct (digits_cons u) as [-> | (c & u' & Ht & Hd & Hc & Hval & _ & Hnb)]; try lia.
  - done.
  - done.
  - rewrite Hval in Hmax. rewrite Ht, Hval. cbn [exponent_digits]. rewrite Hd.
    pose proof (digits_value_ge (acc * 10 + (code c - 48)) u' ltac:(lia)).
    replace (INT_MAX / 10 <=? acc)%Z with false; cycle 1.
    { symmetry. apply Z.leb_gt. unfold INT_MAX in *. lia. }
    apply IH; lia.
Qed.

(** ** The value of a number *)

(** The two loops keep the value; they end with an exponent of 0 if the number is
    an integer of 64 bits, so that their fuel is enough. *)
Definition scaled (sig pow10 : Z) : Z * Z :=
  let '(sig, pow10) := scale_up 20 sig pow10 in scale_down 20 sig pow10.

Lemma scale_up_value fuel sig pow10 s p :
  0 < sig -> 0 <= pow10 -> scale_up fuel sig pow10 = (s, p) ->
  0 < s /\ 0 <= p /\ s * 10 ^ p = sig * 10 ^ pow10.
Proof.
  revert sig pow10. induction fuel as [| fuel IH]; intros sig pow10 Hs Hp H; simpl in H;
    [by simplify_eq |].
  destruct ((0 <? pow10)%Z && _) eqn:Hc; [| by simplify_eq].
  apply andb_true_iff in Hc as [Hc%Z.ltb_lt _].
  apply IH in H as (H1 & H2 & H3); [| lia..]. split; [done |]. split; [done |].
  rewrite H3. replace pow10 with (Z.succ (pow10 - 1)) at 2 by lia.
  rewrite Z.pow_succ_r by lia. ring.
Qed.

Lemma scale_up_neg fuel sig pow10 : pow10 <= 0 -> scale_up fuel sig pow10 = (sig, pow10).
Proof.
  intros H. destruct fuel; [done |]. simpl.
  by rewrite (proj2 (Z.ltb_ge 0 pow10)) by lia.
Qed.

Lemma scale_up_done fuel sig pow10 :
  0 < sig -> 0 <= pow10 <= Z.of_nat fuel -> sig * 10 ^ pow10 <= LLONG_MAX + 1 ->
  scale_up fuel sig pow10 = (sig * 10 ^ pow10, 0).
Proof.
  revert sig pow10. induction fuel as [| fuel IH]; intros sig pow10 Hs Hp Hm; simpl.
  - replace pow10 with 0 by lia. by rewrite Z.mul_1_r.
  - destruct (Z.ltb_spec 0 pow10); simpl; cycle 1.
    { replace pow10 with 0 by lia. by rewrite Z.mul_1_r. }
    assert (10 ^ pow10 = 10 * 10 ^ (pow10 - 1)) as Hpow.
    { rewrite <- Z.pow_succ_r by lia. f_equal. lia. }
    pose proof (Z.pow_pos_nonneg 10 (pow10 - 1) ltac:(lia) ltac:(lia)) as Hpos.
    rewrite Hpow in *. replace (sig <? ULLONG_MAX / 10)%Z with true; cycle 1.
    { symmetry. apply Z.ltb_lt. assert (sig * 10 <= LLONG_MAX + 1) by nia.
      change (ULLONG_MAX / 10) with 1844674407370955161. unfold LLONG_MAX in *. lia. }
    rewrite IH; [f_equal; ring | lia | lia | lia].
Qed.

Lemma scale_down_value fuel sig pow10 s p :
  0 < sig -> pow10 <= 0 -> scale_down fuel sig pow10 = (s, p) ->
  0 < s /\ p <= 0 /\ s * 10 ^ (- pow10) = sig * 10 ^ (- p).
Proof.
  revert sig pow10. induction fuel as [| fuel IH]; intros sig pow10 Hs Hp H; simpl in H;
    [by simplify_eq |].
  destruct ((pow10 <? 0)%Z && _) eqn:Hc; [| by simplify_eq].
  apply andb_true_iff in Hc as [Hc%Z.ltb_lt Hm%Z.eqb_eq].
  assert (sig = 10 * (sig / 10)) as Hsig by (apply Z.div_exact; lia).
  apply IH in H as (H1 & H2 & H3); [| lia..]. split; [done |]. split; [done |].
  replace (- pow10) with (Z.succ (- (pow10 + 1))) by lia. rewrite Z.pow_succ_r by lia.
  rewrite Hsig at 1. rewrite <- Z.mul_assoc, <- H3. ring.
Qed.

Lemma scale_down_pos fuel sig pow10 : 0 <= pow10 -> scale_down fuel sig pow10 = (sig, pow10).
Proof.
  intros H. destruct fuel; [done |]. simpl.
  by rewrite (proj2 (Z.ltb_ge pow10 0)) by lia.
Qed.

Lemma scale_down_done fuel m pow10 :
  - Z.of_nat fuel <= pow10 <= 0 ->
  scale_down fuel (m * 10 ^ (- pow10)) pow10 = (m, 0).
Proof.
  revert pow10. induction fuel as [| fuel IH]; intros pow10 Hp; simpl.
  - replace pow10 with 0 by lia. by rewrite Z.mul_1_r.
  - destruct (Z.ltb_spec pow10 0); simpl; cycle 1.
    { replace pow10 with 0 by lia. by rewrite Z.mul_1_r. }
    assert (m * 10 ^ (- pow10) = m * 10 ^ (- (pow10 + 1)) * 10) as ->.
    { replace (- pow10) with (Z.succ (- (pow10 + 1))) by lia.
      rewrite Z.pow_succ_r by lia. ring. }
    rewrite Z.mod_mul, Z.div_mul by lia. simpl. apply IH. lia.
Qed.

(** [m] is the number [sig * 10 ^ pow10]. *)
Definition denotes (sig pow10 m : Z) : Prop :=
  m * 10 ^ Z.max 0 (- pow10) = sig * 10 ^ Z.max 0 pow10.

Lemma scaled_sound sig pow10 s :
  0 < sig -> scaled sig pow10 = (s, 0) -> 0 < s /\ denotes sig pow10 s.
Proof.
  intros Hs. unfold scaled, denotes. destruct (Z.le_gt_cases 0 pow10) as [Hp | Hp].
  - destruct (scale_up 20 sig pow10) as [s1 p1] eqn:H1.
    apply scale_up_value in H1 as (H1 & H2 & H3); [| done..].
    rewrite scale_down_pos by done. intros [= -> ->]. split; [done |].
    rewrite (Z.max_l 0 (- pow10)), (Z.max_r 0 pow10) by lia. by rewrite <- H3.
  - rewrite scale_up_neg by lia. intros H.
    apply scale_down_value in H as (H1 & _ & H3); [| lia..]. split; [done |].
    by rewrite (Z.max_r 0 (- pow10)), (Z.max_l 0 pow10) by lia.
Qed.

Lemma pow10_small k m : 0 <= k -> 0 < m -> m * 10 ^ k <= ULLONG_MAX -> k <= 20.
Proof.
  intros Hk Hm H. destruct (Z.le_gt_cases k 20) as [| Hgt]; [done |].
  pose proof (Z.pow_le_mono_r 10 21 k ltac:(lia) ltac:(lia)) as H21.
  change (10 ^ 21) with 1000000000000000000000 in H21. unfold ULLONG_MAX in *. nia.
Qed.

Lemma scaled_complete sig pow10 m :
  0 < sig <= ULLONG_MAX -> m <= LLONG_MAX + 1 -> denotes sig pow10 m ->
  scaled sig pow10 = (m, 0).
Proof.
  unfold scaled, denotes. intros Hs Hm H. destruct (Z.le_gt_cases 0 pow10) as [Hp | Hp].
  - rewrite (Z.max_l 0 (- pow10)), (Z.max_r 0 pow10), Z.mul_1_r in H by lia. subst m.
    rewrite scale_up_done; [by rewrite scale_down_pos | lia | | done].
    pose proof (pow10_small pow10 sig). unfold LLONG_MAX, ULLONG_MAX in *. lia.
  - rewrite (Z.max_r 0 (- pow10)), (Z.max_l 0 pow10), Z.mul_1_r in H by lia.
    rewrite scale_up_neg, <- H by lia. apply scale_down_done.
    pose proof (Z.pow_pos_nonneg 10 (- pow10) ltac:(lia) ltac:(lia)).
    pose proof (pow10_small (- pow10) m ltac:(lia) ltac:(nia) ltac:(lia)). lia.
Qed.

(** ** Literals *)

(** A number as JSON writes it: sign, integer part, fraction and an exponent with
    its letter in upper case or not and its sign, minus if [Some true] *)
Record literal := Literal {
  negative : bool;
  integer_part : Decimal.uint;
  fraction : option Decimal.uint;
  exponent : option (bool * option bool * Decimal.uint);
}.

Definition fraction_text (o : option Decimal.uint) : string :=
  match o with None => EmptyString | Some u => String "." (digits u) end.

Definition exponent_text (o : option (bool * option bool * Decimal.uint)) : string :=
  match o with
  | None => EmptyString
  | Some (upper, sign, u) =>
      String (if upper then "E" else "e")%char
        (match sign with
         | None => EmptyString | Some true => "-" | Some false => "+"
         end +:+ digits u)
  end.

Definition literal_text (l : literal) : string :=
  (if negative l then "-" else EmptyString) +:+ digits (integer_part l) +:+
  fraction_text (fraction l) +:+ exponent_text (exponent l).

Definition exponent_value (o : option (bool * option bool * Decimal.uint)) : Z :=
  match o with
  | None => 0
  | Some (_, Some true, u) => - digits_value 0 u
  | Some (_, _, u) => digits_value 0 u
  end.

Definition fraction_digits_of (o : option Decimal.uint) : Decimal.uint :=
  match o with None => Decimal.Nil | Some u => u end.

(** All digits as one number, and the power of ten it is multiplied with *)
Definition significand (l : literal) : Z :=
  digits_value (digits_value 0 (integer_part l)) (fraction_digits_of (fraction l)).

Definition power (l : literal) : Z :=
  exponent_value (exponent l)
  - Z.of_nat (Decimal.nb_digits (fraction_digits_of (fraction l))).

(** The value of the literal is the integer [z]. *)
Definition is_integer (l : literal) (z : Z) : Prop :=
  denotes (if negative l then - significand l else significand l) (power l) z.

(** The grammar, a significand of 64 bits, and an exponent that fits an [int] *)
Record literal_ok (l : literal) : Prop := {
  ok_integer : integer_part l <> Decimal.Nil;
  ok_leading : forall u, integer_part l = Decimal.D0 u -> u = Decimal.Nil;
  ok_fraction : fraction l <> Some Decimal.Nil;
  ok_exponent : forall b sign, exponent l <> Some (b, sign, Decimal.Nil);
  ok_significand : significand l <= ULLONG_MAX;
  ok_power : Z.abs (exponent_value (exponent l)) < INT_MAX / 10 * 10;
  ok_range : INT_MIN <= power l;
}.

Lemma lex_exponent_read o pow10 :
  (forall b sign, o <> Some (b, sign, Decimal.Nil)) ->
  Z.abs (exponent_value o) < INT_MAX / 10 * 10 ->
  pow10 <= 0 -> INT_MIN <= pow10 + exponent_value o ->
  lex_exponent pow10 (exponent_text o) = inr (pow10 + exponent_value o, EmptyString).
Proof.
  intros Ho Hv Hp Hmin. unfold lex_exponent.
  destruct o as [[[upper sign] u] |]; cbn [exponent_text first_is exponent_value] in *;
    [| by rewrite Z.add_0_r].
  assert (u <> Decimal.Nil) as Hu by (intros ->; by destruct (Ho upper sign)).
  pose proof (digits_value_ge 0 u ltac:(lia)) as Hge.
  assert (Z.abs (digits_value 0 u) < INT_MAX / 10 * 10) as Hd.
  { destruct sign as [[] |]; [rewrite Z.abs_opp in Hv | |]; done. }
  pose proof Hd as Hd'. change (INT_MAX / 10 * 10) with 2147483640 in Hd'.
  replace (_ || _) with true by (by destruct upper).
  cbn [str_tail].
  assert (first_is isdigit (digits u) = true) as Hfirst.
  { rewrite <- (app_nil_str (digits u)). by apply digits_first_digit. }
  assert (first_is (Ascii.eqb "-"%char) (digits u) = false /\
          first_is (fun c => Ascii.eqb c "+"%char || Ascii.eqb c "-"%char) (digits u) = false)
    as [Hm Hpm] by (by destruct u).
  destruct sign as [[] |]; rewrite ?app_cons_str, app_empty_str;
    cbn [first_is str_tail orb]; rewrite ?Hm, ?Hpm;
    rewrite ?(eq_refl : Ascii.eqb _ _ = _); cbn [first_is str_tail orb Ascii.eqb Bool.eqb andb];
    rewrite Hfirst; cbn [negb]; rewrite exponent_digits_read by lia.
  - rewrite (proj2 (Z.ltb_ge _ _)) by lia. done.
  - rewrite (proj2 (Z.ltb_ge _ _)) by (unfold INT_MAX; lia). done.
  - rewrite (proj2 (Z.ltb_ge _ _)) by (unfold INT_MAX; lia). done.
Qed.

Section Numbers.
Context {HL : Libc}.

(** A number that is not an integer of 64 bits goes to [strtod]. *)
Definition real_token (text : string) : string + json_token :=
  match str_to_double text with
  | None => inl "number outside valid range"
  | Some d => inr (T_REAL (if Float.eqb d Float.zero then Float.zero else d))
  end.

Lemma number_token_scaled text neg sig pow10 :
  0 < sig ->
  number_token text neg sig pow10 false =
    let '(s, p) := scaled sig pow10 in
    if Z.eqb p 0 && (s <=? (if neg then LLONG_MAX + 1 else LLONG_MAX))%Z
    then inr (T_INTEGER (if neg then - s else s)) else real_token text.
Proof.
  intros Hs. unfold number_token, scaled.
  rewrite (proj2 (Z.eqb_neq sig 0)) by lia. by destruct (scale_up 20 sig pow10).
Qed.

Definition int64 (z : Z) : Prop := - (LLONG_MAX + 1) <= z <= LLONG_MAX.

Lemma denotes_opp sig pow10 m : denotes (- sig) pow10 (- m) <-> denotes sig pow10 m.
Proof. unfold denotes. rewrite !Z.mul_opp_l. split; lia. Qed.

Lemma denotes_pos sig pow10 m : 0 < sig -> denotes sig pow10 m -> 0 < m.
Proof.
  unfold denotes. intros Hs H.
  pose proof (Z.pow_pos_nonneg 10 (Z.max 0 (- pow10)) ltac:(lia) ltac:(lia)).
  pose proof (Z.pow_pos_nonneg 10 (Z.max 0 pow10) ltac:(lia) ltac:(lia)). nia.
Qed.

Lemma number_token_exact text (neg : bool) sig pow10 :
  0 <= sig <= ULLONG_MAX ->
  let value := denotes (if neg then - sig else sig) pow10 in
  (exists z, int64 z /\ value z /\
     number_token text neg sig pow10 false = inr (T_INTEGER z)) \/
  ((forall z, int64 z -> ~ value z) /\
   number_token text neg sig pow10 false = real_token text).
Proof.
  intros Hs value. destruct (Z.eq_dec sig 0) as [-> | Hne].
  { left. exists 0. split; [done |]. split; [| done].
    unfold value, denotes. by destruct neg. }
  rewrite number_token_scaled by lia. unfold int64.
  destruct (scaled sig pow10) as [s p] eqn:Hsc.
  set (z := if neg then - s else s).
  destruct (Z.eqb_spec p 0) as [-> | Hp]; cbn [andb]; cycle 1.
  { right. split; [| done]. intros m Hm Hv. apply Hp.
    assert (denotes sig pow10 (if neg then - m else m)) as Hd.
    { unfold value in Hv. destruct neg; [| done].
      by rewrite <- denotes_opp, Z.opp_involutive. }
    apply scaled_complete in Hd; [congruence | lia | destruct neg; lia]. }
  apply scaled_sound in Hsc as [Hpos Hd]; [| lia].
  assert (value z) as Hz by (unfold value, z; destruct neg; by rewrite ?denotes_opp).
  destruct (Z.leb_spec s (if neg then LLONG_MAX + 1 else LLONG_MAX)) as [Hle | Hgt].
  - left. exists z. unfold z, LLONG_MAX in *. split; [destruct neg; lia | done].
  - right. split; [| done]. intros m Hm Hv.
    assert (m = z) as ->.
    { unfold value, denotes in *.
      pose proof (Z.pow_pos_nonneg 10 (Z.max 0 (- pow10)) ltac:(lia) ltac:(lia)).
      apply (Z.mul_reg_r _ _ (10 ^ Z.max 0 (- pow10))); [lia | congruence]. }
    unfold z in Hm. destruct neg; lia.
Qed.

(** The three parts of a literal, read one after the other *)
Lemma sign_read l :
  integer_part l <> Decimal.Nil ->
  first_is (Ascii.eqb "-"%char) (literal_text l) = negative l /\
  (if negative l then str_tail (literal_text l) else literal_text l) =
    digits (integer_part l) +:+ fraction_text (fraction l) +:+ exponent_text (exponent l).
Proof.
  intros Hi. unfold literal_text. destruct (negative l); [done |]. split; [| done].
  rewrite app_empty_str.
  destruct (digits_cons (integer_part l)) as [| (c & u & Ht & Hd & _)]; [done |].
  rewrite Ht, app_cons_str. cbn [first_is].
  destruct (Ascii.eqb_spec "-"%char c) as [<- | ]; [done |]. done.
Qed.

Lemma integer_part_read u rest :
  u <> Decimal.Nil -> (forall v, u = Decimal.D0 v -> v = Decimal.Nil) ->
  digits_value 0 u <= ULLONG_MAX -> first_is isdigit rest = false ->
  (if first_is (Ascii.eqb "0"%char) (digits u +:+ rest) then
     if first_is isdigit (str_tail (digits u +:+ rest)) then inl "leading zeros not allowed"
     else inr (0, 0, false, str_tail (digits u +:+ rest))
   else if first_is isdigit (digits u +:+ rest)
   then inr (integer_digits 0 0 false (digits u +:+ rest))
   else inl "'-' must be followed by digit") =
  (inr (digits_value 0 u, 0, false, rest) : string + Z * Z * bool * string).
Proof.
  intros Hu Hl Hmax Hrest.
  rewrite digits_first_digit, integer_digits_read by done.
  destruct (digits_cons u) as [| (c & u' & Ht & _ & _ & _ & [Hz _] & _)]; [done |].
  rewrite Ht, app_cons_str at 1. cbn [first_is].
  destruct (Ascii.eqb "0"%char c); [| done].
  destruct (Hz eq_refl) as [v Hv]. specialize (Hl v Hv). subst v u.
  change (digits (Decimal.D0 Decimal.Nil) +:+ rest) with (String "0" rest).
  cbn [str_tail]. by rewrite Hrest.
Qed.

Lemma fraction_read o e n :
  o <> Some Decimal.Nil -> 0 <= n -> digits_value n (fraction_digits_of o) <= ULLONG_MAX ->
  let rest := fraction_text o +:+ exponent_text e in
  (if first_is (Ascii.eqb "."%char) rest then
     if negb (first_is isdigit (str_tail rest))
     then inl "decimal point must be followed by digit"
     else inr (fraction_digits n 0 false (str_tail rest))
   else inr (n, 0, false, rest)) =
  (inr (digits_value n (fraction_digits_of o),
        - Z.of_nat (Decimal.nb_digits (fraction_digits_of o)), false, exponent_text e)
   : string + Z * Z * bool * string).
Proof.
  intros Ho Hn Hmax. cbn zeta.
  assert (first_is isdigit (exponent_text e) = false /\
          first_is (Ascii.eqb "."%char) (exponent_text e) = false) as [He1 He2].
  { by destruct e as [[[[] ?] ?] |]. }
  destruct o as [u |]; cbn [fraction_text fraction_digits_of] in *.
  - rewrite app_cons_str. cbn [first_is str_tail].
    rewrite digits_first_digit by congruence. by rewrite fraction_digits_read.
  - by rewrite app_empty_str, He2.
Qed.

Lemma json_lex_number_literal l :
  literal_ok l ->
  0 <= significand l <= ULLONG_MAX /\
  json_lex_number (literal_text l) =
  number_token (literal_text l) (negative l) (significand l) (power l) false.
Proof.
  intros [Hi Hl Hf He Hs Hp Hr]. unfold significand, power in *.
  set (n := digits_value 0 (integer_part l)) in *.
  set (frac := fraction_digits_of (fraction l)) in *.
  pose proof (digits_value_ge 0 (integer_part l) ltac:(lia)) as Hn.
  pose proof (digits_value_ge n frac Hn) as Hnf. split; [lia |].
  unfold json_lex_number. cbv zeta. destruct (sign_read l Hi) as [-> ->].
  rewrite integer_part_read; [| done | done | fold n; lia |]; cycle 1.
  { destruct (fraction l); [done |]. by destruct (exponent l) as [[[[] ?] ?] |]. }
  rewrite fraction_read by done. fold n frac.
  rewrite lex_exponent_read by (done || lia). cbn. f_equal. lia.
Qed.

(** *** Integers as the serializer prints them *)

Lemma str_int_literal z :
  let l := Literal (z <? 0)%Z (N.to_uint (Z.abs_N z)) None None in
  str_int z = literal_text l /\ significand l = Z.abs z /\ power l = 0 /\
  (int64 z -> literal_ok l).
Proof.
  set (l := Literal _ _ _ _). cbv zeta.
  assert (significand l = Z.abs z) as Hs.
  { unfold significand. cbn. destruct z; cbn; [done | apply to_uint_value..]. }
  split; [| split; [done | split; [done |]]].
  - unfold str_int, literal_text. cbn [negative integer_part fraction exponent l].
    cbn [fraction_text exponent_text]. rewrite !app_nil_str.
    destruct z as [| p | p]; [done | |]; cbn;
      unfold NilZero.string_of_int, NilZero.string_of_uint; cbn;
      pose proof (DecimalPos.Unsigned.to_uint_nonnil p); by destruct (Pos.to_uint p).
  - intros Hz. split; try done.
    + cbn. destruct z; [done | apply DecimalPos.Unsigned.to_uint_nonnil..].
    + intros u. cbn. destruct z; cbn; [by intros [= <-] | |]; intros H;
        by apply to_uint_leading in H.
    + rewrite Hs. unfold int64, LLONG_MAX, ULLONG_MAX in *. lia.
Qed.

Lemma json_lex_number_str_int z :
  int64 z -> json_lex_number (str_int z) = inr (T_INTEGER z).
Proof.
  intros Hz. destruct (str_int_literal z) as (Ht & Hs & Hp & Hok).
  destruct (json_lex_number_literal _ (Hok Hz)) as [Hr Hlex].
  rewrite Ht, Hlex, Hs, Hp. rewrite Hs in Hr. cbn [negative].
  unfold number_token, int64 in *. rewrite scale_up_neg, scale_down_pos by done.
  destruct (Z.eqb_spec (Z.abs z) 0); [repeat f_equal; lia |]. cbn.
  destruct (Z.ltb_spec z 0); rewrite (proj2 (Z.leb_le _ _)) by lia; repeat f_equal; lia.
Qed.

(** C22: A number literal with a significand of 64 bits, whose written exponent is
    less than 2147483640 in absolute value and whose exponent less the digits of
    the fraction is an [int], becomes the integer that it denotes, exactly if it
    denotes one of 64 bits; otherwise [strtod] reads it.  (An exponent out of
    range is an error.) *)
Theorem json_lex_number_exact (l : literal) :
  literal_ok l ->
  (exists z, int64 z /\ is_integer l z /\
     json_lex_number (literal_text l) = inr (T_INTEGER z)) \/
  ((forall z, int64 z -> ~ is_integer l z) /\
   json_lex_number (literal_text l) = real_token (literal_text l)).
Proof.
  intros Hok. destruct (json_lex_number_literal l Hok) as [Hs ->].
  by apply number_token_exact.
Qed.

(** Above that the guard of the accumulation lets the last digit wrap the
    significand around: the numbers from 2^64 to 2^64 + 3 are read as 0 to 3. *)
Theorem json_lex_number_wraps (r : Z) :
  0 <= r <= 3 -> json_lex_number (str_int (ULLONG_MAX + 1 + r)) = inr (T_INTEGER r).
Proof.
  intros Hr. assert (r = 0 \/ r = 1 \/ r = 2 \/ r = 3) as H by lia.
  by destruct H as [-> | [-> | [-> | ->]]].
Qed.
End Numbers.

(** ** Witnesses *)

(** A C library whose [strtod] accepts nothing *)
Definition no_strtod : Libc :=
  {| strtod s := (Float.zero, s, E_OK); printf_g _ := "0" |}.

(** 1.250e+2 *)
Definition demo_literal : literal :=
  Literal false (Decimal.D1 Decimal.Nil)
    (Some (Decimal.D2 (Decimal.D5 (Decimal.D0 Decimal.Nil))))
    (Some (false, Some false, Decimal.D2 Decimal.Nil)).

Lemma json_lex_number_exact_witness :
  literal_text demo_literal = "1.250e+2" /\ is_integer demo_literal 125 /\
  ((exists z, int64 z /\ is_integer demo_literal z /\
     @json_lex_number no_strtod (literal_text demo_literal) = inr (T_INTEGER z)) \/
   ((forall z, int64 z -> ~ is_integer demo_literal z) /\
    @json_lex_number no_strtod (literal_text demo_literal) =
    @real_token no_strtod (literal_text demo_literal))).
Proof.
  split; [reflexivity |]. split; [reflexivity |].
  apply (@json_lex_number_exact no_strtod demo_literal). split; try done.
Defined.

Lemma json_lex_number_wraps_witness :
  0 <= 0 <= 3 /\
  @json_lex_number no_strtod "18446744073709551616" = inr (T_INTEGER 0).
Proof. split; [lia |]. apply (@json_lex_number_wraps no_strtod 0). lia. Defined.

End OvsJsonLex.
