(* ===== verification/OvsJsonReads.v ===== *)
(** * What the JSON parser does with well-formed text

    [reads text s s'] says that the parser, between two tokens in the situation
    [s], takes [text] to the situation [s'] whatever follows; the lemmas say so of
    white space, punctuation and strings, and of numbers and keywords in front of
    a delimiter. *)

From stdpp Require Import base option list strings.
From Stdlib Require Import ZArith Lia Ascii.
From S2P Require Import Prelude Strings CString Binary64 OvsJson OvsJsonSafe OvsJsonLex.

Local Open Scope Z_scope.
Local Open Scope string_scope.

Module OvsJsonReads.
Import OvsJson OvsJsonSafe OvsJsonLex.

(** What the next tokens are read against *)
Record situation := Situation {
  sit_state : json_parse_state;
  sit_stack : list container;
  sit_name : option string;
}.

(** The parser in a situation, after so many lines, columns and bytes *)
Definition parser_in (lex : json_lex_state) (s : situation) (l c b : Z) : json_parser :=
  Parser true lex EmptyString l c b (sit_state s) (sit_stack s) (sit_name s) false None.

Definition step (t : json_token) (s s' : situation) : Prop :=
  forall lex buf l c b,
    parse_token t (Parser true lex buf l c b (sit_state s) (sit_stack s) (sit_name s)
                     false None) =
    Some (Parser true lex buf l c b (sit_state s') (sit_stack s') (sit_name s') false None).

Section Reads.
Context {HL : Libc}.

Definition reads (text : string) (s s' : situation) : Prop :=
  forall tok l c b rest, exists tok' l' c' b',
    feed_loop tok (parser_in JSON_LEX_START s l c b) (text +:+ rest) =
    feed_loop tok' (parser_in JSON_LEX_START s' l' c' b') rest.

Definition delimiter (d : ascii) : bool :=
  Ascii.eqb d ","%char || Ascii.eqb d "]"%char || Ascii.eqb d "}"%char.

Definition reads_before (text : string) (s s' : situation) : Prop :=
  forall d tok l c b rest, delimiter d = true -> exists tok' l' c' b',
    feed_loop tok (parser_in JSON_LEX_START s l c b) (text +:+ String d rest) =
    feed_loop tok' (parser_in JSON_LEX_START s' l' c' b') (String d rest).

Lemma reads_nil s : reads EmptyString s s.
Proof. intros tok l c b rest. by exists tok, l, c, b. Qed.

Lemma reads_app t1 t2 s1 s2 s3 : reads t1 s1 s2 -> reads t2 s2 s3 -> reads (t1 +:+ t2) s1 s3.
Proof.
  intros H1 H2 tok l c b rest. rewrite app_assoc_str.
  destruct (H1 tok l c b (t2 +:+ rest)) as (tok1 & l1 & c1 & b1 & ->). apply H2.
Qed.

Lemma reads_reads_before t s s' : reads t s s' -> reads_before t s s'.
Proof. intros H d tok l c b rest _. apply H. Qed.

Lemma reads_app_before t1 t2 s1 s2 s3 :
  reads t1 s1 s2 -> reads_before t2 s2 s3 -> reads_before (t1 +:+ t2) s1 s3.
Proof.
  intros H1 H2 d tok l c b rest Hd. rewrite app_assoc_str.
  destruct (H1 tok l c b (t2 +:+ String d rest)) as (tok1 & l1 & c1 & b1 & ->).
  by apply H2.
Qed.

Lemma reads_before_app t1 d t2 s1 s2 s3 :
  reads_before t1 s1 s2 -> delimiter d = true -> reads (String d t2) s2 s3 ->
  reads (t1 +:+ String d t2) s1 s3.
Proof.
  intros H1 Hd H2 tok l c b rest. rewrite app_assoc_str, app_cons_str.
  destruct (H1 d tok l c b (t2 +:+ rest) Hd) as (tok1 & l1 & c1 & b1 & ->).
  apply (H2 tok1 l1 c1 b1 rest).
Qed.

(** Counting a byte leaves a parser in its situation. *)
Lemma account_byte_in ch lex s l c b :
  exists l' c' b', json_parser_account_byte ch (parser_in lex s l c b) = parser_in lex s l' c' b'.
Proof.
  unfold json_parser_account_byte. case_match; by do 3 eexists.
Qed.

Lemma reads_space ch s : is_json_space ch = true -> reads (String ch EmptyString) s s.
Proof.
  intros Hs tok l c b rest. str_simpl. cbn [feed_loop done parser_in].
  unfold feed_byte, feed_start. cbn [lex_state parser_in]. rewrite Hs. cbn [mbind option_bind].
  destruct (account_byte_in ch JSON_LEX_START s l c b) as (l' & c' & b' & ->).
  by do 4 eexists.
Qed.

Lemma reads_spaces n s : reads (spaces n) s s.
Proof.
  induction n as [| n IH]; [apply reads_nil |].
  exact (reads_app (String " " EmptyString) (spaces n) s s s (reads_space " "%char s eq_refl) IH).
Qed.

Lemma reads_punctuation ch t s s' :
  punctuation ch = Some t -> step t s s' -> reads (String ch EmptyString) s s'.
Proof.
  intros Hp Hs tok l c b rest. str_simpl. cbn [feed_loop done parser_in].
  assert (is_json_space ch = false /\ islower ch = false) as [H1 H2].
  { unfold punctuation in Hp.
    repeat match goal with H : context [if Ascii.eqb ch ?x then _ else _] |- _ =>
      destruct (Ascii.eqb_spec ch x) as [-> |]; [done |] end. done. }
  unfold feed_byte, feed_start. cbn [lex_state parser_in]. rewrite H1, H2, Hp.
  unfold json_parser_input. unfold parser_in at 1. rewrite Hs. cbn [mbind option_bind].
  match goal with |- context [json_parser_account_byte ch ?p] =>
    change p with (parser_in JSON_LEX_START s' l c b) end.
  destruct (account_byte_in ch JSON_LEX_START s' l c b) as (l' & c' & b' & ->).
  by do 4 eexists.
Qed.

(** ** Strings *)

Definition in_string (s : situation) (text : string) : Prop :=
  forall tok l c b rest, exists l' c' b',
    feed_loop tok (parser_in JSON_LEX_STRING s l c b) (text +:+ rest) =
    feed_loop (tok +:+ text) (parser_in JSON_LEX_STRING s l' c' b') rest.

Lemma in_string_nil s : in_string s EmptyString.
Proof. intros tok l c b rest. rewrite app_nil_str. by exists l, c, b. Qed.

Lemma in_string_app s t1 t2 : in_string s t1 -> in_string s t2 -> in_string s (t1 +:+ t2).
Proof.
  intros H1 H2 tok l c b rest. rewrite app_assoc_str.
  destruct (H1 tok l c b (t2 +:+ rest)) as (l1 & c1 & b1 & ->).
  rewrite <- app_assoc_str. apply H2.
Qed.

Lemma in_string_plain s ch : plain ch = true -> in_string s (String ch EmptyString).
Proof.
  intros [[H1%Z.leb_le H2%negb_true_iff]%andb_true_iff H3%negb_true_iff]%andb_true_iff.
  intros tok l c b rest. str_simpl. cbn [feed_loop done parser_in].
  unfold feed_byte. cbn [lex_state parser_in]. rewrite H3, H2, (proj2 (Z.ltb_ge _ _) H1).
  destruct (account_byte_in ch JSON_LEX_STRING s l c b) as (l' & c' & b' & ->).
  by do 3 eexists.
Qed.

Lemma in_string_pair s e :
  in_string s (String backslash (String e EmptyString)).
Proof.
  intros tok l c b rest. str_simpl. cbn [feed_loop done parser_in].
  unfold feed_byte at 1. cbn [lex_state parser_in].
  change (Ascii.eqb backslash backslash) with true. cbv iota.
  match goal with |- context [json_parser_account_byte backslash ?p] =>
    change p with (parser_in JSON_LEX_ESCAPE s l c b) end.
  destruct (account_byte_in backslash JSON_LEX_ESCAPE s l c b) as (l1 & c1 & b1 & ->).
  cbn [feed_loop done parser_in]. unfold feed_byte at 1. cbn [lex_state parser_in].
  match goal with |- context [json_parser_account_byte e ?p] =>
    change p with (parser_in JSON_LEX_STRING s l1 c1 b1) end.
  destruct (account_byte_in e JSON_LEX_STRING s l1 c1 b1) as (l' & c' & b' & ->).
  rewrite app_assoc_str. by do 3 eexists.
Qed.

Lemma in_string_escape_chars s str : no_nul str = true -> in_string s (escape_chars str).
Proof.
  induction str as [| c str IH]; [intros; apply in_string_nil |].
  intros [Hc Hs]%andb_true_iff. apply negb_true_iff, Z.eqb_neq in Hc.
  rewrite escape_chars_cons. apply in_string_app; [| by apply IH].
  destruct (escape_escaped c Hc) as [Hp | e _ _ | x y Hx Hy _].
  - by apply in_string_plain.
  - apply in_string_pair.
  - apply (in_string_app s (String backslash "u") _); [apply in_string_pair |].
    repeat match goal with |- in_string _ (String ?x (String ?y ?t)) =>
      apply (in_string_app s (String x EmptyString) (String y t));
        [by apply in_string_plain |] end.
    by apply in_string_plain.
Qed.

Lemma reads_string str s s' :
  no_nul str = true -> step (T_STRING str) s s' -> reads (json_serialize_string str) s s'.
Proof.
  intros Hn Hs tok l c b rest. unfold json_serialize_string.
  rewrite (ds_cstr_id str Hn). str_simpl. cbn [feed_loop done parser_in].
  unfold feed_byte at 1. cbn [lex_state parser_in].
  change (feed_start dquote tok (parser_in JSON_LEX_START s l c b)) with
    (Some (parser_in JSON_LEX_STRING s l c b, EmptyString)). cbn [mbind option_bind].
  destruct (account_byte_in dquote JSON_LEX_STRING s l c b) as (l1 & c1 & b1 & ->).
  destruct (in_string_escape_chars s str Hn EmptyString l1 c1 b1 (String dquote rest))
    as (l2 & c2 & b2 & ->).
  rewrite app_empty_str. cbn [feed_loop done parser_in]. unfold feed_byte at 1.
  cbn [lex_state parser_in].
  change (Ascii.eqb dquote backslash) with false. change (Ascii.eqb dquote dquote) with true.
  cbv iota.
  match goal with |- context [ds_cstr ?x] => change x with (escape_chars str) end.
  rewrite ds_cstr_id by (by apply escape_chars_no_nul).
  rewrite json_lex_string_escape by done. cbn [mbind option_bind lexed].
  unfold json_parser_input.
  match goal with |- context [parse_token _ ?p] =>
    change p with (Parser true JSON_LEX_STRING (escape_chars str) l2 c2 b2 (sit_state s)
                     (sit_stack s) (sit_name s) false None) end.
  rewrite Hs. cbn [mbind option_bind].
  match goal with |- context [json_parser_account_byte dquote ?p] =>
    change p with (parser_in JSON_LEX_START s' l2 c2 b2) end.
  destruct (account_byte_in dquote JSON_LEX_START s' l2 c2 b2) as (l' & c' & b' & ->).
  by do 4 eexists.
Qed.

(** ** Numbers and keywords *)

Definition word_char (lex : json_lex_state) (ch : ascii) : bool :=
  match lex with
  | JSON_LEX_NUMBER => strchr ".0123456789eE-+" ch
  | JSON_LEX_KEYWORD => isalpha ch
  | _ => false
  end.

Definition word_token (lex : json_lex_state) (text : string) : string + json_token :=
  match lex with
  | JSON_LEX_NUMBER => json_lex_number text
  | _ => json_lex_keyword text
  end.

Lemma feed_byte_word lex s l c b ch tok :
  word_char lex ch = true ->
  feed_byte ch tok (parser_in lex s l c b) =
    Some (parser_in lex s l c b, tok +:+ String ch EmptyString, true).
Proof. intros H. destruct lex; cbn in H |- *; try done; by rewrite H. Qed.

Lemma in_word lex s text tok l c b rest :
  str_all (word_char lex) text = true -> exists l' c' b',
    feed_loop tok (parser_in lex s l c b) (text +:+ rest) =
    feed_loop (tok +:+ text) (parser_in lex s l' c' b') rest.
Proof.
  revert tok l c b. induction text as [| ch text IH]; intros tok l c b Ht.
  - rewrite app_nil_str. by exists l, c, b.
  - apply andb_true_iff in Ht as [Hc Ht]. str_simpl. cbn [feed_loop done parser_in].
    rewrite feed_byte_word by done.
    destruct (account_byte_in ch lex s l c b) as (l1 & c1 & b1 & ->).
    destruct (IH (tok +:+ String ch EmptyString) l1 c1 b1 Ht) as (l' & c' & b' & ->).
    rewrite app_assoc_str. str_simpl. by exists l', c', b'.
Qed.

(** The delimiter ends the word, and is then read for itself. *)
Lemma word_end lex s s' l c b d tok t rest :
  lex = JSON_LEX_NUMBER \/ lex = JSON_LEX_KEYWORD -> delimiter d = true ->
  no_nul tok = true -> word_token lex tok = inr t -> step t s s' ->
  feed_loop tok (parser_in lex s l c b) (String d rest) =
  feed_loop tok (parser_in JSON_LEX_START s' l c b) (String d rest).
Proof.
  intros Hlex Hd Hn Ht Hs.
  assert (word_char lex d = false) as Hw.
  { unfold delimiter in Hd. repeat (apply orb_true_iff in Hd as [Hd | Hd]);
      apply Ascii.eqb_eq in Hd; subst d; by destruct Hlex as [-> | ->]. }
  assert (feed_byte d tok (parser_in lex s l c b) =
          Some (parser_in JSON_LEX_START s' l c b, tok, false)) as Hb.
  { unfold feed_byte. destruct Hlex as [-> | ->]; cbn [lex_state parser_in];
      cbn [word_char word_token] in *; rewrite Hw; cbn [negb];
      match goal with |- context [ds_cstr ?x] => change x with tok end;
      rewrite ds_cstr_id, Ht by done; cbn [lexed]; unfold json_parser_input;
      match goal with |- context [parse_token _ ?p] =>
        change p with (Parser true (lex_state p) tok l c b (sit_state s)
                         (sit_stack s) (sit_name s) false None) end;
      by rewrite Hs. }
  cbn [feed_loop done parser_in]. rewrite Hb. cbn [done parser_in].
  unfold feed_byte. cbn [lex_state parser_in].
  by destruct (feed_start d tok (parser_in JSON_LEX_START s' l c b)) as [[p tok'] |].
Qed.

Lemma reads_word lex ch text t s s' :
  lex = JSON_LEX_NUMBER \/ lex = JSON_LEX_KEYWORD ->
  (forall tok l c b, feed_start ch tok (parser_in JSON_LEX_START s l c b) =
                     Some (parser_in lex s l c b, String ch EmptyString)) ->
  str_all (word_char lex) text = true -> no_nul (String ch text) = true ->
  word_token lex (String ch text) = inr t -> step t s s' ->
  reads_before (String ch text) s s'.
Proof.
  intros Hlex Hstart Htext Hn Ht Hs d tok l c b rest Hd. str_simpl.
  cbn [feed_loop done parser_in]. unfold feed_byte. cbn [lex_state parser_in].
  fold (parser_in JSON_LEX_START s l c b). rewrite Hstart. cbn [mbind option_bind].
  destruct (account_byte_in ch lex s l c b) as (l1 & c1 & b1 & ->).
  destruct (in_word lex s text (String ch EmptyString) l1 c1 b1 (String d rest) Htext)
    as (l2 & c2 & b2 & ->). str_simpl.
  rewrite (word_end lex s s' l2 c2 b2 d (String ch text) t rest) by done.
  by do 4 eexists.
Qed.

Lemma reads_number z s s' :
  int64 z -> step (T_INTEGER z) s s' -> reads_before (str_int z) s s'.
Proof.
  intros Hz Hs. pose proof (str_int_chars z) as Hc.
  pose proof (json_lex_number_str_int z Hz) as Hl.
  assert (no_nul (str_int z) = true) as Hn.
  { apply (str_all_impl num_char); [| done]. intros ch.
    by apply (num_char_inv ch (fun c => negb (Z.eqb (code c) 0))). }
  assert (str_all (word_char JSON_LEX_NUMBER) (str_int z) = true) as Hw.
  { apply (str_all_impl num_char); [| done]. intros ch. by apply num_char_inv. }
  destruct (str_int z) as [| ch text] eqn:Hz'; [by destruct (str_int_nonempty z) |].
  apply andb_true_iff in Hc as [Hc _]. apply andb_true_iff in Hw as [_ Hw].
  apply (reads_word JSON_LEX_NUMBER _ _ (T_INTEGER z)); try done; [by left |].
  intros tok l c b. unfold feed_start.
  pose proof (num_char_inv ch (fun ch => negb (is_json_space ch) && negb (islower ch) &&
    match punctuation ch with Some _ => false | None => true end &&
    (Ascii.eqb ch "-"%char || isdigit ch)) eq_refl Hc) as H.
  apply andb_true_iff in H as [[[H1 H2]%andb_true_iff H3]%andb_true_iff H4].
  rewrite (proj1 (negb_true_iff _) H1), (proj1 (negb_true_iff _) H2).
  destruct (punctuation ch); [done |]. by rewrite H4.
Qed.

Lemma reads_keyword text t s s' :
  (text, t) ∈ [("null", T_NULL); ("true", T_TRUE); ("false", T_FALSE)] ->
  step t s s' -> reads_before text s s'.
Proof.
  intros Ht Hs.
  repeat (apply elem_of_cons in Ht as [[= -> ->] | Ht]); [| | | by apply elem_of_nil in Ht];
    (eapply (reads_word JSON_LEX_KEYWORD); [by right | done | done | done | done | done]).
Qed.

End Reads.
End OvsJsonReads.
