(* ===== verification/OvsJsonRoundtrip.v ===== *)
(** * JSON text and back

    What [json_to_string] writes, [json_from_string] reads back to an equal value,
    whatever the flags and the order in which hash tables are visited; with
    [JSSF_SORT], equal values have the same text. *)

From stdpp Require Import base option list strings sorting.
From Stdlib Require Import ZArith Lia Ascii.
From S2P Require Import Prelude Strings CString Binary64 OvsJson OvsJsonSafe OvsJsonLex.
From S2P Require Import OvsJsonReads.

Local Open Scope Z_scope.
Local Open Scope string_scope.

Module OvsJsonRoundtrip.
Import OvsJson OvsJsonSafe OvsJsonLex OvsJsonReads.

(** ** Induction on values *)

Section Induction.
Context (P : json -> Prop).
Context (Hscalar : forall j, height j = O -> P j).
Context (Hobject : forall l, Forall P (map snd l) -> P (JSON_OBJECT l)).
Context (Harray : forall l, Forall P l -> P (JSON_ARRAY l)).

Fixpoint json_induction (j : json) : P j :=
  match j with
  | JSON_OBJECT l =>
      Hobject l ((fix all l : Forall P (map snd l) :=
                    match l with
                    | [] => Forall_nil_2 P
                    | (_, v) :: l => Forall_cons_2 P v _ (json_induction v) (all l)
                    end) l)
  | JSON_ARRAY l =>
      Harray l ((fix all l : Forall P l :=
                   match l with
                   | [] => Forall_nil_2 P
                   | v :: l => Forall_cons_2 P v _ (json_induction v) (all l)
                   end) l)
  | j => Hscalar j eq_refl
  end.
End Induction.

(** Values that have an exact text: reals are printed with 15 digits, and a
    serialized object is text already. *)
Fixpoint textual (j : json) : bool :=
  match j with
  | JSON_REAL _ | JSON_SERIALIZED_OBJECT _ => false
  | JSON_OBJECT l => forallb (fun '(_, v) => textual v) l
  | JSON_ARRAY l => forallb textual l
  | _ => true
  end.

Lemma textual_object l :
  textual (JSON_OBJECT l) = true <-> Forall (fun v => textual v = true) (map snd l).
Proof.
  simpl. induction l as [| [k v] l IH]; simpl; [by split |].
  rewrite andb_true_iff, Forall_cons. by rewrite IH.
Qed.

Lemma textual_array l :
  textual (JSON_ARRAY l) = true <-> Forall (fun v => textual v = true) l.
Proof.
  simpl. induction l as [| v l IH]; simpl; [by split |].
  rewrite andb_true_iff, Forall_cons. by rewrite IH.
Qed.

(** What is in a container has a level less. *)
Lemma array_below l n k :
  (height (JSON_ARRAY l) + n <= k)%nat -> Forall (fun v => height v + S n <= k)%nat l.
Proof.
  intros H. assert (0 < height (JSON_ARRAY l))%nat by (simpl; lia).
  pose proof (proj1 (height_array l (k - S n)) ltac:(lia)) as H'.
  eapply Forall_impl; [exact H' |]. cbv beta. lia.
Qed.

Lemma object_below l n k :
  (height (JSON_OBJECT l) + n <= k)%nat ->
  Forall (fun v => height v + S n <= k)%nat (map snd l).
Proof.
  intros H. assert (0 < height (JSON_OBJECT l))%nat by (simpl; lia).
  pose proof (proj1 (height_object l (k - S n)) ltac:(lia)) as H'.
  eapply Forall_impl; [exact H' |]. cbv beta. lia.
Qed.

(** ** Members in an order *)

Lemma shash_find_Some {A} (l : list (string * A)) k v :
  shash_find l k = Some v -> (k, v) ∈ l.
Proof.
  induction l as [| [k' v'] l IH]; simpl; [done |].
  destruct (String.eqb_spec k' k) as [-> |]; [intros [= ->]; by left | right; auto].
Qed.

Lemma shash_find_elem {A} (l : list (string * A)) k v :
  NoDup (map fst l) -> (k, v) ∈ l -> shash_find l k = Some v.
Proof.
  induction l as [| [k' v'] l IH]; simpl; [by intros _ ?%elem_of_nil |].
  intros [Hn Hd]%NoDup_cons [[= -> ->] | H]%elem_of_cons; [by rewrite String.eqb_refl |].
  destruct (String.eqb_spec k' k) as [-> |]; [| by apply IH].
  destruct Hn. apply list_elem_of_fmap. by exists (k, v).
Qed.

Lemma shash_find_None {A} (l : list (string * A)) k :
  shash_find l k = None -> k ∉ map fst l.
Proof.
  induction l as [| [k' v'] l IH]; simpl; [intros _ H; by apply elem_of_nil in H |].
  destruct (String.eqb_spec k' k) as [-> | Hne]; [done |].
  intros H [-> | H']%elem_of_cons; [done |]. by apply IH.
Qed.

Lemma shash_find_map {A B} (f : A -> B) (l : list (string * A)) k :
  shash_find (map (fun '(k, v) => (k, f v)) l) k = f <$> shash_find l k.
Proof.
  induction l as [| [k' v'] l IH]; simpl; [done |]. by destruct (String.eqb k' k).
Qed.

Lemma map_fst_map {A B} (f : A -> B) (l : list (string * A)) :
  map fst (map (fun '(k, v) => (k, f v)) l) = map fst l.
Proof. induction l as [| [k v] l IH]; simpl; [done |]. by rewrite IH. Qed.

Lemma map_snd_map {A B} (f : A -> B) (l : list (string * A)) :
  map snd (map (fun '(k, v) => (k, f v)) l) = map f (map snd l).
Proof. induction l as [| [k v] l IH]; simpl; [done |]. by rewrite IH. Qed.

Lemma arranged_map {A B} (f : A -> B) order (l : list (string * A)) :
  arranged order (map (fun '(k, v) => (k, f v)) l) =
  map (fun '(k, v) => (k, f v)) (arranged order l).
Proof.
  unfold arranged. rewrite map_fst_map. generalize (order (map fst l)). intros ks.
  induction ks as [| k ks IH]; [done |]. cbn [omap list_omap].
  rewrite shash_find_map. destruct (shash_find l k); simpl; [by f_equal | done].
Qed.

Lemma arranged_elem {A} order (l : list (string * A)) kv : kv ∈ arranged order l -> kv ∈ l.
Proof.
  intros H. apply list_elem_of_omap in H as (k & _ & H).
  destruct (shash_find l k) as [v |] eqn:Hf; [| done]. injection H as <-.
  by apply shash_find_Some.
Qed.

(** An order that only permutes the names keeps all members. *)
Lemma arranged_names {A} order (l : list (string * A)) :
  order (map fst l) ≡ₚ map fst l -> map fst (arranged order l) = order (map fst l).
Proof.
  intros Hp. unfold arranged.
  assert (Forall (fun k => k ∈ map fst l) (order (map fst l))) as Hin.
  { apply Forall_forall. intros k. by rewrite Hp. }
  clear Hp. induction (order (map fst l)) as [| k ks IH]; [done |].
  apply Forall_cons in Hin as [Hk Hks]. cbn [omap list_omap].
  destruct (shash_find l k) as [v |] eqn:Hf; simpl; [by f_equal; apply IH |].
  by apply shash_find_None in Hf.
Qed.

(** ** Situations *)

(** A value put where one is expected *)
Definition put (s : situation) (v : json) : option situation :=
  match s with
  | Situation JSON_PARSE_OBJECT_VALUE (Object l None :: st) (Some name) =>
      Some (Situation JSON_PARSE_OBJECT_NEXT (Object (json_object_put l name v) None :: st)
              None)
  | Situation (JSON_PARSE_ARRAY_INIT | JSON_PARSE_ARRAY_VALUE) (Array l :: st) None =>
      Some (Situation JSON_PARSE_ARRAY_NEXT (Array (l ++ [v]) :: st) None)
  | _ => None
  end.

(** The containers that wait for one that is opened in the situation *)
Definition parents (s : situation) : option (list container) :=
  match s with
  | Situation JSON_PARSE_START [] None => Some []
  | Situation JSON_PARSE_OBJECT_VALUE (Object l None :: st) (Some name) =>
      Some (Object l (Some name) :: st)
  | Situation (JSON_PARSE_ARRAY_INIT | JSON_PARSE_ARRAY_VALUE) (Array l :: st) None =>
      Some (Array l :: st)
  | _ => None
  end.

(** The situation when it is closed *)
Definition popped (top : container) (st : list container) : option situation :=
  match st with
  | [] => Some (Situation JSON_PARSE_END [top] None)
  | Array l :: st =>
      Some (Situation JSON_PARSE_ARRAY_NEXT (Array (l ++ [closed top]) :: st) None)
  | Object l (Some name) :: st =>
      Some (Situation JSON_PARSE_OBJECT_NEXT
              (Object (json_object_put l name (closed top)) None :: st) None)
  | Object _ None :: _ => None
  end.

Lemma step_scalar t v s s' : scalar t = Some v -> put s v = Some s' -> step t s s'.
Proof.
  intros Ht Hp lex buf l c b. destruct s as [[] [| [m [o |] | m] st] [name |]];
    try done; simpl in Hp; injection Hp as <-; by destruct t; simplify_eq/=.
Qed.

Lemma step_open s st :
  parents s = Some st -> (length st < JSON_MAX_HEIGHT)%nat ->
  step T_BEGIN_ARRAY s (Situation JSON_PARSE_ARRAY_INIT (Array [] :: st) None) /\
  step T_BEGIN_OBJECT s (Situation JSON_PARSE_OBJECT_INIT (Object [] None :: st) None).
Proof.
  intros Hp Hlt. apply Nat.ltb_lt in Hlt.
  destruct s as [[] [| [m [o |] | m] st'] [name |]]; try done; simpl in Hp;
    injection Hp as <-; split; intros lex buf l c b;
    cbn -[Nat.ltb JSON_MAX_HEIGHT] in Hlt |- *;
    unfold json_parser_push_array, json_parser_push_object, json_parser_push;
    cbn -[Nat.ltb JSON_MAX_HEIGHT]; by rewrite Hlt.
Qed.

Lemma step_close_array st s l s' :
  s = JSON_PARSE_ARRAY_INIT \/ s = JSON_PARSE_ARRAY_NEXT ->
  popped (Array l) st = Some s' -> step T_END_ARRAY (Situation s (Array l :: st) None) s'.
Proof.
  intros Hs Hp lex buf x c b.
  destruct Hs as [-> | ->], st as [| [m [o |] | m] st]; simpl in Hp; try done;
    by injection Hp as <-.
Qed.

Lemma step_close_object st s l s' :
  s = JSON_PARSE_OBJECT_INIT \/ s = JSON_PARSE_OBJECT_NEXT ->
  popped (Object l None) st = Some s' ->
  step T_END_OBJECT (Situation s (Object l None :: st) None) s'.
Proof.
  intros Hs Hp lex buf x c b.
  destruct Hs as [-> | ->], st as [| [m [o |] | m] st]; simpl in Hp; try done;
    by injection Hp as <-.
Qed.

Lemma put_parents s v s' :
  put s v = Some s' ->
  exists st, parents s = Some st /\ length st = length (sit_stack s) /\
    forall top, closed top = v -> popped top st = Some s'.
Proof.
  intros Hp. destruct s as [[] [| [m [o |] | m] st] [name |]]; try done; simpl in Hp;
    injection Hp as <-; eexists; (split; [done |]); (split; [done |]);
    intros top <-; done.
Qed.

Section Text.
Context {HL : Libc} {HS : ShashOrder} (flags : json_flags).

(** The value with the members of its objects in the order they are written *)
Fixpoint canon (j : json) : json :=
  match j with
  | JSON_OBJECT l =>
      JSON_OBJECT (arranged (member_order flags) (map (fun '(k, v) => (k, canon v)) l))
  | JSON_ARRAY l => JSON_ARRAY (map canon l)
  | j => j
  end.

Lemma reads_indent n s : reads (indent_line flags n) s s.
Proof.
  unfold indent_line. destruct (pretty flags); [| apply reads_nil].
  apply (reads_app (String newline EmptyString) (spaces (2 * n)) s s s);
    [by apply reads_space | apply reads_spaces].
Qed.

(** The text of [j] puts its value. *)
Definition value_reads (j : json) : Prop :=
  forall depth s s', put s (canon j) = Some s' ->
    (height j + length (sit_stack s) <= JSON_MAX_HEIGHT)%nat ->
    reads_before (json_serialize flags depth j) s s'.

(** *** Arrays *)

Lemma reads_elements depth (items : list json) st l state s' :
  items <> [] -> state = JSON_PARSE_ARRAY_INIT \/ state = JSON_PARSE_ARRAY_VALUE ->
  Forall value_reads items ->
  Forall (fun v => height v + S (length st) <= JSON_MAX_HEIGHT)%nat items ->
  popped (Array (l ++ map canon items)) st = Some s' ->
  reads (separated flags depth (map (json_serialize flags depth) items) +:+ "]")
    (Situation state (Array l :: st) None) s'.
Proof.
  revert l state. induction items as [| v items IH]; intros l state Hne Hstate Hr Hh Hp;
    [done |].
  apply Forall_cons in Hr as [Hv Hr]. apply Forall_cons in Hh as [Hhv Hh].
  set (next := Situation JSON_PARSE_ARRAY_NEXT (Array (l ++ [canon v]) :: st) None).
  assert (reads_before (json_serialize flags depth v)
            (Situation state (Array l :: st) None) next) as H1.
  { apply Hv; [| done]. by destruct Hstate as [-> | ->]. }
  destruct items as [| w items].
  - cbn [map separated]. apply (reads_before_app _ "]"%char EmptyString _ next); [done | done |].
    apply (reads_punctuation _ T_END_ARRAY); [done |].
    apply step_close_array; [by right | done].
  - change (separated flags depth (map (json_serialize flags depth) (v :: w :: items))) with
      (json_serialize flags depth v +:+ String "," (indent_line flags depth +:+
         separated flags depth (map (json_serialize flags depth) (w :: items)))).
    str_simpl. apply (reads_before_app _ _ _ _ next); [done | done |].
    apply (reads_app (String "," EmptyString) _ _
             (Situation JSON_PARSE_ARRAY_VALUE (Array (l ++ [canon v]) :: st) None)).
    { by apply (reads_punctuation _ T_VALUE_SEPARATOR). }
    eapply reads_app; [apply reads_indent |].
    apply IH; [done | by right | done | done |]. by rewrite <- app_assoc.
Qed.


Lemma reads_array depth l s st s' :
  parents s = Some st -> popped (Array (map canon l)) st = Some s' ->
  Forall value_reads l -> (height (JSON_ARRAY l) + length st <= JSON_MAX_HEIGHT)%nat ->
  reads (json_serialize flags depth (JSON_ARRAY l)) s s'.
Proof.
  intros Hs Hp Hr Hh.
  pose proof (array_below _ _ _ Hh) as Hl.
  destruct (step_open s st Hs) as [Hopen _]; [simpl in Hh; lia |].
  apply (reads_punctuation "["%char) in Hopen; [| done].
  destruct l as [| v l].
  - apply (reads_app "[" "]" _ _ _ Hopen). apply (reads_punctuation _ T_END_ARRAY); [done |].
    apply step_close_array; [by left | done].
  - cbn [json_serialize]. eapply (reads_app "[" _); [exact Hopen |].
    eapply reads_app; [apply reads_indent |].
    apply reads_elements; [done | by left | done | done |]. done.
Qed.

(** *** Objects *)

Definition put_members (l items : list (string * json)) : list (string * json) :=
  foldl (fun l '(k, v) => json_object_put l k (canon v)) l items.

Definition item_text (depth : nat) : string * json -> string :=
  fun '(k, v) => member_text flags k (json_serialize flags depth v).

Lemma reads_member depth k v st l state :
  state = JSON_PARSE_OBJECT_INIT \/ state = JSON_PARSE_OBJECT_NAME ->
  no_nul k = true -> value_reads v -> (height v + S (length st) <= JSON_MAX_HEIGHT)%nat ->
  reads_before (item_text depth (k, v)) (Situation state (Object l None :: st) None)
    (Situation JSON_PARSE_OBJECT_NEXT (Object (json_object_put l k (canon v)) None :: st)
       None).
Proof.
  intros Hstate Hk Hv Hh. unfold item_text, member_text.
  apply (reads_app_before _ _ _
           (Situation JSON_PARSE_OBJECT_COLON (Object l None :: st) (Some k))).
  { apply reads_string; [done |]. intros lex buf x c b. by destruct Hstate as [-> | ->]. }
  apply (reads_app_before (String ":" EmptyString) _ _
           (Situation JSON_PARSE_OBJECT_VALUE (Object l None :: st) (Some k))).
  { by apply (reads_punctuation _ T_NAME_SEPARATOR). }
  apply (reads_app_before _ _ _
           (Situation JSON_PARSE_OBJECT_VALUE (Object l None :: st) (Some k)));
    [| by apply Hv].
  destruct (pretty flags); [by apply reads_space | apply reads_nil].
Qed.

Lemma reads_members depth items st l state s' :
  items <> [] -> state = JSON_PARSE_OBJECT_INIT \/ state = JSON_PARSE_OBJECT_NAME ->
  Forall (fun '(k, v) => no_nul k = true /\ value_reads v /\
            height v + S (length st) <= JSON_MAX_HEIGHT)%nat items ->
  popped (Object (put_members l items) None) st = Some s' ->
  reads (separated flags depth (map (item_text depth) items) +:+ "}")
    (Situation state (Object l None :: st) None) s'.
Proof.
  revert l state. induction items as [| [k v] items IH]; intros l state Hne Hstate Hr Hp;
    [done |].
  apply Forall_cons in Hr as [(Hk & Hv & Hh) Hr].
  pose proof (reads_member depth k v st l state Hstate Hk Hv Hh) as H1.
  destruct items as [| w items].
  - cbn [map separated]. eapply (reads_before_app _ "}"%char EmptyString); [done | done |].
    apply (reads_punctuation _ T_END_OBJECT); [done |].
    apply step_close_object; [by right | done].
  - change (separated flags depth (map (item_text depth) ((k, v) :: w :: items))) with
      (item_text depth (k, v) +:+ String "," (indent_line flags depth +:+
         separated flags depth (map (item_text depth) (w :: items)))).
    str_simpl. eapply reads_before_app; [exact H1 | done |].
    apply (reads_app (String "," EmptyString) _ _
             (Situation JSON_PARSE_OBJECT_NAME
                (Object (json_object_put l k (canon v)) None :: st) None)).
    { by apply (reads_punctuation _ T_VALUE_SEPARATOR). }
    eapply reads_app; [apply reads_indent |].
    apply IH; [done | by right | done | done].
Qed.

Lemma put_members_fresh l items :
  NoDup (map fst (l ++ items)) ->
  put_members l items = (l ++ map (fun '(k, v) => (k, canon v)) items)%list.
Proof.
  revert l. induction items as [| [k v] items IH]; intros l Hd; simpl;
    [by rewrite app_nil_r |].
  assert (json_object_put l k (canon v) = (l ++ [(k, canon v)])%list) as ->.
  { clear IH. induction l as [| [k' v'] l IHl]; simpl; [done |].
    simpl in Hd. apply NoDup_cons in Hd as [Hn Hd].
    destruct (String.eqb_spec k' k) as [-> |]; [| by rewrite IHl].
    destruct Hn. rewrite map_app, elem_of_app. right. by left. }
  rewrite IH; [by rewrite <- app_assoc |].
  rewrite <- app_assoc, map_app. rewrite map_app in Hd. done.
Qed.

Context {HSL : ShashOrderLaws}.

Lemma member_order_perm l : member_order flags l ≡ₚ l.
Proof.
  unfold member_order, sorted_names. destruct (sort flags); [apply merge_sort_Permutation |].
  apply shash_order_perm.
Qed.

Lemma arranged_NoDup (l : list (string * json)) :
  NoDup (map fst l) -> NoDup (map fst (arranged (member_order flags) l)).
Proof.
  intros H. rewrite arranged_names by apply member_order_perm.
  by rewrite member_order_perm.
Qed.

Lemma reads_object depth l s st s' :
  parents s = Some st -> popped (Object (arranged (member_order flags)
    (map (fun '(k, v) => (k, canon v)) l)) None) st = Some s' ->
  json_ok (JSON_OBJECT l) -> Forall value_reads (map snd l) ->
  (height (JSON_OBJECT l) + length st <= JSON_MAX_HEIGHT)%nat ->
  reads (json_serialize flags depth (JSON_OBJECT l)) s s'.
Proof.
  intros Hs Hp (Hd & Hk & _)%json_ok_object Hr Hh.
  destruct (step_open s st Hs) as [_ Hopen]; [simpl in Hh; lia |].
  apply (reads_punctuation "{"%char) in Hopen; [| done].
  rewrite arranged_map in Hp. pose proof (arranged_NoDup l Hd) as Hd'.
  assert (Forall (fun '(k, v) => no_nul k = true /\ value_reads v /\
            height v + S (length st) <= JSON_MAX_HEIGHT)%nat
            (arranged (member_order flags) l)) as Hall.
  { apply Forall_forall. intros [k v] Hin%arranged_elem.
    pose proof (object_below _ _ _ Hh) as Hb.
    rewrite Forall_forall in Hk. rewrite Forall_forall in Hr. rewrite Forall_forall in Hb.
    split; [apply Hk | split; [apply Hr | apply Hb]]; apply list_elem_of_fmap;
      by exists (k, v). }
  assert (json_serialize flags depth (JSON_OBJECT l) =
    "{" +:+ (indent_line flags (S depth) +:+
      (separated flags (S depth) (map (item_text (S depth)) (arranged (member_order flags) l))
       +:+ "}"))) as ->.
  { cbn [json_serialize]. rewrite arranged_map, map_map. str_simpl.
    do 3 f_equal. f_equal. apply map_ext. by intros [k v]. }
  eapply (reads_app "{"); [exact Hopen |]. eapply reads_app; [apply reads_indent |].
  destruct (arranged (member_order flags) l) as [| kv items] eqn:Ha.
  - apply (reads_punctuation _ T_END_OBJECT); [done |].
    apply step_close_object; [by left | done].
  - apply reads_members; [done | by left | done |].
    rewrite put_members_fresh; [done |]. done.
Qed.

Lemma value_reads_all j : json_ok j -> textual j = true -> value_reads j.
Proof.
  induction j as [j Hj | l IH | l IH] using json_induction; intros Hok Ht depth s s' Hp Hh.
  - assert (forall t, scalar t = Some j -> step t s s') as Hstep.
    { intros t Hsc. apply (step_scalar t j); [done |]. by destruct j. }
    destruct j; try done; cbn [json_serialize canon] in *.
    + apply (reads_keyword _ T_NULL); [by repeat constructor | by apply Hstep].
    + apply (reads_keyword _ T_FALSE); [by repeat constructor | by apply Hstep].
    + apply (reads_keyword _ T_TRUE); [by repeat constructor | by apply Hstep].
    + apply reads_number; [done | by apply Hstep].
    + apply reads_reads_before, reads_string; [done | by apply Hstep].
  - destruct (put_parents _ _ _ Hp) as (st & Hs & Hlen & Hpop).
    apply reads_reads_before, (reads_object depth l s st);
      [done | by apply Hpop | done | | lia].
    apply json_ok_object in Hok as (_ & _ & Hok). apply textual_object in Ht.
    rewrite Forall_forall in *. auto.
  - destruct (put_parents _ _ _ Hp) as (st & Hs & Hlen & Hpop).
    apply reads_reads_before, (reads_array depth l s st);
      [done | by apply Hpop | | lia].
    apply json_ok_array in Hok. apply textual_array in Ht.
    rewrite Forall_forall in *. auto.
Qed.

(** *** The text is a C string. *)

Lemma no_nul_app a b : no_nul (a +:+ b) = no_nul a && no_nul b.
Proof. apply str_all_app. Qed.

Lemma no_nul_indent n : no_nul (indent_line flags n) = true.
Proof.
  unfold indent_line. destruct (pretty flags); [| done].
  change (no_nul (spaces (2 * n)) = true). by induction (2 * n)%nat.
Qed.

Lemma no_nul_quoted k : no_nul k = true -> no_nul (json_serialize_string k) = true.
Proof.
  intros Hk. unfold json_serialize_string. rewrite ds_cstr_id by done.
  change (no_nul (escape_chars k +:+ String dquote EmptyString) = true).
  by rewrite no_nul_app, escape_chars_no_nul.
Qed.

Lemma no_nul_separated n l :
  Forall (fun t => no_nul t = true) l -> no_nul (separated flags n l) = true.
Proof.
  induction l as [| t [| u l] IH]; [done | by rewrite Forall_singleton |].
  intros [Ht Hl]%Forall_cons.
  change (no_nul (t +:+ String "," (indent_line flags n +:+ separated flags n (u :: l))) = true).
  rewrite no_nul_app, Ht. change (no_nul (indent_line flags n +:+ separated flags n (u :: l)) = true).
  by rewrite no_nul_app, no_nul_indent, IH.
Qed.

Lemma no_nul_text j depth :
  json_ok j -> textual j = true -> no_nul (json_serialize flags depth j) = true.
Proof.
  revert depth. induction j as [j Hj | l IH | l IH] using json_induction;
    intros depth Hok Ht.
  - destruct j; try done; cbn [json_serialize].
    + apply (str_all_impl num_char); [| apply str_int_chars]. intros ch.
      by apply (num_char_inv ch (fun c => negb (Z.eqb (code c) 0))).
    + by apply no_nul_quoted.
  - apply json_ok_object in Hok as (_ & Hk & Hok). apply textual_object in Ht.
    cbn [json_serialize]. rewrite arranged_map, map_map.
    match goal with |- no_nul (String "{" ?t) = true => change (no_nul t = true) end.
    rewrite !no_nul_app, no_nul_indent, no_nul_separated; [done |].
    apply Forall_forall. intros t ([k v] & -> & Hin%arranged_elem)%list_elem_of_fmap.
    assert (k ∈ map fst l /\ v ∈ map snd l) as [Hkl Hvl].
    { split; apply list_elem_of_fmap; by exists (k, v). }
    rewrite Forall_forall in Hk. rewrite Forall_forall in IH.
    rewrite Forall_forall in Hok. rewrite Forall_forall in Ht.
    unfold member_text. rewrite no_nul_app, no_nul_quoted by auto.
    match goal with |- _ && no_nul (String ":" ?t) = true => change (no_nul t = true) end.
    rewrite no_nul_app, IH by auto. by destruct (pretty flags).
  - apply json_ok_array in Hok. apply textual_array in Ht.
    destruct l as [| v l]; [done |]. cbn [json_serialize].
    match goal with |- no_nul (String "[" ?t) = true => change (no_nul t = true) end.
    rewrite !no_nul_app, no_nul_indent, no_nul_separated; [done |].
    apply Forall_fmap. rewrite Forall_forall in *. cbn. auto.
Qed.

(** *** Equality *)

Lemma json_equal_canon j : json_ok j -> textual j = true -> json_equal (canon j) j = true.
Proof.
  induction j as [j Hj | l IH | l IH] using json_induction; intros Hok Ht.
  - destruct j; try done; cbn; [apply Z.eqb_refl | apply String.eqb_refl].
  - apply json_ok_object in Hok as (Hd & _ & Hok). apply textual_object in Ht.
    cbn [canon json_equal]. rewrite arranged_map. apply andb_true_iff. split.
    + apply Nat.eqb_eq. rewrite length_map.
      rewrite <- (length_map fst (arranged _ l)), arranged_names, member_order_perm,
        length_map by apply member_order_perm. done.
    + apply forallb_forall. intros kv ([k v] & <- & Hin)%in_map_iff.
      apply list_elem_of_In, arranged_elem in Hin.
      rewrite (shash_find_elem l k v) by done.
      assert (v ∈ map snd l) as Hv by (apply list_elem_of_fmap; by exists (k, v)).
      rewrite Forall_forall in IH. rewrite Forall_forall in Hok.
      rewrite Forall_forall in Ht. auto.
  - apply json_ok_array in Hok. apply textual_array in Ht. cbn [canon].
    induction l as [| v l IHl]; [done |].
    apply Forall_cons in IH as [IHv IH]. apply Forall_cons in Hok as [Hv Hok].
    apply Forall_cons in Ht as [Htv Ht].
    change (json_equal (canon v) v && json_equal (JSON_ARRAY (map canon l)) (JSON_ARRAY l) = true).
    by rewrite IHv, IHl.
Qed.

(** The text of an object or array is read back to an equal value. *)
Lemma json_from_to_string j :
  (exists l, j = JSON_OBJECT l) \/ (exists l, j = JSON_ARRAY l) ->
  json_ok j -> textual j = true -> (height j <= JSON_MAX_HEIGHT)%nat ->
  json_from_string (json_to_string flags j) = Some (canon j).
Proof.
  intros Hj Hok Ht Hh.
  set (start := Situation JSON_PARSE_START [] None).
  assert (exists top, closed top = canon j /\
    reads (json_to_string flags j) start (Situation JSON_PARSE_END [top] None))
    as (top & Htop & Hr).
  { destruct Hj as [[l ->] | [l ->]].
    - eexists (Object _ None). split; [done |]. apply (reads_object 0 l start []);
        [done | done | done | | by rewrite Nat.add_0_r].
      apply json_ok_object in Hok as (_ & _ & Hok). apply textual_object in Ht.
      rewrite Forall_forall in *. intros v Hv. apply value_reads_all; auto.
    - eexists (Array _). split; [done |]. apply (reads_array 0 l start []);
        [done | done | | by rewrite Nat.add_0_r].
      apply json_ok_array in Hok. apply textual_array in Ht.
      rewrite Forall_forall in *. intros v Hv. apply value_reads_all; auto. }
  unfold json_from_string, json_parser_feed.
  rewrite ds_cstr_id by (by apply no_nul_text).
  destruct (Hr EmptyString 0 0 0 EmptyString) as (tok & l & c & b & Hf).
  rewrite app_nil_str in Hf. change (parser_in JSON_LEX_START start 0 0 0) with
    (json_parser_create true) in Hf. rewrite Hf. cbn. by rewrite Htop.
Qed.

(** C3: The text of an object or array with at most [JSON_MAX_HEIGHT] levels, in any
    style and in any order of the members, is read back to an equal value.  The
    value has neither reals nor texts serialized before (JSON_REAL and
    JSON_SERIALIZED_OBJECT) in it, distinct names in each object, integers of
    64 bits, and no null bytes in names and strings. *)
Theorem json_roundtrip (j : json) :
  (exists l, j = JSON_OBJECT l) \/ (exists l, j = JSON_ARRAY l) ->
  json_ok j -> textual j = true -> (height j <= JSON_MAX_HEIGHT)%nat ->
  exists j', json_from_string (json_to_string flags j) = Some j' /\ json_equal j' j = true.
Proof.
  intros Hj Hok Ht Hh. exists (canon j).
  split; [by apply json_from_to_string | by apply json_equal_canon].
Qed.

End Text.

(** ** Sorted text *)

Lemma sorted_names_unique l1 l2 : l1 ≡ₚ l2 -> sorted_names l1 = sorted_names l2.
Proof.
  intros Hp. unfold sorted_names. apply (StronglySorted_unique String.le).
  - apply StronglySorted_merge_sort; apply _.
  - apply StronglySorted_merge_sort; apply _.
  - by rewrite !merge_sort_Permutation.
Qed.

(** Equal objects have the same names and, under each name, equal values. *)
Lemma json_equal_object la lb :
  NoDup (map fst la) -> NoDup (map fst lb) ->
  json_equal (JSON_OBJECT la) (JSON_OBJECT lb) = true ->
  map fst la ≡ₚ map fst lb /\
  forall k v, shash_find la k = Some v ->
    exists w, shash_find lb k = Some w /\ json_equal v w = true.
Proof.
  intros Ha Hb [Hlen%Nat.eqb_eq Hall]%andb_true_iff.
  rewrite forallb_forall in Hall.
  assert (forall k v, (k, v) ∈ la ->
    exists w, shash_find lb k = Some w /\ json_equal v w = true) as Hfind.
  { intros k v Hin%list_elem_of_In. specialize (Hall _ Hin). simpl in Hall.
    destruct (shash_find lb k) as [w |]; [by exists w | done]. }
  split; [| intros k v H%shash_find_Some; by apply Hfind].
  apply submseteq_length_Permutation; [| by rewrite !length_map, Hlen].
  apply NoDup_submseteq; [done |]. intros k ([k' v] & -> & Hin)%list_elem_of_fmap.
  destruct (Hfind k' v Hin) as (w & Hw%shash_find_Some & _).
  apply list_elem_of_fmap. by exists (k', w).
Qed.

Section Sorted.
Context {HL : Libc} (order1 order2 : ShashOrder) (b : bool).

Lemma arranged_sorted {A} (l1 l2 : list (string * A)) :
  map fst l1 ≡ₚ map fst l2 ->
  (forall k, k ∈ map fst l1 -> shash_find l1 k = shash_find l2 k) ->
  arranged sorted_names l1 = arranged sorted_names l2.
Proof.
  intros Hp Hf. unfold arranged. rewrite <- (sorted_names_unique _ _ Hp).
  assert (Forall (fun k => k ∈ map fst l1) (sorted_names (map fst l1))) as Hin.
  { apply Forall_forall. intros k. unfold sorted_names. by rewrite merge_sort_Permutation. }
  induction (sorted_names (map fst l1)) as [| k ks IH]; [done |].
  apply Forall_cons in Hin as [Hk Hks]. cbn [omap list_omap].
  rewrite <- (Hf k Hk). destruct (shash_find l1 k); simpl; [f_equal |]; by apply IH.
Qed.

(** C24: With [JSSF_SORT] the text depends only on the value: values that are equal
    to [json_equal] have equal texts, whatever the orders of their hash tables.
    They have distinct names in each object, integers of 64 bits, no null bytes in
    names and strings, and neither reals nor texts serialized before in them (0.0
    and -0.0 are equal and have different texts). *)
Theorem json_sorted_text (x y : json) (depth : nat) :
  json_ok x -> json_ok y -> textual x = true -> json_equal x y = true ->
  @json_serialize HL order1 (Flags b true) depth x =
  @json_serialize HL order2 (Flags b true) depth y.
Proof.
  revert y depth. induction x as [x Hx | la IH | la IH] using json_induction;
    intros y depth Hox Hoy Ht He.
  - destruct x, y; try done; cbn in He; f_equal;
      [by apply Z.eqb_eq in He as -> | by apply String.eqb_eq in He as ->].
  - destruct y as [| | | lb | | | | |]; try done.
    apply json_ok_object in Hox as (Hda & _ & Hox), Hoy as (Hdb & _ & Hoy).
    apply textual_object in Ht.
    destruct (json_equal_object la lb Hda Hdb He) as [Hp Hf].
    cbn [json_serialize]. f_equal. f_equal. f_equal. f_equal. f_equal.
    change (@member_order order1 (Flags b true)) with sorted_names.
    change (@member_order order2 (Flags b true)) with sorted_names.
    apply arranged_sorted; [by rewrite !map_fst_map |].
    intros k Hk. rewrite map_fst_map in Hk. rewrite !shash_find_map.
    destruct (shash_find la k) as [v |] eqn:Hv; [| by apply shash_find_None in Hv].
    destruct (Hf k v Hv) as (w & Hw & Hvw). rewrite Hw. simpl. f_equal.
    apply shash_find_Some in Hv, Hw.
    rewrite Forall_forall in IH. rewrite Forall_forall in Hox. rewrite Forall_forall in Hoy.
    rewrite Forall_forall in Ht.
    apply IH; [| apply Hox | apply Hoy | apply Ht | done]; apply list_elem_of_fmap;
      solve [by exists (k, v) | by exists (k, w)].
  - destruct y as [| | | | lb | | | |]; try done.
    apply json_ok_array in Hox, Hoy. apply textual_array in Ht.
    assert (map (@json_serialize HL order1 (Flags b true) (S depth)) la =
            map (@json_serialize HL order2 (Flags b true) (S depth)) lb) as Hmap.
    { revert lb Hoy He. induction la as [| v la IHl]; intros [| w lb] Hoy He; try done.
      apply Forall_cons in IH as [IHv IH], Hox as [Hv Hox], Hoy as [Hw Hoy], Ht as [Htv Ht].
      change (json_equal v w && json_equal (JSON_ARRAY la) (JSON_ARRAY lb) = true) in He.
      apply andb_true_iff in He as [He He']. cbn [map]. f_equal; [by apply IHv | by apply IHl]. }
    destruct la as [| v la], lb as [| w lb]; try done.
    cbn [json_serialize]. by rewrite Hmap.
Qed.
End Sorted.

(** ** Witnesses *)

(** A hash table that is visited in the reverse order of insertion *)
Definition reversed : ShashOrder := @rev string.

Lemma reversed_laws : @ShashOrderLaws reversed.
Proof. intros l. symmetry. apply Permutation_rev. Qed.

Definition demo_members : list (string * json) :=
  [("b", JSON_ARRAY [JSON_INTEGER (-9223372036854775808); JSON_NULL]);
   ("a", JSON_OBJECT [("k", JSON_STRING (String newline "x"))])].

Lemma demo_members_ok l :
  l = demo_members \/ l = rev demo_members ->
  json_ok (JSON_OBJECT l) /\ textual (JSON_OBJECT l) = true /\
  (height (JSON_OBJECT l) <= JSON_MAX_HEIGHT)%nat.
Proof.
  assert (NoDup ["b"; "a"] /\ NoDup ["a"; "b"]) as [Hd Hd']
    by (split; apply (bool_decide_unpack _); by vm_compute).
  intros [-> | ->]; (split; [| split; [done | unfold JSON_MAX_HEIGHT; simpl; lia]]);
    repeat split; try done; try (apply NoDup_singleton); repeat constructor.
Qed.

Lemma json_roundtrip_witness :
  exists j', @json_from_string no_strtod
      (@json_to_string no_strtod reversed (Flags true false) (JSON_OBJECT demo_members)) =
      Some j' /\ json_equal j' (JSON_OBJECT demo_members) = true.
Proof.
  apply (@json_roundtrip no_strtod reversed (Flags true false) reversed_laws
           (JSON_OBJECT demo_members));
    [by left; eexists | apply demo_members_ok; by left..].
Defined.

Lemma json_sorted_text_witness :
  @json_serialize no_strtod reversed (Flags false true) 0 (JSON_OBJECT demo_members) =
  @json_serialize no_strtod (fun l => l) (Flags false true) 0
    (JSON_OBJECT (rev demo_members)).
Proof.
  apply (@json_sorted_text no_strtod reversed (fun l => l) false
           (JSON_OBJECT demo_members) (JSON_OBJECT (rev demo_members)) 0);
    [apply demo_members_ok; by left | apply demo_members_ok; by right
    | reflexivity | reflexivity].
Defined.

End OvsJsonRoundtrip.
