(* ===== verification/OvsJsonChunks.v ===== *)
(** * The JSON parser does not depend on how its input is cut

    The same bytes give the same value, or an error, whatever chunks they come in.
    Between chunks the parser saves the text from the start of the current token.
    After a string it saves text that is no part of a token: that can only end in
    an error, but the message may be another one. *)

From stdpp Require Import base option list strings.
From Stdlib Require Import ZArith Lia Ascii.
From S2P Require Import Prelude Strings CString Binary64 OvsJson OvsJsonSafe OvsJsonLex.

Local Open Scope Z_scope.
Local Open Scope string_scope.

Module OvsJsonChunks.
Import OvsJson OvsJsonSafe OvsJsonLex.

(** ** Two parsers with different buffers *)

(** After a complete value or name only punctuation can follow. *)
Definition after_value (s : json_parse_state) : bool :=
  match s with
  | JSON_PARSE_OBJECT_COLON | JSON_PARSE_OBJECT_NEXT | JSON_PARSE_ARRAY_NEXT => true
  | _ => false
  end.

Definition failed (p : json_parser) : Prop := is_Some (error p) /\ done p = true.

Definition going (p : json_parser) : Prop :=
  error p = None /\ done p = false /\ trailer p = true.

(** The text of the current token, in the buffer and after it, agrees where it
    may still matter. *)
Definition in_step (p : json_parser) (tok : string) (b2 tok2 : string) : Prop :=
  after_value (parse_state p) = true \/
  buffer p +:+ tok = b2 +:+ tok2 /\
  (lex_state p = JSON_LEX_START -> buffer p +:+ tok = EmptyString).

Definition alike (p1 : json_parser) (tok1 : string) (p2 : json_parser) (tok2 : string) :
    Prop :=
  failed p1 /\ failed p2 \/
  going p1 /\ exists b, p2 = p1 <| buffer := b |> /\ in_step p1 tok1 b tok2.

(** Tokens that are not punctuation *)
Definition wordlike (t : json_token) : bool :=
  match scalar t with Some _ => true | None => false end.

Lemma json_error_failed msg p : going p -> failed (json_error msg p).
Proof. intros (He & _ & _). unfold json_error, failed. rewrite He. split; [by eexists | done]. Qed.

(** *** Tokens *)

(** What the parser does with a token does not depend on the buffer. *)
Definition with_buffer (b : string) (p : json_parser) : json_parser := p <| buffer := b |>.

Lemma json_error_buffer msg p b :
  json_error msg (with_buffer b p) = with_buffer b (json_error msg p).
Proof. unfold json_error. cbn. by destruct (error p). Qed.

Lemma json_parser_push_buffer new s p b :
  json_parser_push new s (with_buffer b p) = with_buffer b <$> json_parser_push new s p.
Proof.
  unfold json_parser_push. cbn -[Nat.ltb JSON_MAX_HEIGHT json_error].
  destruct (_ <? _)%nat; [| by rewrite json_error_buffer].
  destruct (stack p) as [| [l o | l] st]; cbn; [done | | done]. by destruct (member_name p).
Qed.

Lemma json_parser_pop_buffer p b :
  json_parser_pop (with_buffer b p) = with_buffer b <$> json_parser_pop p.
Proof.
  unfold json_parser_pop. cbn. destruct (stack p) as [| c [| [l [o |] | l] st]]; cbn; try done.
  by destruct (trailer p).
Qed.

Lemma json_parse_value_buffer t s p b :
  json_parse_value t s (with_buffer b p) = with_buffer b <$> json_parse_value t s p.
Proof.
  destruct t; cbn [json_parse_value scalar]; try (apply json_parser_push_buffer);
    try (by rewrite json_error_buffer); unfold json_parser_put_value; cbn;
    destruct (stack p) as [| [l o | l] st]; cbn; try done; by destruct (member_name p).
Qed.

Lemma object_name_buffer t p b :
  object_name t (with_buffer b p) = with_buffer b (object_name t p).
Proof. destruct t; cbn [object_name]; try apply json_error_buffer. done. Qed.

Lemma parse_token_buffer t p b :
  parse_token t (with_buffer b p) = with_buffer b <$> parse_token t p.
Proof.
  unfold parse_token. change (parse_state (with_buffer b p)) with (parse_state p).
  destruct (parse_state p); destruct t;
    first [ apply json_parser_push_buffer | apply json_parser_pop_buffer
          | apply json_parse_value_buffer | by rewrite json_error_buffer
          | by rewrite object_name_buffer | done ].
Qed.

Lemma json_parser_input_buffer t p b :
  json_parser_input t (with_buffer b p) = json_parser_input t p.
Proof.
  unfold json_parser_input. rewrite parse_token_buffer. by destruct (parse_token t p).
Qed.

(** The outcome of a token for a parser that has not failed *)
Lemma json_parser_push_going new s p q :
  going p -> json_parser_push new s p = Some q -> going q \/ failed q.
Proof.
  intros Hp. unfold json_parser_push. destruct (_ <? _)%nat.
  - destruct (stack p) as [| [l o | l] st]; [| destruct (member_name p) |];
      cbn; intros [= <-]; by left.
  - intros [= <-]. right. by apply json_error_failed.
Qed.

Lemma json_parse_value_going t s p q :
  going p -> json_parse_value t s p = Some q ->
  (going q /\ (wordlike t = true -> parse_state q = s)) \/ failed q.
Proof.
  intros Hp H.
  assert (forall v, (p ← json_parser_put_value v p; Some (p <| parse_state := s |>)) = Some q ->
    going q /\ parse_state q = s) as Hput.
  { intros v. unfold json_parser_put_value. cbn.
    destruct (stack p) as [| [l o | l] st]; [| destruct (member_name p) |]; cbn;
      intros [= <-]; done. }
  destruct t; cbn [json_parse_value scalar] in H;
    try (apply json_parser_push_going in H as [|]; [by left | by right | done]);
    try (injection H as <-; right; by apply json_error_failed);
    apply Hput in H as [? ?]; by left.
Qed.

Lemma parse_token_going t p q :
  going p -> parse_token t p = Some q ->
  (going q /\ (wordlike t = true -> after_value (parse_state q) = true)) \/ failed q.
Proof.
  intros Hp H. unfold parse_token in H.
  assert (forall r, json_parser_pop p = Some r -> going r) as Hpop.
  { intros r. unfold json_parser_pop. destruct Hp as (? & ? & Htr).
    destruct (stack p) as [| c [| [l [o |] | l] st]]; cbn; rewrite ?Htr; intros [= <-]; done. }
  assert (forall msg, Some (json_error msg p) = Some q -> failed q) as Herr.
  { intros msg [= <-]. by apply json_error_failed. }
  destruct (parse_state p); destruct t;
    first [ by right; eapply Herr
          | left; split; [by apply Hpop | done]
          | apply json_parser_push_going in H as [|]; [by left | by right | done]
          | apply json_parse_value_going in H as [[? Hv] |];
              [left; split; [done | by intros ->%Hv] | by right | done]
          | by injection H as <-; left ].
Qed.

(** A word where only punctuation may come *)
Lemma parse_token_misplaced t p :
  going p -> wordlike t = true -> after_value (parse_state p) = true ->
  exists q, parse_token t p = Some q /\ failed q.
Proof.
  intros Hp Ht Ha. unfold parse_token. destruct (parse_state p); try done;
    destruct t; try done; eexists; (split; [done |]); by apply json_error_failed.
Qed.

Lemma json_parser_input_going t p :
  going p -> parser_ok p -> token_ok t ->
  exists q, json_parser_input t p = Some q /\ lex_state q = JSON_LEX_START /\
    (failed q \/ going q /\ buffer q = EmptyString /\
       (wordlike t = true -> after_value (parse_state q) = true)).
Proof.
  intros Hp Hok Ht. destruct (parse_token_ok t p Hok Ht) as (q & Hq & _).
  unfold json_parser_input. rewrite Hq. eexists. split; [done |]. split; [done |].
  destruct (parse_token_going t p q Hp Hq) as [[Hg Hw] | Hf]; [right | by left].
  split; [done |]. split; [done |]. exact Hw.
Qed.

(** ** Words *)

Section Feed.
Context {HL : Libc}.

(** The token of a word, or an error *)
Definition word_result (r : string + json_token) : Prop :=
  forall t, r = inr t -> token_ok t /\ wordlike t = true.

Lemma json_lex_number_word text : word_result (json_lex_number text).
Proof.
  intros t H. split; [by apply (json_lex_number_ok text) |].
  unfold json_lex_number, number_token in H. cbv zeta in H.
  repeat match type of H with
  | match ?x with _ => _ end = _ => destruct x; try done
  | (if ?x then _ else _) = _ => destruct x; try done
  end; by injection H as <-.
Qed.

Lemma json_lex_keyword_word text : word_result (json_lex_keyword text).
Proof.
  intros t H. split; [by apply (json_lex_keyword_ok text) |].
  unfold json_lex_keyword in H. repeat case_match; by simplify_eq.
Qed.

Lemma json_lex_string_word text :
  no_nul text = true -> exists r, json_lex_string text = Some r /\ word_result r.
Proof.
  intros Hn. destruct (json_lex_string_ok text Hn) as (r & Hr & Hok).
  exists r. split; [done |]. intros t ->. split; [by apply Hok |].
  unfold json_lex_string in Hr. repeat case_match; by simplify_eq.
Qed.

(** Where only punctuation may come any two words fail; elsewhere the same word
    has the same effect. *)
Lemma lexed_alike r1 r2 b1 b2 p :
  going p -> parser_ok p -> word_result r1 -> word_result r2 ->
  after_value (parse_state p) = true \/ r1 = r2 ->
  exists q1 q2, lexed r1 (with_buffer b1 p) = Some q1 /\
    lexed r2 (with_buffer b2 p) = Some q2 /\
    (forall tok1 tok2, alike q1 tok1 q2 tok2) /\
    (going q1 -> lex_state q1 = JSON_LEX_START).
Proof.
  intros Hp Hok H1 H2 Hsame.
  assert (forall q1 q2, failed q1 -> failed q2 ->
    (forall tok1 tok2, alike q1 tok1 q2 tok2) /\
    (going q1 -> lex_state q1 = JSON_LEX_START)) as Hfailed.
  { intros q1 q2 F1 F2. split; [by left |]. intros (He & _). destruct F1 as [[e ?] _]. congruence. }
  assert (forall r b, after_value (parse_state p) = true -> word_result r ->
    exists q, lexed r (with_buffer b p) = Some q /\ failed q) as Hfail.
  { intros r b Ha Hr. destruct r as [e | t]; cbn [lexed].
    - eexists. split; [done |]. by apply json_error_failed.
    - destruct (Hr t eq_refl) as [_ Hw].
      destruct (parse_token_misplaced t p Hp Hw Ha) as (q & Hq & Hf).
      rewrite json_parser_input_buffer. unfold json_parser_input. rewrite Hq.
      eexists. by split. }
  destruct Hsame as [Ha | <-].
  { destruct (Hfail r1 b1 Ha H1) as (q1 & -> & F1), (Hfail r2 b2 Ha H2) as (q2 & -> & F2).
    exists q1, q2. split; [done |]. split; [done |]. by apply Hfailed. }
  destruct r1 as [e | t]; cbn [lexed].
  { do 2 eexists. split; [done |]. split; [done |]. apply Hfailed; by apply json_error_failed. }
  destruct (H1 t eq_refl) as [Ht Hw]. rewrite !json_parser_input_buffer.
  destruct (json_parser_input_going t p Hp Hok Ht) as (q & -> & Hl & Hq).
  exists q, q. split; [done |]. split; [done |]. split; [| done].
  intros tok1 tok2. destruct Hq as [Hf | (Hg & Hb & Ha)]; [by left | right].
  split; [done |]. exists (buffer q). split; [by destruct q | by left; apply Ha].
Qed.

(** ** Bytes *)

Lemma going_word p lex tok b :
  going p -> in_step p EmptyString b EmptyString -> lex <> JSON_LEX_START ->
  alike (p <| lex_state := lex |>) tok (with_buffer b p <| lex_state := lex |>) tok.
Proof.
  intros Hp Hs Hlex. right. split; [done |]. exists b. split; [done |].
  destruct Hs as [Ha | [Hs _]]; [by left | right]. rewrite !app_nil_str in Hs.
  cbn. by rewrite Hs.
Qed.

Lemma feed_start_alike c tok1 tok2 p b :
  going p -> parser_ok p -> lex_state p = JSON_LEX_START -> in_step p tok1 b tok2 ->
  exists q1 t1 q2 t2, feed_start c tok1 p = Some (q1, t1) /\
    feed_start c tok2 (with_buffer b p) = Some (q2, t2) /\ alike q1 t1 q2 t2.
Proof.
  intros Hp Hok Hlex Hs.
  assert (in_step p EmptyString b EmptyString) as Hs'.
  { destruct Hs as [| [Hs He]]; [by left | right]. specialize (He Hlex).
    rewrite He in Hs. destruct (buffer p), b; try done. }
  unfold feed_start.
  destruct (is_json_space c).
  { do 4 eexists. split; [done |]. split; [done |]. right. split; [done |].
    by exists b. }
  destruct (islower c).
  { do 4 eexists. split; [done |]. split; [done |]. by apply going_word. }
  destruct (punctuation c) as [t |] eqn:Hc.
  { rewrite json_parser_input_buffer.
    assert (token_ok t) as Ht by (unfold punctuation in Hc; repeat case_match; by simplify_eq).
    destruct (json_parser_input_going t p Hp Hok Ht) as (q & -> & _ & Hq).
    do 4 eexists. split; [done |]. split; [done |].
    destruct Hq as [Hf | (Hg & Hb & _)]; [by left | right]. split; [done |].
    exists EmptyString. split; [destruct q; cbn in *; by subst |].
    right. by rewrite Hb. }
  destruct (_ || _).
  { do 4 eexists. split; [done |]. split; [done |]. by apply going_word. }
  destruct (Ascii.eqb c dquote).
  { do 4 eexists. split; [done |]. split; [done |]. by apply going_word. }
  do 4 eexists. split; [done |]. split; [done |]. left. split; by apply json_error_failed.
Qed.

Lemma in_step_longer p tok1 b tok2 c :
  lex_state p <> JSON_LEX_START -> in_step p tok1 b tok2 ->
  in_step p (tok1 +:+ String c EmptyString) b (tok2 +:+ String c EmptyString).
Proof.
  intros Hlex [Ha | [Hs _]]; [by left | right]. rewrite <- !app_assoc_str, Hs. done.
Qed.

Lemma longer_alike p lex tok1 b tok2 c :
  going p -> lex_state p <> JSON_LEX_START -> lex <> JSON_LEX_START ->
  in_step p tok1 b tok2 ->
  alike (p <| lex_state := lex |>) (tok1 +:+ String c EmptyString)
    (with_buffer b p <| lex_state := lex |>) (tok2 +:+ String c EmptyString).
Proof.
  intros Hp Hl Hlex Hs. right. split; [done |]. exists b. split; [done |].
  destruct (in_step_longer p tok1 b tok2 c Hl Hs) as [| [? _]]; [by left | by right].
Qed.

Lemma longer_same p tok1 b tok2 c :
  going p -> lex_state p <> JSON_LEX_START -> in_step p tok1 b tok2 ->
  alike p (tok1 +:+ String c EmptyString) (with_buffer b p) (tok2 +:+ String c EmptyString).
Proof.
  intros Hp Hl Hs. right. split; [done |]. exists b. split; [done |].
  by apply in_step_longer.
Qed.

(** The end of a word, for each of the lexer functions *)
Lemma word_end_alike (f : string -> option (string + json_token)) p tok1 b tok2 :
  (forall text, no_nul text = true -> exists r, f text = Some r /\ word_result r) ->
  going p -> parser_ok p -> in_step p tok1 b tok2 ->
  exists q1 q2,
    (r ← f (ds_cstr (buffer p +:+ tok1)); lexed r (with_buffer (buffer p +:+ tok1) p)) =
      Some q1 /\
    (r ← f (ds_cstr (b +:+ tok2)); lexed r (with_buffer (b +:+ tok2) p)) = Some q2 /\
    (forall t1 t2, alike q1 t1 q2 t2) /\ (going q1 -> lex_state q1 = JSON_LEX_START).
Proof.
  intros Hf Hp Hok Hs.
  destruct (Hf _ (ds_cstr_no_nul (buffer p +:+ tok1))) as (r1 & H1 & W1).
  destruct (Hf _ (ds_cstr_no_nul (b +:+ tok2))) as (r2 & H2 & W2).
  destruct (lexed_alike r1 r2 (buffer p +:+ tok1) (b +:+ tok2) p Hp Hok W1 W2)
    as (q1 & q2 & E1 & E2 & Ha).
  { destruct Hs as [Ha | [Heq _]]; [by left | right]. rewrite Heq in H1. congruence. }
  exists q1, q2. rewrite H1, H2. done.
Qed.

Lemma feed_byte_alike c tok1 tok2 p b :
  going p -> parser_ok p -> in_step p tok1 b tok2 ->
  exists q1 t1 q2 t2 consumed, feed_byte c tok1 p = Some (q1, t1, consumed) /\
    feed_byte c tok2 (with_buffer b p) = Some (q2, t2, consumed) /\ alike q1 t1 q2 t2 /\
    (consumed = false -> going q1 -> lex_state q1 = JSON_LEX_START).
Proof.
  intros Hp Hok Hs. unfold feed_byte.
  change (lex_state (with_buffer b p)) with (lex_state p).
  change (p <| buffer ::= fun b => b +:+ tok1 |>) with (with_buffer (buffer p +:+ tok1) p).
  change (with_buffer b p <| buffer ::= fun b => b +:+ tok2 |>)
    with (with_buffer (b +:+ tok2) p).
  change (buffer (with_buffer (buffer p +:+ tok1) p)) with (buffer p +:+ tok1).
  change (buffer (with_buffer (b +:+ tok2) p)) with (b +:+ tok2).
  destruct (lex_state p) eqn:Hlex.
  - destruct (feed_start_alike c tok1 tok2 p b Hp Hok Hlex Hs)
      as (q1 & t1 & q2 & t2 & -> & -> & Ha). by do 5 eexists.
  - destruct (negb _); [| do 5 eexists; split; [done |]; split; [done |];
      split; [by apply longer_same; rewrite ?Hlex | done]].
    destruct (word_end_alike (fun s => Some (json_lex_number s)) p tok1 b tok2)
      as (q1 & q2 & E1 & E2 & Ha & Hl); [| done.. |].
    { intros text _. eexists. split; [done |]. apply json_lex_number_word. }
    cbn [mbind option_bind] in E1, E2. rewrite E1, E2. do 5 eexists.
    split; [done |]. split; [done |]. split; [apply Ha | by intros _].
  - destruct (negb _); [| do 5 eexists; split; [done |]; split; [done |];
      split; [by apply longer_same; rewrite ?Hlex | done]].
    destruct (word_end_alike (fun s => Some (json_lex_keyword s)) p tok1 b tok2)
      as (q1 & q2 & E1 & E2 & Ha & Hl); [| done.. |].
    { intros text _. eexists. split; [done |]. apply json_lex_keyword_word. }
    cbn [mbind option_bind] in E1, E2. rewrite E1, E2. do 5 eexists.
    split; [done |]. split; [done |]. split; [apply Ha | by intros _].
  - destruct (Ascii.eqb c backslash).
    { do 5 eexists. split; [done |]. split; [done |].
      split; [by apply longer_alike; rewrite ?Hlex | done]. }
    destruct (Ascii.eqb c dquote).
    + destruct (word_end_alike json_lex_string p tok1 b tok2 json_lex_string_word Hp Hok Hs)
        as (q1 & q2 & E1 & E2 & Ha & _).
      destruct (json_lex_string (ds_cstr (buffer p +:+ tok1))); [| done].
      destruct (json_lex_string (ds_cstr (b +:+ tok2))); [| done].
      cbn [mbind option_bind] in E1, E2 |- *. rewrite E1, E2. cbn.
      do 5 eexists. split; [done |]. split; [done |]. split; [apply Ha | done].
    + destruct (_ <? _)%Z; do 5 eexists; (split; [done |]); (split; [done |]);
        (split; [| done]); [| by apply longer_same; rewrite ?Hlex].
      left. split; by apply json_error_failed.
  - do 5 eexists. split; [done |]. split; [done |].
    split; [by apply longer_alike; rewrite ?Hlex | done].
Qed.

(** ** The loop *)

Lemma account_byte_buffer c b p :
  json_parser_account_byte c (with_buffer b p) = with_buffer b (json_parser_account_byte c p).
Proof. unfold json_parser_account_byte. by destruct (Ascii.eqb c newline). Qed.

Lemma account_byte_alike c p1 tok1 p2 tok2 :
  alike p1 tok1 p2 tok2 ->
  alike (json_parser_account_byte c p1) tok1 (json_parser_account_byte c p2) tok2.
Proof.
  assert (forall p, failed p -> failed (json_parser_account_byte c p)) as Hf.
  { intros p [? ?]. unfold json_parser_account_byte. by destruct (Ascii.eqb c newline). }
  intros [[F1 F2] | (Hg & b & -> & Hs)]; [left; auto | right].
  split; [unfold json_parser_account_byte; by destruct (Ascii.eqb c newline) |].
  exists b. split; [apply (account_byte_buffer c b p1) |].
  unfold json_parser_account_byte. by destruct (Ascii.eqb c newline).
Qed.

Lemma feed_loop_done tok p input : done p = true -> feed_loop tok p input = Some (p, tok, input).
Proof. intros Hd. destruct input; cbn [feed_loop]; [done | by rewrite Hd]. Qed.

Lemma feed_loop_alike input p1 tok1 p2 tok2 :
  alike p1 tok1 p2 tok2 -> parser_ok p1 ->
  exists q1 u1 r1 q2 u2 r2, feed_loop tok1 p1 input = Some (q1, u1, r1) /\
    feed_loop tok2 p2 input = Some (q2, u2, r2) /\ alike q1 u1 q2 u2.
Proof.
  revert p1 tok1 p2 tok2. induction input as [| c input IH]; intros p1 tok1 p2 tok2 Ha Hok.
  { by do 6 eexists. }
  pose proof Ha as [[[_ D1] [_ D2]] | (Hg & b & -> & Hs)].
  { rewrite !feed_loop_done by done. by do 6 eexists. }
  destruct Hg as (He & Hd & Htr). cbn [feed_loop].
  change (done (p1 <| buffer := b |>)) with (done p1). rewrite Hd.
  destruct (feed_byte_alike c tok1 tok2 p1 b ltac:(done) Hok Hs)
    as (q1 & t1 & q2 & t2 & consumed & E1 & E2 & Hq & Hl).
  change (p1 <| buffer := b |>) with (with_buffer b p1).
  destruct (feed_byte_ok c tok1 p1 Hok) as (q1' & t1' & c' & E1' & Hok').
  rewrite E1 in E1'. injection E1' as <- <- <-. rewrite E1, E2.
  destruct consumed; [by apply IH; [apply account_byte_alike | apply json_parser_account_byte_ok] |].
  pose proof Hq as [[[_ D1] [_ D2]] | (Hg & b' & -> & Hs')].
  { rewrite D1, D2. by do 6 eexists. }
  change (done (q1 <| buffer := b' |>)) with (done q1).
  pose proof Hg as (_ & Hd' & _). rewrite Hd'.
  destruct (feed_start_alike c t1 t2 q1 b' Hg Hok' (Hl eq_refl Hg) Hs')
    as (q3 & t3 & q4 & t4 & E3 & E4 & Ha').
  destruct (feed_start_ok c t1 q1 Hok') as (q3' & t3' & E3' & Hok3).
  rewrite E3 in E3'. injection E3' as <- <-.
  change (q1 <| buffer := b' |>) with (with_buffer b' q1). rewrite E3, E4.
  by apply IH; [apply account_byte_alike | apply json_parser_account_byte_ok].
Qed.

(** A parser that goes on has read everything. *)
Lemma feed_loop_rest input tok p q u r :
  feed_loop tok p input = Some (q, u, r) -> done q = false -> r = EmptyString.
Proof.
  revert tok p. induction input as [| c input IH]; intros tok p H Hd; cbn [feed_loop] in H.
  { by injection H as <- <- <-. }
  destruct (done p) eqn:Hp; [injection H as <- <- <-; congruence |].
  destruct (feed_byte c tok p) as [[[p' tok'] []] |]; [by eapply IH | | done].
  destruct (done p') eqn:Hp'; [injection H as <- <- <-; congruence |].
  destruct (feed_start c tok' p') as [[p'' tok''] |]; [by eapply IH | done].
Qed.

Lemma feed_loop_app a b tok p q u r :
  feed_loop tok p a = Some (q, u, r) ->
  feed_loop tok p (a +:+ b) =
    if done q then Some (q, u, r +:+ b) else feed_loop u q b.
Proof.
  revert tok p. induction a as [| c a IH]; intros tok p H; cbn [feed_loop] in H.
  { injection H as <- <- <-. rewrite app_empty_str.
    destruct (done p) eqn:Hd; [by rewrite feed_loop_done | done]. }
  rewrite app_cons_str. cbn [feed_loop].
  destruct (done p) eqn:Hp; [injection H as <- <- <-; by rewrite Hp |].
  destruct (feed_byte c tok p) as [[[p' tok'] []] |]; [by apply IH | | done].
  destruct (done p') eqn:Hp'; [injection H as <- <- <-; by rewrite Hp' |].
  destruct (feed_start c tok' p') as [[p'' tok''] |]; [by apply IH | done].
Qed.

(** ** Chunks *)

Definition bytes (chunks : list string) : string := foldr String.append EmptyString chunks.

(** What [json_parser_feed] leaves behind *)
Definition saved (p : json_parser) (tok : string) : json_parser :=
  if done p then p else p <| buffer ::= fun b => b +:+ tok |>.

Lemma alike_saved p1 tok1 p2 tok2 :
  alike p1 tok1 p2 tok2 -> alike p1 tok1 (saved p2 tok2) EmptyString.
Proof.
  intros [[F1 F2] | (Hg & b & -> & Hs)].
  - left. split; [done |]. unfold saved. by rewrite (proj2 F2).
  - right. split; [done |]. exists (b +:+ tok2). unfold saved.
    change (done (p1 <| buffer := b |>)) with (done p1). rewrite (proj1 (proj2 Hg)).
    split; [done |]. destruct Hs as [| [Hs Hl]]; [by left | right].
    by rewrite app_nil_str.
Qed.

Lemma alike_sym p1 tok1 p2 tok2 : alike p1 tok1 p2 tok2 -> alike p2 tok2 p1 tok1.
Proof.
  intros [[F1 F2] | (Hg & b & -> & Hs)]; [by left | right]. split; [done |].
  exists (buffer p1). split; [by destruct p1 |].
  destruct Hs as [| [Hs Hl]]; [by left | right]. cbn. rewrite <- Hs. done.
Qed.

Lemma json_parser_feed_saved input p q u r :
  feed_loop EmptyString p input = Some (q, u, r) ->
  json_parser_feed input p =
    Some (saved q u, (String.length input - String.length r)%nat).
Proof. intros H. unfold json_parser_feed. by rewrite H. Qed.

Lemma feed_chunks_done chunks p : done p = true -> feed_chunks chunks p = Some p.
Proof.
  intros Hd. induction chunks as [| c chunks IH]; [done |]. cbn [feed_chunks].
  rewrite (json_parser_feed_saved c p p EmptyString c) by (by apply feed_loop_done).
  cbn [mbind option_bind]. unfold saved. rewrite Hd. by destruct (_ =? _)%nat.
Qed.

Lemma feed_chunks_alike chunks p1 tok1 p2 :
  alike p1 tok1 p2 EmptyString -> parser_ok p1 -> parser_ok p2 ->
  exists q1 u1 r1 q2, feed_loop tok1 p1 (bytes chunks) = Some (q1, u1, r1) /\
    feed_chunks chunks p2 = Some q2 /\ alike q1 u1 q2 EmptyString.
Proof.
  revert p1 tok1 p2. induction chunks as [| c chunks IH]; intros p1 tok1 p2 Ha Hok1 Hok2.
  { by do 4 eexists. }
  destruct (feed_loop_alike c p1 tok1 p2 EmptyString Ha Hok1)
    as (q1 & u1 & r1 & q2 & u2 & r2 & E1 & E2 & Hq).
  change (bytes (c :: chunks)) with (c +:+ bytes chunks).
  rewrite (feed_loop_app _ _ _ _ _ _ _ E1). cbn [feed_chunks].
  rewrite (json_parser_feed_saved _ _ _ _ _ E2). cbn [mbind option_bind].
  apply alike_saved in Hq. pose proof Hq as [[[? D1] F2] | (Hg & b & Hb & Hs)].
  - rewrite D1, feed_chunks_done by apply F2. by do 4 eexists; repeat case_match.
  - destruct (feed_loop_ok tok1 p1 c Hok1) as (q1' & u1' & r1' & E1' & Hok1').
    rewrite E1 in E1'. injection E1' as <- <- <-.
    pose proof Hg as (_ & D1 & _). rewrite D1.
    assert (done q2 = false) as D2.
    { unfold saved in Hb. destruct (done q2) eqn:D2; [| done]. subst q2. cbn in D2. congruence. }
    rewrite (feed_loop_rest _ _ _ _ _ _ E2 D2), Nat.sub_0_r, Nat.eqb_refl.
    apply IH; [done | done |]. rewrite Hb. by apply (parser_ok_ext q1).
Qed.

(** ** The result *)

(** The same result, or an error both times *)
Definition same_result (x y : option json) : Prop :=
  x = y \/ exists m n, x = Some (JSON_STRING m) /\ y = Some (JSON_STRING n).

Definition finish_tail (p : json_parser) : option json :=
  let p :=
    match parse_state p with
    | JSON_PARSE_START => json_error "empty input stream" p
    | JSON_PARSE_END => p
    | _ => json_error "unexpected end of input" p
    end in
  match error p with
  | Some e => Some (JSON_STRING e)
  | None => match stack p with [c] => Some (closed c) | _ => None end
  end.

Lemma finish_tail_failed p : failed p -> exists m, finish_tail p = Some (JSON_STRING m).
Proof.
  intros [[e He] _]. exists e. unfold finish_tail, json_error. rewrite He.
  by destruct (parse_state p); rewrite He.
Qed.

Lemma json_parser_finish_failed p :
  failed p -> exists m, json_parser_finish p = Some (JSON_STRING m).
Proof.
  intros Hf. destruct (finish_tail_failed p Hf) as [m Hm]. exists m. rewrite <- Hm.
  destruct Hf as [[e He] Hd]. unfold json_parser_finish.
  rewrite (json_parser_feed_saved " " p p EmptyString " ") by (by apply feed_loop_done).
  assert (json_error "unexpected end of input in quoted string" p = p) as ->.
  { unfold json_error. by rewrite He. }
  unfold saved. rewrite Hd. by destruct (lex_state p).
Qed.

Lemma finish_tail_alike p1 tok1 p2 tok2 :
  alike p1 tok1 p2 tok2 -> same_result (finish_tail p1) (finish_tail p2).
Proof.
  intros [[F1 F2] | (Hg & b & -> & _)].
  - right. destruct (finish_tail_failed p1 F1) as [m ->], (finish_tail_failed p2 F2) as [n ->].
    by exists m, n.
  - left. change (p1 <| buffer := b |>) with (with_buffer b p1).
    unfold finish_tail. change (parse_state (with_buffer b p1)) with (parse_state p1).
    rewrite !json_error_buffer. by destruct (parse_state p1).
Qed.

Lemma json_parser_finish_alike p1 p2 :
  alike p1 EmptyString p2 EmptyString -> parser_ok p1 ->
  same_result (json_parser_finish p1) (json_parser_finish p2).
Proof.
  intros Ha Hok. pose proof Ha as [[F1 F2] | (Hg & b & Hb & Hs)].
  { destruct (json_parser_finish_failed p1 F1) as [m ->].
    destruct (json_parser_finish_failed p2 F2) as [n ->]. right. by exists m, n. }
  unfold json_parser_finish.
  destruct (feed_loop_alike " " _ _ _ _ Ha Hok) as (q1 & u1 & r1 & q2 & u2 & r2 & E1 & E2 & Hq).
  rewrite (json_parser_feed_saved _ _ _ _ _ E1), (json_parser_feed_saved _ _ _ _ _ E2).
  apply alike_saved, alike_sym, alike_saved, alike_sym in Hq.
  subst p2. change (lex_state (p1 <| buffer := b |>)) with (lex_state p1).
  cbn [fmap option_fmap option_map fst].
  assert (alike (json_error "unexpected end of input in quoted string" p1) EmptyString
    (json_error "unexpected end of input in quoted string" (p1 <| buffer := b |>)) EmptyString)
    as He by (left; split; by apply json_error_failed).
  destruct (lex_state p1); cbn [mbind option_bind]; eapply finish_tail_alike; eassumption.
Qed.

(** C12: However the same bytes are cut into chunks, parsing them gives the same value,
    or an error both times. *)
Theorem json_stream_chunks (chunks1 chunks2 : list string) :
  bytes chunks1 = bytes chunks2 ->
  same_result (json_from_stream chunks1) (json_from_stream chunks2).
Proof.
  intros Heq. unfold json_from_stream.
  set (p := json_parser_create true).
  assert (parser_ok p) as Hok by apply json_parser_create_ok.
  assert (alike p EmptyString p EmptyString) as Ha.
  { right. split; [done |]. by exists EmptyString; split; [| right]. }
  destruct (feed_chunks_alike chunks1 p EmptyString p Ha Hok Hok)
    as (q & u & r & q1 & E & E1 & H1).
  destruct (feed_chunks_alike chunks2 p EmptyString p Ha Hok Hok)
    as (q' & u' & r' & q2 & E' & E2 & H2).
  rewrite Heq, E' in E. injection E as -> -> ->. rewrite E1, E2. cbn [mbind option_bind].
  assert (alike q1 EmptyString q2 EmptyString) as H12.
  { destruct H1 as [[F F1] | (Hg & b1 & -> & S1)].
    - left. split; [done |]. destruct H2 as [[_ F2] | ((He & _) & _)]; [done |].
      destruct F as [[e ?] _]. congruence.
    - destruct H2 as [[F _] | (_ & b2 & -> & S2)].
      { destruct F as [[e ?] _], Hg. congruence. }
      right. split; [done |]. exists b2. split; [done |].
      destruct S1 as [| [S1 L1]]; [by left |]. destruct S2 as [| [S2 L2]]; [by left |].
      right. cbn. rewrite <- S1. done. }
  destruct (feed_chunks_ok chunks1 p Hok) as (q1' & E1' & Hok1).
  rewrite E1 in E1'. injection E1' as <-. by apply json_parser_finish_alike.
Qed.

(** The message may depend on the cut: the text of a string that the parser keeps
    after it becomes part of the next word. *)
Theorem json_error_depends_on_chunks :
  let input := "[" +:+ json_serialize_string "abc" +:+ "true]" in
  json_from_stream [input] =
    Some (JSON_STRING "line 0, column 10, byte 10: syntax error expecting ']' or ','") /\
  json_from_stream ["[" +:+ json_serialize_string "abc"; "true]"] =
    Some (JSON_STRING ("line 0, column 10, byte 10: invalid keyword 'abc"
                       +:+ String dquote "true'")).
Proof. done. Qed.
End Feed.

(** ** A witness *)

Lemma json_stream_chunks_witness :
  bytes ["[12"; "3]"] = bytes ["["; "123]"] /\
  same_result (@json_from_stream no_strtod ["[12"; "3]"])
    (@json_from_stream no_strtod ["["; "123]"]).
Proof.
  split; [reflexivity |].
  apply (@json_stream_chunks no_strtod ["[12"; "3]"] ["["; "123]"]). reflexivity.
Defined.

End OvsJsonChunks.
