(* ===== verification/OvsJsonArray.v ===== *)
(** * The storage of JSON arrays

    An array of up to three elements that was built one element at a time is
    stored in the value itself, a longer one in a block of its own: [elements] and
    [array] are members of one union, and [storage_type] says which of them is
    there.  Reading the other one, a cell outside its block or a cell that was
    never written, and a failed assertion are [None].  The operations implement a
    list.

    The cells of a union or block that were not written are [None]; elements are
    of any type, since the code only copies pointers to them. *)

From stdpp Require Import base option list strings.
From Stdlib Require Import Lia.
From S2P Require Import Prelude Strings OvsJson.

Module OvsJsonArray.

Section Storage.
Context {A : Type}.

Inductive json_storage_type :=
| JSON_ARRAY_DYNAMIC | JSON_ARRAY_INLINE_1 | JSON_ARRAY_INLINE_2 | JSON_ARRAY_INLINE_3.

(** [storage_type - JSON_ARRAY_DYNAMIC] *)
Definition inline_size (t : json_storage_type) : nat :=
  match t with
  | JSON_ARRAY_DYNAMIC => 0
  | JSON_ARRAY_INLINE_1 => 1
  | JSON_ARRAY_INLINE_2 => 2
  | JSON_ARRAY_INLINE_3 => 3
  end.

(** [array.elements] is null or a block of [allocated] cells. *)
Record json_array := DynArray {
  size : nat;
  allocated : nat;
  elements : option (list (option A));
}.

Inductive array_union :=
| Elements (cells : list (option A))
| Array (array : json_array).

Record array_value := ArrayValue {
  storage_type : json_storage_type;
  union : array_union;
}.

Definition write {B} (i : nat) (x : B) (cells : list B) : option (list B) :=
  if (i <? length cells)%nat then Some (<[i := x]> cells) else None.

Definition dynamic (elements : option (list (option A))) (size allocated : nat) :
    array_value :=
  ArrayValue JSON_ARRAY_DYNAMIC (Array (DynArray size allocated elements)).

Definition json_array_create_empty : array_value := dynamic None 0 0.

(** [elements] is a block of [n] cells of the caller. *)
Definition json_array_create (elements : list A) : array_value :=
  dynamic (Some (Some <$> elements)) (length elements) (length elements).

Definition json_array_create_1 (e0 : A) : array_value :=
  ArrayValue JSON_ARRAY_INLINE_1 (Elements [Some e0; None; None]).
Definition json_array_create_2 (e0 e1 : A) : array_value :=
  ArrayValue JSON_ARRAY_INLINE_2 (Elements [Some e0; Some e1; None]).
Definition json_array_create_3 (e0 e1 e2 : A) : array_value :=
  ArrayValue JSON_ARRAY_INLINE_3 (Elements [Some e0; Some e1; Some e2]).

(** [x2nrealloc] of the block *)
Definition x2nrealloc (a : json_array) : json_array :=
  let n := if (allocated a =? 0)%nat then 1 else 2 * allocated a in
  let cells := default [] (elements a) in
  DynArray (size a) n (Some (cells ++ replicate (n - length cells) None)).

Definition json_array_add (v : array_value) (element : A) : option array_value :=
  match storage_type v, union v with
  | JSON_ARRAY_DYNAMIC, Array a =>
      if (size a =? 0)%nat then
        Some (ArrayValue JSON_ARRAY_INLINE_1 (Elements [Some element; None; None]))
      else
        let a := if (allocated a <=? size a)%nat then x2nrealloc a else a in
        cells ← elements a;
        cells ← write (size a) (Some element) cells;
        Some (dynamic (Some cells) (S (size a)) (allocated a))
  | JSON_ARRAY_INLINE_1, Elements cells =>
      cells ← write 1 (Some element) cells;
      Some (ArrayValue JSON_ARRAY_INLINE_2 (Elements cells))
  | JSON_ARRAY_INLINE_2, Elements cells =>
      cells ← write 2 (Some element) cells;
      Some (ArrayValue JSON_ARRAY_INLINE_3 (Elements cells))
  | JSON_ARRAY_INLINE_3, Elements cells =>
      cells ← write 3 (Some element) (take 3 cells ++ [None]);
      Some (dynamic (Some cells) 4 4)
  | _, _ => None
  end.

Definition json_array_size (v : array_value) : option nat :=
  match storage_type v, union v with
  | JSON_ARRAY_DYNAMIC, Array a => Some (size a)
  | JSON_ARRAY_DYNAMIC, Elements _ => None
  | t, _ => Some (inline_size t)
  end.

Definition json_array_set (v : array_value) (index : nat) (element : A) :
    option array_value :=
  n ← json_array_size v;
  if (index <? n)%nat then
    match storage_type v, union v with
    | JSON_ARRAY_DYNAMIC, Array a =>
        cells ← elements a;
        cells ← write index (Some element) cells;
        Some (dynamic (Some cells) (size a) (allocated a))
    | JSON_ARRAY_DYNAMIC, Elements _ => None
    | t, Elements cells =>
        cells ← write index (Some element) cells;
        Some (ArrayValue t (Elements cells))
    | _, Array _ => None
    end
  else None.

(** The element, or a null pointer, and the array without it *)
Definition json_array_pop (v : array_value) : option (option A * array_value) :=
  n ← json_array_size v;
  if (n =? 0)%nat then Some (None, v)
  else
    match storage_type v, union v with
    | JSON_ARRAY_DYNAMIC, Array a =>
        cells ← elements a;
        e ← mjoin (cells !! (size a - 1));
        Some (Some e, dynamic (Some cells) (size a - 1) (allocated a))
    | JSON_ARRAY_INLINE_3, Elements cells =>
        e ← mjoin (cells !! 2);
        Some (Some e, ArrayValue JSON_ARRAY_INLINE_2 (Elements cells))
    | JSON_ARRAY_INLINE_2, Elements cells =>
        e ← mjoin (cells !! 1);
        Some (Some e, ArrayValue JSON_ARRAY_INLINE_1 (Elements cells))
    | JSON_ARRAY_INLINE_1, Elements cells =>
        e ← mjoin (cells !! 0);
        Some (Some e, json_array_create_empty)
    | _, _ => None
    end.

Definition json_array_trim (v : array_value) : option array_value :=
  match storage_type v, union v with
  | JSON_ARRAY_DYNAMIC, Array a =>
      Some (if (size a <? allocated a)%nat
            then dynamic (Some (take (size a) (default [] (elements a)))) (size a) (size a)
            else v)
  | JSON_ARRAY_DYNAMIC, Elements _ => None
  | _, _ => Some v
  end.

(** A null pointer outside the array *)
Definition json_array_at (v : array_value) (index : nat) : option (option A) :=
  match storage_type v, union v with
  | JSON_ARRAY_DYNAMIC, Array a =>
      if (size a <=? index)%nat then Some None
      else cells ← elements a; e ← mjoin (cells !! index); Some (Some e)
  | JSON_ARRAY_DYNAMIC, Elements _ => None
  | t, Elements cells =>
      if (inline_size t <=? index)%nat then Some None
      else e ← mjoin (cells !! index); Some (Some e)
  | _, Array _ => None
  end.

(** Every element by its index, for [json_deep_clone_array] and for the loops of
    [json_serialize_array], [json_equal_array] and [json_hash_array] *)
Definition all_elements (v : array_value) : option (list A) :=
  n ← json_array_size v;
  mapM (fun i => e ← json_array_at v i; e) (seq 0 n).

(** [json_deep_clone_array], where [clone] clones an element *)
Definition json_deep_clone_array (clone : A -> A) (v : array_value) : option array_value :=
  es ← all_elements v;
  Some (match clone <$> es with
        | [] => json_array_create_empty
        | [e0] => json_array_create_1 e0
        | [e0; e1] => json_array_create_2 e0 e1
        | [e0; e1; e2] => json_array_create_3 e0 e1 e2
        | es => json_array_create es
        end).

(** ** The list that a value stores *)

Definition stored (l : list A) (cells : list (option A)) : Prop :=
  exists junk, cells = (Some <$> l) ++ junk.

Definition represents (v : array_value) (l : list A) : Prop :=
  match storage_type v, union v with
  | JSON_ARRAY_DYNAMIC, Array a =>
      size a = length l /\ stored l (default [] (elements a)) /\
      allocated a = length (default [] (elements a))
  | JSON_ARRAY_DYNAMIC, Elements _ => False
  | t, Elements cells => inline_size t = length l /\ length cells = 3 /\ stored l cells
  | _, Array _ => False
  end.

Lemma stored_nil cells : stored [] cells.
Proof. by exists cells. Qed.

Lemma stored_lookup l cells i x : stored l cells -> l !! i = Some x -> cells !! i = Some (Some x).
Proof.
  intros [junk ->] H. rewrite lookup_app_l, list_lookup_fmap, H; [done |].
  rewrite length_fmap. by eapply lookup_lt_Some.
Qed.

Lemma stored_take l cells n : stored l cells -> n <= length l -> stored (take n l) cells.
Proof.
  intros [junk ->] Hn. exists ((Some <$> drop n l) ++ junk).
  rewrite app_assoc. f_equal. rewrite <- fmap_app. by rewrite take_drop.
Qed.

Lemma stored_add l cells e :
  stored l cells -> length l < length cells ->
  stored (l ++ [e]) (<[length l := Some e]> cells).
Proof.
  intros [junk ->] Hlt. destruct junk as [| x junk].
  { rewrite app_nil_r, length_fmap in Hlt. lia. }
  exists junk. rewrite fmap_app, <- app_assoc.
  rewrite <- (length_fmap Some l) at 1. rewrite insert_app_r_alt, Nat.sub_diag by lia. done.
Qed.

Lemma stored_set l cells i e :
  stored l cells -> i < length l -> stored (<[i := e]> l) (<[i := Some e]> cells).
Proof.
  intros [junk ->] Hi. exists junk. rewrite list_fmap_insert, insert_app_l; [done |].
  by rewrite length_fmap.
Qed.

Lemma stored_length l cells : stored l cells -> length l <= length cells.
Proof. intros [junk ->]. rewrite length_app, length_fmap. lia. Qed.

Lemma write_some {B} i (x : B) cells : i < length cells -> write i x cells = Some (<[i := x]> cells).
Proof. intros H. unfold write. by rewrite (proj2 (Nat.ltb_lt _ _) H). Qed.

(** The four representations, opened *)
Lemma represents_inv v l :
  represents v l ->
  (exists cells n block, v = dynamic block (length l) n /\ cells = default [] block /\
     stored l cells /\ n = length cells) \/
  (exists t x y z, v = ArrayValue t (Elements [x; y; z]) /\ t <> JSON_ARRAY_DYNAMIC /\
     inline_size t = length l /\ stored l [x; y; z]).
Proof.
  destruct v as [t [cells | [n a block]]]; intros H.
  - right. destruct t; [done |..]; destruct H as (H1 & H2 & H3); cbn in *;
      destruct cells as [| x [| y [| z [| ? ?]]]]; try done; by eexists _, x, y, z.
  - left. destruct t; [| done..]. destruct H as (H1 & H2 & H3). cbn in *. subst.
    by eexists _, _, block.
Qed.

Lemma json_array_size_represents v l : represents v l -> json_array_size v = Some (length l).
Proof.
  intros [(? & ? & ? & -> & _) | (t & x & y & z & -> & Ht & Hn & _)]%represents_inv; [done |].
  rewrite <- Hn. by destruct t.
Qed.

Lemma json_array_add_represents v l e :
  represents v l ->
  exists v', json_array_add v e = Some v' /\ represents v' (l ++ [e]).
Proof.
  intros [(cells & n & block & -> & Hc & Hs & Hn) | (t & x & y & z & -> & Ht & Hn & Hs)]%represents_inv.
  - unfold json_array_add. cbn [storage_type union dynamic size allocated elements].
    destruct (Nat.eqb_spec (length l) 0) as [Hl | Hl].
    { eexists. split; [done |]. destruct l; [| done]. repeat split. by exists [None; None]. }
    pose proof (stored_length _ _ Hs) as Hlen.
    destruct block as [block |]; cbn in Hc; [subst cells | subst; simpl in *; lia].
    destruct (Nat.leb_spec n (length l)) as [Hle | Hlt].
    + unfold x2nrealloc. cbn [size allocated elements default].
      set (m := if (n =? 0)%nat then 1 else 2 * n).
      assert (length block < m) as Hm.
      { unfold m. destruct (Nat.eqb_spec n 0); lia. }
      set (grown := block ++ replicate (m - length block) None).
      assert (length grown = m) as Hg
        by (unfold grown; rewrite length_app, length_replicate; lia).
      assert (stored l grown) as Hs'.
      { destruct Hs as [junk ->]. eexists. unfold grown. by rewrite <- app_assoc. }
      change (id block ++ _) with grown. cbn [mbind option_bind].
      rewrite write_some by lia. eexists. split; [done |].
      split; [cbn; rewrite length_app; cbn; lia |].
      cbn [dynamic union storage_type size allocated elements default id].
      rewrite length_insert. split; [apply stored_add; [done | lia] | lia].
    + cbn. rewrite write_some by lia. eexists. split; [done |].
      split; [cbn; rewrite length_app; cbn; lia |]. cbn. rewrite length_insert.
      split; [apply stored_add; [done | lia] | lia].
  - destruct Hs as [junk Hj].
    destruct t, l as [| a [| b [| c [| d l]]]]; try done; simplify_eq/=;
      (eexists; split; [done |]); repeat split; by eexists.
Qed.

Lemma json_array_set_represents v l i e :
  represents v l ->
  if (i <? length l)%nat
  then exists v', json_array_set v i e = Some v' /\ represents v' (<[i := e]> l)
  else json_array_set v i e = None.
Proof.
  intros Hr. unfold json_array_set. rewrite (json_array_size_represents v l Hr).
  cbn [mbind option_bind]. destruct (Nat.ltb_spec i (length l)) as [Hi | Hi]; [| done].
  apply represents_inv in Hr
    as [(cells & n & block & -> & Hc & Hs & Hn) | (t & x & y & z & -> & Ht & Hn & Hs)].
  - pose proof (stored_length _ _ Hs) as Hlen.
    destruct block as [block |]; cbn in Hc; [subst cells | subst; simpl in *; lia].
    cbn. rewrite write_some by lia. eexists. split; [done |].
    split; [cbn; by rewrite length_insert |]. cbn. rewrite length_insert.
    split; [by apply stored_set | done].
  - pose proof (stored_length _ _ Hs) as Hlen. cbn in Hlen.
    exists (ArrayValue t (Elements (<[i := Some e]> [x; y; z]))). split.
    + cbn. rewrite write_some by (cbn; lia). by destruct t.
    + pose proof (stored_set l _ i e Hs Hi) as Hs'.
      destruct t; [done |..]; cbn [represents storage_type union]; rewrite !length_insert;
        done.
Qed.

Lemma stored_last l cells :
  l <> [] -> stored l cells ->
  exists e, last l = Some e /\ mjoin (cells !! (length l - 1)) = Some e /\
    stored (take (length l - 1) l) cells.
Proof.
  intros Hne Hs. destruct (last l) as [e |] eqn:He; [| by apply last_None in He].
  exists e. rewrite last_lookup in He. replace (pred (length l)) with (length l - 1) in He by lia.
  rewrite (stored_lookup l cells _ e Hs He).
  split; [done |]. split; [done |]. apply stored_take; [done | lia].
Qed.

Lemma json_array_pop_represents v l :
  represents v l ->
  exists v', json_array_pop v = Some (last l, v') /\
    represents v' (take (length l - 1) l).
Proof.
  intros Hr. unfold json_array_pop. rewrite (json_array_size_represents v l Hr).
  cbn [mbind option_bind]. destruct (Nat.eqb_spec (length l) 0) as [Hl | Hl].
  { destruct l; [| done]. by exists v. }
  assert (l <> []) as Hne by (by destruct l).
  apply represents_inv in Hr
    as [(cells & n & block & -> & Hc & Hs & Hn) | (t & x & y & z & -> & Ht & Hn & Hs)].
  - pose proof (stored_length _ _ Hs) as Hlen.
    destruct block as [block |]; cbn in Hc; [subst cells | subst; simpl in *; lia].
    destruct (stored_last l block Hne Hs) as (e & -> & He & Hs'). cbn. rewrite He.
    eexists. split; [done |]. split; [cbn; rewrite length_take; lia |]. cbn. done.
  - destruct (stored_last l _ Hne Hs) as (e & -> & He & Hs').
    rewrite <- Hn in *. destruct t; [done |..]; cbn -[lookup] in He |- *; rewrite He;
      (eexists; split; [done |]); repeat split; try done; cbn;
      rewrite ?length_take; try lia.
    + apply stored_nil.
    + by rewrite <- Hn.
Qed.

Lemma json_array_trim_represents v l :
  represents v l -> exists v', json_array_trim v = Some v' /\ represents v' l.
Proof.
  intros Hr. pose proof Hr as Hr'. apply represents_inv in Hr
    as [(cells & n & block & -> & Hc & Hs & Hn) | (t & x & y & z & -> & Ht & _)].
  - unfold json_array_trim. cbn [storage_type union dynamic size allocated elements].
    destruct (Nat.ltb_spec (length l) n); eexists; (split; [done |]); [| done].
    subst cells. destruct Hs as [junk Hj].
    split; [done |]. cbn. rewrite Hj.
    rewrite take_app_length' by (by rewrite length_fmap). rewrite length_fmap.
    split; [exists []; by rewrite app_nil_r | done].
  - exists (ArrayValue t (Elements [x; y; z])). split; [by destruct t | done].
Qed.

Lemma json_array_at_represents v l i :
  represents v l -> json_array_at v i = Some (l !! i).
Proof.
  intros [(cells & n & block & -> & Hc & Hs & Hn) | (t & x & y & z & -> & Ht & Hn & Hs)]%represents_inv.
  - unfold json_array_at. cbn [storage_type union dynamic size elements].
    destruct (Nat.leb_spec (length l) i) as [Hle | Hlt].
    { by rewrite (proj2 (lookup_ge_None l i) Hle). }
    pose proof (stored_length _ _ Hs) as Hlen.
    destruct block as [block |]; cbn in Hc; [subst cells | subst; simpl in *; lia].
    destruct (lookup_lt_is_Some_2 l i Hlt) as [e He].
    cbn. by rewrite (stored_lookup l block i e Hs He), He.
  - assert (json_array_at (ArrayValue t (Elements [x; y; z])) i =
      if (inline_size t <=? i)%nat then Some None
      else e ← mjoin ([x; y; z] !! i); Some (Some e)) as -> by (by destruct t).
    rewrite Hn. destruct (Nat.leb_spec (length l) i) as [Hle | Hlt].
    { by rewrite (proj2 (lookup_ge_None l i) Hle). }
    destruct (lookup_lt_is_Some_2 l i Hlt) as [e He].
    by rewrite (stored_lookup l _ i e Hs He), He.
Qed.

Lemma all_elements_represents v l : represents v l -> all_elements v = Some l.
Proof.
  intros Hr. unfold all_elements. rewrite (json_array_size_represents v l Hr). cbn.
  apply mapM_Some. apply Forall2_same_length_lookup_2; [by rewrite length_seq |].
  intros i j e Hj He. apply lookup_seq in Hj as [-> Hlt].
  by rewrite (json_array_at_represents v l _ Hr), Nat.add_0_l, He.
Qed.

Lemma json_array_create_represents l : represents (json_array_create l) l.
Proof.
  split; [done |]. cbn. rewrite length_fmap. split; [exists []; by rewrite app_nil_r | done].
Qed.

Lemma json_deep_clone_array_represents clone v l :
  represents v l ->
  exists v', json_deep_clone_array clone v = Some v' /\ represents v' (clone <$> l).
Proof.
  intros Hr. unfold json_deep_clone_array. rewrite (all_elements_represents v l Hr).
  cbn [mbind option_bind]. eexists. split; [done |].
  destruct (clone <$> l) as [| a [| b [| c [| d l']]]];
    first [ apply json_array_create_represents | repeat split; by eexists ].
Qed.

(** ** Refinement *)

Inductive array_op :=
| Add (element : A) | Set_ (index : nat) (element : A) | Pop | Trim | Clone
| At (index : nat) | Size.

Inductive answer := Nothing | Pointer (p : option A) | Number (n : nat).

Definition array_step (op : array_op) (v : array_value) : option (answer * array_value) :=
  match op with
  | Add e => pair Nothing <$> json_array_add v e
  | Set_ i e => pair Nothing <$> json_array_set v i e
  | Pop => '(e, v) ← json_array_pop v; Some (Pointer e, v)
  | Trim => pair Nothing <$> json_array_trim v
  | Clone => pair Nothing <$> json_deep_clone_array (fun e => e) v
  | At i => e ← json_array_at v i; Some (Pointer e, v)
  | Size => n ← json_array_size v; Some (Number n, v)
  end.

(** The same on a list; an element can only be set where there is one. *)
Definition list_step (op : array_op) (l : list A) : option (answer * list A) :=
  match op with
  | Add e => Some (Nothing, l ++ [e])
  | Set_ i e => if (i <? length l)%nat then Some (Nothing, <[i := e]> l) else None
  | Pop => Some (Pointer (last l), take (length l - 1) l)
  | Trim | Clone => Some (Nothing, l)
  | At i => Some (Pointer (l !! i), l)
  | Size => Some (Number (length l), l)
  end.

(** The answers to a sequence of operations; [None] if one of them faults *)
Fixpoint answers {S} (step : array_op -> S -> option (answer * S)) (ops : list array_op)
    (s : S) : option (list answer) :=
  match ops with
  | [] => Some []
  | op :: ops => '(a, s) ← step op s; rest ← answers step ops s; Some (a :: rest)
  end.

Lemma array_step_refines op v l :
  represents v l ->
  match list_step op l with
  | Some (a, l') => exists v', array_step op v = Some (a, v') /\ represents v' l'
  | None => array_step op v = None
  end.
Proof.
  intros Hr. destruct op as [e | i e | | | | i |]; cbn [list_step array_step].
  - destruct (json_array_add_represents v l e Hr) as (v' & -> & Hr'). by exists v'.
  - pose proof (json_array_set_represents v l i e Hr) as H.
    destruct (i <? length l)%nat; [| by rewrite H].
    destruct H as (v' & -> & Hr'). by exists v'.
  - destruct (json_array_pop_represents v l Hr) as (v' & -> & Hr'). by exists v'.
  - destruct (json_array_trim_represents v l Hr) as (v' & -> & Hr'). by exists v'.
  - destruct (json_deep_clone_array_represents (fun e => e) v l Hr) as (v' & -> & Hr').
    exists v'. by rewrite list_fmap_id in Hr'.
  - rewrite (json_array_at_represents v l i Hr). by exists v.
  - rewrite (json_array_size_represents v l Hr). by exists v.
Qed.

(** C23: Whatever is done to an array, stored in the value or in a block, gives the
    answers of a list, and only setting an element that is not there faults. *)
Theorem json_array_refines (ops : list array_op) (l : list A) :
  answers array_step ops json_array_create_empty = answers list_step ops [] /\
  answers array_step ops (json_array_create l) = answers list_step ops l.
Proof.
  assert (forall v l, represents v l ->
    answers array_step ops v = answers list_step ops l) as H.
  { induction ops as [| op ops IH]; intros v k Hr; [done |]. cbn [answers].
    pose proof (array_step_refines op v k Hr) as Hs.
    destruct (list_step op k) as [[a k'] |]; [| by rewrite Hs].
    destruct Hs as (v' & -> & Hr'). cbn. by rewrite (IH v' k' Hr'). }
  split; apply H; [| apply json_array_create_represents].
  split; [done |]. split; [apply stored_nil | done].
Qed.

(** The block that a value owns *)
Definition block (v : array_value) : option (list (option A)) :=
  match union v with Array a => elements a | Elements _ => None end.

(** The array after some operations *)
Fixpoint after (ops : list array_op) (v : array_value) : option array_value :=
  match ops with
  | [] => Some v
  | op :: ops => '(_, v) ← array_step op v; after ops v
  end.

(** An array that grew into a block and was emptied again keeps the block, and the
    next element goes into the value over the pointer to it: the block is lost. *)
Lemma json_array_add_leaks (e : A) :
  exists v v', after [Add e; Add e; Add e; Add e; Pop; Pop; Pop; Pop]
                 json_array_create_empty = Some v /\
    block v = Some [Some e; Some e; Some e; Some e] /\
    json_array_add v e = Some v' /\ block v' = None.
Proof. by do 2 eexists. Qed.

End Storage.
End OvsJsonArray.
