(* ===== verification/OvnLex.v ===== *)
(** * The lexer of OVN's match and action language: src/ovn/lib/lex.c

    Tokens, their text, and the lexer with the functions the parsers call, and what
    they use of packets.c, util.c and dynamic-string.c.  A pointer into the input
    is the rest of the input; the input is a C string, so that its end is the null
    byte.  The value and the mask of a token, arrays of 128 bytes, are the integers
    they hold, as in [Subvalue].  Fields of a token that have no meaning for its
    type are 0.  [inet_pton] and [inet_ntop] are parameters; [char] is signed. *)

From stdpp Require Import base option list strings.
From Stdlib Require Import ZArith Lia Ascii.
From S2P Require Import Prelude Strings CString Binary64 OvsJson.

Local Open Scope Z_scope.
Local Open Scope string_scope.

Module OvnLex.
Import OvsJson.

(** ** Addresses *)

(** The text of addresses in the C library: [inet_pton] for [AF_INET] and
    [AF_INET6], and [inet_ntop] for [AF_INET6]; addresses in host byte order *)
Class Inet := {
  inet_pton4 : string -> option Z;
  inet_pton6 : string -> option Z;
  inet_ntop6 : Z -> string;
}.

Definition byte (v : Z) (i : nat) : Z := Z.land (Z.shiftr v (8 * Z.of_nat i)) 255.

(** [n] bytes, the most significant first, and back *)
Fixpoint be_bytes (n : nat) (v : Z) : list Z :=
  match n with O => [] | S n => byte v n :: be_bytes n v end.

Definition of_be_bytes (l : list Z) : Z := foldl (fun acc b => acc * 256 + b) 0 l.

Definition ip_is_cidr (netmask : Z) : bool :=
  let x := Z.lxor netmask 4294967295 in Z.eqb (Z.land x (u32 (x + 1))) 0.

(** The number of zero bits below the lowest 1-bit, of [n] bits *)
Fixpoint ctz (n : nat) (x : Z) : Z :=
  match n with
  | O => 0
  | S n => if Z.odd x then 0 else 1 + ctz n (Z.shiftr x 1)
  end.
Definition ctz32 (x : Z) : Z := ctz 32 x.

Definition ip_count_cidr_bits (netmask : Z) : Z := 32 - ctz32 netmask.

Definition be32_prefix_mask (plen : Z) : Z := u32 (Z.shiftl 4294967295 (32 - plen)).

Fixpoint ipv6_is_cidr (netmask : list Z) : bool :=
  match netmask with
  | [] => true
  | b :: rest =>
      if Z.eqb b 255 then ipv6_is_cidr rest
      else
        let x := u8 (Z.lnot b) in
        if negb (Z.eqb (Z.land x (x + 1)) 0) then false
        else forallb (Z.eqb 0) rest
  end.

(** [for (nm = ...; nm; nm <<= 1) count++], of a byte *)
Fixpoint count_shifts (n : nat) (nm : Z) : Z :=
  match n with
  | O => 0
  | S n => if Z.eqb nm 0 then 0 else 1 + count_shifts n (u8 (Z.shiftl nm 1))
  end.

Fixpoint ipv6_count_cidr_bits (netmask : list Z) : Z :=
  match netmask with
  | [] => 0
  | b :: rest =>
      if Z.eqb b 255 then 8 + ipv6_count_cidr_bits rest else count_shifts 8 b
  end.

Fixpoint create_mask (n : nat) (mask : Z) : list Z :=
  match n with
  | O => []
  | S n =>
      if (8 <? mask)%Z then 255 :: create_mask n (mask - 8)
      else (if Z.eqb mask 0 then 0 else u8 (Z.shiftl 255 (8 - mask))) :: replicate n 0
  end.
Definition ipv6_create_mask (mask : Z) : list Z := create_mask 16 mask.

(** ** Tokens *)

Inductive lex_type :=
| LEX_T_END
| LEX_T_ID | LEX_T_STRING | LEX_T_INTEGER | LEX_T_MASKED_INTEGER | LEX_T_MACRO
| LEX_T_PORT_GROUP | LEX_T_TEMPLATE | LEX_T_ERROR
| LEX_T_LPAREN | LEX_T_RPAREN | LEX_T_LCURLY | LEX_T_RCURLY | LEX_T_LSQUARE
| LEX_T_RSQUARE | LEX_T_EQ | LEX_T_NE | LEX_T_LT | LEX_T_LE | LEX_T_GT | LEX_T_GE
| LEX_T_LOG_NOT | LEX_T_LOG_AND | LEX_T_LOG_OR | LEX_T_ELLIPSIS | LEX_T_COMMA
| LEX_T_SEMICOLON | LEX_T_EQUALS | LEX_T_EXCHANGE | LEX_T_DECREMENT | LEX_T_COLON
| LEX_T_HYPHEN.

#[export] Instance lex_type_eq_dec : EqDecision lex_type.
Proof. solve_decision. Defined.

Inductive lex_format :=
| LEX_F_DECIMAL | LEX_F_HEXADECIMAL | LEX_F_IPV4 | LEX_F_IPV6 | LEX_F_ETHERNET.

#[export] Instance lex_format_eq_dec : EqDecision lex_format.
Proof. solve_decision. Defined.

Record lex_token := Token {
  type : lex_type;
  str : option string;
  format : lex_format;
  value : Z;
  mask : Z;
}.

#[export] Instance rebuild_token : Rebuild lex_token := fun t =>
  Token (type t) (str t) (format t) (value t) (mask t).

Definition lex_token_init : lex_token := Token LEX_T_END None LEX_F_DECIMAL 0 0.

Definition bare (t : lex_type) : lex_token := lex_token_init <| type := t |>.

Definition lex_error (message : string) : lex_token :=
  lex_token_init <| type := LEX_T_ERROR |> <| str := Some message |>.

(** ** The text of tokens *)

Definition lex_token_n_zeros (f : lex_format) : Z :=
  match f with
  | LEX_F_DECIMAL => 120
  | LEX_F_HEXADECIMAL => 0
  | LEX_F_IPV4 => 124
  | LEX_F_IPV6 => 112
  | LEX_F_ETHERNET => 122
  end.

(** [is_all_zeros] of the first [n] of 128 bytes *)
Definition zeros_above (v n : Z) : bool := Z.eqb (Z.shiftr v (8 * (128 - n))) 0.

Definition lex_token_get_format (t : lex_token) : lex_format :=
  let n_zeros := lex_token_n_zeros (format t) in
  if zeros_above (value t) n_zeros &&
     (negb (bool_decide (type t = LEX_T_MASKED_INTEGER)) || zeros_above (mask t) n_zeros)
  then format t else LEX_F_HEXADECIMAL.

(** [%02x] and [%x] of a byte *)
Definition hex2 (b : Z) : string :=
  String (lower_hexit (b / 16)) (String (lower_hexit (b mod 16)) EmptyString).
Definition hex1 (b : Z) : string :=
  if (b <? 16)%Z then String (lower_hexit b) EmptyString else hex2 b.

Fixpoint ds_put_hex (printed : bool) (bytes : list Z) : string :=
  match bytes with
  | [] => if printed then EmptyString else "0"
  | val :: bytes =>
      if printed then hex2 val +:+ ds_put_hex true bytes
      else if Z.eqb val 0 then ds_put_hex false bytes
      else "0x" +:+ hex1 val +:+ ds_put_hex true bytes
  end.

Definition ip_text (ip : Z) : string :=
  str_int (byte ip 3) +:+ "." +:+ str_int (byte ip 2) +:+ "." +:+
  str_int (byte ip 1) +:+ "." +:+ str_int (byte ip 0).

Definition eth_text (mac : Z) : string :=
  hex2 (byte mac 5) +:+ ":" +:+ hex2 (byte mac 4) +:+ ":" +:+ hex2 (byte mac 3) +:+ ":" +:+
  hex2 (byte mac 2) +:+ ":" +:+ hex2 (byte mac 1) +:+ ":" +:+ hex2 (byte mac 0).

Section Lex.
Context {HI : Inet}.

Definition lex_token_format_value (v : Z) (f : lex_format) : string :=
  match f with
  | LEX_F_DECIMAL => str_int (v mod 2 ^ 64)
  | LEX_F_HEXADECIMAL => ds_put_hex false (be_bytes 128 v)
  | LEX_F_IPV4 => ip_text (v mod 2 ^ 32)
  | LEX_F_IPV6 => inet_ntop6 (v mod 2 ^ 128)
  | LEX_F_ETHERNET => eth_text (v mod 2 ^ 48)
  end.

Definition lex_token_format_masked_integer (t : lex_token) : string :=
  let f := lex_token_get_format t in
  lex_token_format_value (value t) f +:+ "/" +:+
  (if bool_decide (f = LEX_F_IPV4) && ip_is_cidr (mask t mod 2 ^ 32)
   then str_int (ip_count_cidr_bits (mask t mod 2 ^ 32))
   else if bool_decide (format t = LEX_F_IPV6) && ipv6_is_cidr (be_bytes 16 (mask t))
   then str_int (ipv6_count_cidr_bits (be_bytes 16 (mask t)))
   else lex_token_format_value (mask t) f).

(** [None] where the code would follow a null pointer *)
Definition lex_token_format (t : lex_token) : option string :=
  match type t with
  | LEX_T_END => Some "$"
  | LEX_T_ID => str t
  | LEX_T_ERROR => (fun s => "error(" +:+ json_serialize_string s +:+ ")") <$> str t
  | LEX_T_STRING => json_serialize_string <$> str t
  | LEX_T_INTEGER => Some (lex_token_format_value (value t) (lex_token_get_format t))
  | LEX_T_MASKED_INTEGER => Some (lex_token_format_masked_integer t)
  | LEX_T_MACRO => String.append "$" <$> str t
  | LEX_T_PORT_GROUP => String.append "@" <$> str t
  | LEX_T_TEMPLATE => String.append "^" <$> str t
  | LEX_T_LPAREN => Some "("
  | LEX_T_RPAREN => Some ")"
  | LEX_T_LCURLY => Some "{"
  | LEX_T_RCURLY => Some "}"
  | LEX_T_LSQUARE => Some "["
  | LEX_T_RSQUARE => Some "]"
  | LEX_T_EQ => Some "=="
  | LEX_T_NE => Some "!="
  | LEX_T_LT => Some "<"
  | LEX_T_LE => Some "<="
  | LEX_T_GT => Some ">"
  | LEX_T_GE => Some ">="
  | LEX_T_LOG_NOT => Some "!"
  | LEX_T_LOG_AND => Some "&&"
  | LEX_T_LOG_OR => Some "||"
  | LEX_T_ELLIPSIS => Some ".."
  | LEX_T_COMMA => Some ","
  | LEX_T_SEMICOLON => Some ";"
  | LEX_T_EQUALS => Some "="
  | LEX_T_EXCHANGE => Some "<->"
  | LEX_T_DECREMENT => Some "--"
  | LEX_T_COLON => Some ":"
  | LEX_T_HYPHEN => Some "-"
  end.

(** ** Numbers *)

Definition isalnum (c : ascii) : bool := isalpha c || isdigit c.

Definition isspace (c : ascii) : bool :=
  Ascii.eqb c " "%char || (9 <=? code c)%Z && (code c <=? 13)%Z.

(** The characters in front for which [f] holds, and the rest *)
Fixpoint span (f : ascii -> bool) (s : string) : string * string :=
  match s with
  | String c rest =>
      if f c then let '(t, r) := span f rest in (String c t, r) else (EmptyString, s)
  | EmptyString => (EmptyString, EmptyString)
  end.

(** [scan_int] of util.c for base 16 without a width, storing a byte *)
Fixpoint scan_digits (value : Z) (n_digits : nat) (s : string) : Z * nat * string :=
  match s with
  | String c rest =>
      let digit := hexit_value c in
      if (digit <? 0)%Z || (16 <=? digit)%Z then (value, n_digits, s)
      else scan_digits (u64 (value * 16 + digit)) (S n_digits) rest
  | EmptyString => (value, n_digits, s)
  end.

Definition after_sign (s : string) : string :=
  if first_is (fun c => Ascii.eqb c "-"%char || Ascii.eqb c "+"%char) s
  then str_tail s else s.

Definition after_0x (s : string) : string :=
  if first_is (Ascii.eqb "0"%char) s &&
     first_is (fun c => Ascii.eqb c "x"%char || Ascii.eqb c "X"%char) (str_tail s)
  then str_tail (str_tail s) else s.

Definition scan_int (s : string) : option (Z * string) :=
  let negative := first_is (Ascii.eqb "-"%char) s in
  let '(value, n_digits, s) := scan_digits 0 0 (after_0x (after_sign s)) in
  if (n_digits =? 0)%nat then None
  else Some (u8 (if negative then - value else value), s).

(** [ovs_scan] with [ETH_ADDR_SCAN_FMT]: six conversions with colons between them *)
Fixpoint scan_mac (n : nat) (mac : Z) (s : string) : option (Z * string) :=
  match n with
  | O => Some (mac, s)
  | S n =>
      '(b, s) ← scan_int (snd (span isspace s));
      let mac := mac * 256 + b in
      match n with
      | O => Some (mac, s)
      | S _ => if first_is (Ascii.eqb ":"%char) s then scan_mac n mac (str_tail s) else None
      end
  end.

(** The extent of a number or an address *)
Fixpoint integer_extent (saw_dot : bool) (s : string) : string * string :=
  match s with
  | String c rest =>
      if isalnum c || Ascii.eqb c ":"%char && negb saw_dot
         || Ascii.eqb c "."%char && negb (first_is (Ascii.eqb "."%char) rest)
      then
        let '(t, r) := integer_extent (saw_dot || Ascii.eqb c "."%char) rest in
        (String c t, r)
      else (EmptyString, s)
  | EmptyString => (EmptyString, s)
  end.

(** [strtoull] of digits; [None] is [ERANGE]. *)
Fixpoint strtoull_from (value : Z) (s : string) : Z :=
  match s with
  | String c rest => if isdigit c then strtoull_from (value * 10 + (code c - 48)) rest else value
  | EmptyString => value
  end.
Definition strtoull (s : string) : option Z :=
  let v := strtoull_from 0 s in if (v <=? ULLONG_MAX)%Z then Some v else None.

Definition integer_token (f : lex_format) (v : Z) : lex_token :=
  lex_token_init <| type := LEX_T_INTEGER |> <| format := f |> <| value := v |>.

(** The loop of [lex_parse_hex_integer], from the last digit *)
Fixpoint hex_loop (i : Z) (v : Z) (digits : list ascii) : string + Z :=
  match digits with
  | [] => inr v
  | c :: digits =>
      let hexit := hexit_value c in
      if (hexit <? 0)%Z then inl "Invalid syntax in hexadecimal constant."
      else if negb (Z.eqb hexit 0) then
        if (128 <=? i / 2)%Z then inl "Hexadecimal constant requires more than 1024 bits."
        else hex_loop (i + 1) (Z.lor v (Z.shiftl hexit (4 * i))) digits
      else hex_loop (i + 1) v digits
  end.

Definition lex_parse_hex_integer (s : string) : lex_token :=
  match hex_loop 0 0 (rev (String.list_ascii_of_string s)) with
  | inl e => lex_error e
  | inr v => integer_token LEX_F_HEXADECIMAL v
  end.

(** [INET6_ADDRSTRLEN] *)
Definition INET6_ADDRSTRLEN : nat := 46.

Definition lex_parse_integer__ (p : string) : lex_token * string :=
  let '(text, end_) := integer_extent false p in
  let len := String.length text in
  let p0 := first_is (Ascii.eqb "0"%char) p in
  let p1 := first_is (fun c => Ascii.eqb c "x"%char || Ascii.eqb c "X"%char) (str_tail p) in
  let mac :=
    if (len =? 17)%nat then
      match scan_mac 6 0 p with
      | Some (mac, rest) =>
          if (String.length p - String.length rest =? len)%nat then Some mac else None
      | None => None
      end
    else None in
  let token :=
    if (len =? 0)%nat then lex_error "Integer constant expected."
    else match mac with
    | Some mac => integer_token LEX_F_ETHERNET mac
    | None =>
        if (String.length (fst (span isdigit p)) =? len)%nat then
          if p0 && (1 <? len)%nat then
            lex_error "Decimal constants must not have leading zeros."
          else
            match strtoull p with
            | Some v => integer_token LEX_F_DECIMAL v
            | None => lex_error "Decimal constants must be less than 2**64."
            end
        else if p0 && p1 then
          if (2 <? len)%nat then lex_parse_hex_integer (str_tail (str_tail text))
          else lex_error ("Hex digits expected following 0"
                          +:+ String.substring 1 1 p +:+ ".")
        else if (len <? INET6_ADDRSTRLEN)%nat then
          match inet_pton4 text with
          | Some ip => integer_token LEX_F_IPV4 ip
          | None =>
              match inet_pton6 text with
              | Some ip => integer_token LEX_F_IPV6 ip
              | None => lex_error "Invalid numeric constant."
              end
          end
        else lex_error "Invalid numeric constant."
    end in
  (token, end_).

(** [p] is what follows the slash. *)
Definition lex_parse_mask (p : string) (t : lex_token) : lex_token * string :=
  let '(m, p) := lex_parse_integer__ p in
  if bool_decide (type m = LEX_T_ERROR) then (m, p)
  else
    let prefix_bits := u32 (value m mod 2 ^ 64) in
    let masked f bits :=
      t <| type := LEX_T_MASKED_INTEGER |> <| format := f |> <| mask := bits |>
        <| value ::= fun v => Z.land v bits |> in
    let token :=
      if bool_decide (format t = format m) then masked (format t) (value m)
      else if bool_decide (format t = LEX_F_IPV4) && bool_decide (format m = LEX_F_DECIMAL)
              && (prefix_bits <=? 32)%Z
      then masked (format t) (be32_prefix_mask prefix_bits)
      else if bool_decide (format t = LEX_F_IPV6) && bool_decide (format m = LEX_F_DECIMAL)
              && (prefix_bits <=? 128)%Z
      then masked (format t) (of_be_bytes (ipv6_create_mask prefix_bits))
      else if bool_decide (format t = LEX_F_DECIMAL)
              && bool_decide (format m = LEX_F_HEXADECIMAL)
              && Z.eqb (value t mod 2 ^ 64) 0
      then masked LEX_F_HEXADECIMAL (value m)
      else lex_error "Value and mask have incompatible formats." in
    (token, p).

Definition lex_parse_integer (p : string) : lex_token * string :=
  let '(t, p) := lex_parse_integer__ p in
  if bool_decide (type t = LEX_T_INTEGER) && first_is (Ascii.eqb "/"%char) p
  then lex_parse_mask (str_tail p) t else (t, p).

(** ** Strings and identifiers *)

(** What is between the quotes and what follows them *)
Fixpoint string_extent (s : string) : option (string * string) :=
  match s with
  | EmptyString => None
  | String c s =>
      if Ascii.eqb c dquote then Some (EmptyString, s)
      else if Ascii.eqb c backslash then
        match s with
        | EmptyString => None
        | String d s => '(t, r) ← string_extent s; Some (String c (String d t), r)
        end
      else '(t, r) ← string_extent s; Some (String c t, r)
  end.

(** [s] is what follows the opening quote; [None] if the unescaping ran out of
    fuel, which it does not. *)
Definition lex_parse_string (s : string) : option (lex_token * string) :=
  match string_extent s with
  | None => Some (lex_error "Input ends inside quoted string.", EmptyString)
  | Some (text, rest) =>
      match json_string_unescape text with
      | None => None
      | Some (inl e) => Some (lex_error e, rest)
      | Some (inr t) =>
          Some (lex_token_init <| type := LEX_T_STRING |> <| str := Some (ds_cstr t) |>, rest)
      end
  end.

Definition lex_is_id1 (c : ascii) : bool :=
  isalpha c || Ascii.eqb c "_"%char || Ascii.eqb c "."%char.
Definition lex_is_idn (c : ascii) : bool := lex_is_id1 c || isdigit c.

Definition lex_parse_id (c : ascii) (s : string) (t : lex_type) : lex_token * string :=
  let '(text, rest) := span lex_is_idn s in
  (lex_token_init <| type := t |> <| str := Some (String c text) |>, rest).

(** [lex_parse_addr_set], [lex_parse_port_group] and [lex_parse_template], after
    the character [c] *)
Definition lex_parse_prefixed (c : ascii) (t : lex_type) (s : string) : lex_token * string :=
  match s with
  | String d rest =>
      if lex_is_id1 d then lex_parse_id d rest t
      else (lex_error (String "`" (String c "' must be followed by a valid identifier.")), s)
  | EmptyString =>
      (lex_error (String "`" (String c "' must be followed by a valid identifier.")), s)
  end.

(** ** One token *)

(** Two characters that may or may not be one token *)
Definition either (d : ascii) (yes no : lex_token) (s : string) : lex_token * string :=
  if first_is (Ascii.eqb d) s then (yes, str_tail s) else (no, s).

Definition only (two : string) (one : string) : lex_token :=
  lex_error ("`" +:+ one +:+ "' is only valid as part of `" +:+ two +:+ "'.").

Definition is_hexit (c : ascii) : bool := (0 <=? hexit_value c)%Z.

(** The token that starts with [c], which is neither white space nor [/] *)
Definition lex_token_here (c : ascii) (s : string) : option (lex_token * string) :=
  let p := String c s in
  if Ascii.eqb c "("%char then Some (bare LEX_T_LPAREN, s)
  else if Ascii.eqb c ")"%char then Some (bare LEX_T_RPAREN, s)
  else if Ascii.eqb c "{"%char then Some (bare LEX_T_LCURLY, s)
  else if Ascii.eqb c "}"%char then Some (bare LEX_T_RCURLY, s)
  else if Ascii.eqb c "["%char then Some (bare LEX_T_LSQUARE, s)
  else if Ascii.eqb c "]"%char then Some (bare LEX_T_RSQUARE, s)
  else if Ascii.eqb c "="%char then Some (either "=" (bare LEX_T_EQ) (bare LEX_T_EQUALS) s)
  else if Ascii.eqb c "!"%char then Some (either "=" (bare LEX_T_NE) (bare LEX_T_LOG_NOT) s)
  else if Ascii.eqb c "&"%char then Some (either "&" (bare LEX_T_LOG_AND) (only "&&" "&") s)
  else if Ascii.eqb c "|"%char then Some (either "|" (bare LEX_T_LOG_OR) (only "||" "|") s)
  else if Ascii.eqb c "<"%char then
    Some (if first_is (Ascii.eqb "="%char) s then (bare LEX_T_LE, str_tail s)
          else if first_is (Ascii.eqb "-"%char) s && first_is (Ascii.eqb ">"%char) (str_tail s)
          then (bare LEX_T_EXCHANGE, str_tail (str_tail s))
          else (bare LEX_T_LT, s))
  else if Ascii.eqb c ">"%char then Some (either "=" (bare LEX_T_GE) (bare LEX_T_GT) s)
  else if Ascii.eqb c "."%char then
    Some (either "." (bare LEX_T_ELLIPSIS)
            (lex_error "`.' is only valid as part of `..' or a number.") s)
  else if Ascii.eqb c ","%char then Some (bare LEX_T_COMMA, s)
  else if Ascii.eqb c ";"%char then Some (bare LEX_T_SEMICOLON, s)
  else if Ascii.eqb c "-"%char then
    Some (either "-" (bare LEX_T_DECREMENT) (bare LEX_T_HYPHEN) s)
  else if Ascii.eqb c "$"%char then Some (lex_parse_prefixed c LEX_T_MACRO s)
  else if Ascii.eqb c "@"%char then Some (lex_parse_prefixed c LEX_T_PORT_GROUP s)
  else if Ascii.eqb c "^"%char then Some (lex_parse_prefixed c LEX_T_TEMPLATE s)
  else if Ascii.eqb c ":"%char then
    if negb (first_is (Ascii.eqb ":"%char) s) then Some (bare LEX_T_COLON, s)
    else Some (lex_parse_integer p)
  else if isdigit c then Some (lex_parse_integer p)
  else if Ascii.eqb c dquote then lex_parse_string s
  else if is_hexit c then
    Some (if first_is (Ascii.eqb ":"%char) (snd (span is_hexit p))
          then lex_parse_integer p else lex_parse_id c s LEX_T_ID)
  else if lex_is_id1 c then Some (lex_parse_id c s LEX_T_ID)
  else
    let signed := if (128 <=? code c)%Z then code c - 256 else code c in
    Some (lex_error (if isprint c then "Invalid character `" +:+ String c "' in input."
                     else "Invalid byte 0x" +:+ str_int signed +:+ " in input."), s).

(** The end of a comment in one line; [inl] where it has none *)
Fixpoint skip_comment (s : string) : string + string :=
  match s with
  | EmptyString => inl s
  | String c rest =>
      if Ascii.eqb c "*"%char && first_is (Ascii.eqb "/"%char) rest then inr (str_tail rest)
      else if Ascii.eqb c newline then inl s
      else skip_comment rest
  end.

(** The token, the input from its start and the input after it; every iteration
    of the loop takes a character, so that the length of the input is fuel
    enough. *)
Fixpoint lex_next (fuel : nat) (p : string) : option (lex_token * string * string) :=
  match fuel with
  | O => None
  | S fuel =>
      match p with
      | EmptyString => Some (lex_token_init, p, p)
      | String c s =>
          if isspace c then lex_next fuel s
          else if Ascii.eqb c "/"%char then
            if first_is (Ascii.eqb "/"%char) s
            then lex_next fuel (snd (span (fun d => negb (Ascii.eqb d newline)) (str_tail s)))
            else if first_is (Ascii.eqb "*"%char) s then
              match skip_comment (str_tail s) with
              | inr s => lex_next fuel s
              | inl s => Some (lex_error "`/*' without matching `*/'.", p, s)
              end
            else Some (lex_error "`/' is only valid as part of `//' or `/*'.", p, s)
          else '(t, rest) ← lex_token_here c s; Some (t, p, rest)
      end
  end.

Definition lex_token_parse (p : string) : option (lex_token * string * string) :=
  lex_next (S (String.length p)) p.

(** ** The lexer *)

Record lexer := Lexer {
  input : string;
  start : option string;
  token : lex_token;
  lex_err : option string;
}.

#[export] Instance rebuild_lexer : Rebuild lexer := fun l =>
  Lexer (input l) (start l) (token l) (lex_err l).

Definition lexer_init (input : string) : lexer :=
  Lexer (ds_cstr input) None lex_token_init None.

Definition lexer_get (l : lexer) : option lexer :=
  '(t, st, rest) ← lex_token_parse (input l);
  Some (l <| token := t |> <| start := Some st |> <| input := rest |>).

Definition lexer_lookahead (l : lexer) : option lex_type :=
  '(t, _, _) ← lex_token_parse (input l); Some (type t).

Definition lexer_match (t : lex_type) (l : lexer) : option (bool * lexer) :=
  if bool_decide (type (token l) = t) then pair true <$> lexer_get l else Some (false, l).

Definition lexer_match_id (id : string) (l : lexer) : option (bool * lexer) :=
  if bool_decide (type (token l) = LEX_T_ID) && bool_decide (str (token l) = Some id)
  then pair true <$> lexer_get l else Some (false, l).

Definition lexer_match_string (s : string) (l : lexer) : option (bool * lexer) :=
  if bool_decide (type (token l) = LEX_T_STRING) && bool_decide (str (token l) = Some s)
  then pair true <$> lexer_get l else Some (false, l).

Definition lexer_is_int (l : lexer) : bool :=
  bool_decide (type (token l) = LEX_T_INTEGER) &&
  bool_decide (format (token l) = LEX_F_DECIMAL) &&
  (value (token l) mod 2 ^ 64 <=? INT_MAX)%Z.

(** Whether there was an integer, and its value *)
Definition lexer_get_int (l : lexer) : option (bool * Z * lexer) :=
  if lexer_is_int l then pair (true, value (token l) mod 2 ^ 64) <$> lexer_get l
  else Some (false, 0, l).

(** The error that is kept: the first one, and that of the lexer before others *)
Definition lexer_error (message : string) (l : lexer) : lexer :=
  match lex_err l with
  | Some _ => l
  | None =>
      if bool_decide (type (token l) = LEX_T_ERROR) then l <| lex_err := str (token l) |>
      else l <| lex_err := Some message |>
  end.

(** [%.*s] of the text from [start] to [input] *)
Definition token_text (start input : string) : string :=
  String.substring 0 (String.length start - String.length input) start.

Definition lexer_syntax_error (message : option string) (l : lexer) : lexer :=
  let place :=
    if bool_decide (type (token l) = LEX_T_END) then " at end of input"
    else match start l with
         | Some st => " at `" +:+ token_text st (input l) +:+ "'"
         | None => EmptyString
         end in
  lexer_error ("Syntax error" +:+ place +:+
               match message with Some m => " " +:+ m | None => EmptyString end +:+ ".") l.

Definition lexer_force_int (l : lexer) : option (bool * Z * lexer) :=
  '(ok, v, l) ← lexer_get_int l;
  Some (ok, v, if ok : bool then l else lexer_syntax_error (Some "expecting small integer") l).

Definition lexer_force_end (l : lexer) : bool * lexer :=
  if bool_decide (type (token l) = LEX_T_END) then (true, l)
  else (false, lexer_syntax_error (Some "expecting end of input") l).

Definition lexer_force_match (t : lex_type) (l : lexer) : option (bool * lexer) :=
  if bool_decide (t = LEX_T_END) then Some (lexer_force_end l)
  else
    '(ok, l) ← lexer_match t l;
    if ok : bool then Some (true, l)
    else
      text ← lex_token_format (bare t);
      Some (false, lexer_syntax_error (Some ("expecting `" +:+ text +:+ "'")) l).

Definition lexer_steal_error (l : lexer) : option string * lexer :=
  (lex_err l, l <| lex_err := None |>).

(** *** Templates *)

(** The tokens of an input, [LEX_T_END] not included *)
Fixpoint lex_tokens (fuel : nat) (p : string) : option (list lex_token) :=
  match fuel with
  | O => None
  | S fuel =>
      '(t, _, rest) ← lex_token_parse p;
      if bool_decide (type t = LEX_T_END) then Some []
      else ts ← lex_tokens fuel rest; Some (t :: ts)
  end.

Definition tokens (p : string) : option (list lex_token) :=
  lex_tokens (S (String.length p)) p.

(** [None] where the code would follow a null pointer; otherwise whether all
    templates were found, the expansion and the names that were looked up.  After
    a template that is missing the rest of the input is only read. *)
Fixpoint expand (vars : string -> option string) (ok : bool) (expanded : string)
    (refs : list string) (ts : list lex_token) : option (bool * string * list string) :=
  match ts with
  | [] => Some (ok, expanded, refs)
  | t :: ts =>
      if negb ok then expand vars ok expanded refs ts
      else if bool_decide (type t = LEX_T_TEMPLATE) then
        name ← str t;
        match vars name with
        | Some v => expand vars true (expanded +:+ v) (refs ++ [name]) ts
        | None => expand vars false expanded (refs ++ [name]) ts
        end
      else text ← lex_token_format t; expand vars ok (expanded +:+ text) refs ts
  end.

Definition lexer_parse_template_string (s : string) (vars : string -> option string) :
    option (bool * string * list string) :=
  let s := ds_cstr s in
  if negb (has_char "^"%char s) then Some (true, s, [])
  else
    ts ← tokens s;
    '(ok, expanded, refs) ← expand vars true EmptyString [] ts;
    Some (ok, if ok : bool then expanded else EmptyString, refs).

End Lex.
End OvnLex.
