(* ===== verification/OvnLexNumbers.v ===== *)
(** * Numbers and addresses in the lexer of OVN

    The text that a number or an address is formatted to is read back to its value
    by [lex_parse_integer__] and, with a mask, by [lex_parse_mask]. *)

From stdpp Require Import base option list strings.
From Stdlib Require Import ZArith Lia Ascii.
From S2P Require Import Prelude Strings CString Binary64 OvsJson OvnLex.

Local Open Scope Z_scope.
Local Open Scope string_scope.

Module OvnLexNumbers.
Import OvsJson OvnLex.

#[local] Arguments Ascii.eqb : simpl never.

(** ** Texts *)

(** What may follow a number so that it ends there *)
Definition stops (rest : string) : Prop :=
  rest = EmptyString \/ exists c r, rest = String c r /\ (isspace c = true \/ c = "/"%char).

(** A text that [integer_extent] takes as a whole *)
Fixpoint extent_ok (saw_dot : bool) (s : string) : bool :=
  match s with
  | EmptyString => true
  | String c rest =>
      (isalnum c || Ascii.eqb c ":"%char && negb saw_dot
       || Ascii.eqb c "."%char && negb (first_is (Ascii.eqb "."%char) rest))
      && extent_ok (saw_dot || Ascii.eqb c "."%char) rest
  end.

Fixpoint colons (s : string) : nat :=
  match s with
  | EmptyString => 0
  | String c rest => (if Ascii.eqb c ":"%char then 1 else 0) + colons rest
  end.

Fixpoint double_colon (s : string) : bool :=
  match s with
  | EmptyString => false
  | String c rest =>
      Ascii.eqb c ":"%char && first_is (Ascii.eqb ":"%char) rest || double_colon rest
  end.

(** What the development relies on of [inet_pton] and [inet_ntop]: addresses have
    their width, dotted decimals are IPv4 addresses, and the text of an IPv6
    address is of hexadecimal digits, colons and, at its end, dots, fits its buffer,
    starts with digits and a colon or with two colons, has two colons in a row or
    more than five of them, and is read back as the address and not as an IPv4
    address. *)
Class InetLaws {HI : Inet} := {
  inet_pton4_range s a : inet_pton4 s = Some a -> 0 <= a < 2 ^ 32;
  inet_pton6_range s a : inet_pton6 s = Some a -> 0 <= a < 2 ^ 128;
  inet_pton4_text a : 0 <= a < 2 ^ 32 -> inet_pton4 (ip_text a) = Some a;
  inet_ntop6_read a : 0 <= a < 2 ^ 128 ->
    inet_pton6 (inet_ntop6 a) = Some a /\ inet_pton4 (inet_ntop6 a) = None;
  inet_ntop6_text a : 0 <= a < 2 ^ 128 ->
    extent_ok false (inet_ntop6 a) = true /\
    str_all (fun c => is_hexit c || Ascii.eqb c ":"%char || Ascii.eqb c "."%char)
      (inet_ntop6 a) = true /\
    first_is (Ascii.eqb ":"%char) (snd (span is_hexit (inet_ntop6 a))) = true /\
    (first_is (Ascii.eqb ":"%char) (inet_ntop6 a) = true ->
     first_is (Ascii.eqb ":"%char) (str_tail (inet_ntop6 a)) = true) /\
    (double_colon (inet_ntop6 a) = true \/ 6 <= Z.of_nat (colons (inet_ntop6 a))) /\
    (String.length (inet_ntop6 a) < INET6_ADDRSTRLEN)%nat;
}.

Lemma stops_first f rest :
  stops rest -> f "/"%char = false -> (forall c, isspace c = true -> f c = false) ->
  first_is f rest = false.
Proof. intros [-> | (c & r & -> & [Hc | ->])] Hf Hs; cbn; auto. Qed.

Lemma isspace_cases c :
  isspace c = true ->
  c = " "%char \/ c = chr 9 \/ c = chr 10 \/ c = chr 11 \/ c = chr 12 \/ c = chr 13.
Proof. destruct c as [[] [] [] [] [] [] [] []]; intros H; try discriminate; tauto. Qed.

(** [stops_first] where [f] is a test of characters *)
Ltac stops_tac Hs :=
  apply (stops_first _ _ Hs);
  [reflexivity | intros ? Hsp%isspace_cases; repeat destruct Hsp as [-> | Hsp]; by subst].

Lemma integer_extent_take text saw rest :
  extent_ok saw text = true -> stops rest ->
  integer_extent saw (text +:+ rest) = (text, rest).
Proof.
  intros H Hs. revert saw H. induction text as [| c text IH]; intros saw H.
  - rewrite app_empty_str. destruct rest as [| c r]; [done |]. cbn [integer_extent].
    replace (isalnum c || _ || _) with false; [done |]. symmetry.
    pose proof (stops_first (fun c => isalnum c || Ascii.eqb c ":"%char || Ascii.eqb c "."%char)
      (String c r) Hs eq_refl) as Hf.
    cbn [first_is] in Hf. apply orb_false_iff in Hf as [[Hf1 Hf2]%orb_false_iff Hf3].
    + by rewrite Hf1, Hf2, Hf3.
    + intros d Hd%isspace_cases. repeat destruct Hd as [-> | Hd]; by subst.
  - cbn [extent_ok] in H. apply andb_true_iff in H as [Hc Ht].
    rewrite app_cons_str. cbn [integer_extent].
    replace (first_is (Ascii.eqb "."%char) (text +:+ rest))
      with (first_is (Ascii.eqb "."%char) text).
    + rewrite Hc, (IH _ Ht). done.
    + destruct text; [| done]. rewrite app_empty_str. cbn [first_is]. symmetry.
      stops_tac Hs.
Qed.

(** ** Ethernet addresses *)

Lemma span_app f s : s = fst (span f s) +:+ snd (span f s).
Proof.
  induction s as [| c s IH]; [done |]. cbn [span]. destruct (f c); [| done].
  destruct (span f s) as [t r]. cbn in *. by rewrite app_cons_str, <- IH.
Qed.

Lemma span_all f s : str_all f (fst (span f s)) = true.
Proof.
  induction s as [| c s IH]; [done |]. cbn [span]. destruct (f c) eqn:Hc; [| done].
  destruct (span f s) as [t r]. cbn in *. by rewrite Hc.
Qed.

Lemma span_rest f s : first_is f (snd (span f s)) = false.
Proof.
  induction s as [| c s IH]; [done |]. cbn [span]. destruct (f c) eqn:Hc; [| done].
  by destruct (span f s) as [t r].
Qed.

Lemma span_take f t rest :
  str_all f t = true -> first_is f rest = false -> span f (t +:+ rest) = (t, rest).
Proof.
  induction t as [| c t IH]; intros Ht Hr.
  - rewrite app_empty_str. destruct rest as [| c r]; [done |]. cbn in Hr |- *. by rewrite Hr.
  - apply andb_true_iff in Ht as [Hc Ht]. rewrite app_cons_str. cbn [span].
    by rewrite Hc, (IH Ht Hr).
Qed.

Lemma colons_app s t : colons (s +:+ t) = (colons s + colons t)%nat.
Proof. induction s as [| c s IH]; [done |]. rewrite app_cons_str. cbn. rewrite IH. lia. Qed.

(** A word without colons *)
Definition no_colon (s : string) : bool := str_all (fun c => negb (Ascii.eqb c ":"%char)) s.

Lemma no_colon_colons s : no_colon s = true -> colons s = 0%nat /\ double_colon s = false.
Proof.
  induction s as [| c s IH]; [done |]. intros [Hc Hs]%andb_true_iff.
  apply negb_true_iff in Hc. destruct (IH Hs) as [H1 H2]. cbn. rewrite Hc, H1, H2. done.
Qed.

Lemma no_colon_double s t : no_colon s = true -> double_colon (s +:+ t) = double_colon t.
Proof.
  induction s as [| c s IH]; [done |]. intros [Hc Hs]%andb_true_iff.
  apply negb_true_iff in Hc. rewrite app_cons_str. cbn [double_colon]. by rewrite Hc, IH.
Qed.

Lemma scan_digits_app v n s :
  exists t, s = t +:+ (scan_digits v n s).2 /\ no_colon t = true /\
    (scan_digits v n s).1.2 = (n + String.length t)%nat.
Proof.
  revert v n. induction s as [| c s IH]; intros v n; cbn [scan_digits].
  { exists EmptyString. split; [done |]. split; [done |]. cbn. lia. }
  destruct (_ || _) eqn:Hc.
  { exists EmptyString. split; [done |]. split; [done |]. cbn. lia. }
  destruct (IH (u64 (v * 16 + hexit_value c)) (S n)) as (t & Ht & Hn & Hl).
  exists (String c t). rewrite app_cons_str, <- Ht. split; [done |].
  split; [| rewrite Hl; cbn; lia]. cbn. fold (no_colon t). rewrite Hn, andb_true_r.
  destruct (Ascii.eqb_spec c ":"%char) as [-> |]; [done | done].
Qed.

Lemma str_tail_app f s :
  first_is f s = true -> exists c, s = String c EmptyString +:+ str_tail s /\ f c = true.
Proof. destruct s as [| c s]; [done |]. cbn. by exists c. Qed.

Lemma no_colon_app s t : no_colon (s +:+ t) = no_colon s && no_colon t.
Proof. apply str_all_app. Qed.

Lemma after_sign_app s : exists t, s = t +:+ after_sign s /\ no_colon t = true.
Proof.
  unfold after_sign. destruct (first_is _ s) eqn:Hf; [| by exists EmptyString].
  destruct (str_tail_app _ s Hf) as (c & Hs & Hc). exists (String c EmptyString).
  split; [done |]. destruct c as [[] [] [] [] [] [] [] []]; done.
Qed.

Lemma after_0x_app s : exists t, s = t +:+ after_0x s /\ no_colon t = true.
Proof.
  unfold after_0x. destruct (_ && _) eqn:Hf; [| by exists EmptyString].
  apply andb_true_iff in Hf as [H0 Hx].
  destruct s as [| c [| d s]]; try done. exists (String c (String d EmptyString)).
  split; [done |]. cbn [first_is str_tail] in H0, Hx. apply Ascii.eqb_eq in H0. subst c.
  destruct d as [[] [] [] [] [] [] [] []]; done.
Qed.

Lemma scan_int_app s b r :
  scan_int s = Some (b, r) ->
  exists t, s = t +:+ r /\ no_colon t = true /\ t <> EmptyString /\ 0 <= b < 256.
Proof.
  unfold scan_int. destruct (after_sign_app s) as (t1 & Hs1 & H1).
  destruct (after_0x_app (after_sign s)) as (t2 & Hs2 & H2).
  destruct (scan_digits_app 0 0 (after_0x (after_sign s))) as (t3 & Hs3 & H3 & Hn).
  destruct (scan_digits 0 0 (after_0x (after_sign s))) as [[v n] r']. cbn in Hs3, Hn. cbn zeta.
  destruct (Nat.eqb_spec n 0) as [| Hne]; [done |]. intros [= <- <-].
  exists (t1 +:+ t2 +:+ t3). rewrite !app_assoc_str, <- Hs3, <- Hs2, <- Hs1.
  split; [done |]. split; [by rewrite !no_colon_app, H1, H2, H3 |].
  split; [| apply Z.mod_pos_bound; lia].
  intros Ht. apply Hne. rewrite Hn. destruct t1, t2, t3; done.
Qed.

Lemma no_colon_first t rest :
  no_colon t = true -> t <> EmptyString -> first_is (Ascii.eqb ":"%char) (t +:+ rest) = false.
Proof.
  destruct t as [| c t]; [done |]. intros [Hc _]%andb_true_iff _. rewrite app_cons_str. cbn [first_is].
  apply negb_true_iff in Hc. by rewrite Ascii.eqb_sym.
Qed.

(** What an Ethernet address was read from *)
Lemma scan_mac_app n mac s m r :
  scan_mac (S n) mac s = Some (m, r) ->
  exists t, s = t +:+ r /\ colons t = n /\ double_colon t = false /\
    forall rest, first_is (Ascii.eqb ":"%char) (t +:+ rest) = false.
Proof.
  revert mac s. induction n as [| n IH]; intros mac s H; cbn [scan_mac] in H;
    pose proof (span_app isspace s) as Hsp; pose proof (span_all isspace s) as Hall;
    destruct (span isspace s) as [sp s1]; cbn [fst snd] in *;
    destruct (scan_int s1) as [[b s2] |] eqn:Hi; try done; cbn [mbind option_bind] in H;
    apply scan_int_app in Hi as (t & -> & Hn & Hne & _).
  - injection H as <- <-. exists (sp +:+ t). rewrite app_assoc_str. split; [done |].
    assert (no_colon (sp +:+ t) = true) as Hst.
    { rewrite no_colon_app, Hn, andb_true_r. apply (str_all_impl isspace); [| done].
      intros c Hc%isspace_cases. repeat destruct Hc as [-> | Hc]; by subst. }
    destruct (no_colon_colons _ Hst) as [-> ->]. split; [done |]. split; [done |].
    intros rest. apply no_colon_first; [done |]. by destruct sp.
  - destruct (first_is (Ascii.eqb ":"%char) s2) eqn:Hc; [| done].
    destruct (str_tail_app _ s2 Hc) as (c & Hs2 & Hcc). apply Ascii.eqb_eq in Hcc. subst c.
    apply IH in H as (t' & Ht' & Hcol & Hdc & Hf).
    exists (sp +:+ t +:+ ":" +:+ t'). rewrite !app_assoc_str.
    rewrite Hs2, Ht' in Hsp. split; [done |].
    assert (no_colon (sp +:+ t) = true) as Hst.
    { rewrite no_colon_app, Hn, andb_true_r. apply (str_all_impl isspace); [| done].
      intros d Hd%isspace_cases. repeat destruct Hd as [-> | Hd]; by subst. }
    rewrite <- (app_assoc_str sp t). destruct (no_colon_colons _ Hst) as [Hk1 Hk2].
    split; [| split].
    + rewrite colons_app, Hk1. change (colons (":" +:+ t')) with (S (colons t')). lia.
    + rewrite no_colon_double by done.
      change (double_colon (":" +:+ t')) with
        (first_is (Ascii.eqb ":"%char) t' || double_colon t').
      specialize (Hf EmptyString). rewrite app_nil_str in Hf. by rewrite Hf, Hdc.
    + intros rest. rewrite app_assoc_str. apply no_colon_first; [done |]. by destruct sp.
Qed.

Lemma app_inj_length (a b c d : string) :
  a +:+ b = c +:+ d -> String.length a = String.length c -> a = c /\ b = d.
Proof.
  revert c. induction a as [| x a IH]; intros [| y c]; cbn; try done.
  rewrite !app_cons_str. intros [= -> H] [= Hl]. destruct (IH c H Hl) as [-> ->]. done.
Qed.

(** The part of [lex_parse_integer__] that looks for an Ethernet address *)
Definition mac_of (p text : string) : option Z :=
  if (String.length text =? 17)%nat then
    match scan_mac 6 0 p with
    | Some (mac, rest) =>
        if (String.length p - String.length rest =? String.length text)%nat then Some mac
        else None
    | None => None
    end
  else None.

Lemma not_mac text rest :
  colons text <> 5%nat \/ double_colon text = true -> mac_of (text +:+ rest) text = None.
Proof.
  intros Hno. unfold mac_of. destruct (_ =? 17)%nat; [| done].
  destruct (scan_mac 6 0 (text +:+ rest)) as [[m r] |] eqn:Hm; [| done].
  destruct (Nat.eqb_spec (String.length (text +:+ rest) - String.length r)
    (String.length text)) as [Hl |]; [exfalso | done].
  apply scan_mac_app in Hm as (t & Ht & Hc & Hd & _).
  assert (text = t) as ->.
  { apply (app_inj_length text rest t r Ht). rewrite Ht, string_length_app in Hl. lia. }
  destruct Hno; congruence.
Qed.

(** *** Two digits *)

Lemma hexit_facts c :
  is_hexit c = true ->
  isalnum c = true /\ isspace c = false /\ 0 <= hexit_value c < 16 /\
  Ascii.eqb c "-"%char || Ascii.eqb c "+"%char = false /\ Ascii.eqb "-"%char c = false /\
  Ascii.eqb c "x"%char || Ascii.eqb c "X"%char = false /\
  Ascii.eqb c ":"%char = false /\ Ascii.eqb c "."%char = false.
Proof.
  destruct c as [[] [] [] [] [] [] [] []]; intros H; try discriminate H;
    repeat split; vm_compute; done.
Qed.

Lemma scan_digits_stop v n s :
  first_is is_hexit s = false -> scan_digits v n s = (v, n, s).
Proof.
  destruct s as [| c s]; [done |]. cbn [first_is scan_digits]. unfold is_hexit.
  intros H. apply Z.leb_gt in H. by rewrite (proj2 (Z.ltb_lt _ _) H).
Qed.

Lemma scan_digits_step v n c s :
  is_hexit c = true ->
  scan_digits v n (String c s) = scan_digits (u64 (v * 16 + hexit_value c)) (S n) s.
Proof.
  intros Hc. destruct (hexit_facts c Hc) as (_ & _ & Hv & _). cbn [scan_digits].
  by rewrite (proj2 (Z.ltb_ge _ _)), (proj2 (Z.leb_gt _ _)) by lia.
Qed.

Lemma scan_int_pair a b rest :
  is_hexit a = true -> is_hexit b = true -> first_is is_hexit rest = false ->
  scan_int (String a (String b rest)) = Some (hexit_value a * 16 + hexit_value b, rest).
Proof.
  intros Ha Hb Hr.
  destruct (hexit_facts a Ha) as (_ & _ & Hva & Hs1 & Hs2 & _).
  destruct (hexit_facts b Hb) as (_ & _ & Hvb & _ & _ & Hx & _).
  unfold scan_int, after_sign, after_0x. cbn [first_is str_tail]. rewrite Hs1, Hs2.
  cbn [first_is str_tail]. rewrite Hx, andb_false_r.
  rewrite !scan_digits_step, scan_digits_stop by done. cbn [Nat.eqb].
  unfold u64, u8. rewrite (Z.mod_small (0 * 16 + _)) by lia.
  rewrite (Z.mod_small (_ * 16 + _)) by lia. rewrite Z.mod_small by lia.
  do 2 f_equal.
Qed.

Lemma lower_hexit_facts d :
  0 <= d < 16 -> is_hexit (lower_hexit d) = true /\ hexit_value (lower_hexit d) = d.
Proof.
  intros H. assert (d = 0 \/ d = 1 \/ d = 2 \/ d = 3 \/ d = 4 \/ d = 5 \/ d = 6 \/ d = 7 \/
    d = 8 \/ d = 9 \/ d = 10 \/ d = 11 \/ d = 12 \/ d = 13 \/ d = 14 \/ d = 15) as Hd by lia.
  repeat destruct Hd as [-> | Hd]; [done..|]. by subst.
Qed.

Lemma scan_int_hex2 b rest :
  0 <= b < 256 -> first_is is_hexit rest = false -> scan_int (hex2 b +:+ rest) = Some (b, rest).
Proof.
  intros Hb Hr. unfold hex2. str_simpl.
  destruct (lower_hexit_facts (b / 16)) as [H1 V1]; [split; [apply Z.div_pos | apply Z.div_lt_upper_bound]; lia |].
  destruct (lower_hexit_facts (b mod 16)) as [H2 V2]; [apply Z.mod_pos_bound; lia |].
  rewrite scan_int_pair, V1, V2 by done. do 2 f_equal. pose proof (Z.div_mod b 16). lia.
Qed.

(** *** Bytes *)

Lemma byte_range v i : 0 <= byte v i < 256.
Proof.
  unfold byte. change 255 with (Z.ones 8). rewrite Z.land_ones by lia.
  apply Z.mod_pos_bound. lia.
Qed.

Lemma byte_div v i : byte v i = (v / 256 ^ Z.of_nat i) mod 256.
Proof.
  unfold byte. change 255 with (Z.ones 8). rewrite Z.land_ones, Z.shiftr_div_pow2 by lia.
  replace (2 ^ (8 * Z.of_nat i)) with (256 ^ Z.of_nat i); [done |].
  rewrite Z.pow_mul_r by lia. done.
Qed.

Lemma be_bytes_value n v acc :
  foldl (fun acc b => acc * 256 + b) acc (be_bytes n v) =
  acc * 256 ^ Z.of_nat n + v mod 256 ^ Z.of_nat n.
Proof.
  revert acc. induction n as [| n IH]; intros acc; cbn [be_bytes foldl].
  { rewrite Z.pow_0_r, Z.mod_1_r. lia. }
  rewrite IH, byte_div, Nat2Z.inj_succ, Z.pow_succ_r by lia.
  rewrite (Z.mul_comm 256), Z.rem_mul_r by lia. lia.
Qed.

Lemma of_be_bytes_be_bytes n v :
  0 <= v < 256 ^ Z.of_nat n -> of_be_bytes (be_bytes n v) = v.
Proof. intros H. unfold of_be_bytes. rewrite be_bytes_value, Z.mod_small by done. lia. Qed.

Lemma span_stop f s : first_is f s = false -> snd (span f s) = s.
Proof. destruct s as [| c s]; [done |]. cbn. intros H. by rewrite H. Qed.

Lemma hex2_first b rest :
  0 <= b < 256 -> first_is is_hexit (hex2 b +:+ rest) = true /\
  first_is isspace (hex2 b +:+ rest) = false.
Proof.
  intros Hb. unfold hex2. str_simpl. cbn [first_is].
  destruct (lower_hexit_facts (b / 16)) as [H1 _];
    [split; [apply Z.div_pos | apply Z.div_lt_upper_bound]; lia |].
  destruct (hexit_facts _ H1) as (_ & H2 & _). done.
Qed.

Lemma scan_mac_next n mac b rest :
  0 <= b < 256 ->
  scan_mac (S (S n)) mac (hex2 b +:+ String ":" rest) = scan_mac (S n) (mac * 256 + b) rest.
Proof.
  intros Hb. cbn [scan_mac]. rewrite span_stop by (by apply hex2_first).
  rewrite scan_int_hex2 by done. done.
Qed.

Lemma scan_mac_last mac b rest :
  0 <= b < 256 -> first_is is_hexit rest = false ->
  scan_mac 1 mac (hex2 b +:+ rest) = Some (mac * 256 + b, rest).
Proof.
  intros Hb Hr. cbn [scan_mac]. rewrite span_stop by (by apply hex2_first).
  by rewrite scan_int_hex2.
Qed.

Lemma scan_mac_text v rest :
  0 <= v < 2 ^ 48 -> first_is is_hexit rest = false ->
  scan_mac 6 0 (eth_text v +:+ rest) = Some (v, rest).
Proof.
  intros Hv Hr. unfold eth_text. str_simpl.
  rewrite !scan_mac_next, scan_mac_last by (apply byte_range || done).
  do 2 f_equal. exact (of_be_bytes_be_bytes 6 v Hv).
Qed.

Lemma eth_text_mac v rest :
  0 <= v < 2 ^ 48 -> stops rest -> mac_of (eth_text v +:+ rest) (eth_text v) = Some v.
Proof.
  intros Hv Hs. unfold mac_of. change (String.length (eth_text v) =? 17)%nat with true.
  cbv iota. rewrite scan_mac_text by (done || stops_tac Hs).
  rewrite string_length_app, Nat.add_sub, Nat.eqb_refl. done.
Qed.

(** *** The extent of texts *)

Lemma extent_ok_all saw s :
  str_all (fun c => isalnum c || negb saw && Ascii.eqb c ":"%char) s = true ->
  extent_ok saw s = true.
Proof.
  induction s as [| c s IH]; [done |]. intros [Hc Hs]%andb_true_iff. cbn [extent_ok].
  assert (Ascii.eqb c "."%char = false) as Hdot.
  { destruct (Ascii.eqb_spec c "."%char) as [-> |]; [by destruct saw | done]. }
  rewrite Hdot. cbn [andb]. rewrite !orb_false_r, IH by done.
  by rewrite andb_true_r, (andb_comm _ (negb saw)).
Qed.

Lemma hex2_all f b :
  (forall c, is_hexit c = true -> f c = true) -> 0 <= b < 256 -> str_all f (hex2 b) = true.
Proof.
  intros Hf Hb. unfold hex2. cbn [str_all].
  destruct (lower_hexit_facts (b / 16)) as [H1 _];
    [split; [apply Z.div_pos | apply Z.div_lt_upper_bound]; lia |].
  destruct (lower_hexit_facts (b mod 16)) as [H2 _]; [apply Z.mod_pos_bound; lia |].
  by rewrite !Hf.
Qed.

Lemma eth_text_extent v : extent_ok false (eth_text v) = true.
Proof.
  apply extent_ok_all. unfold eth_text. rewrite !str_all_app.
  rewrite !hex2_all; try apply byte_range; [done |..];
    intros c Hc; by destruct (hexit_facts c Hc) as [-> _].
Qed.

(** ** Numbers *)

Lemma span_stops f text rest :
  first_is f rest = false -> fst (span f (text +:+ rest)) = fst (span f text).
Proof.
  intros Hr. induction text as [| c text IH].
  - rewrite app_empty_str. destruct rest as [| c r]; [done |]. cbn in *. by rewrite Hr.
  - rewrite app_cons_str. cbn [span]. destruct (f c); [| done].
    destruct (span f (text +:+ rest)), (span f text). cbn in *. by rewrite IH.
Qed.

Lemma span_length f s :
  (String.length (fst (span f s)) =? String.length s)%nat = str_all f s.
Proof.
  pose proof (span_app f s) as Hs. pose proof (span_all f s) as Ha.
  pose proof (span_rest f s) as Hr. destruct (span f s) as [t r]. cbn in *. subst s.
  rewrite string_length_app, str_all_app, Ha. destruct r as [| c r].
  - rewrite Nat.add_0_r. by rewrite Nat.eqb_refl.
  - cbn in Hr |- *. rewrite Hr. cbn. apply Nat.eqb_neq. lia.
Qed.

Section Numbers.
Context {HI : Inet}.

(** The token of a number that is not an Ethernet address *)
Definition plain_number (p text : string) : lex_token :=
  let len := String.length text in
  let p0 := first_is (Ascii.eqb "0"%char) p in
  let p1 := first_is (fun c => Ascii.eqb c "x"%char || Ascii.eqb c "X"%char) (str_tail p) in
  if (String.length (fst (span isdigit p)) =? len)%nat then
    if p0 && (1 <? len)%nat then lex_error "Decimal constants must not have leading zeros."
    else
      match strtoull p with
      | Some v => integer_token LEX_F_DECIMAL v
      | None => lex_error "Decimal constants must be less than 2**64."
      end
  else if p0 && p1 then
    if (2 <? len)%nat then lex_parse_hex_integer (str_tail (str_tail text))
    else lex_error ("Hex digits expected following 0" +:+ String.substring 1 1 p +:+ ".")
  else if (len <? INET6_ADDRSTRLEN)%nat then
    match inet_pton4 text with
    | Some ip => integer_token LEX_F_IPV4 ip
    | None =>
        match inet_pton6 text with
        | Some ip => integer_token LEX_F_IPV6 ip
        | None => lex_error "Invalid numeric constant."
        end
    end
  else lex_error "Invalid numeric constant.".

Lemma lex_parse_integer_text text rest :
  text <> EmptyString -> extent_ok false text = true -> stops rest ->
  lex_parse_integer__ (text +:+ rest) =
    (match mac_of (text +:+ rest) text with
     | Some mac => integer_token LEX_F_ETHERNET mac
     | None => plain_number (text +:+ rest) text
     end, rest).
Proof.
  intros Hne Hok Hs. unfold lex_parse_integer__. rewrite integer_extent_take by done.
  destruct text as [| c text]; [done |]. reflexivity.
Qed.

(** *** Decimal *)

Lemma strtoull_from_digits u acc rest :
  first_is isdigit rest = false ->
  strtoull_from acc (digits u +:+ rest) = digits_value acc u.
Proof.
  intros Hr. remember (Decimal.nb_digits u) as n eqn:Hn. revert u Hn acc.
  induction n as [| n IH]; intros u Hn acc;
    destruct (digits_cons u) as [-> | (c & u' & -> & Hd & _ & Hv & _ & Hnb)]; try lia.
  - rewrite app_empty_str. destruct rest; [done |]. cbn in Hr |- *. by rewrite Hr.
  - done.
  - rewrite app_cons_str. cbn [strtoull_from]. rewrite Hd, IH, Hv by lia. done.
Qed.

Lemma digit_facts c :
  isdigit c = true -> isalnum c = true /\ Ascii.eqb c ":"%char = false /\
    Ascii.eqb c "."%char = false /\ is_hexit c = true /\
    Ascii.eqb c "x"%char || Ascii.eqb c "X"%char = false.
Proof.
  destruct c as [[] [] [] [] [] [] [] []]; intros H; try discriminate H; done.
Qed.

Lemma lex_decimal v rest :
  0 <= v < 2 ^ 64 -> stops rest ->
  lex_parse_integer__ (str_int v +:+ rest) = (integer_token LEX_F_DECIMAL v, rest).
Proof.
  intros Hv Hs. destruct (str_int_digits v ltac:(lia)) as (u & -> & Hu & Hval & Hlead).
  assert (str_all isdigit (digits u) = true) as Hall by (by apply digits_all).
  assert (digits u <> EmptyString) as Hne.
  { destruct (digits_cons u) as [| (c & u' & -> & _)]; done. }
  assert (first_is isdigit rest = false) as Hr by stops_tac Hs.
  rewrite lex_parse_integer_text; [| done | | done].
  2: { apply extent_ok_all. apply digits_all. intros c Hc.
       by destruct (digit_facts c Hc) as [-> _]. }
  rewrite not_mac.
  2: { left. replace (colons (digits u)) with 0%nat; [done |]. symmetry.
       apply no_colon_colons. apply digits_all. intros c Hc.
       by destruct (digit_facts c Hc) as (_ & -> & _). }
  unfold plain_number. rewrite span_stops, span_length, Hall by done.
  replace (first_is _ _ && _) with false.
  - unfold strtoull. rewrite strtoull_from_digits, Hval by done.
    rewrite (proj2 (Z.leb_le _ _)); [done |]. unfold ULLONG_MAX. lia.
  - symmetry. destruct (digits_cons u) as [| (c & u' & Ht & _ & _ & _ & [Hz _] & _)]; [done |].
    rewrite Ht, app_cons_str. cbn [first_is String.length].
    destruct (Ascii.eqb "0"%char c); [| done]. destruct (Hz eq_refl) as [w Hw].
    specialize (Hlead w Hw). subst w u. injection Ht as _ <-. done.
Qed.

(** *** Hexadecimal *)

Fixpoint hex_value (acc : Z) (s : string) : Z :=
  match s with
  | EmptyString => acc
  | String c s => hex_value (acc * 16 + hexit_value c) s
  end.

Lemma hex_value_app acc s t : hex_value acc (s +:+ t) = hex_value (hex_value acc s) t.
Proof. revert acc. induction s as [| c s IH]; intros acc; [done |]. apply IH. Qed.

Lemma lor_shiftl v h n :
  0 <= n -> 0 <= v < 2 ^ n -> 0 <= h -> Z.lor v (Z.shiftl h n) = v + h * 2 ^ n.
Proof.
  intros Hn Hv Hh. rewrite <- Z.shiftl_mul_pow2 by done.
  assert (Z.land v (Z.shiftl h n) = 0) as Hl.
  { apply Z.bits_inj'. intros i Hi. rewrite Z.land_spec, Z.bits_0.
    destruct (Z.lt_ge_cases i n) as [Hlt | Hge].
    - rewrite (Z.shiftl_spec_low h n i) by done. apply andb_false_r.
    - destruct (Z.eq_dec v 0) as [-> | Hne]; [by rewrite Z.bits_0 |].
      rewrite (Z.bits_above_log2 v i); [done | lia |].
      apply Z.log2_lt_pow2; [lia |].
      eapply Z.lt_le_trans; [apply Hv | by apply Z.pow_le_mono_r]. }
  pose proof (Z.add_lor_land v (Z.shiftl h n)). lia.
Qed.

(** From the last digit the same value is built. *)
Lemma hex_loop_value s i v :
  str_all is_hexit s = true -> 0 <= i -> i + Z.of_nat (String.length s) <= 256 ->
  0 <= v < 16 ^ i ->
  hex_loop i v (rev (String.list_ascii_of_string s)) = inr (v + hex_value 0 s * 16 ^ i).
Proof.
  assert (forall l i v,
    forallb is_hexit l = true -> 0 <= i -> i + Z.of_nat (length l) <= 256 -> 0 <= v < 16 ^ i ->
    hex_loop i v (rev l) = inr (v + foldl (fun acc c => acc * 16 + hexit_value c) 0 l * 16 ^ i)) as H.
  { clear. intros l. induction l as [| c l IH] using rev_ind; intros i v Hl Hi Hlen Hv.
    { cbn. f_equal. lia. }
    rewrite forallb_app in Hl. apply andb_true_iff in Hl as [Hl Hc]. cbn in Hc.
    rewrite andb_true_r in Hc. destruct (hexit_facts c Hc) as (_ & _ & Hval & _).
    rewrite length_app in Hlen. cbn in Hlen.
    rewrite rev_app_distr, foldl_app. cbn [rev app hex_loop foldl].
    rewrite (proj2 (Z.ltb_ge _ _)) by lia.
    rewrite (proj2 (Z.leb_gt 128 (i / 2))) by (apply Z.div_lt_upper_bound; lia).
    assert (Z.lor v (Z.shiftl (hexit_value c) (4 * i)) = v + hexit_value c * 16 ^ i) as Hlor.
    { rewrite lor_shiftl; [by rewrite (Z.pow_mul_r 2 4) by lia | lia | | lia].
      rewrite (Z.pow_mul_r 2 4) by lia. done. }
    assert (16 ^ (i + 1) = 16 * 16 ^ i) as Hpow by (rewrite Z.pow_add_r; lia).
    destruct (Z.eqb_spec (hexit_value c) 0) as [H0 | H0]; cbn [negb].
    - rewrite IH; [f_equal; rewrite Hpow, H0; ring | done | lia | lia | lia].
    - rewrite Hlor, IH; [f_equal; rewrite Hpow; ring | done | lia | lia |].
      rewrite Hpow. nia. }
  intros Hs Hi Hlen Hv. rewrite H; [| | done | | done].
  - do 3 f_equal. clear. generalize 0. induction s as [| c s IH]; intros acc; [done |]. apply IH.
  - clear -Hs. induction s as [| c s IH]; [done |]. cbn in *.
    apply andb_true_iff in Hs as [-> Hs]. by apply IH.
  - replace (length (String.list_ascii_of_string s)) with (String.length s); [done |].
    clear. induction s; cbn; [done |]. by f_equal.
Qed.

Lemma lex_parse_hex_integer_value s :
  str_all is_hexit s = true -> (String.length s <= 256)%nat ->
  lex_parse_hex_integer s = integer_token LEX_F_HEXADECIMAL (hex_value 0 s).
Proof.
  intros Hs Hl. unfold lex_parse_hex_integer. rewrite hex_loop_value; [| done | lia | lia | lia].
  by rewrite Z.mul_1_r.
Qed.

Lemma hex2_value acc b : 0 <= b < 256 -> hex_value acc (hex2 b) = acc * 256 + b.
Proof.
  intros Hb. unfold hex2. cbn [hex_value].
  destruct (lower_hexit_facts (b / 16)) as [_ ->];
    [split; [apply Z.div_pos | apply Z.div_lt_upper_bound]; lia |].
  destruct (lower_hexit_facts (b mod 16)) as [_ ->]; [apply Z.mod_pos_bound; lia |].
  pose proof (Z.div_mod b 16). lia.
Qed.

Lemma hex1_facts b :
  0 < b < 256 -> hex_value 0 (hex1 b) = b /\ str_all is_hexit (hex1 b) = true /\
    (0 < String.length (hex1 b) <= 2)%nat.
Proof.
  intros Hb. unfold hex1. destruct (Z.ltb_spec b 16).
  - destruct (lower_hexit_facts b) as [H1 H2]; [lia |]. cbn. rewrite H1, H2. split; [lia | split; [done | lia]].
  - rewrite hex2_value, hex2_all by (done || lia). split; [lia |]. split; [done |]. cbn. lia.
Qed.

Definition is_byte (b : Z) : Prop := 0 <= b < 256.

Lemma ds_put_hex_printed bytes acc :
  Forall is_byte bytes ->
  hex_value acc (ds_put_hex true bytes) = foldl (fun acc b => acc * 256 + b) acc bytes /\
  str_all is_hexit (ds_put_hex true bytes) = true /\
  String.length (ds_put_hex true bytes) = (2 * length bytes)%nat.
Proof.
  revert acc. induction bytes as [| b bytes IH]; intros acc Hb; [done |].
  apply Forall_cons in Hb as [Hb Hbs]. cbn [ds_put_hex foldl].
  destruct (IH (acc * 256 + b) Hbs) as (H1 & H2 & H3).
  rewrite hex_value_app, hex2_value, str_all_app, hex2_all, string_length_app by done.
  split; [done |]. split; [done |]. rewrite H3. cbn. lia.
Qed.

(** A number that is not zero is printed with [0x] and without leading zeros. *)
Lemma ds_put_hex_text bytes :
  Forall is_byte bytes -> of_be_bytes bytes <> 0 ->
  exists t, ds_put_hex false bytes = "0x" +:+ t /\ hex_value 0 t = of_be_bytes bytes /\
    str_all is_hexit t = true /\ (0 < String.length t <= 2 * length bytes)%nat.
Proof.
  unfold of_be_bytes. induction bytes as [| b bytes IH]; intros Hb Hne; [done |].
  apply Forall_cons in Hb as [Hb Hbs]. cbn [ds_put_hex foldl] in *.
  destruct (Z.eqb_spec b 0) as [-> | Hb0].
  { destruct (IH Hbs Hne) as (t & H1 & H2 & H3 & H4). exists t.
    split; [done |]. split; [done |]. split; [done |]. cbn. lia. }
  unfold is_byte in Hb. destruct (hex1_facts b ltac:(lia)) as (H1 & H2 & H3).
  destruct (ds_put_hex_printed bytes b Hbs) as (P1 & P2 & P3).
  exists (hex1 b +:+ ds_put_hex true bytes).
  rewrite hex_value_app, H1, str_all_app, H2, string_length_app. split; [done |].
  split; [by rewrite P1 |]. split; [done |]. rewrite P3. cbn. lia.
Qed.

Lemma be_bytes_bytes n v : Forall is_byte (be_bytes n v).
Proof. induction n; cbn; constructor; [apply byte_range | done]. Qed.

Lemma be_bytes_length n v : length (be_bytes n v) = n.
Proof. induction n; cbn; [done |]. by f_equal. Qed.

Lemma ds_put_hex_zero n : ds_put_hex false (be_bytes n 0) = "0".
Proof.
  induction n as [| n IH]; [done |]. cbn [be_bytes ds_put_hex]. unfold byte at 1.
  rewrite Z.shiftr_0_l. exact IH.
Qed.

Lemma lex_hexadecimal v rest :
  0 < v < 2 ^ 1024 -> stops rest ->
  lex_parse_integer__ (ds_put_hex false (be_bytes 128 v) +:+ rest) =
    (integer_token LEX_F_HEXADECIMAL v, rest).
Proof.
  intros Hv Hs.
  assert (of_be_bytes (be_bytes 128 v) = v) as Hof.
  { apply of_be_bytes_be_bytes. change (256 ^ Z.of_nat 128) with (2 ^ 1024). lia. }
  destruct (ds_put_hex_text (be_bytes 128 v) (be_bytes_bytes 128 v) ltac:(lia))
    as (t & -> & Hval & Hall & Hlen).
  rewrite be_bytes_length in Hlen.
  assert (forall f, (forall c, is_hexit c = true -> f c = true) -> f "0"%char = true ->
    f "x"%char = true -> str_all f ("0x" +:+ t) = true) as Hf.
  { intros f Hc H0 Hx. rewrite str_all_app. cbn [str_all]. rewrite H0, Hx. cbn.
    by apply (str_all_impl is_hexit). }
  rewrite lex_parse_integer_text; [| done | | done].
  2: { apply extent_ok_all, Hf; [| done | done]. intros c Hc.
       by destruct (hexit_facts c Hc) as [-> _]. }
  rewrite not_mac.
  2: { left. replace (colons ("0x" +:+ t)) with 0%nat; [done |]. symmetry.
       apply no_colon_colons, Hf; [| done | done]. intros c Hc.
       by destruct (hexit_facts c Hc) as (_ & _ & _ & _ & _ & _ & -> & _). }
  unfold plain_number. rewrite span_stops by stops_tac Hs. rewrite span_length.
  change (str_all isdigit ("0x" +:+ t)) with false.
  change (first_is (Ascii.eqb "0"%char) (("0x" +:+ t) +:+ rest)) with true.
  change (first_is _ (str_tail (("0x" +:+ t) +:+ rest))) with true. cbn [andb].
  change (String.length ("0x" +:+ t)) with (S (S (String.length t))).
  replace (2 <? S (S (String.length t)))%nat with true
    by (symmetry; apply Nat.ltb_lt; lia).
  change (str_tail (str_tail ("0x" +:+ t))) with t.
  rewrite lex_parse_hex_integer_value, Hval, Hof by (done || lia). done.
Qed.

End Numbers.

End OvnLexNumbers.
