(* ===== verification/OvnLexAddresses.v ===== *)
(** * Addresses and masks in the lexer of OVN

    IP addresses are read back from their text, and masks from the length of a
    prefix where they have one. *)

From stdpp Require Import base option list strings.
From Stdlib Require Import ZArith Lia Ascii.
From S2P Require Import Prelude Strings CString Binary64 OvsJson OvnLex OvnLexNumbers.

Local Open Scope Z_scope.
Local Open Scope string_scope.

Module OvnLexAddresses.
Import OvsJson OvnLex OvnLexNumbers.

#[local] Arguments Ascii.eqb : simpl never.

(** ** IPv4 addresses *)

Lemma extent_ok_digits saw t r :
  str_all isdigit t = true -> extent_ok saw (t +:+ r) = extent_ok saw r.
Proof.
  induction t as [| c t IH]; [done |]. intros [Hc Ht]%andb_true_iff.
  rewrite app_cons_str. cbn [extent_ok].
  destruct (digit_facts c Hc) as (-> & _ & -> & _). cbn. rewrite orb_false_r. by apply IH.
Qed.

Lemma byte_text b :
  0 <= b < 256 -> str_all isdigit (str_int b) = true /\ str_int b <> EmptyString /\
    (String.length (str_int b) <= 3)%nat.
Proof.
  intros Hb. pose proof (range_check 256 (fun b => str_all isdigit (str_int b) &&
    negb (String.eqb (str_int b) EmptyString) && (String.length (str_int b) <=? 3)%nat) b
    ltac:(by vm_compute) Hb) as H.
  apply andb_true_iff in H as [[H1 H2]%andb_true_iff H3]. split; [done |].
  split; [by destruct (str_int b) | by apply Nat.leb_le].
Qed.

Lemma extent_ok_dot saw t r :
  str_all isdigit t = true -> t <> EmptyString ->
  extent_ok saw (String "." (t +:+ r)) = extent_ok true r.
Proof.
  intros Ht Hne. cbn [extent_ok].
  replace (first_is (Ascii.eqb "."%char) (t +:+ r)) with false.
  - change (Ascii.eqb "."%char "."%char) with true. cbn [negb andb].
    rewrite !orb_true_r. cbn [andb]. by rewrite extent_ok_digits.
  - destruct t as [| c t]; [done |]. apply andb_true_iff in Ht as [Hc _].
    rewrite app_cons_str. cbn [first_is]. rewrite Ascii.eqb_sym.
    by destruct (digit_facts c Hc) as (_ & _ & -> & _).
Qed.

Lemma ip_text_extent ip : extent_ok false (ip_text ip) = true.
Proof.
  unfold ip_text.
  destruct (byte_text (byte ip 3) (byte_range ip 3)) as (A3 & N3 & _).
  destruct (byte_text (byte ip 2) (byte_range ip 2)) as (A2 & N2 & _).
  destruct (byte_text (byte ip 1) (byte_range ip 1)) as (A1 & N1 & _).
  destruct (byte_text (byte ip 0) (byte_range ip 0)) as (A0 & N0 & _).
  rewrite extent_ok_digits by done. str_simpl. rewrite !extent_ok_dot by done.
  rewrite <- (app_nil_str (str_int (byte ip 0))). by rewrite extent_ok_dot.
Qed.

Lemma ip_text_all f ip :
  (forall c, isdigit c = true -> f c = true) -> f "."%char = true ->
  str_all f (ip_text ip) = true.
Proof.
  intros Hf Hdot. unfold ip_text. rewrite !str_all_app. cbn [str_all]. rewrite Hdot.
  assert (forall i, str_all f (str_int (byte ip i)) = true) as H.
  { intros i. apply (str_all_impl isdigit); [done |]. apply byte_text, byte_range. }
  by rewrite !H.
Qed.

Lemma ip_text_length ip : (2 <= String.length (ip_text ip) <= 15)%nat.
Proof.
  unfold ip_text. rewrite !string_length_app. cbn [String.length].
  destruct (byte_text (byte ip 3) (byte_range ip 3)) as (_ & _ & H3).
  destruct (byte_text (byte ip 2) (byte_range ip 2)) as (_ & _ & H2).
  destruct (byte_text (byte ip 1) (byte_range ip 1)) as (_ & _ & H1).
  destruct (byte_text (byte ip 0) (byte_range ip 0)) as (_ & _ & H0).
  lia.
Qed.

(** The second character of a text *)
Lemma second_not f g text rest :
  str_all f text = true -> (2 <= String.length text)%nat ->
  (forall c, f c = true -> g c = false) -> first_is g (str_tail (text +:+ rest)) = false.
Proof.
  destruct text as [| c [| d text]]; cbn [String.length]; try lia.
  intros [_ [Hd _]%andb_true_iff]%andb_true_iff _ Hg. cbn. by apply Hg.
Qed.

(** ** Masks that are prefixes *)

Lemma land_succ (n : nat) x :
  0 <= x < 2 ^ Z.of_nat n -> Z.land x (x + 1) = 0 ->
  exists k, 0 <= k <= Z.of_nat n /\ x = 2 ^ k - 1.
Proof.
  revert x. induction n as [| n IH]; intros x Hx Hl.
  { exists 0. split; [lia |]. simpl in Hx |- *. lia. }
  rewrite Nat2Z.inj_succ, Z.pow_succ_r in Hx by lia.
  assert (Z.land (Z.shiftr x 1) (Z.shiftr (x + 1) 1) = 0) as Hl'
    by (by rewrite <- Z.shiftr_land, Hl).
  rewrite !Z.shiftr_div_pow2 in Hl' by lia. change (2 ^ 1) with 2 in Hl'.
  assert ((x mod 2 = 0 /\ (x + 1) / 2 = x / 2) \/ (x mod 2 = 1 /\ (x + 1) / 2 = x / 2 + 1))
    as [[H0 H1] | [H0 H1]] by (Z.div_mod_to_equations; lia); rewrite H1 in Hl'.
  - rewrite Z.land_diag in Hl'. exists 0. split; [lia |]. simpl.
    Z.div_mod_to_equations; lia.
  - destruct (IH (x / 2) ltac:(Z.div_mod_to_equations; lia) Hl') as (k & Hk & Hx2). exists (k + 1).
    split; [lia |]. rewrite Z.pow_add_r by lia. Z.div_mod_to_equations; lia.
Qed.

(** *** Numbers below a power of two *)

Lemma below_shiftr x n : 0 <= n -> 0 <= x < 2 ^ n <-> Z.shiftr x n = 0.
Proof.
  intros Hn. rewrite Z.shiftr_div_pow2 by done. rewrite Z.div_small_iff by lia. lia.
Qed.

Lemma lxor_bound a b n :
  0 <= n -> 0 <= a < 2 ^ n -> 0 <= b < 2 ^ n -> 0 <= Z.lxor a b < 2 ^ n.
Proof.
  intros Hn. rewrite !below_shiftr by done. intros Ha Hb. by rewrite Z.shiftr_lxor, Ha, Hb.
Qed.

Lemma lor_bound a b n :
  0 <= n -> 0 <= a < 2 ^ n -> 0 <= b < 2 ^ n -> 0 <= Z.lor a b < 2 ^ n.
Proof.
  intros Hn. rewrite !below_shiftr by done. intros Ha Hb. by rewrite Z.shiftr_lor, Ha, Hb.
Qed.

Lemma land_bound a b n : 0 <= n -> 0 <= a < 2 ^ n -> 0 <= Z.land a b < 2 ^ n.
Proof. intros Hn. rewrite !below_shiftr by done. intros Ha. by rewrite Z.shiftr_land, Ha. Qed.

Lemma ip_cidr_prefix m :
  0 <= m < 2 ^ 32 -> ip_is_cidr m = true ->
  0 <= ip_count_cidr_bits m <= 32 /\ be32_prefix_mask (ip_count_cidr_bits m) = m.
Proof.
  intros Hm Hc. apply Z.eqb_eq in Hc.
  assert (0 <= Z.lxor m 4294967295 < 2 ^ 32) as Hx by (apply lxor_bound; lia).
  assert (m = Z.lxor (Z.lxor m 4294967295) 4294967295) as Hinv
    by (by rewrite Z.lxor_assoc, Z.lxor_nilpotent, Z.lxor_0_r).
  remember (Z.lxor m 4294967295) as x eqn:Hdef. clear Hdef Hm. subst m.
  assert (exists k, 0 <= k <= 32 /\ x = 2 ^ k - 1) as (k & Hk & ->).
  { destruct (Z.eq_dec x 4294967295) as [-> | Hne]; [by exists 32 |].
    apply (land_succ 32); [done |]. unfold u32 in Hc. by rewrite Z.mod_small in Hc by lia. }
  pose proof (range_check 33 (fun k => let m := Z.lxor (2 ^ k - 1) 4294967295 in
    (0 <=? ip_count_cidr_bits m)%Z && (ip_count_cidr_bits m <=? 32)%Z &&
    Z.eqb (be32_prefix_mask (ip_count_cidr_bits m)) m) k ltac:(by vm_compute) ltac:(lia)) as H.
  cbn zeta in H. apply andb_true_iff in H as [[H1 H2]%andb_true_iff H3].
  split; [lia | by apply Z.eqb_eq].
Qed.

Lemma create_mask_zero n : create_mask n 0 = replicate n 0.
Proof. by destruct n. Qed.

Lemma ipv6_cidr_prefix l :
  Forall is_byte l -> ipv6_is_cidr l = true ->
  0 <= ipv6_count_cidr_bits l <= 8 * Z.of_nat (length l) /\
  create_mask (length l) (ipv6_count_cidr_bits l) = l.
Proof.
  induction l as [| b l IH]; [done |]. intros [Hb Hl]%Forall_cons Hc.
  cbn [ipv6_is_cidr ipv6_count_cidr_bits length create_mask] in *.
  destruct (Z.eqb_spec b 255) as [-> | Hne].
  - destruct (IH Hl Hc) as [Hk Hm]. split; [lia |].
    destruct (Z.ltb_spec 8 (8 + ipv6_count_cidr_bits l)).
    + f_equal. replace (8 + ipv6_count_cidr_bits l - 8) with (ipv6_count_cidr_bits l) by lia.
      done.
    + assert (ipv6_count_cidr_bits l = 0) as H0 by lia. rewrite H0 in Hm |- *.
      rewrite create_mask_zero in Hm. cbn. by f_equal.
  - destruct (negb _) eqn:Hx; [done |].
    assert (l = replicate (length l) 0) as Hz.
    { clear -Hc. induction l as [| c l IH]; [done |]. cbn [forallb length replicate] in *.
      apply andb_true_iff in Hc as [Hc1 Hc2]. apply Z.eqb_eq in Hc1. subst c.
      f_equal. by apply IH. }
    pose proof (range_check 256 (fun b =>
      Z.eqb b 255 || negb (Z.eqb (Z.land (u8 (Z.lnot b)) (u8 (Z.lnot b) + 1)) 0) ||
      (0 <=? count_shifts 8 b)%Z && (count_shifts 8 b <=? 8)%Z &&
      Z.eqb (if Z.eqb (count_shifts 8 b) 0 then 0 else u8 (Z.shiftl 255 (8 - count_shifts 8 b))) b)
      b ltac:(by vm_compute) Hb) as H.
    cbv beta in H. rewrite Hx, (proj2 (Z.eqb_neq _ _) Hne) in H. cbn [orb] in H.
    apply andb_true_iff in H as [[H1%Z.leb_le H2%Z.leb_le]%andb_true_iff H3%Z.eqb_eq].
    split; [lia |]. rewrite (proj2 (Z.ltb_ge _ _)) by lia. rewrite H3. by f_equal.
Qed.

Lemma ipv6_mask_prefix m :
  0 <= m < 2 ^ 128 -> ipv6_is_cidr (be_bytes 16 m) = true ->
  0 <= ipv6_count_cidr_bits (be_bytes 16 m) <= 128 /\
  of_be_bytes (ipv6_create_mask (ipv6_count_cidr_bits (be_bytes 16 m))) = m.
Proof.
  intros Hm Hc. destruct (ipv6_cidr_prefix _ (be_bytes_bytes 16 m) Hc) as [H1 H2].
  rewrite be_bytes_length in H1, H2. split; [lia |]. unfold ipv6_create_mask. rewrite H2.
  by apply of_be_bytes_be_bytes.
Qed.

Section Addresses.
Context {HI : Inet} {HL : InetLaws}.

Lemma lex_ipv4 ip rest :
  0 <= ip < 2 ^ 32 -> stops rest ->
  lex_parse_integer__ (ip_text ip +:+ rest) = (integer_token LEX_F_IPV4 ip, rest).
Proof.
  intros Hip Hs. pose proof (ip_text_length ip) as Hlen.
  rewrite lex_parse_integer_text; [| | apply ip_text_extent | done].
  2: { intros He. rewrite He in Hlen. simpl in Hlen. lia. }
  rewrite not_mac.
  2: { left. replace (colons (ip_text ip)) with 0%nat; [done |]. symmetry.
       apply no_colon_colons, ip_text_all; [| done]. intros c Hc.
       by destruct (digit_facts c Hc) as (_ & -> & _). }
  unfold plain_number. rewrite span_stops by stops_tac Hs. rewrite span_length.
  replace (str_all isdigit (ip_text ip)) with false.
  2: { symmetry. unfold ip_text. rewrite !str_all_app. cbn. by rewrite andb_false_r. }
  rewrite (second_not (fun c => isdigit c || Ascii.eqb c "."%char)); [| | lia |].
  - rewrite andb_false_r. rewrite (proj2 (Nat.ltb_lt _ _)) by (unfold INET6_ADDRSTRLEN; lia).
    by rewrite inet_pton4_text.
  - apply ip_text_all; [| done]. intros c Hc. by rewrite Hc.
  - intros c. destruct (Ascii.eqb_spec c "."%char) as [-> |]; [done |].
    rewrite orb_false_r. intros Hc. by destruct (digit_facts c Hc) as (_ & _ & _ & _ & ->).
Qed.

Lemma lex_ipv6 ip rest :
  0 <= ip < 2 ^ 128 -> stops rest ->
  lex_parse_integer__ (inet_ntop6 ip +:+ rest) = (integer_token LEX_F_IPV6 ip, rest).
Proof.
  intros Hip Hs. destruct (inet_ntop6_text ip Hip) as (He & Ha & Hc & Htwo & Hcol & Hlen).
  destruct (inet_ntop6_read ip Hip) as [H6 H4].
  set (text := inet_ntop6 ip) in *.
  assert (2 <= String.length text)%nat as Hlen2.
  { destruct text as [| c [| d text']]; [done | | cbn; lia]. cbn in Hc, Htwo.
    destruct (is_hexit c); [done |]. by specialize (Htwo Hc). }
  rewrite lex_parse_integer_text; [| | done | done]; [| intros E; rewrite E in Hlen2; simpl in Hlen2; lia].
  rewrite not_mac by (destruct Hcol; [by right | left; lia]).
  unfold plain_number. rewrite span_stops by stops_tac Hs. rewrite span_length.
  replace (str_all isdigit text) with false.
  2: { symmetry. destruct (str_all isdigit text) eqn:Hd; [exfalso | done].
       destruct (no_colon_colons text) as [E1 E2].
       - apply (str_all_impl isdigit); [| done]. intros c Hc'.
         by destruct (digit_facts c Hc') as (_ & -> & _).
       - rewrite E1, E2 in Hcol. destruct Hcol; [done | lia]. }
  rewrite (second_not (fun c => is_hexit c || Ascii.eqb c ":"%char || Ascii.eqb c "."%char));
    [| done | done |].
  - rewrite andb_false_r, (proj2 (Nat.ltb_lt _ _) Hlen). by rewrite H4, H6.
  - intros c. destruct (Ascii.eqb_spec c "."%char) as [-> |]; [done |].
    destruct (Ascii.eqb_spec c ":"%char) as [-> |]; [done |]. rewrite !orb_false_r.
    intros Hx. by destruct (hexit_facts c Hx) as (_ & _ & _ & _ & _ & -> & _).
Qed.

(** ** Values *)

Definition width (f : lex_format) : Z :=
  match f with
  | LEX_F_DECIMAL => 64
  | LEX_F_HEXADECIMAL => 1024
  | LEX_F_IPV4 => 32
  | LEX_F_IPV6 => 128
  | LEX_F_ETHERNET => 48
  end.

Definition value_ok (f : lex_format) (v : Z) : Prop := 0 <= v < 2 ^ width f.

(** Zero has the same text in decimal and in hexadecimal. *)
Definition shown (f : lex_format) (v : Z) : lex_format :=
  match f with
  | LEX_F_HEXADECIMAL => if Z.eqb v 0 then LEX_F_DECIMAL else f
  | _ => f
  end.

Lemma lex_value f v rest :
  value_ok f v -> stops rest ->
  lex_parse_integer__ (lex_token_format_value v f +:+ rest) =
    (integer_token (shown f v) v, rest).
Proof.
  intros Hv Hs. destruct f; cbn [lex_token_format_value shown]; unfold value_ok in Hv;
    cbn [width] in Hv; rewrite ?Z.mod_small by done.
  - by apply lex_decimal.
  - destruct (Z.eqb_spec v 0) as [-> | Hne].
    + rewrite ds_put_hex_zero. apply (lex_decimal 0 rest); [done | done].
    + apply lex_hexadecimal; [lia | done].
  - by apply lex_ipv4.
  - by apply lex_ipv6.
  - rewrite lex_parse_integer_text; [by rewrite eth_text_mac | done | apply eth_text_extent | done].
Qed.

(** ** Values with a mask *)

Definition masked_token (f : lex_format) (v m : Z) : lex_token :=
  lex_token_init <| type := LEX_T_MASKED_INTEGER |> <| format := f |> <| value := v |>
    <| mask := m |>.

(** A value and a mask of a format, where the value has no other bits than the mask *)
Definition masked_ok (f : lex_format) (v m : Z) : Prop :=
  value_ok f v /\ value_ok f m /\ Z.land v m = v.

(** The text of the mask *)
Definition mask_text (f : lex_format) (m : Z) : string :=
  match f with
  | LEX_F_IPV4 =>
      if ip_is_cidr m then str_int (ip_count_cidr_bits m) else lex_token_format_value m f
  | LEX_F_IPV6 =>
      if ipv6_is_cidr (be_bytes 16 m) then str_int (ipv6_count_cidr_bits (be_bytes 16 m))
      else lex_token_format_value m f
  | _ => lex_token_format_value m f
  end.

Lemma lex_mask f v m rest :
  masked_ok f v m -> stops rest ->
  lex_parse_mask (mask_text f m +:+ rest) (integer_token (shown f v) v) =
    (masked_token (if Z.eqb m 0 then shown f v else f) v m, rest).
Proof.
  intros (Hv & Hm & Hland) Hs.
  assert (forall g k, lex_parse_integer__ (mask_text f m +:+ rest) = (integer_token g k, rest) ->
    lex_parse_mask (mask_text f m +:+ rest) (integer_token (shown f v) v) =
    (let masked f bits := masked_token f (Z.land v bits) bits in
     let prefix_bits := u32 (k mod 2 ^ 64) in
     if bool_decide (shown f v = g) then masked (shown f v) k
     else if bool_decide (shown f v = LEX_F_IPV4) && bool_decide (g = LEX_F_DECIMAL)
             && (prefix_bits <=? 32)%Z
     then masked (shown f v) (be32_prefix_mask prefix_bits)
     else if bool_decide (shown f v = LEX_F_IPV6) && bool_decide (g = LEX_F_DECIMAL)
             && (prefix_bits <=? 128)%Z
     then masked (shown f v) (of_be_bytes (ipv6_create_mask prefix_bits))
     else if bool_decide (shown f v = LEX_F_DECIMAL)
             && bool_decide (g = LEX_F_HEXADECIMAL) && Z.eqb (v mod 2 ^ 64) 0
     then masked LEX_F_HEXADECIMAL k
     else lex_error "Value and mask have incompatible formats.", rest)) as Hparse.
  { intros g k H. unfold lex_parse_mask. rewrite H. reflexivity. }
  assert (forall k, 0 <= k <= 128 -> u32 (k mod 2 ^ 64) = k) as Hk.
  { intros k Hk. unfold u32. rewrite (Z.mod_small k) by lia. apply Z.mod_small. lia. }
  unfold value_ok in Hv, Hm.
  destruct f; cbn [mask_text shown width] in *.
  - rewrite (Hparse _ _ (lex_value LEX_F_DECIMAL m rest Hm Hs)). cbn. rewrite Hland.
    by destruct (Z.eqb m 0).
  - rewrite (Hparse _ _ (lex_value LEX_F_HEXADECIMAL m rest Hm Hs)). cbn [shown].
    destruct (Z.eqb_spec m 0) as [-> | Hm0].
    + rewrite Z.land_0_r in Hland. subst v. done.
    + destruct (Z.eqb_spec v 0) as [-> |]; cbn; [done |]. by rewrite Hland.
  - destruct (ip_is_cidr m) eqn:Hc.
    + destruct (ip_cidr_prefix m Hm Hc) as [H1 H2].
      rewrite (Hparse _ _ (lex_decimal (ip_count_cidr_bits m) rest ltac:(lia) Hs)).
      cbv zeta. rewrite Hk by lia. rewrite (proj2 (Z.leb_le _ _)) by lia.
      rewrite H2, Hland. by destruct (Z.eqb m 0).
    + rewrite (Hparse _ _ (lex_value LEX_F_IPV4 m rest Hm Hs)). cbn. rewrite Hland.
      by destruct (Z.eqb m 0).
  - destruct (ipv6_is_cidr (be_bytes 16 m)) eqn:Hc.
    + destruct (ipv6_mask_prefix m Hm Hc) as [H1 H2].
      rewrite (Hparse _ _ (lex_decimal (ipv6_count_cidr_bits (be_bytes 16 m)) rest ltac:(lia) Hs)).
      cbv zeta. rewrite Hk by lia. rewrite (proj2 (Z.leb_le _ 128)) by lia.
      rewrite H2, Hland. by destruct (Z.eqb m 0).
    + rewrite (Hparse _ _ (lex_value LEX_F_IPV6 m rest Hm Hs)). cbn. rewrite Hland.
      by destruct (Z.eqb m 0).
  - rewrite (Hparse _ _ (lex_value LEX_F_ETHERNET m rest Hm Hs)). cbn. rewrite Hland.
    by destruct (Z.eqb m 0).
Qed.

(** *** The formats the lexer chooses are the ones that are printed. *)

Lemma zeros_above_ok f v : value_ok f v -> zeros_above v (lex_token_n_zeros f) = true.
Proof.
  intros Hv. unfold zeros_above, value_ok in *. apply Z.eqb_eq, below_shiftr; by destruct f.
Qed.

Lemma format_integer f v :
  value_ok f v -> lex_token_format (integer_token f v) = Some (lex_token_format_value v f).
Proof.
  intros Hv. cbn. unfold lex_token_get_format. cbn [value format type integer_token].
  change (format (integer_token f v)) with f. change (value (integer_token f v)) with v.
  by rewrite zeros_above_ok.
Qed.

Lemma format_masked f v m :
  masked_ok f v m ->
  lex_token_format (masked_token f v m) =
    Some (lex_token_format_value v f +:+ String "/" (mask_text f m)).
Proof.
  intros (Hv & Hm & _). cbn. unfold lex_token_format_masked_integer, lex_token_get_format.
  change (format (masked_token f v m)) with f. change (value (masked_token f v m)) with v.
  change (mask (masked_token f v m)) with m.
  rewrite (zeros_above_ok f v Hv), (zeros_above_ok f m Hm). rewrite orb_true_r. cbn [andb].
  do 2 f_equal. change ("/" +:+ ?x) with (String "/" x). f_equal.
  destruct f; cbn [mask_text]; try done; unfold value_ok in Hm; cbn [width] in Hm.
  by rewrite !Z.mod_small.
Qed.

End Addresses.
End OvnLexAddresses.
