(* ===== verification/OvnLexInet.v ===== *)
(** * The text of addresses

    An implementation of the C library's [inet_pton] and [inet_ntop] for which the
    laws the lexer relies on hold: IPv6 addresses are printed as eight groups of four
    digits, and read with zeros left out too (RFC 4291, 2.2, forms 1 and 2); dotted
    decimals have no leading zeros. *)

From stdpp Require Import base option list strings.
From Stdlib Require Import ZArith Lia Ascii.
From S2P Require Import Prelude Strings CString Binary64 OvsJson.
From S2P Require Import OvnLex OvnLexNumbers OvnLexAddresses.

Local Open Scope Z_scope.
Local Open Scope string_scope.

Module OvnLexInet.
Import OvsJson OvnLex OvnLexNumbers OvnLexAddresses.

#[local] Arguments Ascii.eqb : simpl never.

(** The bytes of an address, two to a group *)
Fixpoint groups (bytes : list Z) : string :=
  match bytes with
  | [a; b] => hex2 a +:+ hex2 b
  | a :: b :: bytes => hex2 a +:+ hex2 b +:+ String ":" (groups bytes)
  | _ => EmptyString
  end.

Definition ntop6 (a : Z) : string := groups (be_bytes 16 a).

(** The digits of a text *)
Fixpoint hexits (acc : Z) (s : string) : Z :=
  match s with
  | EmptyString => acc
  | String c s => hexits (if is_hexit c then acc * 16 + hexit_value c else acc) s
  end.

Fixpoint decimals (acc cur : Z) (s : string) : Z :=
  match s with
  | EmptyString => acc * 256 + cur
  | String c s =>
      if isdigit c then decimals acc (cur * 10 + (code c - 48)) s
      else decimals (acc * 256 + cur) 0 s
  end.

Definition checked (print : Z -> string) (w v : Z) (s : string) : option Z :=
  let v := v mod 2 ^ w in if String.eqb (print v) s then Some v else None.

(** The parts of a text between colons *)
Fixpoint between_colons (cur s : string) : list string :=
  match s with
  | EmptyString => [cur]
  | String c s =>
      if Ascii.eqb c ":" then cur :: between_colons EmptyString s
      else between_colons (cur +:+ String c EmptyString) s
  end.

Definition group_value (s : string) : option Z :=
  if (1 <=? String.length s)%nat && (String.length s <=? 4)%nat && str_all is_hexit s
  then Some (hexits 0 s) else None.

Definition group_values (s : string) : option (list Z) :=
  match s with
  | EmptyString => Some []
  | _ => mapM group_value (between_colons EmptyString s)
  end.

(** What is before and after [::] *)
Fixpoint at_double_colon (before s : string) : option (string * string) :=
  match s with
  | String ":" (String ":" s) => Some (before, s)
  | String c s => at_double_colon (before +:+ String c EmptyString) s
  | EmptyString => None
  end.

Definition short_pton6 (s : string) : option Z :=
  l ← match at_double_colon EmptyString s with
      | Some (a, b) =>
          a ← group_values a; b ← group_values b;
          let n := (length a + length b)%nat in
          if (n <=? 7)%nat then Some (a ++ repeat 0 (8 - n) ++ b)%list else None
      | None =>
          l ← group_values s; if (length l =? 8)%nat then Some l else None
      end;
  Some (foldl (fun v g => v * 65536 + g) 0 l mod 2 ^ 128).

Definition pton6 (s : string) : option Z :=
  match checked ntop6 128 (hexits 0 s) s with
  | Some a => Some a
  | None => short_pton6 s
  end.
Definition pton4 (s : string) : option Z := checked ip_text 32 (decimals 0 0 s) s.

#[export] Instance text_inet : Inet :=
  {| inet_pton4 := pton4; inet_pton6 := pton6; inet_ntop6 := ntop6 |}.

Lemma checked_range print w v s a : 0 <= w -> checked print w v s = Some a -> 0 <= a < 2 ^ w.
Proof.
  intros Hw. unfold checked. destruct (String.eqb _ _); [| done]. intros [= <-].
  apply Z.mod_pos_bound. lia.
Qed.

Lemma pton6_range s a : pton6 s = Some a -> 0 <= a < 2 ^ 128.
Proof.
  unfold pton6. destruct (checked ntop6 128 (hexits 0 s) s) as [b |] eqn:E.
  - intros [= <-]. by apply (checked_range ntop6 128 (hexits 0 s) s).
  - unfold short_pton6. intros (l & _ & [= <-])%bind_Some. apply Z.mod_pos_bound. lia.
Qed.

Lemma checked_read print w v a s :
  0 <= a < 2 ^ w -> s = print a -> v = a -> checked print w v s = Some a.
Proof.
  intros Ha -> ->. unfold checked. rewrite Z.mod_small by done. by rewrite String.eqb_refl.
Qed.

Lemma hexits_hex2 acc b rest :
  is_byte b -> hexits acc (hex2 b +:+ rest) = hexits (acc * 256 + b) rest.
Proof.
  intros Hb. unfold hex2, is_byte in *. str_simpl. cbn [hexits].
  destruct (lower_hexit_facts (b / 16)) as [-> ->]; [Z.div_mod_to_equations; lia |].
  destruct (lower_hexit_facts (b mod 16)) as [-> ->]; [Z.div_mod_to_equations; lia |].
  f_equal. Z.div_mod_to_equations; lia.
Qed.

Lemma decimals_digits u acc cur rest :
  decimals acc cur (digits u +:+ rest) = decimals acc (digits_value cur u) rest.
Proof.
  remember (Decimal.nb_digits u) as n eqn:Hn. revert u Hn cur.
  induction n as [| n IH]; intros u Hn cur;
    destruct (digits_cons u) as [-> | (c & u' & -> & Hd & _ & Hv & _ & Hnb)]; try lia; try done.
  rewrite app_cons_str. cbn [decimals]. rewrite Hd, IH, Hv by lia. done.
Qed.

Lemma decimals_str_int acc v rest :
  0 <= v -> decimals acc 0 (str_int v +:+ rest) = decimals acc v rest.
Proof.
  intros Hv. destruct (str_int_digits v Hv) as (u & -> & _ & Hu & _).
  by rewrite decimals_digits, Hu.
Qed.

Lemma decimals_dot acc cur rest :
  decimals acc cur (String "." rest) = decimals (acc * 256 + cur) 0 rest.
Proof. reflexivity. Qed.

Lemma decimals_ip_text a : 0 <= a < 2 ^ 32 -> decimals 0 0 (ip_text a) = a.
Proof.
  intros Ha. unfold ip_text. rewrite <- (app_nil_str (str_int (byte a 0))). str_simpl.
  do 3 rewrite decimals_str_int, decimals_dot by apply byte_range.
  rewrite decimals_str_int by apply byte_range.
  exact (of_be_bytes_be_bytes 4 a Ha).
Qed.

(** Texts of addresses have their shape whatever the bytes are. *)
Lemma groups_facts f bytes acc :
  Forall is_byte bytes -> (forall c, is_hexit c = true -> f c = true) -> f ":"%char = true ->
  Nat.even (length bytes) = true ->
  str_all f (groups bytes) = true /\
  hexits acc (groups bytes) = foldl (fun acc b => acc * 256 + b) acc bytes.
Proof.
  intros Hb Hf Hcolon. revert acc. remember (length bytes) as n eqn:Hn. revert bytes Hn Hb.
  induction n as [n IH] using lt_wf_ind. intros bytes -> Hb acc He.
  destruct bytes as [| a [| b bytes]]; [done | done |].
  apply Forall_cons in Hb as [Ha [Hb Hbytes]%Forall_cons].
  destruct bytes as [| d bytes].
  - cbn [groups foldl]. rewrite str_all_app, !hex2_all by done. split; [done |].
    by rewrite hexits_hex2, <- (app_nil_str (hex2 b)), hexits_hex2.
  - destruct (IH (length (d :: bytes)) ltac:(cbn; lia) (d :: bytes) eq_refl Hbytes
      ((acc * 256 + a) * 256 + b) He) as [H1 H2].
    change (groups (a :: b :: d :: bytes)) with (hex2 a +:+ hex2 b +:+ String ":" (groups (d :: bytes))).
    rewrite !str_all_app, !hex2_all by done. cbn [str_all]. rewrite Hcolon, H1. split; [done |].
    rewrite !hexits_hex2 by done. exact H2.
Qed.

Lemma of_be_bytes_foldl l : of_be_bytes l = foldl (fun acc b => acc * 256 + b) 0 l.
Proof. reflexivity. Qed.

Lemma ntop6_groups a : ntop6 a = groups (be_bytes 16 a).
Proof. reflexivity. Qed.

Lemma ntop6_hexits a : 0 <= a < 2 ^ 128 -> hexits 0 (ntop6 a) = a.
Proof.
  intros Ha. rewrite ntop6_groups.
  rewrite (proj2 (groups_facts (fun _ => true) (be_bytes 16 a) 0 (be_bytes_bytes 16 a)
    (fun _ _ => eq_refl) eq_refl eq_refl)), <- of_be_bytes_foldl.
  by apply of_be_bytes_be_bytes.
Qed.

Lemma ntop6_all f a :
  (forall c, is_hexit c = true -> f c = true) -> f ":"%char = true -> str_all f (ntop6 a) = true.
Proof.
  intros Hf Hc. rewrite ntop6_groups.
  by apply (groups_facts f (be_bytes 16 a) 0 (be_bytes_bytes 16 a)).
Qed.

Lemma colons_hex2 v i : colons (hex2 (byte v i)) = 0%nat.
Proof.
  apply no_colon_colons, hex2_all; [| apply byte_range]. intros c Hc.
  by destruct (hexit_facts c Hc) as (_ & _ & _ & _ & _ & _ & -> & _).
Qed.

Lemma ntop6_colons a : colons (ntop6 a) = 7%nat.
Proof.
  rewrite ntop6_groups. cbn [be_bytes groups]. 
  do 7 (rewrite !colons_app, !colons_hex2; cbn [colons Nat.add];
        change (Ascii.eqb ":" ":") with true; cbn [Nat.add]).
  by rewrite !colons_app, !colons_hex2.
Qed.

Lemma ntop6_length a : String.length (ntop6 a) = 39%nat.
Proof. reflexivity. Qed.

(** The first group and what follows it *)
Lemma ntop6_first a :
  exists rest, ntop6 a = (hex2 (byte a 15) +:+ hex2 (byte a 14)) +:+ String ":" rest.
Proof. rewrite ntop6_groups. cbn [be_bytes groups]. eexists. by rewrite app_assoc_str. Qed.

Lemma ntop6_not_ipv4 a : pton4 (ntop6 a) = None.
Proof.
  unfold pton4, checked. generalize (decimals 0 0 (ntop6 a) mod 2 ^ 32) as v. intros v.
  destruct (String.eqb_spec (ip_text v) (ntop6 a)) as [E |]; [| done].
  pose proof (ip_text_length v) as Hl. rewrite E, ntop6_length in Hl. lia.
Qed.

#[export] Instance text_inet_laws : InetLaws.
Proof.
  constructor; cbn [inet_pton4 inet_pton6 inet_ntop6 text_inet].
  - intros s a. by apply checked_range.
  - apply pton6_range.
  - intros a Ha. apply checked_read; [exact Ha | reflexivity | by apply decimals_ip_text].
  - intros a Ha. split; [| apply ntop6_not_ipv4]. unfold pton6.
    rewrite (checked_read _ _ _ a); [reflexivity | exact Ha | reflexivity | by apply ntop6_hexits].
  - intros a Ha. rewrite ntop6_length, ntop6_colons. split_and!.
    + apply extent_ok_all, ntop6_all; [| done]. intros c Hc.
      by destruct (hexit_facts c Hc) as [-> _].
    + apply ntop6_all; [| done]. by intros c ->.
    + destruct (ntop6_first a) as [rest ->]. rewrite span_take; [done | | done].
      by rewrite str_all_app, !hex2_all by (done || apply byte_range).
    + destruct (ntop6_first a) as [rest ->]. rewrite app_assoc_str.
      destruct (hex2_first (byte a 15) (hex2 (byte a 14) +:+ String ":" rest)) as [H _];
        [apply byte_range |].
      unfold hex2 in H |- *. rewrite app_cons_str in H |- *. cbn [first_is] in H |- *.
      intros E%Ascii.eqb_eq. by rewrite <- E in H.
    + by right.
    + unfold INET6_ADDRSTRLEN. lia.
Qed.

End OvnLexInet.
