(* ===== verification/OvnLexTokens.v ===== *)
(** * The tokens that the lexer of OVN returns

    The lexer takes every input apart, always advances, never leaves the input, and
    returns tokens of a known shape: [lex_token_ok]. *)

From stdpp Require Import base option list strings.
From Stdlib Require Import ZArith Lia Ascii.
From S2P Require Import Prelude Strings CString Binary64 OvsJson OvsJsonSafe.
From S2P Require Import OvnLex OvnLexNumbers OvnLexAddresses.

Local Open Scope Z_scope.
Local Open Scope string_scope.

Module OvnLexTokens.
Import OvsJson OvsJsonSafe OvnLex OvnLexNumbers OvnLexAddresses.

#[local] Arguments Ascii.eqb : simpl never.

(** ** Well-formed tokens *)

(** The tokens that are only their type *)
Definition is_bare (t : lex_type) : bool :=
  match t with
  | LEX_T_END | LEX_T_ID | LEX_T_STRING | LEX_T_INTEGER | LEX_T_MASKED_INTEGER
  | LEX_T_MACRO | LEX_T_PORT_GROUP | LEX_T_TEMPLATE | LEX_T_ERROR => false
  | _ => true
  end.

(** The tokens that are a character and an identifier *)
Definition is_prefixed (t : lex_type) : bool :=
  match t with LEX_T_MACRO | LEX_T_PORT_GROUP | LEX_T_TEMPLATE => true | _ => false end.

Definition name_token (t : lex_type) (s : string) : lex_token :=
  lex_token_init <| type := t |> <| str := Some s |>.

Inductive lex_token_ok : lex_token -> Prop :=
| Ok_bare t : is_bare t = true -> lex_token_ok (bare t)
| Ok_id c s :
    lex_is_id1 c = true -> c <> "."%char -> str_all lex_is_idn s = true ->
    lex_token_ok (name_token LEX_T_ID (String c s))
| Ok_prefixed t c s :
    is_prefixed t = true -> lex_is_id1 c = true -> str_all lex_is_idn s = true ->
    lex_token_ok (name_token t (String c s))
| Ok_string s : no_nul s = true -> lex_token_ok (name_token LEX_T_STRING s)
| Ok_integer f v : value_ok f v -> lex_token_ok (integer_token f v)
| Ok_masked f v m : masked_ok f v m -> lex_token_ok (masked_token f v m).

Definition token_or_error (t : lex_token) : Prop :=
  lex_token_ok t \/ exists message, t = lex_error message.

Create HintDb lex.
#[export] Hint Constructors lex_token_ok : lex.

Lemma error_ok message : token_or_error (lex_error message).
Proof. right. by eexists. Qed.

Lemma bare_ok t : is_bare t = true -> token_or_error (bare t).
Proof. left. by constructor. Qed.

#[export] Hint Resolve error_ok bare_ok : lex.

(** ** The rest of the input *)

Definition suffix (rest p : string) : Prop := exists pre, p = pre +:+ rest.

Lemma suffix_refl p : suffix p p.
Proof. by exists EmptyString. Qed.

Lemma suffix_trans a b c : suffix a b -> suffix b c -> suffix a c.
Proof. intros [x ->] [y ->]. exists (y +:+ x). by rewrite app_assoc_str. Qed.

Lemma suffix_cons c a b : suffix a b -> suffix a (String c b).
Proof. intros [x ->]. by exists (String c x). Qed.

Lemma suffix_tail p : suffix (str_tail p) p.
Proof. destruct p as [| c p]; [by exists EmptyString | by exists (String c EmptyString)]. Qed.

Lemma suffix_tail_l a p : suffix a (str_tail p) -> suffix a p.
Proof. intros H. exact (suffix_trans _ _ _ H (suffix_tail p)). Qed.

Lemma suffix_empty p : suffix EmptyString p.
Proof. exists p. by rewrite app_nil_str. Qed.

Lemma suffix_length a p : suffix a p -> (String.length a <= String.length p)%nat.
Proof. intros [x ->]. rewrite string_length_app. lia. Qed.

Lemma suffix_span f p : suffix (snd (span f p)) p.
Proof. exists (fst (span f p)). apply span_app. Qed.

Lemma suffix_extent saw p : suffix (snd (integer_extent saw p)) p.
Proof.
  revert saw. induction p as [| c p IH]; intros saw; [apply suffix_refl |].
  cbn [integer_extent]. destruct (_ || _); [| apply suffix_refl].
  specialize (IH (saw || Ascii.eqb c "."%char)). destruct (integer_extent _ p) as [t r].
  by apply suffix_cons.
Qed.

Lemma suffix_string p t rest : string_extent p = Some (t, rest) -> suffix rest p.
Proof.
  remember (String.length p) as n eqn:Hn. revert p t rest Hn.
  induction n as [n IH] using lt_wf_ind. intros p t rest ->.
  destruct p as [| c p]; [done |]. cbn [string_extent].
  destruct (Ascii.eqb c dquote).
  { intros [= <- <-]. apply suffix_cons, suffix_refl. }
  destruct (Ascii.eqb c backslash).
  - destruct p as [| d p]; [done |]. destruct (string_extent p) as [[u r] |] eqn:He; [| done].
    intros [= <- <-]. do 2 apply suffix_cons. apply (IH (String.length p)) with u; [| done | done].
    simpl. lia.
  - destruct (string_extent p) as [[u r] |] eqn:He; [| done].
    intros [= <- <-]. apply suffix_cons, (IH (String.length p)) with u; [| done | done].
    simpl. lia.
Qed.

Lemma suffix_comment p :
  match skip_comment p with inl rest => suffix rest p | inr rest => suffix rest p end.
Proof.
  induction p as [| c p IH]; [apply suffix_refl |]. cbn [skip_comment].
  destruct (_ && _); [apply suffix_cons, suffix_tail |].
  destruct (Ascii.eqb c newline); [apply suffix_refl |].
  destruct (skip_comment p); by apply suffix_cons.
Qed.

#[export] Hint Resolve suffix_refl suffix_cons suffix_tail suffix_tail_l suffix_empty
  suffix_span : lex.

(** ** Numbers *)

Lemma hex_loop_range i v l w :
  0 <= i -> 0 <= v < 2 ^ 1024 -> hex_loop i v l = inr w -> 0 <= w < 2 ^ 1024.
Proof.
  revert i v. induction l as [| c l IH]; intros i v Hi Hv.
  { by intros [= <-]. }
  cbn [hex_loop]. destruct (_ <? 0)%Z eqn:H0; [done |]. apply Z.ltb_ge in H0.
  destruct (negb _); [| by apply IH; [lia |]].
  destruct (Z.leb_spec 128 (i / 2)) as [| Hlt]; [done |]. apply IH; [lia |].
  apply lor_bound; [lia | done |].
  assert (i < 256) as Hi2 by (Z.div_mod_to_equations; lia).
  assert (is_hexit c = true) as Hc by (by apply Z.leb_le).
  destruct (hexit_facts c Hc) as (_ & _ & Hx & _).
  rewrite Z.shiftl_mul_pow2 by lia. split; [nia |].
  apply Z.lt_le_trans with (2 ^ 4 * 2 ^ (4 * i)); [nia |].
  rewrite <- Z.pow_add_r by lia. apply Z.pow_le_mono_r; lia.
Qed.

Lemma scan_int_range s b rest : scan_int s = Some (b, rest) -> 0 <= b < 256.
Proof.
  unfold scan_int. destruct (scan_digits _ _ _) as [[v n] r]. destruct (n =? 0)%nat; [done |].
  intros [= <- <-]. apply (uwrap_range 8). lia.
Qed.

Lemma scan_mac_range n mac s v rest :
  0 <= mac -> scan_mac n mac s = Some (v, rest) ->
  mac * 256 ^ Z.of_nat n <= v < (mac + 1) * 256 ^ Z.of_nat n.
Proof.
  revert mac s. induction n as [| n IH]; intros mac s Hm.
  { intros [= <- <-]. change (256 ^ Z.of_nat 0) with 1. lia. }
  cbn [scan_mac]. rewrite Nat2Z.inj_succ, Z.pow_succ_r by lia.
  destruct (scan_int _) as [[b r] |] eqn:Hb; [| done]. apply scan_int_range in Hb.
  cbn. assert (0 < 256 ^ Z.of_nat n) by lia.
  destruct n as [| n].
  - intros [= <- <-]. change (256 ^ Z.of_nat 0) with 1. lia.
  - destruct (first_is _ r); [| done]. intros H1%IH; [nia | lia].
Qed.

Lemma strtoull_from_nonneg s acc : 0 <= acc -> 0 <= strtoull_from acc s.
Proof.
  revert acc. induction s as [| c s IH]; intros acc Ha; [done |]. cbn [strtoull_from].
  destruct (isdigit c) eqn:Hc; [| done]. apply IH.
  apply andb_true_iff in Hc as [Hc%Z.leb_le _]. lia.
Qed.

Lemma strtoull_range s v : strtoull s = Some v -> 0 <= v < 2 ^ 64.
Proof.
  unfold strtoull. destruct (Z.leb_spec (strtoull_from 0 s) ULLONG_MAX) as [Hl |]; [| done].
  intros [= <-]. pose proof (strtoull_from_nonneg s 0). unfold ULLONG_MAX in Hl. lia.
Qed.

Lemma of_be_bytes_range l :
  Forall is_byte l -> 0 <= of_be_bytes l < 256 ^ Z.of_nat (length l).
Proof.
  induction l as [| b l IH] using rev_ind; [done |].
  intros [Hl Hb]%Forall_app. apply Forall_cons in Hb as [Hb _]. specialize (IH Hl).
  unfold of_be_bytes in *. rewrite foldl_app, length_app. cbn [foldl length].
  rewrite Nat2Z.inj_add, Z.pow_add_r by lia. change (256 ^ Z.of_nat 1) with 256.
  unfold is_byte in Hb. lia.
Qed.

Lemma create_mask_bytes n k : Forall is_byte (create_mask n k) /\ length (create_mask n k) = n.
Proof.
  assert (forall m, Forall is_byte (replicate m 0)) as Hz.
  { intros m. apply Forall_replicate. unfold is_byte. lia. }
  revert k. induction n as [| n IH]; intros k; [done |]. cbn [create_mask].
  destruct (_ <? _)%Z.
  - destruct (IH (k - 8)) as [H1 H2]. split; [constructor; [unfold is_byte; lia | done] |].
    simpl. by rewrite H2.
  - split; [| simpl; by rewrite length_replicate]. constructor; [| apply Hz].
    destruct (Z.eqb k 0); [unfold is_byte; lia | apply (uwrap_range 8); lia].
Qed.

Lemma ipv6_create_mask_range k : 0 <= of_be_bytes (ipv6_create_mask k) < 2 ^ 128.
Proof.
  unfold ipv6_create_mask. destruct (create_mask_bytes 16 k) as [Hb Hl].
  apply of_be_bytes_range in Hb. by rewrite Hl in Hb.
Qed.

Section Tokens.
Context {HI : Inet} {HL : InetLaws}.

(** An integer token or an error *)
Definition integer_or_error (t : lex_token) : Prop :=
  (exists f v, value_ok f v /\ t = integer_token f v) \/ exists message, t = lex_error message.

Lemma integer_or_error_ok t : integer_or_error t -> token_or_error t.
Proof. intros [(f & v & Hv & ->) | [m ->]]; [left; by constructor | apply error_ok]. Qed.

Lemma lex_parse_integer__ok p : integer_or_error (fst (lex_parse_integer__ p)).
Proof.
  assert (forall f v, value_ok f v -> integer_or_error (integer_token f v)) as Hi.
  { intros f v Hv. left. by exists f, v. }
  assert (forall m, integer_or_error (lex_error m)) as He by (right; by eexists).
  unfold lex_parse_integer__. destruct (integer_extent false p) as [text end_]. cbn [fst].
  destruct (String.length text =? 0)%nat; [done |].
  match goal with |- context [match ?m with Some mac => integer_token LEX_F_ETHERNET mac | None => _ end] =>
    destruct m as [mac |] eqn:Hm end.
  { apply Hi. destruct (_ =? 17)%nat; [| done].
    destruct (scan_mac 6 0 p) as [[v r] |] eqn:Hs; [| done].
    destruct (_ =? _)%nat; [| done]. injection Hm as ->.
    apply scan_mac_range in Hs; [| done]. unfold value_ok. cbn. lia. }
  clear Hm. destruct (_ =? _)%nat.
  { destruct (_ && _); [done |]. destruct (strtoull p) as [v |] eqn:Hv; [| done].
    apply Hi. by apply strtoull_range in Hv. }
  destruct (_ && _).
  { destruct (2 <? _)%nat; [| done].
    unfold lex_parse_hex_integer. destruct (hex_loop 0 0 _) as [e | v] eqn:Hl; [done |].
    apply Hi. apply hex_loop_range in Hl; [done | done | lia]. }
  destruct (_ <? _)%nat; [| done].
  destruct (inet_pton4 text) eqn:H4; [by apply Hi, inet_pton4_range with text |].
  destruct (inet_pton6 text) eqn:H6; [by apply Hi, inet_pton6_range with text | done].
Qed.

Lemma suffix_integer__ p : suffix (snd (lex_parse_integer__ p)) p.
Proof.
  unfold lex_parse_integer__. pose proof (suffix_extent false p) as H.
  by destruct (integer_extent false p) as [text end_].
Qed.

Lemma lex_parse_integer__advances c s :
  isalnum c || Ascii.eqb c ":"%char = true ->
  suffix (snd (lex_parse_integer__ (String c s))) s.
Proof.
  intros Hc. unfold lex_parse_integer__. cbn [integer_extent]. cbn [negb]. rewrite andb_true_r, Hc.
  cbn [orb]. pose proof (suffix_extent (Ascii.eqb c "."%char) s) as H.
  by destruct (integer_extent _ s) as [text end_].
Qed.

(** *** Masks *)

Lemma masked_or_error f v m :
  value_ok f v -> value_ok f m -> token_or_error (masked_token f (Z.land v m) m).
Proof.
  intros Hv Hm. left. constructor. split_and!; [| done |].
  - unfold value_ok in *. apply land_bound; [by destruct f | done].
  - by rewrite <- Z.land_assoc, Z.land_diag.
Qed.

Lemma lex_parse_mask_ok p f v :
  value_ok f v -> token_or_error (fst (lex_parse_mask p (integer_token f v))).
Proof.
  intros Hv. unfold lex_parse_mask. pose proof (lex_parse_integer__ok p) as Hp.
  destruct (lex_parse_integer__ p) as [t p']. cbn [fst] in Hp.
  destruct Hp as [(g & k & Hk & ->) | [m ->]]; [| apply error_ok].
  cbn -[Z.land be32_prefix_mask ipv6_create_mask Z.pow Z.modulo u32].
  destruct (bool_decide_reflect (f = g)) as [<- | Hne]; [by apply masked_or_error |].
  destruct (bool_decide_reflect (f = LEX_F_IPV4)) as [-> | _]; cbn [andb].
  { destruct (_ && _); [| apply error_ok]. apply masked_or_error; [done |].
    apply (uwrap_range 32). lia. }
  destruct (bool_decide_reflect (f = LEX_F_IPV6)) as [-> | _]; cbn [andb].
  { destruct (_ && _); [| apply error_ok]. apply masked_or_error; [done |].
    apply ipv6_create_mask_range. }
  destruct (bool_decide_reflect (f = LEX_F_DECIMAL)) as [-> | _]; cbn [andb]; [| apply error_ok].
  destruct (bool_decide_reflect (g = LEX_F_HEXADECIMAL)) as [-> | _]; cbn [andb]; [| apply error_ok].
  destruct (Z.eqb_spec (v mod 2 ^ 64) 0) as [H0 |]; [| apply error_ok].
  rewrite Z.mod_small in H0 by done. subst v. by apply masked_or_error.
Qed.

Lemma suffix_mask p t : suffix (snd (lex_parse_mask p t)) p.
Proof.
  unfold lex_parse_mask. pose proof (suffix_integer__ p) as H.
  destruct (lex_parse_integer__ p) as [m p']. by destruct (bool_decide _).
Qed.

Lemma lex_parse_integer_ok c s :
  isalnum c || Ascii.eqb c ":"%char = true ->
  token_or_error (fst (lex_parse_integer (String c s))) /\
  suffix (snd (lex_parse_integer (String c s))) s.
Proof.
  intros Hc. unfold lex_parse_integer.
  pose proof (lex_parse_integer__ok (String c s)) as Hp.
  pose proof (lex_parse_integer__advances c s Hc) as Hs.
  destruct (lex_parse_integer__ (String c s)) as [t p]. cbn [fst snd] in Hp, Hs.
  destruct (_ && _) eqn:Hm; [| split; [by apply integer_or_error_ok | done]].
  split; [| apply (suffix_trans _ (str_tail p)); [apply suffix_mask | by apply (suffix_trans _ p); [apply suffix_tail |]]].
  destruct Hp as [(f & v & Hv & ->) | [m ->]]; [by apply lex_parse_mask_ok | done].
Qed.

(** ** Strings and identifiers *)

Lemma lex_parse_string_ok s :
  exists t rest, lex_parse_string s = Some (t, rest) /\ token_or_error t /\ suffix rest s.
Proof.
  unfold lex_parse_string. destruct (string_extent s) as [[text rest] |] eqn:He.
  - apply suffix_string in He. unfold json_string_unescape.
    destruct (unescape_from_some (S (String.length text)) EmptyString text) as [r ->]; [lia |].
    destruct r as [e | t]; eexists _, _; (split; [done |]); split; try done; [apply error_ok |].
    left. apply (Ok_string (ds_cstr t)), ds_cstr_no_nul.
  - eexists _, _. split; [done |]. split; [apply error_ok | apply suffix_empty].
Qed.

Lemma lex_parse_id_ok c s t :
  lex_is_id1 c = true -> is_prefixed t = true \/ t = LEX_T_ID /\ c <> "."%char ->
  token_or_error (fst (lex_parse_id c s t)) /\ suffix (snd (lex_parse_id c s t)) s.
Proof.
  intros Hc Ht. unfold lex_parse_id. pose proof (span_all lex_is_idn s) as Ha.
  pose proof (suffix_span lex_is_idn s) as Hs. destruct (span lex_is_idn s) as [text rest].
  cbn [fst snd] in *. split; [left | done]. destruct Ht as [Ht | [-> Hdot]].
  - by apply (Ok_prefixed t).
  - by apply (Ok_id c).
Qed.

Lemma lex_parse_prefixed_ok c t s :
  is_prefixed t = true ->
  token_or_error (fst (lex_parse_prefixed c t s)) /\ suffix (snd (lex_parse_prefixed c t s)) s.
Proof.
  intros Ht. destruct s as [| d s]; cbn [lex_parse_prefixed fst snd]; [auto with lex |].
  destruct (lex_is_id1 d) eqn:Hd; [| cbn [fst snd]; auto with lex].
  destruct (lex_parse_id_ok d s t Hd (or_introl Ht)) as [H1 H2]. auto with lex.
Qed.

(** ** One token *)

Lemma either_ok d yes no s :
  token_or_error yes -> token_or_error no ->
  token_or_error (fst (either d yes no s)) /\ suffix (snd (either d yes no s)) s.
Proof. intros Hy Hn. unfold either. destruct (first_is _ s); cbn [fst snd]; auto with lex. Qed.

Lemma less_ok s :
  let r := if first_is (Ascii.eqb "="%char) s then (bare LEX_T_LE, str_tail s)
           else if first_is (Ascii.eqb "-"%char) s && first_is (Ascii.eqb ">"%char) (str_tail s)
           then (bare LEX_T_EXCHANGE, str_tail (str_tail s))
           else (bare LEX_T_LT, s) in
  token_or_error (fst r) /\ suffix (snd r) s.
Proof. cbv zeta. repeat destruct (_ : bool); cbn [fst snd]; auto with lex. Qed.

Lemma some_ok (r : lex_token * string) s :
  token_or_error (fst r) /\ suffix (snd r) s ->
  exists t rest, Some r = Some (t, rest) /\ token_or_error t /\ suffix rest s.
Proof. intros [H1 H2]. by exists (fst r), (snd r); destruct r. Qed.

Lemma lex_token_here_ok c s :
  exists t rest, lex_token_here c s = Some (t, rest) /\ token_or_error t /\ suffix rest s.
Proof.
  unfold lex_token_here, only.
  repeat match goal with
  | |- context [if Ascii.eqb c ?d then Some _ else _] =>
      destruct (Ascii.eqb_spec c d);
      [apply some_ok; first
         [apply either_ok; auto with lex | by apply lex_parse_prefixed_ok | apply less_ok
         | split; cbn [fst snd]; auto with lex] |]
  end.
  destruct (Ascii.eqb_spec c ":"%char) as [-> | Hcolon].
  { destruct (negb _); apply some_ok; [cbn [fst snd]; auto with lex |].
    by apply lex_parse_integer_ok. }
  destruct (isdigit c) eqn:Hdigit.
  { apply some_ok, lex_parse_integer_ok. unfold isalnum. by rewrite Hdigit, orb_true_r. }
  destruct (Ascii.eqb c dquote); [apply lex_parse_string_ok |].
  assert (lex_is_id1 c = true -> is_prefixed LEX_T_ID = true \/ LEX_T_ID = LEX_T_ID /\ c <> "."%char)
    as Hid by auto.
  destruct (is_hexit c) eqn:Hx.
  { destruct (hexit_facts c Hx) as (Halnum & _). apply some_ok.
    destruct (first_is _ _); [apply lex_parse_integer_ok; by rewrite Halnum |].
    apply lex_parse_id_ok; [| by auto]. unfold isalnum in Halnum. rewrite Hdigit, orb_false_r in Halnum.
    unfold lex_is_id1. by rewrite Halnum. }
  destruct (lex_is_id1 c) eqn:H1; apply some_ok; [apply lex_parse_id_ok; auto |].
  cbn [fst snd]. auto with lex.
Qed.

(** Enough fuel gives a token: the end of the input, or one that takes a part of
    it. *)
Lemma lex_next_ok fuel p :
  (String.length p < fuel)%nat ->
  exists t st rest, lex_next fuel p = Some (t, st, rest) /\ suffix st p /\ suffix rest st /\
    (t = lex_token_init /\ rest = EmptyString \/
     token_or_error t /\ (String.length rest < String.length p)%nat).
Proof.
  revert p. induction fuel as [| fuel IH]; intros p Hf; [lia |]. cbn [lex_next].
  destruct p as [| c s]; [eexists _, _, _; split; [done |]; auto with lex |].
  cbn [String.length] in Hf.
  assert (forall q, suffix q s ->
    exists t st rest, lex_next fuel q = Some (t, st, rest) /\ suffix st (String c s) /\
      suffix rest st /\ (t = lex_token_init /\ rest = EmptyString \/
      token_or_error t /\ (String.length rest < S (String.length s))%nat)) as Hskip.
  { intros q Hq. pose proof (suffix_length _ _ Hq).
    destruct (IH q ltac:(lia)) as (t & st & rest & H1 & H2 & H3 & H4).
    exists t, st, rest. split_and!; [done | eauto using suffix_trans, suffix_cons | done |].
    destruct H4 as [H4 | [H4 H5]]; [by left | right; split; [done | lia]]. }
  assert (forall t rest, token_or_error t -> suffix rest s ->
    exists t' st rest', Some (t, String c s, rest) = Some (t', st, rest') /\ suffix st (String c s) /\
      suffix rest' st /\ (t' = lex_token_init /\ rest' = EmptyString \/
      token_or_error t' /\ (String.length rest' < S (String.length s))%nat)) as Hhere.
  { intros t rest Ht Hr. pose proof (suffix_length _ _ Hr). exists t, (String c s), rest.
    split_and!; auto with lex. right. split; [done | lia]. }
  cbn [String.length].
  destruct (isspace c); [by apply Hskip, suffix_refl |].
  destruct (Ascii.eqb c "/"%char).
  - destruct (first_is _ s); [apply Hskip, suffix_tail_l, suffix_span |].
    destruct (first_is _ s); [| apply Hhere; auto with lex].
    pose proof (suffix_comment (str_tail s)) as Hc.
    destruct (skip_comment (str_tail s)) as [q | q]; [apply Hhere | apply Hskip]; auto with lex.
  - destruct (lex_token_here_ok c s) as (t & rest & -> & Ht & Hr). cbn. by apply Hhere.
Qed.

Lemma lex_token_parse_ok p :
  exists t st rest, lex_token_parse p = Some (t, st, rest) /\ suffix st p /\ suffix rest st /\
    (t = lex_token_init /\ rest = EmptyString \/
     token_or_error t /\ (String.length rest < String.length p)%nat).
Proof. apply lex_next_ok. lia. Qed.

Lemma token_type t : token_or_error t -> type t <> LEX_T_END.
Proof. intros [H | [m ->]]; [| done]. destruct H; try done; intros E; cbn in E; by subst. Qed.

Lemma lex_tokens_ok fuel p :
  (String.length p < fuel)%nat ->
  exists ts, lex_tokens fuel p = Some ts /\ Forall token_or_error ts.
Proof.
  revert p. induction fuel as [| fuel IH]; intros p Hf; [lia |]. cbn [lex_tokens].
  destruct (lex_token_parse_ok p) as (t & st & rest & -> & _ & _ & H). cbn.
  destruct H as [[-> ->] | [Ht Hl]]; [by exists [] |].
  rewrite bool_decide_false by (by apply token_type).
  destruct (IH rest ltac:(lia)) as (ts & -> & Hts). eexists. split; [done |]. by constructor.
Qed.

(** More fuel makes no difference. *)
Lemma lex_tokens_fuel f1 f2 p :
  (String.length p < f1)%nat -> (String.length p < f2)%nat -> lex_tokens f1 p = lex_tokens f2 p.
Proof.
  revert f2 p. induction f1 as [| f1 IH]; intros [| f2] p H1 H2; try lia. cbn [lex_tokens].
  destruct (lex_token_parse_ok p) as (t & st & rest & -> & _ & _ & H). cbn.
  destruct H as [[-> ->] | [Ht Hl]]; [done |].
  rewrite bool_decide_false by (by apply token_type). by rewrite (IH f2) by lia.
Qed.

End Tokens.
End OvnLexTokens.
