(* ===== verification/OvnLexRoundtrip.v ===== *)
(** * Tokens of OVN's lexer, to text and back

    The text of tokens, with spaces between them, is read back as the tokens. *)

From stdpp Require Import base option list strings.
From Stdlib Require Import ZArith Lia Ascii.
From S2P Require Import Prelude Strings CString Binary64 OvsJson OvsJsonLex.
From S2P Require Import OvnLex OvnLexNumbers OvnLexAddresses OvnLexInet OvnLexTokens.

Local Open Scope Z_scope.
Local Open Scope string_scope.

Module OvnLexRoundtrip.
Import OvsJson OvsJsonLex OvnLex OvnLexNumbers OvnLexAddresses OvnLexTokens.

#[local] Arguments Ascii.eqb : simpl never.

(** What follows a token *)
Definition spaced (rest : string) : Prop :=
  rest = EmptyString \/ exists r, rest = String " " r.

Lemma spaced_stops rest : spaced rest -> stops rest.
Proof. intros [-> | [r ->]]; [by left | right; eexists _, _; split; [done | by left]]. Qed.

Lemma spaced_first f rest : spaced rest -> f " "%char = false -> first_is f rest = false.
Proof. by intros [-> | [r ->]]. Qed.

(** ** Which token starts where *)

(** A number or an address starts here. *)
Definition number_start (p : string) : bool :=
  first_is isdigit p
  || first_is (Ascii.eqb ":"%char) p && first_is (Ascii.eqb ":"%char) (str_tail p)
  || first_is is_hexit p && first_is (Ascii.eqb ":"%char) (snd (span is_hexit p)).

Lemma span_first f g text rest :
  first_is g (snd (span f text)) = true -> first_is g (snd (span f (text +:+ rest))) = true.
Proof.
  induction text as [| c text IH]; [done |]. rewrite app_cons_str. cbn [span].
  destruct (f c); [| done]. destruct (span f text), (span f (text +:+ rest)). exact IH.
Qed.

Lemma span_no_first f g text rest :
  str_all (fun c => negb (g c)) text = true -> first_is f rest = false ->
  first_is g rest = false -> first_is g (snd (span f (text +:+ rest))) = false.
Proof.
  intros Ht Hf Hg. induction text as [| c text IH].
  - rewrite app_empty_str. by rewrite span_stop.
  - apply andb_true_iff in Ht as [Hc Ht]. specialize (IH Ht). rewrite app_cons_str. cbn [span].
    destruct (f c); [by destruct (span f (text +:+ rest)) |]. cbn. by apply negb_true_iff.
Qed.

Lemma number_start_app text rest :
  number_start text = true -> number_start (text +:+ rest) = true.
Proof.
  unfold number_start. destruct text as [| c text]; [done |].
  intros [[H | [H1 H2]%andb_true_iff]%orb_true_iff | [H1 H2]%andb_true_iff]%orb_true_iff.
  - rewrite app_cons_str. cbn in H |- *. by rewrite H.
  - destruct text as [| d text]; [done |]. rewrite !app_cons_str. cbn in H1, H2 |- *.
    by rewrite H1, H2, orb_true_r.
  - rewrite (span_first _ _ _ _ H2). rewrite app_cons_str. cbn in H1 |- *.
    by rewrite H1, !orb_true_r.
Qed.

(** The token at a character that is neither white space nor a slash *)
Section Roundtrip.
Context {HI : Inet} {HL : InetLaws}.

(** The token at a character that is neither white space nor a slash *)
Lemma parse_here c s t rest :
  isspace c = false -> Ascii.eqb c "/"%char = false ->
  lex_token_here c s = Some (t, rest) ->
  lex_token_parse (String c s) = Some (t, String c s, rest).
Proof.
  intros Hs Hc Ht. unfold lex_token_parse. cbn [lex_next]. by rewrite Hs, Hc, Ht.
Qed.

(** Characters that start a number, an address or an identifier *)
Definition word_start (c : ascii) : bool :=
  isalnum c || Ascii.eqb c ":"%char || Ascii.eqb c "_"%char.

Lemma word_start_facts c :
  word_start c = true ->
  isspace c = false /\ Ascii.eqb c "/"%char = false /\ Ascii.eqb c dquote = false /\
  has_char c "(){}[]=!&|<>.,;-$@^" = false.
Proof.
  destruct c as [[] [] [] [] [] [] [] []]; intros H; try discriminate H; repeat split; reflexivity.
Qed.

Lemma lex_token_here_word c s :
  word_start c = true ->
  lex_token_here c s =
    if Ascii.eqb c ":"%char && negb (first_is (Ascii.eqb ":"%char) s) then Some (bare LEX_T_COLON, s)
    else if Ascii.eqb c ":"%char || isdigit c then Some (lex_parse_integer (String c s))
    else Some (if is_hexit c && first_is (Ascii.eqb ":"%char) (snd (span is_hexit (String c s)))
               then lex_parse_integer (String c s) else lex_parse_id c s LEX_T_ID).
Proof.
  intros Hw. destruct (word_start_facts c Hw) as (_ & _ & Hq & Hp). cbn [has_char] in Hp.
  unfold lex_token_here.
  do 19 (apply orb_false_iff in Hp as [-> Hp]). rewrite Hq.
  unfold word_start, isalnum in Hw. unfold lex_is_id1.
  destruct (Ascii.eqb c ":"%char); [by destruct (negb _) |]. cbn [andb orb] in *.
  destruct (isdigit c); [done |]. destruct (is_hexit c); [done |].
  rewrite !orb_false_r in Hw. by rewrite Hw.
Qed.

Lemma parse_number p :
  number_start p = true ->
  lex_token_parse p = Some (fst (lex_parse_integer p), p, snd (lex_parse_integer p)).
Proof.
  destruct p as [| c s]; [done |]. intros H.
  assert (word_start c = true /\ lex_token_here c s = Some (lex_parse_integer (String c s)))
    as [Hw Hh].
  { unfold number_start in H. cbn [first_is str_tail] in H. unfold word_start.
    apply orb_true_iff in H as [[H | [H1 H2]%andb_true_iff]%orb_true_iff | [H1 H2]%andb_true_iff].
    - destruct (digit_facts c H) as (Ha & Hc & _). rewrite Ha. split; [done |].
      rewrite lex_token_here_word; unfold word_start; by rewrite ?Ha, ?Hc, ?H.
    - apply Ascii.eqb_eq in H1. subst c. split; [done |].
      rewrite lex_token_here_word by done. by rewrite H2.
    - destruct (hexit_facts c H1) as (Ha & _ & _ & _ & _ & _ & Hc & _). rewrite Ha.
      split; [done |]. rewrite lex_token_here_word; unfold word_start; rewrite ?Ha; [| done].
      rewrite Hc, H1, H2. cbn [andb orb]. by destruct (isdigit c). }
  destruct (word_start_facts c Hw) as (H1 & H2 & _).
  apply parse_here; [done | done |]. rewrite Hh. by destruct (lex_parse_integer _).
Qed.

(** ** Names *)

Lemma id1_facts c :
  lex_is_id1 c = true -> c <> "."%char ->
  word_start c = true /\ Ascii.eqb c ":"%char = false /\ isdigit c = false.
Proof.
  destruct c as [[] [] [] [] [] [] [] []]; intros H Hdot;
    first [discriminate H | by destruct Hdot | repeat split; reflexivity].
Qed.

Lemma idn_not_colon c : lex_is_idn c = true -> negb (Ascii.eqb ":"%char c) = true.
Proof. destruct c as [[] [] [] [] [] [] [] []]; intros H; (discriminate H || reflexivity). Qed.

Lemma lex_parse_id_text c s t rest :
  str_all lex_is_idn s = true -> spaced rest ->
  lex_parse_id c (s +:+ rest) t = (name_token t (String c s), rest).
Proof.
  intros Hs Hr. unfold lex_parse_id. by rewrite span_take by (done || by apply spaced_first).
Qed.

Lemma parse_id c s rest :
  lex_is_id1 c = true -> c <> "."%char -> str_all lex_is_idn s = true -> spaced rest ->
  lex_token_parse (String c s +:+ rest) =
    Some (name_token LEX_T_ID (String c s), String c s +:+ rest, rest).
Proof.
  intros Hc Hdot Hs Hr. destruct (id1_facts c Hc Hdot) as (Hw & H1 & H2).
  destruct (word_start_facts c Hw) as (H3 & H4 & _).
  rewrite app_cons_str. apply parse_here; [done | done |].
  rewrite lex_token_here_word by done. rewrite H1, H2. cbn [andb orb].
  rewrite <- app_cons_str, span_no_first; [| | by apply spaced_first..].
  - by rewrite andb_false_r, lex_parse_id_text.
  - apply (str_all_impl lex_is_idn); [apply idn_not_colon |]. cbn [str_all].
    unfold lex_is_idn at 1. by rewrite Hc.
Qed.

Lemma parse_prefixed t c s rest :
  is_prefixed t = true -> lex_is_id1 c = true -> str_all lex_is_idn s = true -> spaced rest ->
  exists text, lex_token_format (name_token t (String c s)) = Some text /\
    lex_token_parse (text +:+ rest) = Some (name_token t (String c s), text +:+ rest, rest).
Proof.
  intros Ht Hc Hs Hr.
  destruct t; try discriminate Ht; (eexists; split; [reflexivity |]); str_simpl;
    (apply parse_here; [reflexivity | reflexivity |]);
    match goal with |- lex_token_here ?d ?x = Some (name_token ?t _, _) =>
      change (lex_token_here d x) with (Some (lex_parse_prefixed d t x)) end;
    cbn [lex_parse_prefixed]; rewrite Hc; by rewrite lex_parse_id_text.
Qed.

(** ** Strings *)

Lemma string_extent_plain c s :
  plain c = true ->
  string_extent (String c s) = '(t, r) ← string_extent s; Some (String c t, r).
Proof.
  intros Hc. cbn [string_extent]. destruct (Ascii.eqb_spec c dquote) as [-> |]; [done |].
  by destruct (Ascii.eqb_spec c backslash) as [-> |].
Qed.

Lemma string_extent_pair e s :
  string_extent (String backslash (String e s)) =
    '(t, r) ← string_extent s; Some (String backslash (String e t), r).
Proof. reflexivity. Qed.

Lemma string_extent_escape s rest :
  no_nul s = true ->
  string_extent (escape_chars s +:+ String dquote rest) = Some (escape_chars s, rest).
Proof.
  induction s as [| c s IH]; [done |]. intros [Hc Hs]%andb_true_iff. specialize (IH Hs).
  apply negb_true_iff, Z.eqb_neq in Hc. rewrite escape_chars_cons, app_assoc_str.
  destruct (escape_escaped c Hc) as [Hp | e _ _ | a b Ha Hb _]; str_simpl.
  - by rewrite string_extent_plain, IH.
  - by rewrite string_extent_pair, IH.
  - rewrite string_extent_pair, !string_extent_plain by done. by rewrite IH.
Qed.

Lemma parse_string s rest :
  no_nul s = true -> spaced rest ->
  lex_token_parse (json_serialize_string s +:+ rest) =
    Some (name_token LEX_T_STRING s, json_serialize_string s +:+ rest, rest).
Proof.
  intros Hs Hr. unfold json_serialize_string. rewrite ds_cstr_id by done.
  rewrite app_cons_str. apply parse_here; [done | done |].
  change (lex_token_here dquote ?x) with (lex_parse_string x). unfold lex_parse_string.
  str_simpl. rewrite string_extent_escape by done. unfold json_string_unescape.
  rewrite unescape_escape_chars by (done || lia). rewrite app_empty_str. by rewrite ds_cstr_id.
Qed.

(** ** Numbers and addresses *)

Lemma number_start_str_int v rest : 0 <= v -> number_start (str_int v +:+ rest) = true.
Proof.
  intros Hv. destruct (str_int_digits v Hv) as (u & -> & Hu & _).
  unfold number_start. by rewrite digits_first_digit.
Qed.

Lemma number_start_value f v : value_ok f v -> number_start (lex_token_format_value v f) = true.
Proof.
  unfold value_ok. intros Hv. destruct f; cbn [lex_token_format_value width] in *;
    rewrite ?Z.mod_small by done.
  - rewrite <- (app_nil_str (str_int v)). apply number_start_str_int. lia.
  - destruct (Z.eq_dec v 0) as [-> | Hne]; [by rewrite ds_put_hex_zero |].
    destruct (ds_put_hex_text (be_bytes 128 v)) as (t & -> & _); [apply be_bytes_bytes | | done].
    by rewrite of_be_bytes_be_bytes.
  - apply number_start_str_int, byte_range.
  - destruct (inet_ntop6_text v Hv) as (_ & Ha & Hc & Htwo & _ & _). unfold number_start.
    rewrite Hc. destruct (inet_ntop6 v) as [| c s]; [done |]. cbn in Hc, Htwo |- *.
    destruct (is_hexit c); [by rewrite !orb_true_r |]. cbn in Hc. rewrite Hc, Htwo by done.
    by rewrite orb_true_r.
  - unfold eth_text, number_start. rewrite (proj1 (hex2_first _ _ (byte_range v 5))).
    rewrite span_take; [by rewrite !orb_true_r | | done].
    by apply hex2_all; [| apply byte_range].
Qed.

Lemma parse_integer f v rest :
  value_ok f v -> spaced rest ->
  lex_token_parse (lex_token_format_value v f +:+ rest) =
    Some (integer_token (shown f v) v, lex_token_format_value v f +:+ rest, rest).
Proof.
  intros Hv Hr. rewrite parse_number by (by apply number_start_app, number_start_value).
  unfold lex_parse_integer. rewrite lex_value by (done || by apply spaced_stops).
  rewrite (spaced_first (Ascii.eqb "/"%char) rest) by done. by rewrite andb_false_r.
Qed.

Lemma parse_masked f v m rest :
  masked_ok f v m -> spaced rest ->
  let text := lex_token_format_value v f +:+ String "/" (mask_text f m) in
  lex_token_parse (text +:+ rest) = Some (masked_token (shown f m) v m, text +:+ rest, rest).
Proof.
  intros Hm Hr. cbv zeta. pose proof Hm as (Hv & _ & Hland). str_simpl.
  rewrite parse_number by (by apply number_start_app, number_start_value).
  unfold lex_parse_integer.
  rewrite lex_value; [| done | right; eexists _, _; split; [done | by right]].
  cbn [first_is str_tail]. change (Ascii.eqb "/" "/") with true. cbn [andb].
  change (type (integer_token _ _)) with LEX_T_INTEGER. rewrite bool_decide_true by done.
  cbn [andb]. rewrite lex_mask by (done || by apply spaced_stops). cbn [fst snd].
  do 4 f_equal. unfold shown. destruct f; try (by destruct (Z.eqb m 0)).
  destruct (Z.eqb_spec m 0) as [-> |]; [| done]. rewrite Z.land_0_r in Hland. by subst v.
Qed.

(** ** Tokens *)

(** Zero in hexadecimal becomes decimal. *)
Definition normal (t : lex_token) : lex_token :=
  match type t with
  | LEX_T_INTEGER => t <| format := shown (format t) (value t) |>
  | LEX_T_MASKED_INTEGER => t <| format := shown (format t) (mask t) |>
  | _ => t
  end.

Lemma normal_type t : type (normal t) = type t.
Proof. unfold normal. by destruct (type t) eqn:E; rewrite <- E. Qed.

Lemma parse_bare t rest :
  is_bare t = true -> spaced rest ->
  exists text, lex_token_format (bare t) = Some text /\
    lex_token_parse (text +:+ rest) = Some (bare t, text +:+ rest, rest).
Proof.
  intros Ht [-> | [r ->]]; destruct t; try discriminate Ht;
    (eexists; split; [reflexivity |]); reflexivity.
Qed.

Lemma token_reads t rest :
  lex_token_ok t -> spaced rest ->
  exists text, lex_token_format t = Some text /\
    lex_token_parse (text +:+ rest) = Some (normal t, text +:+ rest, rest).
Proof.
  intros [ty Ht | c s Hc Hdot Hs | ty c s Ht Hc Hs | s Hs | f v Hv | f v m Hm] Hr.
  - replace (normal (bare ty)) with (bare ty) by (by destruct ty). by apply parse_bare.
  - eexists. split; [reflexivity |]. by apply parse_id.
  - replace (normal (name_token ty (String c s))) with (name_token ty (String c s))
      by (by destruct ty). by apply parse_prefixed.
  - eexists. split; [reflexivity |]. by apply parse_string.
  - eexists. split; [by apply format_integer |]. by apply parse_integer.
  - eexists. split; [by apply format_masked |]. by apply parse_masked.
Qed.

(** Tokens with a space after each of them *)
Fixpoint tokens_text (ts : list lex_token) : option string :=
  match ts with
  | [] => Some EmptyString
  | t :: ts =>
      text ← lex_token_format t;
      rest ← tokens_text ts;
      Some (text +:+ String " " rest)
  end.

Lemma lex_token_parse_space p :
  lex_token_parse (String " " p) = lex_token_parse p.
Proof. reflexivity. Qed.

Lemma lex_tokens_space fuel p : lex_tokens fuel (String " " p) = lex_tokens fuel p.
Proof. by destruct fuel. Qed.

Lemma tokens_read ts :
  Forall lex_token_ok ts ->
  exists text, tokens_text ts = Some text /\
    forall fuel, (String.length text < fuel)%nat -> lex_tokens fuel text = Some (map normal ts).
Proof.
  induction ts as [| t ts IH].
  { intros _. exists EmptyString. split; [done |]. intros [| fuel] Hf; [lia | done]. }
  intros [Ht Hts]%Forall_cons. destruct (IH Hts) as (rest & Hrest & Hread).
  destruct (token_reads t (String " " rest) Ht) as (text & Htext & Hparse); [by right; eexists |].
  exists (text +:+ String " " rest). cbn [tokens_text]. rewrite Htext, Hrest. split; [done |].
  intros [| fuel] Hf; [lia |]. rewrite string_length_app in Hf. cbn [String.length] in Hf.
  cbn [lex_tokens]. rewrite Hparse. cbn. rewrite bool_decide_false
    by (rewrite normal_type; apply token_type; by left).
  rewrite lex_tokens_space, Hread; [done | lia].
Qed.

Lemma normal_format t :
  lex_token_ok t -> lex_token_format (normal t) = lex_token_format t.
Proof.
  intros [ty Ht | c s Hc Hdot Hs | ty c s Ht Hc Hs | s Hs | f v Hv | f v m Hm];
    [by destruct ty | done | by destruct ty | done | |].
  - change (normal (integer_token f v)) with (integer_token (shown f v) v).
    destruct f; try done. cbn [shown]. by destruct (Z.eqb_spec v 0) as [-> |].
  - change (normal (masked_token f v m)) with (masked_token (shown f m) v m).
    destruct f; try done. cbn [shown]. destruct (Z.eqb_spec m 0) as [-> |]; [| done].
    destruct Hm as (_ & _ & Hland). rewrite Z.land_0_r in Hland. by subst v.
Qed.

Lemma normal_text ts :
  Forall lex_token_ok ts -> tokens_text (map normal ts) = tokens_text ts.
Proof.
  induction ts as [| t ts IH]; [done |]. intros [Ht Hts]%Forall_cons.
  cbn [map tokens_text]. by rewrite normal_format, IH.
Qed.

Lemma no_errors_ok ts :
  Forall token_or_error ts -> Forall (fun t => type t <> LEX_T_ERROR) ts ->
  Forall lex_token_ok ts.
Proof.
  induction ts as [| t ts IH]; [by constructor |].
  intros [Ht Hts]%Forall_cons [He Hes]%Forall_cons. constructor; [| by apply IH].
  destruct Ht as [Ht | [m ->]]; [done |]. by destruct He.
Qed.

(** C4: Every input is a list of tokens, well-formed ones and errors.
    If there is no error among them, they have a text, spaces between them, that
    is read back as the same tokens, where a zero in hexadecimal is a decimal one,
    and those have the same text again. *)
Theorem lex_tokens_roundtrip input :
  exists ts, tokens (ds_cstr input) = Some ts /\ Forall token_or_error ts /\
    (Forall (fun t => type t <> LEX_T_ERROR) ts ->
     exists text, tokens_text ts = Some text /\ tokens text = Some (map normal ts) /\
       tokens_text (map normal ts) = Some text).
Proof.
  destruct (lex_tokens_ok (S (String.length (ds_cstr input))) (ds_cstr input)) as (ts & Hts & Hok);
    [lia |].
  exists ts. split; [done |]. split; [done |]. intros He. pose proof (no_errors_ok ts Hok He) as H.
  destruct (tokens_read ts H) as (text & Htext & Hread). exists text.
  split; [done |]. rewrite normal_text by done. split; [apply Hread; lia | done].
Qed.

(** C21: Every call of [lexer_get] ends, leaves the lexer inside its input, with its
    start at the token, and either reports the end, with nothing left, or takes a
    part of the input and reports a well-formed token or an error. *)
Theorem lexer_get_advances l :
  exists l' st, lexer_get l = Some l' /\ start l' = Some st /\ lex_err l' = lex_err l /\
    suffix st (input l) /\ suffix (input l') st /\
    (token l' = lex_token_init /\ input l' = EmptyString \/
     token_or_error (token l') /\ (String.length (input l') < String.length (input l))%nat).
Proof.
  unfold lexer_get. destruct (lex_token_parse_ok (input l)) as (t & st & rest & -> & H1 & H2 & H3).
  eexists _, st. split; [reflexivity |]. by split_and!.
Qed.

(** ** Prefix lengths *)

(** C38: The number of bits of a prefix is taken modulo 2**32: a decimal mask that is
    too large by a multiple of it is accepted. *)
Theorem lex_prefix_bits_wrap ip k n rest :
  0 <= ip < 2 ^ 32 -> 0 <= k <= 32 -> 0 <= n < 2 ^ 32 -> spaced rest ->
  lex_token_parse (ip_text ip +:+ String "/" (str_int (k + n * 2 ^ 32)) +:+ rest) =
    Some (masked_token LEX_F_IPV4 (Z.land ip (be32_prefix_mask k)) (be32_prefix_mask k),
          ip_text ip +:+ String "/" (str_int (k + n * 2 ^ 32)) +:+ rest, rest).
Proof.
  intros Hip Hk Hn Hr. pose proof (number_start_value LEX_F_IPV4 ip Hip) as Hstart.
  cbn [lex_token_format_value] in Hstart. rewrite Z.mod_small in Hstart by done.
  rewrite parse_number by (by apply number_start_app).
  unfold lex_parse_integer.
  rewrite lex_ipv4; [| done | right; eexists _, _; split; [done | by right]].
  cbn [first_is str_tail]. rewrite bool_decide_true by done. change (Ascii.eqb "/" "/") with true.
  cbn [andb]. unfold lex_parse_mask. rewrite app_cons_str. cbn [str_tail].
  rewrite lex_decimal; [| lia | by apply spaced_stops].
  cbn -[Z.land be32_prefix_mask ipv6_create_mask Z.pow Z.modulo u32 str_int].
  replace (u32 ((k + n * 2 ^ 32) mod 2 ^ 64)) with k.
  2: { unfold u32. rewrite (Z.mod_small (k + n * 2 ^ 32)) by lia.
       rewrite Z.mod_add by lia. by rewrite Z.mod_small by lia. }
  by rewrite (proj2 (Z.leb_le k 32)) by lia.
Qed.

End Roundtrip.

(** ** Examples *)
Import OvnLexInet.

Definition example_match : string :=
  "ip4.src == {10.0.0.0/8, fe80:0000:0000:0000:0000:0000:0000:0001} && $as.1 .. 0x0/0x0".

Lemma lex_tokens_roundtrip_witness :
  exists text, tokens (ds_cstr example_match) <> None /\
    tokens text =
      Some (map normal (default [] (tokens example_match))).
Proof.
  destruct (lex_tokens_roundtrip example_match)
    as (ts & Hts & _ & H).
  destruct H as (text & _ & Hread & _).
  { vm_compute in Hts. injection Hts as <-. repeat (constructor; [discriminate |]). constructor. }
  exists text. split; [by rewrite Hts |].
  change (tokens example_match)
    with (tokens (ds_cstr example_match)).
  by rewrite Hts.
Defined.

Lemma lexer_get_advances_witness :
  exists l', lexer_get (lexer_init " ip4 == 1.2.3.4") = Some l' /\ start l' = Some "ip4 == 1.2.3.4" /\
    suffix (input l') "ip4 == 1.2.3.4".
Proof.
  destruct (lexer_get_advances (lexer_init " ip4 == 1.2.3.4")) as (l' & st & Hg & Hst & _ & _ & Hs & _).
  exists l'. split; [done |]. rewrite Hst. vm_compute in Hg. injection Hg as <-.
  injection Hst as <-. done.
Defined.

(** [1.2.3.4/4294967320] is [1.2.3.0/24]. *)
Lemma lex_prefix_bits_wrap_witness :
  lex_token_parse "1.2.3.4/4294967320" =
    Some (masked_token LEX_F_IPV4 16909056 4294967040, "1.2.3.4/4294967320", EmptyString).
Proof.
  apply (lex_prefix_bits_wrap 16909060 24 1 EmptyString); [lia | lia | lia | by left].
Defined.

(** The check of an Ethernet address is that of its length: bytes of one digit are
    accepted if another has more, and lose what is above their eight bits. *)
Lemma lex_ethernet_length_only :
  lex_token_parse "1:2:3:4:5:6666666" =
    Some (integer_token LEX_F_ETHERNET 1108152157542, "1:2:3:4:5:6666666", EmptyString).
Proof. vm_compute. reflexivity. Qed.

End OvnLexRoundtrip.
