(* ===== verification/OvnLexTemplates.v ===== *)
(** * The expansion of templates

    [lexer_parse_template_string] puts the values of the templates in the place of
    their names, or reports the first name that has no value. *)

From stdpp Require Import base option list strings.
From Stdlib Require Import ZArith Lia Ascii.
From S2P Require Import Prelude Strings CString Binary64 OvsJson.
From S2P Require Import OvnLex OvnLexNumbers OvnLexAddresses OvnLexInet OvnLexTokens.

Local Open Scope Z_scope.
Local Open Scope string_scope.

Module OvnLexTemplates.
Import OvsJson OvnLex OvnLexNumbers OvnLexAddresses OvnLexTokens.

Section Templates.
Context {HI : Inet} {HL : InetLaws} (vars : string -> option string).

(** What a token becomes *)
Definition piece (t : lex_token) : option string :=
  if bool_decide (type t = LEX_T_TEMPLATE) then str t ≫= vars else lex_token_format t.

(** The templates of a list of tokens *)
Definition template_names (ts : list lex_token) : list string :=
  omap (fun t => if bool_decide (type t = LEX_T_TEMPLATE) then str t else None) ts.

(** A template without a value *)
Definition missing (t : lex_token) (name : string) : Prop :=
  type t = LEX_T_TEMPLATE /\ str t = Some name /\ vars name = None.

Lemma format_some t : token_or_error t -> is_Some (lex_token_format t).
Proof.
  intros [H | [m ->]]; [| done].
  destruct H as [ty Ht | c s Hc Hdot Hs | ty c s Ht Hc Hs | s Hs | f v Hv | f v m Hm]; try done;
    by destruct ty.
Qed.

Lemma template_name t :
  token_or_error t -> type t = LEX_T_TEMPLATE -> is_Some (str t).
Proof.
  intros [H | [m ->]]; [| done].
  destruct H as [ty Ht | c s Hc Hdot Hs | ty c s Ht Hc Hs | s Hs | f v Hv | f v m Hm]; try done.
  intros E. cbn in E. by subst.
Qed.

(** A token has a piece, or it is a template without a value. *)
Lemma piece_cases t : token_or_error t -> is_Some (piece t) \/ exists name, missing t name.
Proof.
  intros Ht. unfold piece, missing. case_bool_decide as Hty; [| left; by apply format_some].
  destruct (template_name t Ht Hty) as [name Hn]. rewrite Hn. cbn.
  destruct (vars name) as [v |] eqn:Hv; [by left | right; by exists name].
Qed.

Lemma expand_read expanded refs ts : expand vars false expanded refs ts = Some (false, expanded, refs).
Proof. induction ts as [| t ts IH]; [done | exact IH]. Qed.

Lemma expand_piece expanded refs t ts text :
  piece t = Some text ->
  expand vars true expanded refs (t :: ts) =
    expand vars true (expanded +:+ text) (refs ++ template_names [t])%list ts.
Proof.
  unfold piece. cbn. case_bool_decide as Hty; intros Hp.
  - destruct (str t) as [name |]; [| done]. cbn in Hp |- *. by rewrite Hp.
  - rewrite Hp. cbn. by rewrite app_nil_r.
Qed.

Lemma expand_missing expanded refs t ts name :
  missing t name ->
  expand vars true expanded refs (t :: ts) = Some (false, expanded, refs ++ [name])%list.
Proof.
  intros (Hty & Hn & Hv). cbn. rewrite Hty, Hn. cbn. by rewrite Hv, expand_read.
Qed.

(** The values of all templates are found, or those of the ones before the first
    that is missing. *)
Lemma expand_exact ts expanded refs :
  Forall token_or_error ts ->
  (exists pieces, mapM piece ts = Some pieces /\
     expand vars true expanded refs ts =
       Some (true, expanded +:+ String.concat EmptyString pieces, refs ++ template_names ts)%list) \/
  (exists ts1 t ts2 name pieces, ts = (ts1 ++ t :: ts2)%list /\ missing t name /\
     mapM piece ts1 = Some pieces /\
     expand vars true expanded refs ts =
       Some (false, expanded +:+ String.concat EmptyString pieces,
             refs ++ template_names ts1 ++ [name])%list).
Proof.
  intros Hts. revert expanded refs. induction Hts as [| t ts Ht Hts IH]; intros expanded refs.
  { left. exists []. split; [done |]. by rewrite app_nil_str, app_nil_r. }
  destruct (piece_cases t Ht) as [[text Hp] | [name Hm]].
  - rewrite (expand_piece _ _ _ _ _ Hp).
    assert (forall ps, String.concat EmptyString (text :: ps) =
      text +:+ String.concat EmptyString ps) as Hc.
    { intros [| p ps]; [by rewrite app_nil_str | done]. }
    assert (forall us, template_names (t :: us) = (template_names [t] ++ template_names us)%list) as Hn.
    { intros us. unfold template_names. cbn. by case_match. }
    assert (forall us ps, mapM piece us = Some ps -> mapM piece (t :: us) = Some (text :: ps)) as Hm.
    { intros us ps Hps. cbn. rewrite Hp. cbn. by rewrite Hps. }
    destruct (IH (expanded +:+ text) (refs ++ template_names [t])%list)
      as [(ps & Hps & ->) | (ts1 & u & ts2 & name & ps & -> & Hu & Hps & ->)].
    + left. exists (text :: ps). split; [by apply Hm |].
      rewrite Hc, (Hn ts), app_assoc_str. by rewrite <- app_assoc.
    + right. exists (t :: ts1), u, ts2, name, (text :: ps). split_and!; [done | done | by apply Hm |].
      rewrite Hc, (Hn ts1), app_assoc_str. by rewrite <- !app_assoc.
  - right. exists [], t, ts, name, []. split_and!; [done | done | done |].
    rewrite app_nil_str. by apply expand_missing.
Qed.

(** C29: A text without the character ^ is its own expansion.  Any other one, also
    where a ^ is only in a string or a comment, is expanded to the texts of its
    tokens, with the values of the templates, or, if one of the templates has no
    value, fails with an empty text and the names of the templates up to that
    one. *)
Theorem template_expansion_exact s :
  exists ts, tokens (ds_cstr s) = Some ts /\
    if has_char "^"%char (ds_cstr s) then
      (exists pieces, mapM piece ts = Some pieces /\
         lexer_parse_template_string s vars =
           Some (true, String.concat EmptyString pieces, template_names ts)) \/
      (exists ts1 t ts2 name, ts = (ts1 ++ t :: ts2)%list /\ missing t name /\
         is_Some (mapM piece ts1) /\
         lexer_parse_template_string s vars =
           Some (false, EmptyString, template_names ts1 ++ [name])%list)
    else lexer_parse_template_string s vars = Some (true, ds_cstr s, []).
Proof.
  destruct (lex_tokens_ok (S (String.length (ds_cstr s))) (ds_cstr s)) as (ts & Hts & Hok); [lia |].
  exists ts. split; [done |]. unfold lexer_parse_template_string. fold (tokens (ds_cstr s)) in Hts.
  destruct (has_char "^"%char (ds_cstr s)); [| done]. cbn [negb]. rewrite Hts. cbn.
  destruct (expand_exact ts EmptyString [] Hok)
    as [(ps & Hps & ->) | (ts1 & u & ts2 & name & ps & -> & Hu & Hps & ->)].
  - left. by exists ps.
  - right. exists ts1, u, ts2, name. by rewrite Hps.
Qed.

End Templates.

Import OvnLexInet.

Lemma template_expansion_exact_witness :
  lexer_parse_template_string "ip4.dst == ^vip && tcp" (fun _ => Some "10.0.0.1") =
    Some (true, "ip4.dst==10.0.0.1&&tcp", ["vip"]).
Proof.
  destruct (template_expansion_exact (fun _ => Some "10.0.0.1") "ip4.dst == ^vip && tcp")
    as (ts & Hts & H).
  vm_compute in Hts. injection Hts as <-.
  destruct H as [(ps & Hps & ->) | (ts1 & t & ts2 & name & _ & (_ & _ & Hv) & _)]; [| done].
  vm_compute in Hps. by injection Hps as <-.
Defined.

(** White space between the tokens is not part of the expansion of a template. *)
Lemma template_expansion_drops_spaces :
  lexer_parse_template_string "{^a 2}" (fun _ => Some "1") = Some (true, "{12}", ["a"]).
Proof. vm_compute. reflexivity. Qed.

End OvnLexTemplates.
