(* ===== verification/ExprParse.v ===== *)
(** * The parser of OVN match expressions (ovn/lib/expr.c)

    [expr_parse_string] and the functions under it.  A function of the parser
    changes the lexer of its context and the sets of names it has met, and returns
    a value or a null pointer (or false): it is a [parser].  The members [not] and
    [paren_depth] of the context, which the code restores, are arguments; the
    latter is the number of parentheses that may still be opened.  The loops take
    a token in each iteration, so that what is left of the input is fuel enough;
    [ExprParseProofs] proves it. *)

From stdpp Require Import base option list strings gmap.
From Stdlib Require Import ZArith Lia.
From S2P Require Import Prelude Strings CString Binary64 OvsJson OvnLex.
From S2P Require Import Subvalue Expr.

Local Open Scope Z_scope.
Local Open Scope string_scope.

Module ExprParse.
Import OvnLex Subvalue Expr.

(** ** Symbols *)

(** A symbol with the members that the passes do not use.  [n_bytes] of a symbol
    without [field] is 0. *)
Record symbol_info := SymbolInfo {
  sym : expr_symbol;
  parent : option expr_symbol;
  parent_ofs : Z;
  predicate : option string;
  prereqs : option string;
  rw : Z;
}.

Abbreviation symtab := (gmap string symbol_info).

Record expr_field := Field {
  f_symbol : symbol_info;
  ofs : Z;
  n_bits : Z;
}.

Definition expr_level_to_string (l : expr_level) : string :=
  match l with
  | EXPR_L_NOMINAL => "nominal"
  | EXPR_L_BOOLEAN => "Boolean"
  | EXPR_L_ORDINAL => "ordinal"
  end.

Definition expr_relop_from_token (t : lex_type) : option expr_relop :=
  match t with
  | LEX_T_EQ => Some EXPR_R_EQ
  | LEX_T_NE => Some EXPR_R_NE
  | LEX_T_LT => Some EXPR_R_LT
  | LEX_T_LE => Some EXPR_R_LE
  | LEX_T_GT => Some EXPR_R_GT
  | LEX_T_GE => Some EXPR_R_GE
  | _ => None
  end.

(** ** Constants *)

Inductive expr_constant_type := EXPR_C_INTEGER | EXPR_C_STRING.

#[export] Instance expr_constant_type_eq_dec : EqDecision expr_constant_type.
Proof. solve_decision. Defined.

(** [c_string] has a meaning for string constants only, the other members but
    [as_name] for integer constants only. *)
Record expr_constant := Constant {
  as_name : option string;
  c_string : string;
  c_value : Z;
  c_mask : Z;
  c_masked : bool;
  c_format : lex_format;
}.

#[export] Instance rebuild_constant : Rebuild expr_constant := fun c =>
  Constant (as_name c) (c_string c) (c_value c) (c_mask c) (c_masked c) (c_format c).

Record expr_constant_set := ConstantSet {
  values : list expr_constant;
  cs_type : expr_constant_type;
  in_curlies : bool;
}.

#[export] Instance rebuild_constant_set : Rebuild expr_constant_set := fun cs =>
  ConstantSet (values cs) (cs_type cs) (in_curlies cs).

Definition string_constant (s : string) : expr_constant :=
  Constant None s 0 0 false LEX_F_DECIMAL.

(** [bitwise_rscan] for the highest 1-bit *)
Fixpoint highest_bit (v : Z) (n : nat) : Z :=
  match n with
  | O => -1
  | S n => if Z.testbit v (Z.of_nat n) then Z.of_nat n else highest_bit v n
  end.

Definition mf_subvalue_width (v : Z) : Z := 1 + highest_bit v (Z.to_nat subvalue_bits).

Definition expr_constant_width (c : expr_constant) : Z :=
  if c_masked c then mf_subvalue_width (c_mask c)
  else match c_format c with
       | LEX_F_DECIMAL | LEX_F_HEXADECIMAL => mf_subvalue_width (c_value c)
       | LEX_F_IPV4 => 32
       | LEX_F_IPV6 => 128
       | LEX_F_ETHERNET => 48
       end.

(** [bitwise_copy] from the low bits of a subvalue to an offset of a zero one *)
Definition sv_place (src ofs n_bits : Z) : Z := Z.shiftl (Z.land src (Z.ones n_bits)) ofs.

Definition make_cmp__ (f : expr_field) (r : expr_relop) (c : expr_constant) : expr :=
  let s := sym (f_symbol f) in
  ECmp (as_name c)
    (if negb (Z.eqb (width s) 0) then
       {| symbol := s; relop := r; cst_string := EmptyString;
          value := sv_place (c_value c) (ofs f) (n_bits f);
          mask := if c_masked c then sv_place (c_mask c) (ofs f) (n_bits f)
                  else sv_range (ofs f) (n_bits f) |}
     else
       {| symbol := s; relop := r; cst_string := c_string c; value := 0; mask := 0 |}).

(** ** Parsers *)

Record expr_context := Context {
  lexer : OvnLex.lexer;
  addr_sets_ref : option (gmap string Z);
  port_groups_ref : option (gset string);
}.

#[export] Instance rebuild_context : Rebuild expr_context := fun ctx =>
  Context (lexer ctx) (addr_sets_ref ctx) (port_groups_ref ctx).

(** What a function of the parser returns, [None] for a null pointer or false, and
    the context; [None] for both where an assertion fails or a loop runs out of
    fuel *)
Definition parser (A : Type) : Type := expr_context -> option (option A * expr_context).

Definition ret {A} (a : A) : parser A := fun ctx => Some (Some a, ctx).

Definition bind {A B} (m : parser A) (k : A -> parser B) : parser B := fun ctx =>
  '(r, ctx) ← m ctx;
  match r with Some a => k a ctx | None => Some (None, ctx) end.

Declare Scope parser_scope.
Notation "'let!' x := m 'in' k" := (bind m (fun x => k))
  (at level 10, x binder, m at level 100, k at level 200) : parser_scope.
Notation "'let!' ' p := m 'in' k" := (bind m (fun x => match x with p => k end))
  (at level 10, p strict pattern, m at level 100, k at level 200)
  : parser_scope.
Local Open Scope parser_scope.

(** A call that may fail without the caller returning at once *)
Definition attempt {A} (m : parser A) : parser (option A) := fun ctx =>
  '(r, ctx) ← m ctx; Some (Some r, ctx).

Definition of_option {A} (o : option A) : parser A := fun ctx => Some (o, ctx).

Definition on_lexer {A} (f : OvnLex.lexer -> option (A * OvnLex.lexer)) : parser A := fun ctx =>
  '(a, l) ← f (lexer ctx); Some (Some a, ctx <| lexer := l |>).

(** [lexer_error] or [lexer_syntax_error], and the return of a null pointer *)
Definition error {A} (message : string) : parser A := fun ctx =>
  Some (None, ctx <| lexer ::= lexer_error message |>).
Definition syntax_error {A} (message : string) : parser A := fun ctx =>
  Some (None, ctx <| lexer ::= lexer_syntax_error (Some message) |>).

Definition token_now : parser lex_token := fun ctx => Some (Some (token (lexer ctx)), ctx).

(** [token.s], which is not null where it is read *)
Definition token_string : parser string := fun ctx =>
  s ← str (token (lexer ctx)); Some (Some s, ctx).

Section Parse.
Context {HI : Inet}.
Context (symbols : option symtab).
Context (addr_sets port_groups : option (gmap string expr_constant_set)).
Context (dp_id : Z).

Definition get : parser unit := on_lexer (fun l => l ← lexer_get l; Some (tt, l)).
Definition match_ (t : lex_type) : parser bool := on_lexer (lexer_match t).
Definition force_match (t : lex_type) : parser unit :=
  let! ok := on_lexer (lexer_force_match t) in if ok : bool then ret tt else of_option None.
Definition force_int : parser Z :=
  let! '(ok, v) := on_lexer lexer_force_int in if ok : bool then ret v else of_option None.
Definition lookahead : parser lex_type :=
  on_lexer (fun l => t ← lexer_lookahead l; Some (t, l)).

(** What is left of the input: the token and the bytes after it *)
Definition remaining (l : OvnLex.lexer) : nat :=
  (String.length (input l) + (if bool_decide (type (token l) = LEX_T_END) then 0 else 1))%nat.

(** ** Comparisons *)

Fixpoint check_widths (s : expr_symbol) (cs : list expr_constant) : parser unit :=
  match cs with
  | [] => ret tt
  | c :: cs =>
      let w := expr_constant_width c in
      if (width s <? w)%Z then
        error (str_int w +:+ "-bit constant is not compatible with " +:+ str_int (width s)
               +:+ "-bit field " +:+ name s +:+ ".")
      else check_widths s cs
  end.

Definition type_check (f : expr_field) (cs : expr_constant_set) : parser unit :=
  let s := sym (f_symbol f) in
  let numeric := negb (Z.eqb (width s) 0) in
  if negb (bool_decide (cs_type cs = if numeric then EXPR_C_INTEGER else EXPR_C_STRING)) then
    error ((if numeric then "Integer" else "String") +:+ " field " +:+ name s
           +:+ " is not compatible with "
           +:+ (if bool_decide (cs_type cs = EXPR_C_INTEGER) then "integer" else "string")
           +:+ " constant.")
  else if numeric then check_widths s (values cs) else ret tt.

(** What relational operators other than [==] and [!=] are refused for *)
Definition check_relational (f : expr_field) (cs : expr_constant_set) : parser unit :=
  let s := sym (f_symbol f) in
  if in_curlies cs then error "Only == and != operators may be used with value sets."
  else if bool_decide (level s = EXPR_L_NOMINAL) || bool_decide (level s = EXPR_L_BOOLEAN) then
    error ("Only == and != operators may be used with " +:+ expr_level_to_string (level s)
           +:+ " field " +:+ name s +:+ ".")
  else match values cs with
       | [] => error "Only == and != operators may be used to compare a field against an empty value set."
       | c :: _ =>
           if c_masked c then
             error "Only == and != operators may be used with masked constants.  Consider using subfields instead (e.g. eth.src[0..15] > 0x1111 in place of eth.src > 00:00:00:00:11:11/00:00:00:00:ff:ff)."
           else ret tt
       end.

(** The test of a nominal predicate against [c] is positive, enclosing [!]
    operators taken into account. *)
Definition positive (not : bool) (r : expr_relop) (c : expr_constant) : bool :=
  xorb (xorb (Z.testbit (c_value c) 0) (bool_decide (r = EXPR_R_NE))) not.

Definition check_nominal (not : bool) (f : expr_field) (r : expr_relop)
    (cs : expr_constant_set) : parser unit :=
  let s := sym (f_symbol f) in
  if bool_decide (is_Some (predicate (f_symbol f))) then
    if negb (0 <? width s)%Z then fun _ => None
    else if forallb (positive not r) (values cs) then ret tt
    else error ("Nominal predicate " +:+ name s +:+ " may only be tested positively, e.g. `"
                +:+ name s +:+ "' or `" +:+ name s +:+ " == 1' but not `!" +:+ name s
                +:+ "' or `" +:+ name s +:+ " == 0'.")
  else if bool_decide (r = if not then EXPR_R_NE else EXPR_R_EQ) then ret tt
  else error ("Nominal field " +:+ name s
              +:+ " may only be tested for equality (taking enclosing `!' operators into account).").

Definition is_relational (r : expr_relop) : bool :=
  negb (bool_decide (r = EXPR_R_EQ)) && negb (bool_decide (r = EXPR_R_NE)).

(** One comparison for each constant, combined *)
Definition make_cmps (f : expr_field) (r : expr_relop) (cs : list expr_constant) : option expr :=
  match cs with
  | [] => Some (expr_create_boolean (bool_decide (r = EXPR_R_NE)))
  | c :: cs =>
      foldl (fun e c => expr_combine (if bool_decide (r = EXPR_R_EQ) then OR else AND)
                          e (Some (make_cmp__ f r c)))
        (Some (make_cmp__ f r c)) cs
  end.

Definition make_cmp (not : bool) (f : expr_field) (r : expr_relop) (cs : expr_constant_set) :
    parser expr :=
  let! _ := type_check f cs in
  let! _ := if is_relational r then check_relational f cs else ret tt in
  let! _ := if bool_decide (level (sym (f_symbol f)) = EXPR_L_NOMINAL)
            then check_nominal not f r cs else ret tt in
  of_option (make_cmps f r (values cs)).

(** ** Fields, operators and constants *)

Definition parse_field : parser expr_field :=
  let! t := token_now in
  if negb (bool_decide (type t = LEX_T_ID)) then syntax_error "expecting field name"
  else
    let! id := token_string in
    match symbols ≫= (fun tab => tab !! id) with
    | None => syntax_error "expecting field name"
    | Some symbol =>
        let s := sym symbol in
        let! _ := get in
        let! bracket := match_ LEX_T_LSQUARE in
        if negb bracket then ret (Field symbol 0 (width s))
        else if Z.eqb (width s) 0 then
          error ("Cannot select subfield of string field " +:+ name s +:+ ".")
        else
          let! low := force_int in
          let! range := match_ LEX_T_ELLIPSIS in
          let! high := if range : bool then force_int else ret low in
          let! _ := force_match LEX_T_RSQUARE in
          if (high <? low)%Z then
            error ("Invalid bit range " +:+ str_int low +:+ " to " +:+ str_int high +:+ ".")
          else if (width s <=? high)%Z then
            error ("Cannot select bits " +:+ str_int low +:+ " to " +:+ str_int high +:+ " of "
                   +:+ str_int (width s) +:+ "-bit field " +:+ name s +:+ ".")
          else if bool_decide (level s = EXPR_L_NOMINAL)
                  && (negb (Z.eqb low 0) || negb (Z.eqb high (width s - 1))) then
            error ("Cannot select subfield of nominal field " +:+ name s +:+ ".")
          else ret (Field symbol low (high - low + 1))
    end.

Definition parse_relop : parser expr_relop :=
  let! t := token_now in
  match expr_relop_from_token (type t) with
  | Some r => let! _ := get in ret r
  | None => syntax_error "expecting relational operator"
  end.

Definition assign_constant_set_type (cs : expr_constant_set) (t : expr_constant_type) :
    parser expr_constant_set :=
  if bool_decide (values cs = []) || bool_decide (cs_type cs = t)
  then ret (cs <| cs_type := t |>)
  else syntax_error ("expecting "
                     +:+ if bool_decide (cs_type cs = EXPR_C_INTEGER) then "integer" else "string").

Definition push (cs : expr_constant_set) (l : list expr_constant) : expr_constant_set :=
  cs <| values ::= fun v => (v ++ l)%list |>.

Definition count_ref (id : string) (refs : gmap string Z) : gmap string Z :=
  <[id := match refs !! id with Some n => n + 1 | None => 1 end]> refs.

Definition parse_addr_sets (cs : expr_constant_set) : parser expr_constant_set :=
  let! id := token_string in
  let! _ := (fun ctx => Some (Some tt, ctx <| addr_sets_ref ::= fmap (count_ref id) |>)) in
  match addr_sets ≫= (fun tab => tab !! id) with
  | None => syntax_error "expecting address set name"
  | Some set =>
      let! cs := assign_constant_set_type cs EXPR_C_INTEGER in
      ret (push cs (map (fun c => c <| as_name := Some id |>) (values set)))
  end.

Definition get_sb_port_group_name (id : string) : string := str_int dp_id +:+ "_" +:+ id.

Definition parse_port_group (cs : expr_constant_set) : parser expr_constant_set :=
  let! id := token_string in
  let sb_name := get_sb_port_group_name id in
  let! _ := (fun ctx =>
    Some (Some tt, ctx <| port_groups_ref ::= fmap (fun s => {[sb_name]} ∪ s) |>)) in
  match port_groups ≫= (fun tab => tab !! sb_name) with
  | None => syntax_error "expecting port group name"
  | Some set =>
      let! cs := assign_constant_set_type cs EXPR_C_STRING in
      ret (push cs (map (fun c => c <| as_name := None |>) (values set)))
  end.

Definition parse_constant (cs : expr_constant_set) : parser expr_constant_set :=
  let! t := token_now in
  match type t with
  | LEX_T_TEMPLATE => error "Unexpanded template."
  | LEX_T_STRING =>
      let! cs := assign_constant_set_type cs EXPR_C_STRING in
      let! s := token_string in
      let! _ := get in
      ret (push cs [string_constant s])
  | LEX_T_INTEGER | LEX_T_MASKED_INTEGER =>
      let! cs := assign_constant_set_type cs EXPR_C_INTEGER in
      let masked := bool_decide (type t = LEX_T_MASKED_INTEGER) in
      let! _ := get in
      ret (push cs [Constant None EmptyString (OvnLex.value t)
                      (if masked then OvnLex.mask t else 0) masked (format t)])
  | LEX_T_MACRO =>
      let! cs := parse_addr_sets cs in
      let! _ := get in
      ret cs
  | LEX_T_PORT_GROUP =>
      let! cs := parse_port_group cs in
      let! _ := get in
      ret cs
  | _ => syntax_error "expecting constant"
  end.

Fixpoint parse_constants (fuel : nat) (cs : expr_constant_set) : parser expr_constant_set :=
  match fuel with
  | O => fun _ => None
  | S fuel =>
      let! cs := parse_constant cs in
      let! _ := match_ LEX_T_COMMA in
      let! close := match_ LEX_T_RCURLY in
      if close : bool then ret cs else parse_constants fuel cs
  end.

Definition empty_set : expr_constant_set := ConstantSet [] EXPR_C_INTEGER false.

Definition parse_constant_set : parser expr_constant_set :=
  let! curly := match_ LEX_T_LCURLY in
  if curly : bool
  then fun ctx => parse_constants (S (remaining (lexer ctx))) (empty_set <| in_curlies := true |>) ctx
  else parse_constant empty_set.

(** ** Expressions *)

Definition parse_chassis_resident : parser expr :=
  let! t := token_now in
  if negb (bool_decide (type t = LEX_T_STRING)) then syntax_error "expecting string"
  else
    let! s := token_string in
    let! _ := get in
    let! _ := force_match LEX_T_RPAREN in
    ret (ECondition false s).

(** The constant that a field without an operator is compared with *)
Definition zero_set : expr_constant_set :=
  ConstantSet [Constant None EmptyString 0 0 false LEX_F_HEXADECIMAL] EXPR_C_INTEGER false.

(** A comparison that starts with a field, and whether it is atomic *)
Definition parse_field_cmp (not : bool) : parser (expr * bool) :=
  let! f := parse_field in
  let! t := token_now in
  match expr_relop_from_token (type t) with
  | None =>
      if Z.eqb (n_bits f) 0 || bool_decide (type t = LEX_T_EQUALS)
      then syntax_error "expecting relational operator"
      else if (1 <? n_bits f)%Z && negb not then
        error "Explicit `!= 0' is required for inequality test of multibit field against 0."
      else let! e := make_cmp not f EXPR_R_NE zero_set in ret (e, true)
  | Some _ =>
      let! r := parse_relop in
      let! cs := parse_constant_set in
      let! e := make_cmp not f r cs in
      ret (e, false)
  end.

(** The constant is 0 or 1 and stands for itself. *)
Definition literal (cs : expr_constant_set) (next : lex_type) : option bool :=
  match expr_relop_from_token next, values cs with
  | None, [c] =>
      let x := c_value c mod 2 ^ 64 in
      if bool_decide (cs_type cs = EXPR_C_INTEGER) && bool_decide (c_format c = LEX_F_DECIMAL)
         && negb (c_masked c) && negb (in_curlies cs) && (x <=? 1)%Z
      then Some (negb (Z.eqb x 0)) else None
  | _, _ => None
  end.

Definition is_less (r : expr_relop) : bool :=
  bool_decide (r = EXPR_R_LT) || bool_decide (r = EXPR_R_LE).
Definition is_greater (r : expr_relop) : bool :=
  bool_decide (r = EXPR_R_GT) || bool_decide (r = EXPR_R_GE).

(** [x < field < y]; both comparisons are made before an error of one is seen. *)
Definition make_range (not : bool) (f : expr_field) (r1 r2 : expr_relop)
    (c1 c2 : expr_constant_set) : parser expr :=
  let! e1 := attempt (make_cmp not f (expr_relop_turn r1) c1) in
  let! e2 := attempt (make_cmp not f r2 c2) in
  fun ctx => Some (match lex_err (lexer ctx) with
                   | Some _ => None
                   | None => expr_combine AND e1 e2
                   end, ctx).

(** A comparison that starts with a constant, or a literal *)
Definition parse_constant_cmp (not : bool) : parser (expr * bool) :=
  let! c1 := parse_constant_set in
  let! t := token_now in
  match literal c1 (type t) with
  | Some b => ret (expr_create_boolean b, true)
  | None =>
      let! r1 := parse_relop in
      let! f := parse_field in
      let! t := token_now in
      match expr_relop_from_token (type t) with
      | None => let! e := make_cmp not f (expr_relop_turn r1) c1 in ret (e, false)
      | Some _ =>
          let! r2 := parse_relop in
          let! c2 := parse_constant_set in
          if negb (is_less r1 && is_less r2 || is_greater r1 && is_greater r2) then
            error "Range expressions must have the form `x < field < y' or `x > field > y', with each `<' optionally replaced by `<=' or `>' by `>=')."
          else let! e := make_range not f r1 r2 c1 c2 in ret (e, false)
      end
  end.

(** An operand and whether it is atomic; [parse] parses an expression in
    parentheses, where they may be opened. *)
Definition expr_parse_primary (parse : option (bool -> parser expr)) (not : bool) :
    parser (expr * bool) :=
  let! paren := match_ LEX_T_LPAREN in
  if paren : bool then
    match parse with
    | None => error "Parentheses nested too deeply."
    | Some parse =>
        let! e := attempt (parse not) in
        let! _ := force_match LEX_T_RPAREN in
        of_option (e ← e; Some (e, true))
    end
  else
    let! t := token_now in
    match type t with
    | LEX_T_TEMPLATE => error "Unexpanded template."
    | LEX_T_ID =>
        let! next := lookahead in
        if bool_decide (next = LEX_T_LPAREN) then
          let! resident := on_lexer (lexer_match_id "is_chassis_resident") in
          if resident : bool then
            let! _ := get in
            let! e := parse_chassis_resident in
            ret (e, true)
          else error "parsing function name"
        else parse_field_cmp not
    | _ => parse_constant_cmp not
    end.

Definition expr_parse_not (parse : option (bool -> parser expr)) (not : bool) : parser expr :=
  let! negated := match_ LEX_T_LOG_NOT in
  if negated : bool then
    let! '(e, atomic) := expr_parse_primary parse (negb not) in
    if atomic : bool then ret (expr_not e) else error "Missing parentheses around operand of !."
  else
    let! '(e, _) := expr_parse_primary parse not in
    ret e.

Fixpoint parse_operands (parse : option (bool -> parser expr)) (not : bool) (t : lex_type)
    (fuel : nat) (e : expr) : parser expr :=
  match fuel with
  | O => fun _ => None
  | S fuel =>
      let! e2 := expr_parse_not parse not in
      let! e := of_option (expr_combine (if bool_decide (t = LEX_T_LOG_AND) then AND else OR)
                             (Some e) (Some e2)) in
      let! more := match_ t in
      if more : bool then parse_operands parse not t fuel e else ret e
  end.

Definition is_logical (t : lex_type) : bool :=
  bool_decide (t = LEX_T_LOG_AND) || bool_decide (t = LEX_T_LOG_OR).

Fixpoint expr_parse__ (levels : nat) (not : bool) : parser expr :=
  let parse := match levels with O => None | S levels => Some (expr_parse__ levels) end in
  let! e := expr_parse_not parse not in
  let! t := token_now in
  if is_logical (type t) then
    let! _ := get in
    let! e := (fun ctx => parse_operands parse not (type t) (S (remaining (lexer ctx))) e ctx) in
    let! t := token_now in
    if is_logical (type t)
    then error "&& and || must be parenthesized when used together."
    else ret e
  else ret e.

Definition MAX_PAREN_DEPTH : nat := 100.

Definition expr_parse : parser expr := fun ctx =>
  match lex_err (lexer ctx) with
  | Some _ => Some (None, ctx)
  | None => expr_parse__ MAX_PAREN_DEPTH false ctx
  end.

(** The expression, the error and the context with the names that were met *)
Definition expr_parse_string (s : string) (as_refs : option (gmap string Z))
    (pg_refs : option (gset string)) : option (option expr * option string * expr_context) :=
  l ← lexer_get (lexer_init s);
  '(e, ctx) ← expr_parse (Context l as_refs pg_refs);
  let '(_, l) := lexer_force_end (lexer ctx) in
  let '(error, l) := lexer_steal_error l in
  Some (match error with Some _ => None | None => e end, error, ctx <| lexer := l |>).

End Parse.
End ExprParse.
