(* ===== verification/ExprParseProofs.v ===== *)
(** * The parser of match expressions ends and returns well-formed expressions

    [expr_parse_string] always returns, either an expression that honours the
    invariants of expr.h and whose comparisons fit their symbols, or an error. *)

From stdpp Require Import base option list strings gmap.
From Stdlib Require Import ZArith Lia.
From S2P Require Import Prelude Strings CString Binary64 OvsJson OvnLex OvnLexNumbers.
From S2P Require Import OvnLexAddresses OvnLexTokens Subvalue Expr ExprLemmas ExprSimplify.
From S2P Require Import ExprParse OvnLexInet.

Local Open Scope Z_scope.
Local Open Scope string_scope.

Module ExprParseProofs.
Import OvnLex OvnLexNumbers OvnLexAddresses OvnLexTokens Subvalue Expr ExprParse.

(** ** Well-formed tables and results *)

(** A symbol is found under its name, a string symbol is nominal, and a predicate
    has one bit. *)
Record info_ok (id : string) (info : symbol_info) : Prop := {
  io_name : name (sym info) = id;
  io_width : 0 <= Expr.width (sym info);
  io_string : Expr.width (sym info) = 0 -> level (sym info) = EXPR_L_NOMINAL;
  io_predicate : is_Some (predicate info) -> Expr.width (sym info) = 1;
}.

Definition symbols_ok (tab : option symtab) : Prop :=
  forall t id info, tab = Some t -> t !! id = Some info -> info_ok id info.

(** The value of an integer constant has no other bits than its mask. *)
Definition constant_ok (c : expr_constant) : Prop :=
  0 <= c_value c /\ (c_masked c = true -> 0 <= c_mask c /\ Z.land (c_value c) (c_mask c) = c_value c).

(** Constants without masks *)
Definition unmasked (cs : list expr_constant) : Prop := Forall (fun c => c_masked c = false) cs.

Definition sets_unmasked (sets : option (gmap string expr_constant_set)) : Prop :=
  forall t id set, sets = Some t -> t !! id = Some set -> unmasked (values set).

Definition sets_ok (sets : option (gmap string expr_constant_set)) : Prop :=
  forall t id set, sets = Some t -> t !! id = Some set -> Forall constant_ok (values set).

(** Part of a field *)
Record field_ok (tab : option symtab) (f : expr_field) : Prop := {
  fo_symbol : exists t, tab = Some t /\ t !! name (sym (f_symbol f)) = Some (f_symbol f);
  fo_ofs : 0 <= ofs f;
  fo_bits : ofs f + n_bits f <= Expr.width (sym (f_symbol f));
  fo_some : Expr.width (sym (f_symbol f)) <> 0 -> 0 < n_bits f;
  fo_nominal : level (sym (f_symbol f)) = EXPR_L_NOMINAL ->
    ofs f = 0 /\ n_bits f = Expr.width (sym (f_symbol f));
}.

(** A comparison inside an odd ([not]) or even number of [!] operators; if [R], then
    relational operators are on ranges of bits. *)
Record cmp_ok (tab : option symtab) (R : Prop) (not : bool) (c : expr_cmp) : Prop := {
  co_symbol : exists t info, tab = Some t /\ t !! name (symbol c) = Some info /\
    sym info = symbol c /\
    (level (symbol c) = EXPR_L_NOMINAL ->
     if bool_decide (is_Some (predicate info))
     then xorb (Z.testbit (value c) 0) (bool_decide (relop c = EXPR_R_NE)) = negb not
     else relop c = if not then EXPR_R_NE else EXPR_R_EQ);
  co_match : Expr.width (symbol c) <> 0 -> wf_match (symbol c) (value c) (mask c);
  co_range : is_relational (relop c) = true ->
    level (symbol c) = EXPR_L_ORDINAL /\
    (R -> exists start n, 0 <= start /\ 0 < n /\ start + n <= Expr.width (symbol c) /\
       mask c = sv_range start n);
}.

(** [P] holds of the comparisons, and the invariants of expr.h are honoured. *)
Definition honest (P : expr_cmp -> Prop) (e : expr) : Prop :=
  all_cmps P e /\ expr_honors_invariants e = true.

Definition parsed (tab : option symtab) (R : Prop) (not : bool) : expr -> Prop :=
  honest (cmp_ok tab R not).

(** ** Expressions *)

Lemma honors_andor t a subs :
  expr_honors_invariants (EAndOr t a subs) = true <->
  (2 <= length subs)%nat /\
  Forall (fun e => type_of e <> andor_type t /\ expr_honors_invariants e = true) subs.
Proof.
  cbn [expr_honors_invariants]. destruct (Nat.ltb_spec (length subs) 2) as [|Hl]; [split; [done | lia] |].
  rewrite forallb_forall, Forall_forall. setoid_rewrite list_elem_of_In.
  setoid_rewrite andb_true_iff. setoid_rewrite negb_true_iff.
  setoid_rewrite bool_decide_eq_false. tauto.
Qed.

Lemma honest_andor P t a subs :
  honest P (EAndOr t a subs) <->
  (2 <= length subs)%nat /\ Forall (fun e => type_of e <> andor_type t /\ honest P e) subs.
Proof.
  unfold honest. rewrite all_cmps_andor, honors_andor, !Forall_forall. firstorder.
Qed.

(** The list that a node of type [t] gets from [e] *)
Lemma honest_insert P t e :
  honest P e ->
  (1 <= length (expr_insert_andor t e))%nat /\
  Forall (fun e => type_of e <> andor_type t /\ honest P e) (expr_insert_andor t e).
Proof.
  intros He. destruct e as [a c | t' a subs | b | n s]; cbn [expr_insert_andor];
    try (split; [done | apply Forall_singleton; by destruct t]).
  case_decide as Ht.
  - subst t'. apply honest_andor in He as [Hl H]. split; [lia | done].
  - split; [done |]. apply Forall_singleton. split; [by destruct t, t' | done].
Qed.

Lemma combine_insert t a b :
  expr_combine t (Some a) (Some b) =
    Some (EAndOr t None (expr_insert_andor t a ++ expr_insert_andor t b)%list).
Proof.
  destruct a, b; cbn; repeat case_decide; try done; by simplify_eq.
Qed.

Lemma honest_combine P t a b :
  honest P a -> honest P b ->
  exists e, expr_combine t (Some a) (Some b) = Some e /\ honest P e.
Proof.
  intros Ha Hb. rewrite combine_insert. eexists. split; [done |].
  destruct (honest_insert _ t a Ha) as [La Fa], (honest_insert _ t b Hb) as [Lb Fb].
  apply honest_andor. rewrite length_app, Forall_app. split; [lia | done].
Qed.

Lemma relational_invert r : is_relational (expr_relop_invert r) = is_relational r.
Proof. by destruct r. Qed.

Lemma cmp_ok_not tab R not c :
  cmp_ok tab R not c ->
  cmp_ok tab R (negb not)
    {| symbol := symbol c; relop := expr_relop_invert (relop c); cst_string := cst_string c;
       value := value c; mask := mask c |}.
Proof.
  intros [(t & info & Ht & Hi & Hs & Hn) Hm Hr]. constructor; cbn [symbol relop value mask]; [| done |].
  - exists t, info. split_and!; [done | done | done |]. intros Hl. specialize (Hn Hl).
    case_bool_decide; [| rewrite Hn; by destruct not].
    assert (is_relational (relop c) = false) as Hrel.
    { destruct (is_relational (relop c)); [| done]. destruct Hr as [Hr _]; [done |]. by rewrite Hl in Hr. }
    destruct (relop c), (Z.testbit (value c) 0), not;
      first [reflexivity | discriminate Hn | discriminate Hrel].
  - by rewrite relational_invert.
Qed.

Lemma expr_not_type e t : type_of (expr_not e) = andor_type t <->
  type_of e = andor_type (match t with AND => OR | OR => AND end).
Proof. by destruct e as [| [] | |], t. Qed.

Lemma parsed_not tab R not e : parsed tab R not e -> parsed tab R (negb not) (expr_not e).
Proof.
  induction e as [a c | t a subs IH | b | n s] using expr_induction; cbn [expr_not].
  - intros [H Hh]. split; [by apply cmp_ok_not | done].
  - unfold parsed. rewrite !honest_andor, length_map. intros [Hl H]. split; [done |].
    rewrite Forall_map. rewrite Forall_forall in IH, H |- *.
    intros e He. destruct (H e He) as [Ht Hp]. split; [| by apply IH].
    rewrite expr_not_type. by destruct t.
  - done.
  - done.
Qed.

(** ** Comparisons *)

Lemma sv_place_testbit v o n k :
  0 <= o -> 0 <= n -> 0 <= k ->
  Z.testbit (sv_place v o n) k = (o <=? k)%Z && (k <? o + n)%Z && Z.testbit v (k - o).
Proof.
  intros Ho Hn Hk. unfold sv_place. destruct (Z.leb_spec o k) as [Hok | Hok]; cbn [andb].
  - rewrite Z.shiftl_spec, Z.land_spec by done. rewrite Z.testbit_ones_nonneg by lia.
    rewrite andb_comm. f_equal. destruct (Z.ltb_spec (k - o) n), (Z.ltb_spec k (o + n)); lia.
  - by rewrite Z.shiftl_spec_low.
Qed.

Lemma sv_place_range v o n : 0 <= o -> 0 <= n -> 0 <= sv_place v o n < 2 ^ (o + n).
Proof.
  intros Ho Hn. unfold sv_place. rewrite Z.land_ones, Z.shiftl_mul_pow2 by done.
  pose proof (Z.mod_pos_bound v (2 ^ n) ltac:(lia)).
  rewrite Z.pow_add_r by done. assert (0 < 2 ^ o) by lia. nia.
Qed.

Lemma sv_range_bounds o n : 0 <= o -> 0 <= n -> 0 <= sv_range o n < 2 ^ (o + n).
Proof.
  intros Ho Hn. replace (sv_range o n) with (sv_place (Z.ones n) o n); [by apply sv_place_range |].
  unfold sv_place, sv_range. by rewrite Z.land_diag.
Qed.

(** A constant that is placed in a field has no other bits than its mask. *)
Lemma placed_match tab f c :
  field_ok tab f -> constant_ok c -> Expr.width (sym (f_symbol f)) <> 0 ->
  wf_match (sym (f_symbol f)) (sv_place (c_value c) (ofs f) (n_bits f))
    (if c_masked c then sv_place (c_mask c) (ofs f) (n_bits f) else sv_range (ofs f) (n_bits f)).
Proof.
  intros [_ Ho Hb Hs _] [Hv Hm] Hw. specialize (Hs Hw).
  assert (2 ^ (ofs f + n_bits f) <= 2 ^ Expr.width (sym (f_symbol f)))
    by (apply Z.pow_le_mono_r; lia).
  constructor.
  - apply sv_place_range; lia.
  - destruct (c_masked c);
      [pose proof (sv_place_range (c_mask c) (ofs f) (n_bits f) Ho ltac:(lia)) |
       pose proof (sv_range_bounds (ofs f) (n_bits f) Ho ltac:(lia))]; lia.
  - intros k Hk. rewrite sv_place_testbit by lia. intros [Hr Hbit]%andb_true_iff.
    destruct (c_masked c) eqn:Hmask.
    + rewrite sv_place_testbit, Hr by lia. destruct (Hm eq_refl) as [_ Hland].
      rewrite <- Hland, Z.land_spec in Hbit. by apply andb_true_iff in Hbit as [_ ->].
    + by rewrite sv_range_testbit by lia.
Qed.

(** ** The lexer *)

Section Parsing.
Context {HI : Inet} {HL : InetLaws}.

(** The current token is what [lexer_get] returns. *)
Definition lexer_ok (l : OvnLex.lexer) : Prop :=
  token_or_error (token l) \/ token l = lex_token_init /\ input l = EmptyString.

Lemma lexer_get_ok l :
  exists l', lexer_get l = Some l' /\ lexer_ok l' /\ lex_err l' = lex_err l /\
    (remaining l' <= String.length (input l))%nat.
Proof.
  unfold lexer_get. destruct (lex_token_parse_ok (input l)) as (t & st & rest & -> & _ & _ & H).
  eexists. split; [reflexivity |]. unfold lexer_ok, remaining. cbn.
  destruct H as [[-> ->] | [Ht Hl]]; (split; [auto |]; split; [done |]).
  - rewrite bool_decide_true by done. cbn. lia.
  - case_bool_decide; lia.
Qed.

Lemma remaining_input l : (String.length (input l) <= remaining l)%nat.
Proof. unfold remaining. lia. Qed.

Lemma remaining_token l :
  type (token l) <> LEX_T_END -> remaining l = S (String.length (input l)).
Proof. intros H. unfold remaining. rewrite bool_decide_false by done. lia. Qed.

(** An error is recorded, and nothing else changes. *)
Lemma lexer_error_ok l message :
  lexer_ok l ->
  lexer_ok (lexer_error message l) /\ is_Some (lex_err (lexer_error message l)) /\
  remaining (lexer_error message l) = remaining l.
Proof.
  intros Hl. unfold lexer_error. destruct (lex_err l) eqn:He; [by rewrite He |].
  case_bool_decide as Ht; [| done]. split; [done |]. split; [| done]. cbn.
  destruct Hl as [[Hok | [m Hm]] | [Hm _]]; try (rewrite Hm in *; done).
  revert Ht. destruct Hok; try done; cbn; intros Ht; by subst.
Qed.

Lemma lexer_syntax_error_ok l message :
  lexer_ok l ->
  lexer_ok (lexer_syntax_error message l) /\ is_Some (lex_err (lexer_syntax_error message l)) /\
  remaining (lexer_syntax_error message l) = remaining l.
Proof. apply lexer_error_ok. Qed.

(** ** Parsers

    A parser that runs from [ctx] ends in a good context without going back in the
    input; it returns a value, with the error as it was, or sets an error. *)
Definition runs {A} (m : parser A) (ctx : expr_context) (Q : A -> expr_context -> Prop) : Prop :=
  exists r ctx', m ctx = Some (r, ctx') /\ lexer_ok (lexer ctx') /\
    (remaining (lexer ctx') <= remaining (lexer ctx))%nat /\
    match r with
    | Some a => lex_err (lexer ctx') = lex_err (lexer ctx) /\ Q a ctx'
    | None => is_Some (lex_err (lexer ctx'))
    end.

Lemma runs_ret {A} (a : A) ctx (Q : A -> expr_context -> Prop) :
  lexer_ok (lexer ctx) -> Q a ctx -> runs (ret a) ctx Q.
Proof. intros Hl HQ. eexists _, ctx. by split_and!. Qed.

Lemma runs_bind {A B} (m : parser A) (k : A -> parser B) ctx (Q : B -> expr_context -> Prop) :
  runs m ctx (fun a ctx' => lexer_ok (lexer ctx') ->
    (remaining (lexer ctx') <= remaining (lexer ctx))%nat -> runs (k a) ctx' Q) ->
  runs (bind m k) ctx Q.
Proof.
  intros (r & ctx1 & Hm & Hl & Hr & H). unfold runs, bind. rewrite Hm. cbn.
  destruct r as [a |]; [| by exists None, ctx1].
  destruct H as [He (r & ctx2 & Hk & Hl2 & Hr2 & H2)]; [done | done |].
  exists r, ctx2. split_and!; [done | done | lia |].
  destruct r; [| done]. by rewrite <- He.
Qed.

Lemma runs_mono {A} (m : parser A) ctx (Q R : A -> expr_context -> Prop) :
  runs m ctx Q -> (forall a ctx', lexer_ok (lexer ctx') -> Q a ctx' -> R a ctx') -> runs m ctx R.
Proof.
  intros (r & ctx' & Hm & Hl & Hr & H) HQR. exists r, ctx'. split_and!; [done | done | done |].
  destruct r; [| done]. destruct H as [He HQ]. by auto.
Qed.

Lemma runs_error {A} message ctx (Q : A -> expr_context -> Prop) :
  lexer_ok (lexer ctx) -> runs (error message) ctx Q.
Proof.
  intros Hl. destruct (lexer_error_ok (lexer ctx) message Hl) as (H1 & H2 & H3).
  eexists None, _. split; [reflexivity |]. cbn. rewrite H3. by split_and!.
Qed.

Lemma runs_syntax_error {A} message ctx (Q : A -> expr_context -> Prop) :
  lexer_ok (lexer ctx) -> runs (syntax_error message) ctx Q.
Proof.
  intros Hl. destruct (lexer_syntax_error_ok (lexer ctx) (Some message) Hl) as (H1 & H2 & H3).
  eexists None, _. split; [reflexivity |]. cbn. rewrite H3. by split_and!.
Qed.

Lemma runs_token_now ctx (Q : lex_token -> expr_context -> Prop) :
  lexer_ok (lexer ctx) -> Q (token (lexer ctx)) ctx -> runs token_now ctx Q.
Proof. intros Hl HQ. eexists (Some _), ctx. by split_and!. Qed.

(** The types of tokens with a string *)
Definition has_string (t : lex_type) : bool :=
  match t with
  | LEX_T_ID | LEX_T_STRING | LEX_T_MACRO | LEX_T_PORT_GROUP | LEX_T_TEMPLATE => true
  | _ => false
  end.

Lemma runs_token_string ctx (Q : string -> expr_context -> Prop) :
  lexer_ok (lexer ctx) -> has_string (type (token (lexer ctx))) = true ->
  (forall s, Q s ctx) -> runs token_string ctx Q.
Proof.
  intros Hl Ht HQ. assert (is_Some (str (token (lexer ctx)))) as [s Hs].
  { destruct Hl as [[Hok | [m Hm]] | [Hm _]]; try (rewrite Hm in *; done).
    revert Ht. destruct Hok as [t Hb | | | | |]; try done. by destruct t. }
  eexists (Some s), ctx. unfold token_string. rewrite Hs. by split_and!.
Qed.

Lemma runs_on_lexer {A} (f : OvnLex.lexer -> option (A * OvnLex.lexer)) ctx
    (Q : A -> expr_context -> Prop) :
  (exists a l, f (lexer ctx) = Some (a, l) /\ lexer_ok l /\ lex_err l = lex_err (lexer ctx) /\
    (remaining l <= remaining (lexer ctx))%nat /\ Q a (ctx <| lexer := l |>)) ->
  runs (on_lexer f) ctx Q.
Proof.
  intros (a & l & Hf & Hl & He & Hr & HQ). eexists (Some a), _. unfold on_lexer. rewrite Hf.
  split; [reflexivity |]. by split_and!.
Qed.

Lemma runs_get ctx (Q : unit -> expr_context -> Prop) :
  (forall l, lexer_ok l -> (remaining l <= String.length (input (lexer ctx)))%nat ->
    Q tt (ctx <| lexer := l |>)) ->
  runs get ctx Q.
Proof.
  intros HQ. destruct (lexer_get_ok (lexer ctx)) as (l & Hg & Hl & He & Hr).
  apply runs_on_lexer. exists tt, l. rewrite Hg. pose proof (remaining_input (lexer ctx)).
  split_and!; [done | done | done | lia | by apply HQ].
Qed.

(** A token that is there is taken. *)
Lemma runs_match t ctx (Q : bool -> expr_context -> Prop) :
  t <> LEX_T_END -> lexer_ok (lexer ctx) ->
  (forall l, lexer_ok l -> (remaining l < remaining (lexer ctx))%nat ->
    type (token (lexer ctx)) = t -> Q true (ctx <| lexer := l |>)) ->
  Q false ctx ->
  runs (match_ t) ctx Q.
Proof.
  intros Ht Hl Htrue Hfalse. apply runs_on_lexer. unfold lexer_match.
  case_bool_decide as Htype.
  - destruct (lexer_get_ok (lexer ctx)) as (l & -> & Hl' & He & Hr). exists true, l.
    pose proof (remaining_token (lexer ctx)) as Hrem. rewrite Htype in Hrem. specialize (Hrem Ht).
    split_and!; [done | done | done | lia |]. apply Htrue; [done | lia | done].
  - exists false, (lexer ctx). split_and!; try done. by destruct ctx.
Qed.

Lemma runs_of_none {A} ctx (Q : A -> expr_context -> Prop) :
  lexer_ok (lexer ctx) -> is_Some (lex_err (lexer ctx)) -> runs (of_option None) ctx Q.
Proof. intros Hl He. eexists None, ctx. by split_and!. Qed.

Lemma runs_force_match t ctx (Q : unit -> expr_context -> Prop) :
  is_bare t = true -> lexer_ok (lexer ctx) ->
  (forall l, lexer_ok l -> (remaining l < remaining (lexer ctx))%nat ->
    Q tt (ctx <| lexer := l |>)) ->
  runs (force_match t) ctx Q.
Proof.
  intros Ht Hl HQ. unfold force_match, runs, bind, on_lexer, lexer_force_match.
  rewrite bool_decide_false by (by intros ->). unfold lexer_match.
  case_bool_decide as Htype.
  - destruct (lexer_get_ok (lexer ctx)) as (l & -> & Hl' & He & Hr). cbn.
    pose proof (remaining_token (lexer ctx)) as Hrem. rewrite Htype in Hrem.
    assert (remaining (lexer ctx) = S (String.length (input (lexer ctx)))) as Hrem'
      by (apply Hrem; by intros ->).
    eexists (Some tt), _. split; [reflexivity |]. cbn. split_and!; [done | lia | done |].
    apply HQ; [done | lia].
  - assert (exists text, lex_token_format (bare t) = Some text) as [text Htext]
      by (destruct t; try discriminate Ht; by eexists).
    cbn. rewrite Htext. cbn.
    destruct (lexer_syntax_error_ok (lexer ctx) (Some ("expecting `" +:+ text +:+ "'")) Hl)
      as (H1 & H2 & H3).
    eexists None, _. split; [reflexivity |]. cbn. rewrite H3. by split_and!.
Qed.

Lemma runs_force_int ctx (Q : Z -> expr_context -> Prop) :
  lexer_ok (lexer ctx) ->
  (forall v l, 0 <= v -> lexer_ok l -> Q v (ctx <| lexer := l |>)) ->
  runs force_int ctx Q.
Proof.
  intros Hl HQ. unfold force_int, runs, bind, on_lexer, lexer_force_int, lexer_get_int.
  destruct (lexer_is_int (lexer ctx)).
  - destruct (lexer_get_ok (lexer ctx)) as (l & -> & Hl' & He & Hr). cbn -[Z.pow].
    pose proof (remaining_input (lexer ctx)).
    eexists (Some _), _. split; [reflexivity |]. cbn -[Z.pow]. split_and!; [done | lia | done |].
    apply HQ; [| done]. apply Z.mod_pos_bound. lia.
  - cbn. destruct (lexer_syntax_error_ok (lexer ctx) (Some "expecting small integer") Hl)
      as (H1 & H2 & H3).
    eexists None, _. split; [reflexivity |]. cbn. rewrite H3. by split_and!.
Qed.

Section Tables.
Context (symbols : option symtab) (addr_sets port_groups : option (gmap string expr_constant_set)).
Context (dp_id : Z).
Let R : Prop := sets_unmasked addr_sets.
Context (Hsymbols : symbols_ok symbols) (Haddr_sets : sets_ok addr_sets).

Lemma field_info f : field_ok symbols f -> info_ok (name (sym (f_symbol f))) (f_symbol f).
Proof. intros [(t & Ht & Hi) _ _ _ _]. exact (Hsymbols t _ _ Ht Hi). Qed.

(** ** [make_cmp] *)

(** The guards that a comparison has passed *)
Record guards_ok (not : bool) (f : expr_field) (r : expr_relop) (c : expr_constant) : Prop := {
  go_constant : Expr.width (sym (f_symbol f)) <> 0 -> constant_ok c;
  go_relational : is_relational r = true ->
    level (sym (f_symbol f)) = EXPR_L_ORDINAL /\ (R -> c_masked c = false);
  go_nominal : level (sym (f_symbol f)) = EXPR_L_NOMINAL ->
    if bool_decide (is_Some (predicate (f_symbol f))) then positive not r c = true
    else r = if not then EXPR_R_NE else EXPR_R_EQ;
}.

Lemma make_cmp___ok not f r c :
  field_ok symbols f -> guards_ok not f r c -> parsed symbols R not (make_cmp__ f r c).
Proof.
  intros Hf [Hc Hr Hn]. pose proof (field_info f Hf) as Hi. unfold make_cmp__.
  destruct (Z.eqb_spec (Expr.width (sym (f_symbol f))) 0) as [Hw | Hw]; cbn [negb].
  - split; [| by cbn; rewrite Hw]. destruct (fo_symbol _ _ Hf) as (t & Ht & Hti).
    pose proof (io_string _ _ Hi Hw) as Hlevel.
    constructor; cbn [symbol relop value mask]; [| done |].
    + exists t, (f_symbol f). split_and!; [done | done | done |]. intros _.
      specialize (Hn Hlevel). case_bool_decide as Hp; [| done].
      pose proof (io_predicate _ _ Hi Hp). lia.
    + intros Hrel. destruct (Hr Hrel) as [Hl _]. by rewrite Hlevel in Hl.
  - pose proof (placed_match _ f c Hf (Hc Hw) Hw) as Hm.
    split.
    2: { cbn. destruct (Z.eqb_spec (Expr.width (sym (f_symbol f))) 0); [done |]. cbn [negb].
         apply Z.eqb_eq, subset_ldiff. exact (wm_subset _ _ _ Hm). }
    destruct Hf as [(t & Ht & Hti) Ho Hb Hs Hnom]. specialize (Hs Hw).
    constructor; cbn [symbol relop value mask]; [| done |].
    + exists t, (f_symbol f). split_and!; [done | done | done |]. intros Hlevel.
      specialize (Hn Hlevel). case_bool_decide as Hp; [| done].
      destruct (Hnom Hlevel) as [-> Hbits]. unfold positive in Hn.
      rewrite sv_place_testbit by lia. rewrite Z.sub_0_r.
      rewrite (proj2 (Z.leb_le 0 0)), (proj2 (Z.ltb_lt 0 (0 + n_bits f))) by lia. cbn [andb].
      destruct not; rewrite ?xorb_true_r, ?xorb_false_r in Hn; [by apply negb_true_iff in Hn | done].
    + intros Hrel. destruct (Hr Hrel) as [Hl Hmask]. split; [done |].
      intros HR. rewrite Hmask by done. exists (ofs f), (n_bits f). by split_and!.
Qed.

Lemma make_cmps_ok not f r cs :
  field_ok symbols f -> Forall (guards_ok not f r) cs ->
  exists e, make_cmps f r cs = Some e /\ parsed symbols R not e.
Proof.
  intros Hf Hcs. destruct Hcs as [| c cs Hc Hcs]; [by eexists |]. cbn [make_cmps].
  pose proof (make_cmp___ok not f r c Hf Hc) as He.
  revert He. generalize (make_cmp__ f r c) as e. clear c Hc.
  induction Hcs as [| c cs Hc Hcs IH]; intros e He; [by exists e |]. cbn [foldl].
  destruct (honest_combine (cmp_ok symbols R not) (if bool_decide (r = EXPR_R_EQ) then OR else AND)
    e (make_cmp__ f r c) He (make_cmp___ok not f r c Hf Hc)) as (e' & -> & He').
  by apply IH.
Qed.

Lemma runs_check_widths s cs ctx (Q : unit -> expr_context -> Prop) :
  lexer_ok (lexer ctx) -> Q tt ctx -> runs (check_widths s cs) ctx Q.
Proof.
  intros Hl HQ. induction cs as [| c cs IH]; cbn [check_widths]; [by apply runs_ret |].
  destruct (_ <? _)%Z; [by apply runs_error | done].
Qed.

(** A set of constants of its type; integers without curly braces are one constant
    or an address set. *)
Definition set_ok (cs : expr_constant_set) : Prop :=
  cs_type cs = EXPR_C_INTEGER ->
  Forall constant_ok (values cs) /\
  (in_curlies cs = false -> (length (values cs) <= 1)%nat \/ (R -> unmasked (values cs))).

Lemma runs_type_check f cs ctx (Q : unit -> expr_context -> Prop) :
  lexer_ok (lexer ctx) ->
  ((Expr.width (sym (f_symbol f)) <> 0 -> cs_type cs = EXPR_C_INTEGER) -> Q tt ctx) ->
  runs (type_check f cs) ctx Q.
Proof.
  intros Hl HQ. unfold type_check.
  destruct (Z.eqb_spec (Expr.width (sym (f_symbol f))) 0) as [Hw | Hw]; cbn [negb];
    (case_bool_decide as Ht; cbn [negb]; [| by apply runs_error]).
  - apply runs_ret; [done | by apply HQ].
  - apply runs_check_widths; [done | by apply HQ].
Qed.

Lemma runs_check_relational f cs ctx (Q : unit -> expr_context -> Prop) :
  lexer_ok (lexer ctx) ->
  (level (sym (f_symbol f)) = EXPR_L_ORDINAL -> in_curlies cs = false ->
   (exists c cs', values cs = c :: cs' /\ c_masked c = false) -> Q tt ctx) ->
  runs (check_relational f cs) ctx Q.
Proof.
  intros Hl HQ. unfold check_relational. destruct (in_curlies cs); [by apply runs_error |].
  destruct (level (sym (f_symbol f))); cbn; try (by apply runs_error).
  destruct (values cs) as [| c l]; [by apply runs_error |].
  destruct (c_masked c) eqn:Hm; [by apply runs_error |].
  apply runs_ret; [done |]. apply HQ; [done | done | by eexists _, _].
Qed.

Lemma runs_check_nominal not f r cs ctx (Q : unit -> expr_context -> Prop) :
  field_ok symbols f -> lexer_ok (lexer ctx) ->
  ((if bool_decide (is_Some (predicate (f_symbol f)))
    then Forall (fun c => positive not r c = true) (values cs)
    else r = if not then EXPR_R_NE else EXPR_R_EQ) -> Q tt ctx) ->
  runs (check_nominal not f r cs) ctx Q.
Proof.
  intros Hf Hl HQ. unfold check_nominal. case_bool_decide as Hp.
  - pose proof (io_predicate _ _ (field_info f Hf) Hp) as Hw. rewrite Hw. cbn [Z.ltb negb].
    destruct (forallb _ _) eqn:Ha; [| by apply runs_error]. apply runs_ret; [done |]. apply HQ.
    apply Forall_forall. intros c Hc. rewrite forallb_forall in Ha.
    apply Ha. by apply list_elem_of_In.
  - case_bool_decide; [| by apply runs_error]. apply runs_ret; [done | by apply HQ].
Qed.

Lemma runs_make_cmp not f r cs ctx (Q : expr -> expr_context -> Prop) :
  field_ok symbols f -> set_ok cs -> lexer_ok (lexer ctx) ->
  (forall e, parsed symbols R not e -> Q e ctx) ->
  runs (make_cmp not f r cs) ctx Q.
Proof.
  intros Hf Hcs Hl HQ. unfold make_cmp.
  apply runs_bind, runs_type_check; [done |]. intros Htype _ _.
  assert (Expr.width (sym (f_symbol f)) <> 0 -> Forall constant_ok (values cs)) as Hconst
    by (intros Hw; by apply Hcs, Htype).
  set (rel_ok := is_relational r = true -> level (sym (f_symbol f)) = EXPR_L_ORDINAL /\
    (R -> unmasked (values cs))).
  apply runs_bind, (runs_mono _ _ (fun _ ctx' => ctx' = ctx /\ rel_ok)).
  { destruct (is_relational r) eqn:Hrel.
    - apply runs_check_relational; [done |]. intros Hlevel Hcurly (c & l & Hv & Hm).
      split; [done |]. intros _. split; [done |]. intros HR.
      assert (Expr.width (sym (f_symbol f)) <> 0) as Hw.
      { intros Hw. apply (io_string _ _ (field_info f Hf)) in Hw. congruence. }
      destruct (proj2 (Hcs (Htype Hw)) Hcurly) as [Hlen | Hu]; [| by apply Hu]. rewrite Hv in Hlen |- *.
      destruct l; [by repeat constructor | cbn in Hlen; lia].
    - apply runs_ret; [done |]. split; [done |]. by intros ?. }
  intros _ ? _ [-> Hrel] _ _.
  set (nominal_ok := level (sym (f_symbol f)) = EXPR_L_NOMINAL ->
    if bool_decide (is_Some (predicate (f_symbol f)))
    then Forall (fun c => positive not r c = true) (values cs)
    else r = if not then EXPR_R_NE else EXPR_R_EQ).
  apply runs_bind, (runs_mono _ _ (fun _ ctx' => ctx' = ctx /\ nominal_ok)).
  { case_bool_decide as Hlevel.
    - apply runs_check_nominal; [done | done |]. intros H. split; [done | by intros _].
    - apply runs_ret; [done |]. split; [done | by intros ?]. }
  intros _ ? _ [-> Hnom] _ _.
  destruct (make_cmps_ok not f r (values cs) Hf) as (e & He & Hp).
  { apply Forall_forall. intros c Hc. constructor.
    - intros Hw. specialize (Hconst Hw). rewrite Forall_forall in Hconst. by apply Hconst.
    - intros Hr. destruct (Hrel Hr) as [Hlevel Hu]. split; [done |]. intros HR.
      specialize (Hu HR). unfold unmasked in Hu. rewrite Forall_forall in Hu. by apply Hu.
    - intros Hlevel. specialize (Hnom Hlevel). case_bool_decide; [| done].
      rewrite Forall_forall in Hnom. by apply Hnom. }
  rewrite He. apply runs_ret; [done | by apply HQ].
Qed.

(** ** Fields, operators and constants *)

Lemma whole_field t symbol :
  symbols = Some t -> t !! name (sym symbol) = Some symbol ->
  field_ok symbols (Field symbol 0 (Expr.width (sym symbol))).
Proof.
  intros Ht Hi. pose proof (io_width _ _ (Hsymbols _ _ _ Ht Hi)).
  constructor; cbn; [by eexists | lia | lia | lia | done].
Qed.

Lemma runs_parse_field ctx (Q : expr_field -> expr_context -> Prop) :
  lexer_ok (lexer ctx) ->
  (forall f ctx', lexer_ok (lexer ctx') ->
    (remaining (lexer ctx') < remaining (lexer ctx))%nat -> field_ok symbols f -> Q f ctx') ->
  runs (parse_field symbols) ctx Q.
Proof.
  intros Hl HQ. unfold parse_field. apply runs_bind, runs_token_now; [done |]. intros _ _.
  case_bool_decide as Htype; cbn [negb]; [| by apply runs_syntax_error].
  apply runs_bind, runs_token_string; [done | by rewrite Htype |]. intros id _ _.
  destruct (symbols ≫= _) as [symbol |] eqn:Hlook; [| by apply runs_syntax_error].
  destruct symbols as [t |] eqn:Hsyms; [cbn in Hlook | done].
  pose proof (Hsymbols t id symbol eq_refl Hlook) as Hi.
  rewrite <- (io_name _ _ Hi) in Hlook.
  apply runs_bind, runs_get. intros l1 Hl1 Hrem1 _ _.
  pose proof (remaining_token (lexer ctx)) as Hrem. rewrite Htype in Hrem.
  specialize (Hrem ltac:(done)).
  assert (forall f ctx', field_ok (Some t) f -> lexer_ok (lexer ctx') ->
    (remaining (lexer ctx') <= remaining l1)%nat -> Q f ctx') as HQ'.
  { intros f ctx' Hf Hc Hr. apply HQ; [done | lia | done]. }
  apply runs_bind, runs_match; [done | done | | ].
  2: { intros _ _. cbn [negb]. apply runs_ret; [done |]. apply HQ'; [| done | done].
       constructor; cbn; [by eexists | lia | lia | pose proof (io_width _ _ Hi); lia | done]. }
  intros l2 Hl2 Hrem2 _ _ _. cbn in Hrem2. cbn [negb].
  destruct (Z.eqb_spec (Expr.width (sym symbol)) 0) as [Hw | Hw]; [by apply runs_error |].
  apply runs_bind, runs_force_int; [done |]. intros low l3 Hlow Hl3 _ Hr3. cbn in Hr3.
  apply runs_bind, (runs_mono _ _ (fun _ _ => True)).
  { apply runs_match; [done | done | done | done]. }
  intros range ctx4 Hl4 _ _ Hr4. cbn in Hr4.
  apply runs_bind, (runs_mono _ _ (fun high _ => 0 <= high)).
  { destruct range; [apply runs_force_int; [done |]; by intros | by apply runs_ret]. }
  intros high ctx5 Hl5 Hhigh _ Hr5.
  apply runs_bind, runs_force_match; [done | done |]. intros l6 Hl6 Hr6 _ _.
  destruct (Z.ltb_spec high low) as [| Hlh]; [by apply runs_error |].
  destruct (Z.leb_spec (Expr.width (sym symbol)) high) as [| Hhw]; [by apply runs_error |].
  destruct (bool_decide (level (sym symbol) = EXPR_L_NOMINAL) && _) eqn:Hnom; [by apply runs_error |].
  apply runs_ret; [done |]. apply HQ'; [| done | cbn; lia].
  constructor; cbn; [by eexists | done | lia | lia |]. intros Hlevel.
  rewrite bool_decide_true in Hnom by done. cbn [andb] in Hnom.
  apply orb_false_iff in Hnom as [H1%negb_false_iff%Z.eqb_eq H2%negb_false_iff%Z.eqb_eq]. lia.
Qed.

Lemma runs_parse_relop ctx (Q : expr_relop -> expr_context -> Prop) :
  lexer_ok (lexer ctx) ->
  (forall r ctx', lexer_ok (lexer ctx') -> Q r ctx') ->
  runs parse_relop ctx Q.
Proof.
  intros Hl HQ. unfold parse_relop. apply runs_bind, runs_token_now; [done |]. intros _ _.
  destruct (expr_relop_from_token _); [| by apply runs_syntax_error].
  apply runs_bind, runs_get. intros l Hl' _ _ _. apply runs_ret; [done | by apply HQ].
Qed.

(** The set so far: without curly braces it is empty. *)
Definition partial_ok (cs : expr_constant_set) : Prop :=
  (cs_type cs = EXPR_C_INTEGER -> Forall constant_ok (values cs)) /\
  (in_curlies cs = false -> values cs = []).

(** What a constant makes of the set *)
Definition extended (cs cs' : expr_constant_set) : Prop :=
  set_ok cs' /\ in_curlies cs' = in_curlies cs /\ (in_curlies cs = true -> partial_ok cs').

Lemma runs_assign_type cs t ctx (Q : expr_constant_set -> expr_context -> Prop) :
  lexer_ok (lexer ctx) -> partial_ok cs ->
  (partial_ok (cs <| cs_type := t |>) -> Q (cs <| cs_type := t |>) ctx) ->
  runs (assign_constant_set_type cs t) ctx Q.
Proof.
  intros Hl [H1 H2] HQ. unfold assign_constant_set_type.
  destruct (bool_decide (values cs = []) || bool_decide (cs_type cs = t)) eqn:Hor;
    [| by apply runs_syntax_error].
  apply runs_ret; [done |]. apply HQ. split; [| done]. cbn. intros Ht.
  apply orb_true_iff in Hor as [Hv%bool_decide_eq_true | Ht'%bool_decide_eq_true].
  - by rewrite Hv.
  - apply H1. by rewrite Ht', Ht.
Qed.

(** Constants are added to the set: to an empty one, if it has no braces. *)
Lemma push_ok cs t l :
  partial_ok (cs <| cs_type := t |>) ->
  (t = EXPR_C_INTEGER ->
   Forall constant_ok l /\ ((length l <= 1)%nat \/ (R -> unmasked l))) ->
  extended cs (push (cs <| cs_type := t |>) l).
Proof.
  intros [H1 H2] Hl. cbn in H1, H2. unfold push. split; [| split; [done |]]; cbn.
  - intros Ht. destruct (Hl Ht) as [Hok Hlen]. split; cbn; [by apply Forall_app; auto |].
    intros Hc. by rewrite (H2 Hc).
  - intros Hc. split; cbn; [| congruence]. intros Ht. apply Forall_app.
    split; [by apply H1 | by apply Hl].
Qed.

Lemma integer_token_facts l :
  lexer_ok l -> type (token l) = LEX_T_INTEGER -> 0 <= OvnLex.value (token l).
Proof.
  intros [[Hok | [m Hm]] | [Hm _]] Ht; try (rewrite Hm in *; done).
  revert Ht. destruct Hok as [t Hb | | t c s Hb | | f v Hv | f v m Hm]; try done;
    try (intros ->; done). by intros _; destruct Hv.
Qed.

Lemma masked_token_facts l :
  lexer_ok l -> type (token l) = LEX_T_MASKED_INTEGER ->
  0 <= OvnLex.value (token l) /\ 0 <= OvnLex.mask (token l) /\
  Z.land (OvnLex.value (token l)) (OvnLex.mask (token l)) = OvnLex.value (token l).
Proof.
  intros [[Hok | [m Hm]] | [Hm _]] Ht; try (rewrite Hm in *; done).
  revert Ht. destruct Hok as [t Hb | | t c s Hb | | f v Hv | f v m Hm]; try done;
    try (intros ->; done). intros _. destruct Hm as ([Hv _] & [Hm _] & Hland). by split_and!.
Qed.

Lemma has_string_not_end t : has_string t = true -> t <> LEX_T_END.
Proof. by intros H ->. Qed.

(** The token is taken and what is left is shorter. *)
Lemma runs_take ctx (Q : unit -> expr_context -> Prop) :
  type (token (lexer ctx)) <> LEX_T_END ->
  (forall l, lexer_ok l -> (remaining l < remaining (lexer ctx))%nat ->
    Q tt (ctx <| lexer := l |>)) ->
  runs get ctx Q.
Proof.
  intros Ht HQ. apply runs_get. intros l Hl Hr. apply HQ; [done |].
  rewrite (remaining_token _ Ht). lia.
Qed.

Lemma runs_update {A} (f : expr_context -> expr_context) (a : A) ctx
    (Q : A -> expr_context -> Prop) :
  lexer (f ctx) = lexer ctx -> lexer_ok (lexer ctx) -> Q a (f ctx) ->
  runs (fun ctx => Some (Some a, f ctx)) ctx Q.
Proof. intros Hf Hl HQ. eexists (Some a), _. split; [reflexivity |]. rewrite Hf. by split_and!. Qed.

Lemma runs_parse_addr_sets cs ctx (Q : expr_constant_set -> expr_context -> Prop) :
  lexer_ok (lexer ctx) -> has_string (type (token (lexer ctx))) = true -> partial_ok cs ->
  (forall cs' ctx', lexer ctx' = lexer ctx -> extended cs cs' -> Q cs' ctx') ->
  runs (parse_addr_sets addr_sets cs) ctx Q.
Proof.
  intros Hl Ht Hcs HQ. unfold parse_addr_sets.
  apply runs_bind, runs_token_string; [done | done |]. intros id _ _.
  apply runs_bind, (runs_update (fun ctx => ctx <| addr_sets_ref ::= fmap (count_ref id) |>));
    [done | done |]. intros _ _.
  destruct (addr_sets ≫= _) as [set |] eqn:Hset; [| by apply runs_syntax_error].
  apply bind_Some in Hset as (tab & Htab & Hset).
  apply runs_bind, runs_assign_type; [done | done |]. intros Hcs' _ _.
  apply runs_ret; [done |]. apply HQ; [done |].
  apply push_ok; [done |]. intros _. split.
  - apply Forall_map. exact (Haddr_sets tab id set Htab Hset).
  - right. intros HR. apply Forall_map. exact (HR tab id set Htab Hset).
Qed.

Lemma runs_parse_port_group cs ctx (Q : expr_constant_set -> expr_context -> Prop) :
  lexer_ok (lexer ctx) -> has_string (type (token (lexer ctx))) = true -> partial_ok cs ->
  (forall cs' ctx', lexer ctx' = lexer ctx -> extended cs cs' -> Q cs' ctx') ->
  runs (parse_port_group port_groups dp_id cs) ctx Q.
Proof.
  intros Hl Ht Hcs HQ. unfold parse_port_group.
  apply runs_bind, runs_token_string; [done | done |]. intros id _ _.
  apply runs_bind, (runs_update (fun ctx => ctx <| port_groups_ref ::=
    fmap (fun s => {[get_sb_port_group_name dp_id id]} ∪ s) |>)); [done | done |]. intros _ _.
  destruct (port_groups ≫= _) as [set |]; [| by apply runs_syntax_error].
  apply runs_bind, runs_assign_type; [done | done |]. intros Hcs' _ _.
  apply runs_ret; [done |]. apply HQ; [done |].
  by apply push_ok.
Qed.

Lemma runs_parse_constant cs ctx (Q : expr_constant_set -> expr_context -> Prop) :
  lexer_ok (lexer ctx) -> partial_ok cs ->
  (forall cs' ctx', lexer_ok (lexer ctx') ->
    (remaining (lexer ctx') < remaining (lexer ctx))%nat -> extended cs cs' -> Q cs' ctx') ->
  runs (parse_constant addr_sets port_groups dp_id cs) ctx Q.
Proof.
  intros Hl Hcs HQ. unfold parse_constant. apply runs_bind, runs_token_now; [done |]. intros _ _.
  assert (forall t l, type (token (lexer ctx)) <> LEX_T_END ->
    (t = EXPR_C_INTEGER -> Forall constant_ok l) -> (length l <= 1)%nat ->
    partial_ok (cs <| cs_type := t |>) ->
    runs (bind get (fun _ => ret (push (cs <| cs_type := t |>) l))) ctx Q) as Hpush.
  { intros t l Ht Hc Hlen Hp. apply runs_bind, runs_take; [done |]. intros l' Hl' Hr _ _.
    apply runs_ret; [done |]. apply HQ; [done | done |].
    apply push_ok; [done |]. auto. }
  destruct (type (token (lexer ctx))) eqn:Ht; try (by apply runs_syntax_error);
    try (by apply runs_error).
  - apply runs_bind, runs_assign_type; [done | done |]. intros Hp _ _.
    apply runs_bind, runs_token_string; [done | by rewrite Ht |]. intros s _ _.
    by apply Hpush.
  - apply runs_bind, runs_assign_type; [done | done |]. intros Hp _ _.
    apply Hpush; [done | | done | done]. intros _. apply Forall_singleton.
    split; [by apply integer_token_facts | done].
  - apply runs_bind, runs_assign_type; [done | done |]. intros Hp _ _.
    apply Hpush; [done | | done | done]. intros _. apply Forall_singleton.
    destruct (masked_token_facts _ Hl Ht) as (H1 & H2 & H3). by split.
  - apply runs_bind, runs_parse_addr_sets; [done | by rewrite Ht | done |].
    intros cs' ctx' Hlex Hext Hok _. apply runs_bind, runs_take; [by rewrite Hlex, Ht |].
    intros l Hl' Hr _ _. apply runs_ret; [done |]. rewrite Hlex in Hr. by apply HQ.
  - apply runs_bind, runs_parse_port_group; [done | by rewrite Ht | done |].
    intros cs' ctx' Hlex Hext Hok _. apply runs_bind, runs_take; [by rewrite Hlex, Ht |].
    intros l Hl' Hr _ _. apply runs_ret; [done |]. rewrite Hlex in Hr. by apply HQ.
Qed.

Lemma runs_parse_constants fuel cs ctx (Q : expr_constant_set -> expr_context -> Prop) :
  lexer_ok (lexer ctx) -> partial_ok cs -> in_curlies cs = true ->
  (remaining (lexer ctx) < fuel)%nat ->
  (forall cs' ctx', lexer_ok (lexer ctx') -> set_ok cs' -> Q cs' ctx') ->
  runs (parse_constants addr_sets port_groups dp_id fuel cs) ctx Q.
Proof.
  revert cs ctx. induction fuel as [| fuel IH]; intros cs ctx Hl Hcs Hcurly Hfuel HQ; [lia |].
  cbn [parse_constants]. apply runs_bind, runs_parse_constant; [done | done |].
  intros cs1 ctx1 Hl1 Hr1 (Hset & Hcurly1 & Hpart) _ _. rewrite Hcurly in Hcurly1.
  apply runs_bind, (runs_mono _ _ (fun _ _ => True)); [by apply runs_match |].
  intros _ ctx2 Hl2 _ _ Hr2. apply runs_bind, runs_match; [done | done | |].
  - intros l Hl3 _ _ _ _. apply runs_ret; [done |]. by apply HQ.
  - intros _ _. apply IH; [done | by apply Hpart | done | lia | done].
Qed.

Lemma runs_parse_constant_set ctx (Q : expr_constant_set -> expr_context -> Prop) :
  lexer_ok (lexer ctx) ->
  (forall cs ctx', lexer_ok (lexer ctx') -> set_ok cs -> Q cs ctx') ->
  runs (parse_constant_set addr_sets port_groups dp_id) ctx Q.
Proof.
  intros Hl HQ. unfold parse_constant_set. apply runs_bind, runs_match; [done | done | |].
  - intros l Hl1 _ _ _ _. apply (runs_parse_constants (S (remaining l))); [done | done | done | | done].
    cbn. lia.
  - intros _ _. apply runs_parse_constant; [done | done |].
    intros cs ctx' Hl' _ (Hset & _). by apply HQ.
Qed.

(** ** Operands *)

Lemma runs_parse_chassis_resident not ctx (Q : expr -> expr_context -> Prop) :
  lexer_ok (lexer ctx) ->
  (forall e ctx', lexer_ok (lexer ctx') -> parsed symbols R not e -> Q e ctx') ->
  runs parse_chassis_resident ctx Q.
Proof.
  intros Hl HQ. unfold parse_chassis_resident.
  apply runs_bind, runs_token_now; [done |]. intros _ _.
  case_bool_decide as Ht; cbn [negb]; [| by apply runs_syntax_error].
  apply runs_bind, runs_token_string; [done | by rewrite Ht |]. intros s _ _.
  apply runs_bind, runs_get. intros l Hl1 _ _ _.
  apply runs_bind, runs_force_match; [done | done |]. intros l2 Hl2 _ _ _.
  apply runs_ret; [done |]. by apply HQ.
Qed.

Lemma zero_set_ok : set_ok zero_set.
Proof. intros _. split; [by repeat constructor | cbn; auto]. Qed.

Lemma runs_parse_field_cmp not ctx (Q : expr * bool -> expr_context -> Prop) :
  lexer_ok (lexer ctx) ->
  (forall e atomic ctx', lexer_ok (lexer ctx') -> parsed symbols R not e -> Q (e, atomic) ctx') ->
  runs (parse_field_cmp symbols addr_sets port_groups dp_id not) ctx Q.
Proof.
  intros Hl HQ. unfold parse_field_cmp. apply runs_bind, runs_parse_field; [done |].
  intros f ctx1 Hl1 _ Hf _ _. apply runs_bind, runs_token_now; [done |]. intros _ _.
  destruct (expr_relop_from_token _) as [r |].
  - apply runs_bind, runs_parse_relop; [done |]. intros r' ctx2 Hl2 _ _.
    apply runs_bind, runs_parse_constant_set; [done |]. intros cs ctx3 Hl3 Hcs _ _.
    apply runs_bind, runs_make_cmp; [done | done | done |]. intros e He _ _.
    apply runs_ret; [done |]. by apply HQ.
  - destruct (_ || _); [by apply runs_syntax_error |]. destruct (_ && _); [by apply runs_error |].
    apply runs_bind, runs_make_cmp; [done | apply zero_set_ok | done |]. intros e He _ _.
    apply runs_ret; [done |]. by apply HQ.
Qed.

Lemma runs_make_range not f r1 r2 c1 c2 ctx (Q : expr -> expr_context -> Prop) :
  field_ok symbols f -> set_ok c1 -> set_ok c2 -> lexer_ok (lexer ctx) ->
  (forall e ctx', lexer_ok (lexer ctx') -> parsed symbols R not e -> Q e ctx') ->
  runs (make_range not f r1 r2 c1 c2) ctx Q.
Proof.
  intros Hf H1 H2 Hl HQ.
  destruct (runs_make_cmp not f (expr_relop_turn r1) c1 ctx (fun e _ => parsed symbols R not e))
    as (o1 & ctx1 & E1 & Hl1 & Hr1 & P1); [done | done | done | done |].
  destruct (runs_make_cmp not f r2 c2 ctx1 (fun e _ => parsed symbols R not e))
    as (o2 & ctx2 & E2 & Hl2 & Hr2 & P2); [done | done | done | done |].
  unfold runs, make_range, bind, attempt. rewrite E1. cbn. rewrite E2. cbn.
  destruct (lex_err (lexer ctx2)) as [m |] eqn:Herr.
  { exists None, ctx2. split_and!; [done | done | lia | by rewrite Herr]. }
  destruct o2 as [e2 |]; [| by destruct P2]. destruct P2 as [He2 P2].
  destruct o1 as [e1 |]; [| rewrite <- He2 in P1; by destruct P1]. destruct P1 as [He1 P1].
  destruct (honest_combine (cmp_ok symbols R not) AND e1 e2 P1 P2) as (e & -> & He).
  exists (Some e), ctx2. split_and!; [done | done | lia | by rewrite Herr, He2 | by apply HQ].
Qed.

Lemma runs_parse_constant_cmp not ctx (Q : expr * bool -> expr_context -> Prop) :
  lexer_ok (lexer ctx) ->
  (forall e atomic ctx', lexer_ok (lexer ctx') -> parsed symbols R not e -> Q (e, atomic) ctx') ->
  runs (parse_constant_cmp symbols addr_sets port_groups dp_id not) ctx Q.
Proof.
  intros Hl HQ. unfold parse_constant_cmp. apply runs_bind, runs_parse_constant_set; [done |].
  intros c1 ctx1 Hl1 H1 _ _. apply runs_bind, runs_token_now; [done |]. intros _ _.
  destruct (literal _ _); [apply runs_ret; [done |]; by apply HQ |].
  apply runs_bind, runs_parse_relop; [done |]. intros r1 ctx2 Hl2 _ _.
  apply runs_bind, runs_parse_field; [done |]. intros f ctx3 Hl3 _ Hf _ _.
  apply runs_bind, runs_token_now; [done |]. intros _ _.
  destruct (expr_relop_from_token _) as [r |].
  - apply runs_bind, runs_parse_relop; [done |]. intros r2 ctx4 Hl4 _ _.
    apply runs_bind, runs_parse_constant_set; [done |]. intros c2 ctx5 Hl5 H2 _ _.
    destruct (negb _); [by apply runs_error |].
    apply runs_bind, runs_make_range; [done | done | done | done |]. intros e ctx6 Hl6 He _ _.
    apply runs_ret; [done |]. by apply HQ.
  - apply runs_bind, runs_make_cmp; [done | done | done |]. intros e He _ _.
    apply runs_ret; [done |]. by apply HQ.
Qed.

(** Parentheses *)
Lemma runs_paren (m : parser expr) not ctx (Q : expr * bool -> expr_context -> Prop) :
  runs m ctx (fun e _ => parsed symbols R not e) ->
  (forall e atomic ctx', lexer_ok (lexer ctx') -> parsed symbols R not e -> Q (e, atomic) ctx') ->
  runs (bind (attempt m) (fun e => bind (force_match LEX_T_RPAREN) (fun _ =>
          of_option (e ← e; Some (e, true))))) ctx Q.
Proof.
  intros (o & ctx1 & E & Hl1 & Hr1 & P) HQ.
  destruct (runs_force_match LEX_T_RPAREN ctx1 (fun _ _ => True))
    as (u & ctx2 & E2 & Hl2 & Hr2 & P2); [done | done | done |].
  unfold runs. unfold bind at 1, attempt. rewrite E. cbn -[force_match]. unfold bind. rewrite E2. cbn.
  destruct u as [u |]; [| exists None, ctx2; split_and!; [done | done | lia | done]].
  destruct P2 as [He2 _]. destruct o as [e |]; unfold of_option; cbn.
  - destruct P as [He1 P]. exists (Some (e, true)), ctx2.
    split_and!; [done | done | lia | by rewrite He2 | by apply HQ].
  - exists None, ctx2. split_and!; [done | done | lia | by rewrite He2].
Qed.

Lemma runs_lookahead ctx (Q : lex_type -> expr_context -> Prop) :
  lexer_ok (lexer ctx) -> (forall t, Q t ctx) -> runs lookahead ctx Q.
Proof.
  intros Hl HQ. apply runs_on_lexer. unfold lexer_lookahead.
  destruct (lex_token_parse_ok (input (lexer ctx))) as (t & st & rest & -> & _).
  eexists _, _. split; [reflexivity |]. split_and!; try done. by destruct ctx.
Qed.

Lemma runs_match_id id ctx (Q : bool -> expr_context -> Prop) :
  lexer_ok (lexer ctx) ->
  (forall b ctx', lexer_ok (lexer ctx') -> Q b ctx') -> runs (on_lexer (lexer_match_id id)) ctx Q.
Proof.
  intros Hl HQ. apply runs_on_lexer. unfold lexer_match_id. destruct (_ && _).
  - destruct (lexer_get_ok (lexer ctx)) as (l & -> & Hl' & He & Hr). exists true, l.
    pose proof (remaining_input (lexer ctx)). split_and!; [done | done | done | lia | by apply HQ].
  - exists false, (lexer ctx). split_and!; try done. by apply HQ.
Qed.

(** What an expression in parentheses promises *)
Definition parses (parse : option (bool -> parser expr)) : Prop :=
  forall f not ctx, parse = Some f -> lexer_ok (lexer ctx) ->
    runs (f not) ctx (fun e _ => parsed symbols R not e).

Lemma runs_parse_primary parse not ctx (Q : expr * bool -> expr_context -> Prop) :
  parses parse -> lexer_ok (lexer ctx) ->
  (forall e atomic ctx', lexer_ok (lexer ctx') -> parsed symbols R not e -> Q (e, atomic) ctx') ->
  runs (expr_parse_primary symbols addr_sets port_groups dp_id parse not) ctx Q.
Proof.
  intros Hparse Hl HQ. unfold expr_parse_primary. apply runs_bind, runs_match; [done | done | |].
  - intros l Hl1 _ _ _ _. destruct parse as [f |]; [| by apply runs_error].
    apply (runs_paren _ not); [by apply Hparse | done].
  - intros _ _. apply runs_bind, runs_token_now; [done |]. intros _ _.
    destruct (type _); try (by apply runs_parse_constant_cmp); [| by apply runs_error].
    apply runs_bind, runs_lookahead; [done |]. intros t _ _.
    case_bool_decide; [| by apply runs_parse_field_cmp].
    apply runs_bind, runs_match_id; [done |]. intros b ctx1 Hl1 _ _.
    destruct b; [| by apply runs_error].
    apply runs_bind, runs_get. intros l Hl2 _ _ _.
    apply runs_bind, (runs_parse_chassis_resident not); [done |]. intros e ctx2 Hl3 He _ _.
    apply runs_ret; [done |]. by apply HQ.
Qed.

Lemma runs_parse_not parse not ctx (Q : expr -> expr_context -> Prop) :
  parses parse -> lexer_ok (lexer ctx) ->
  (forall e ctx', lexer_ok (lexer ctx') -> parsed symbols R not e -> Q e ctx') ->
  runs (expr_parse_not symbols addr_sets port_groups dp_id parse not) ctx Q.
Proof.
  intros Hparse Hl HQ. unfold expr_parse_not. apply runs_bind, runs_match; [done | done | |].
  - intros l Hl1 _ _ _ _. apply runs_bind, runs_parse_primary; [done | done |].
    intros e atomic ctx1 Hl2 He _ _. destruct atomic; [| by apply runs_error].
    apply runs_ret; [done |]. apply HQ; [done |]. rewrite <- (negb_involutive not).
    by apply parsed_not.
  - intros _ _. apply runs_bind, runs_parse_primary; [done | done |].
    intros e atomic ctx1 Hl2 He _ _. apply runs_ret; [done |]. by apply HQ.
Qed.

(** ** Expressions *)

Lemma runs_parse_operands parse not t fuel e ctx (Q : expr -> expr_context -> Prop) :
  parses parse -> t <> LEX_T_END -> lexer_ok (lexer ctx) -> parsed symbols R not e ->
  (remaining (lexer ctx) < fuel)%nat ->
  (forall e ctx', lexer_ok (lexer ctx') -> parsed symbols R not e -> Q e ctx') ->
  runs (parse_operands symbols addr_sets port_groups dp_id parse not t fuel e) ctx Q.
Proof.
  intros Hparse Ht. revert e ctx.
  induction fuel as [| fuel IH]; intros e ctx Hl He Hfuel HQ; [lia |]. cbn [parse_operands].
  apply runs_bind, runs_parse_not; [done | done |]. intros e2 ctx1 Hl1 He2 _ Hr1.
  set (op := if bool_decide (t = LEX_T_LOG_AND) then _ else _).
  destruct (honest_combine (cmp_ok symbols R not) op e e2 He He2) as (e' & -> & He').
  apply runs_bind, runs_ret; [done |]. intros _ _.
  apply runs_bind, runs_match; [done | done | |].
  - intros l Hl2 Hr2 _ _ _. apply IH; [done | done | cbn; lia | done].
  - intros _ _. apply runs_ret; [done |]. by apply HQ.
Qed.

(** One level of parentheses: [parse] parses the level below. *)
Lemma runs_parse_level parse not ctx :
  parses parse -> lexer_ok (lexer ctx) ->
  runs (bind (expr_parse_not symbols addr_sets port_groups dp_id parse not) (fun e =>
        bind token_now (fun t =>
          if is_logical (type t) then
            bind get (fun _ =>
            bind (fun ctx => parse_operands symbols addr_sets port_groups dp_id parse not (type t)
                               (S (remaining (lexer ctx))) e ctx) (fun e =>
            bind token_now (fun t =>
              if is_logical (type t)
              then error "&& and || must be parenthesized when used together."
              else ret e)))
          else ret e))) ctx (fun e _ => parsed symbols R not e).
Proof.
  intros Hparse Hl. apply runs_bind, runs_parse_not; [done | done |]. intros e ctx1 Hl1 He _ _.
  apply runs_bind, runs_token_now; [done |]. intros _ _.
  destruct (is_logical _) eqn:Hlog; [| by apply runs_ret].
  apply runs_bind, runs_get. intros l Hl2 Hr _ _. apply runs_bind.
  apply (runs_parse_operands parse not _ (S (remaining l)));
    [done | by intros Ht; rewrite Ht in Hlog | done | done | cbn; lia |].
  intros e' ctx2 Hl3 He' _ _. apply runs_bind, runs_token_now; [done |]. intros _ _.
  destruct (is_logical (type (token (lexer ctx2)))); [by apply runs_error | by apply runs_ret].
Qed.

Lemma runs_parse__ levels not ctx :
  lexer_ok (lexer ctx) ->
  runs (expr_parse__ symbols addr_sets port_groups dp_id levels not) ctx
    (fun e _ => parsed symbols R not e).
Proof.
  revert not ctx. induction levels as [| levels IH]; intros not ctx Hl;
    apply (runs_parse_level _ not); try done.
  intros f not' ctx' [= <-] Hl'. by apply IH.
Qed.

Lemma runs_expr_parse ctx :
  lexer_ok (lexer ctx) ->
  runs (expr_parse symbols addr_sets port_groups dp_id) ctx (fun e _ => parsed symbols R false e).
Proof.
  intros Hl. unfold runs, expr_parse. destruct (lex_err (lexer ctx)) as [m |] eqn:He.
  - exists None, ctx. rewrite He. by split_and!.
  - destruct (runs_parse__ MAX_PAREN_DEPTH false ctx Hl) as (r & ctx' & H & H').
    exists r, ctx'. by rewrite <- He.
Qed.

Lemma force_end_ok l :
  lexer_ok l ->
  lexer_ok (snd (lexer_force_end l)) /\
  (lex_err (snd (lexer_force_end l)) = lex_err l \/ is_Some (lex_err (snd (lexer_force_end l)))).
Proof.
  intros Hl. unfold lexer_force_end. case_bool_decide; [by auto |].
  destruct (lexer_syntax_error_ok l (Some "expecting end of input") Hl) as (H1 & H2 & _). auto.
Qed.

(** Any text is parsed, to an expression or an error. *)
Lemma parse_string_ok s as_refs pg_refs :
  exists e err ctx,
    expr_parse_string symbols addr_sets port_groups dp_id s as_refs pg_refs = Some (e, err, ctx) /\
    match e with
    | Some e => err = None /\ parsed symbols R false e
    | None => is_Some err
    end.
Proof.
  unfold expr_parse_string. destruct (lexer_get_ok (lexer_init s)) as (l & -> & Hl & He & _).
  cbn [mbind option_bind].
  destruct (runs_expr_parse (Context l as_refs pg_refs) Hl) as (r & ctx & -> & Hl' & _ & H).
  cbn [mbind option_bind].
  destruct (force_end_ok (lexer ctx) Hl') as [_ Herr].
  destruct (lexer_force_end (lexer ctx)) as [b l2]. cbn in Herr |- *.
  destruct (lex_err l2) as [m |] eqn:Hm; [by eexists None, (Some m), _ |].
  destruct Herr as [Herr | []]; [| done].
  destruct r as [e |]; [| rewrite <- Herr in H; by destruct H].
  destruct H as [_ H]. by eexists (Some e), None, _.
Qed.

End Tables.
End Parsing.
(** ** Properties *)

(** The table with [tcp.dst] alone *)
Definition tcp_symtab : symtab :=
  {["tcp.dst" :=
     {| sym := {| name := "tcp.dst"; width := 16; n_bytes := 2; level := EXPR_L_ORDINAL;
                  must_crossproduct := false |};
        parent := None; parent_ofs := 0; predicate := None; prereqs := None; rw := 1 |}]}.

Lemma tcp_symtab_ok : symbols_ok (Some tcp_symtab).
Proof.
  intros t id info [= <-]. unfold tcp_symtab. intros [<- <-]%lookup_singleton_Some.
  constructor; cbn; try done; by intros [? ?].
Qed.

(** C9: [expr_parse_string] returns for every text, with an expression or an error and
    never both or none of them.  The expression passes [expr_honors_invariants], and
    its comparisons fit their symbols: the constants have no other bits than the
    masks, which lie in the field and may be zero; nominal fields are tested for
    equality and nominal predicates positively, enclosing negations included;
    relational operators are used with ordinal fields only, and compare ranges of
    bits, provided that address sets have no masks.  The symbols are found under
    their names, those of strings are nominal and predicates have one bit; the
    constants of address sets have no bits outside of their masks; and the functions
    that read addresses do so as [InetLaws] says. *)
Theorem expr_parse_string_total {HI : Inet} {HL : InetLaws} symbols addr_sets port_groups dp_id
    as_refs pg_refs text :
  symbols_ok symbols -> sets_ok addr_sets ->
  exists e err ctx,
    expr_parse_string symbols addr_sets port_groups dp_id text as_refs pg_refs = Some (e, err, ctx) /\
    match e with
    | Some e => err = None /\ expr_honors_invariants e = true /\
                all_cmps (cmp_ok symbols (sets_unmasked addr_sets) false) e
    | None => is_Some err
    end.
Proof.
  intros Hsym Hsets.
  destruct (parse_string_ok symbols addr_sets port_groups dp_id Hsym Hsets text as_refs pg_refs)
    as (e & err & ctx & E & H).
  exists e, err, ctx. split; [done |]. destruct e; [| done]. destruct H as (H1 & H2 & H3). auto.
Qed.

Lemma expr_parse_string_total_witness :
  exists e err ctx,
    @expr_parse_string OvnLexInet.text_inet (Some tcp_symtab) None None 0
      "10 < tcp.dst < 20 && tcp.dst[0]" None None = Some (e, err, ctx) /\
    match e with
    | Some e => err = None /\ expr_honors_invariants e = true /\
                all_cmps (cmp_ok (Some tcp_symtab) (sets_unmasked None) false) e
    | None => is_Some err
    end.
Proof.
  apply (@expr_parse_string_total OvnLexInet.text_inet OvnLexInet.text_inet_laws);
    [apply tcp_symtab_ok | by intros ?].
Defined.

End ExprParseProofs.
