(* ===== verification/ExprAnnotate.v ===== *)
(** * Symbol tables and annotation of OVN match expressions (ovn/lib/expr.c)

    The functions that fill a symbol table and [expr_annotate], which adds the
    prerequisites of the symbols and replaces subfields and predicates by what they
    stand for.  A prerequisite or a predicate is text, which annotation parses; its
    recursion runs on fuel.  A table of fields is generated code: what the functions
    use of a field is an argument. *)

From stdpp Require Import base option list strings gmap.
From Stdlib Require Import ZArith Lia.
From S2P Require Import Prelude Strings CString Binary64 OvsJson OvnLex.
From S2P Require Import Subvalue Expr ExprParse.

Local Open Scope Z_scope.
Local Open Scope string_scope.

Module ExprAnnotate.
Import OvnLex Subvalue Expr ExprParse.

(** What is used of [struct mf_field] *)
Record mf_field := MfField {
  mf_n_bytes : Z;
  mf_n_bits : Z;
  mf_maskable_fully : bool;
  mf_writable : bool;
}.

(** ** Symbol tables *)

(** [None] if the name is already there, which is a failed assertion. *)
Definition add_symbol (tab : symtab) (info : symbol_info) : option symtab :=
  match tab !! name (sym info) with
  | Some _ => None
  | None => Some (<[name (sym info) := info]> tab)
  end.

(** An empty prerequisite is none. *)
Definition given_prereqs (prereqs : option string) : option string :=
  match prereqs with Some EmptyString => None | p => p end.

Definition expr_symtab_add_field_scoped (tab : symtab) (id : string) (field : mf_field)
    (prereqs : option string) (must_crossproduct : bool) (scope : Z) : option symtab :=
  add_symbol tab
    {| sym := {| name := id; width := mf_n_bits field; n_bytes := mf_n_bytes field;
                 level := if mf_maskable_fully field then EXPR_L_ORDINAL else EXPR_L_NOMINAL;
                 must_crossproduct := must_crossproduct |};
       parent := None; parent_ofs := 0; predicate := None; prereqs := given_prereqs prereqs;
       rw := if mf_writable field then scope else 0 |}.

Definition expr_symtab_add_string_scoped (tab : symtab) (id : string) (field : mf_field)
    (prereqs : option string) (scope : Z) : option symtab :=
  add_symbol tab
    {| sym := {| name := id; width := 0; n_bytes := mf_n_bytes field; level := EXPR_L_NOMINAL;
                 must_crossproduct := false |};
       parent := None; parent_ofs := 0; predicate := None; prereqs := given_prereqs prereqs;
       rw := if mf_writable field then scope else 0 |}.

(** An OVN field has no [struct mf_field]. *)
Definition expr_symtab_add_ovn_field (tab : symtab) (id : string) (n_bits : Z) : option symtab :=
  add_symbol tab
    {| sym := {| name := id; width := n_bits; n_bytes := 0; level := EXPR_L_NOMINAL;
                 must_crossproduct := false |};
       parent := None; parent_ofs := 0; predicate := None; prereqs := None; rw := UINT_MAX |}.

Section Annotate.
Context {HI : Inet}.

(** The field, and the error *)
Definition parse_field_from_string (s : string) (tab : symtab) :
    option (option expr_field * option string) :=
  l ← lexer_get (lexer_init s);
  '(f, ctx) ← parse_field (Some tab) (Context l None None);
  let '(_, l) := lexer_force_end (lexer ctx) in
  let '(error, _) := lexer_steal_error l in
  Some (f, error).

(** The table is unchanged where the subfield cannot be parsed; a field that is
    not ordinal only gives a warning. *)
Definition expr_symtab_add_subfield_scoped (tab : symtab) (id : string)
    (prereqs : option string) (subfield : string) (scope : Z) : option symtab :=
  '(f, error) ← parse_field_from_string subfield tab;
  match error with
  | Some _ => Some tab
  | None =>
      f ← f;
      let s := sym (f_symbol f) in
      add_symbol tab
        {| sym := {| name := id; width := n_bits f; n_bytes := 0; level := level s;
                     must_crossproduct := false |};
           parent := Some s; parent_ofs := ofs f; predicate := None;
           prereqs := given_prereqs prereqs;
           rw := if Z.eqb (rw (f_symbol f)) 0 then 0 else scope |}
  end.

Definition level_rank (l : expr_level) : Z :=
  match l with EXPR_L_NOMINAL => 0 | EXPR_L_BOOLEAN => 1 | EXPR_L_ORDINAL => 2 end.

Definition level_min (a b : expr_level) : expr_level :=
  if (level_rank a <? level_rank b)%Z then a else b.

Fixpoint expr_get_level (e : expr) : expr_level :=
  match e with
  | ECmp _ c =>
      if bool_decide (level (symbol c) = EXPR_L_NOMINAL) then EXPR_L_NOMINAL else EXPR_L_BOOLEAN
  | EAndOr _ _ subs => foldl (fun l sub => level_min l (expr_get_level sub)) EXPR_L_ORDINAL subs
  | EBoolean _ | ECondition _ _ => EXPR_L_BOOLEAN
  end.

(** An expression parsed without address sets and port groups *)
Definition parse_in (tab : symtab) (s : string) : option (option expr * option string) :=
  '(e, error, _) ← expr_parse_string (Some tab) None None 0 s None None; Some (e, error).

Definition expr_parse_level (s : string) (tab : symtab) : option (expr_level * option string) :=
  '(e, error) ← parse_in tab s;
  Some (match e with Some e => expr_get_level e | None => EXPR_L_NOMINAL end, error).

Definition expr_symtab_add_predicate (tab : symtab) (id : string) (expansion : string) :
    option symtab :=
  '(l, error) ← expr_parse_level expansion tab;
  match error with
  | Some _ => Some tab
  | None =>
      add_symbol tab
        {| sym := {| name := id; width := 1; n_bytes := 0; level := l;
                     must_crossproduct := false |};
           parent := None; parent_ofs := 0; predicate := Some expansion; prereqs := None; rw := 0 |}
  end.

(** ** Annotation *)

Definition mf_subvalue_shift (v n : Z) : Z :=
  if Z.eqb n 0 then v
  else if (0 <? n)%Z && (n <? subvalue_bits)%Z then
    Z.land (Z.shiftl v n) (Z.ones subvalue_bits)
  else if (n <? 0)%Z && (- subvalue_bits <? n)%Z then Z.shiftr v (- n)
  else 0.

Section Table.
Context (tab : symtab).

(** The members of the symbol that a comparison points to *)
Definition info_of (s : expr_symbol) : option symbol_info := tab !! name s.

Definition annotation_error (s error : string) : string :=
  "Error parsing expression `" +:+ s
  +:+ "' encountered as prerequisite or predicate of initial expression: " +:+ error.

(** The result of annotation is an error or the expression; [None] is fuel that runs
    out, or a symbol that is not in the table. *)
Definition parse_and_annotate (annotate : list string -> expr -> option (string + expr))
    (nesting : list string) (s : string) : option (string + expr) :=
  '(e, error) ← parse_in tab s;
  match e, error with
  | Some e, _ =>
      r ← annotate nesting e;
      Some (match r with
            | inl error => inl (annotation_error s error)
            | inr e => inr e
            end)
  | None, Some error => Some (inl (annotation_error s error))
  | None, None => None
  end.

Section Annotation.
Context (parse_and_annotate : list string -> string -> option (string + expr)).
Context (annotate : bool -> list string -> expr -> option (string + expr)).

Definition expand_symbol (nesting : list string) (info : symbol_info) (a : option string)
    (c : expr_cmp) : option (string + expr) :=
  match parent info, predicate info with
  | Some p, _ =>
      Some (inr (ECmp a
        {| symbol := p; relop := relop c; cst_string := cst_string c;
           value := mf_subvalue_shift (value c) (parent_ofs info);
           mask := mf_subvalue_shift (mask c) (parent_ofs info) |}))
  | None, Some text =>
      r ← parse_and_annotate nesting text;
      match r with
      | inl error => Some (inl error)
      | inr e =>
          let positive := xorb (Z.testbit (value c) 0) (bool_decide (relop c = EXPR_R_NE)) in
          Some (inr (if positive then e else expr_not e))
      end
  | None, None => Some (inr (ECmp a c))
  end.

(** [e] and the prerequisites of a symbol *)
Definition with_prereqs (nesting : list string) (prereqs : option string)
    (k : option (string + expr)) : option (string + expr) :=
  match prereqs with
  | None => k
  | Some text =>
      r ← parse_and_annotate nesting text;
      match r with
      | inl error => Some (inl error)
      | inr p =>
          r ← k;
          match r with
          | inl error => Some (inl error)
          | inr e => inr <$> expr_combine AND (Some e) (Some p)
          end
      end
  end.

Definition expr_annotate_cmp (append_prereqs : bool) (nesting : list string)
    (a : option string) (c : expr_cmp) : option (string + expr) :=
  info ← info_of (symbol c);
  let id := name (symbol c) in
  if bool_decide (id ∈ nesting) then
    Some (inl ("Recursive expansion of symbol `" +:+ id +:+ "'."))
  else
    let nesting := id :: nesting in
    with_prereqs nesting (if append_prereqs then prereqs info else None)
      (expand_symbol nesting info a c).

Definition expr_append_prereqs (nesting : list string) (e : expr) (s : expr_symbol) :
    option (string + expr) :=
  info ← info_of s;
  with_prereqs nesting (prereqs info) (Some (inr e)).

(** The loop over the subexpressions *)
Fixpoint annotate_subs (append_prereqs : bool) (nesting : list string) (t : andor)
    (subs : list expr) : option (string + list expr) :=
  match subs with
  | [] => Some (inr [])
  | sub :: subs =>
      r ← annotate append_prereqs nesting sub;
      match r with
      | inl error => Some (inl error)
      | inr new =>
          r ← annotate_subs append_prereqs nesting t subs;
          match r with
          | inl error => Some (inl error)
          | inr rest => Some (inr (expr_insert_andor t new ++ rest)%list)
          end
      end
  end.

(** The subexpressions of a node, those of its prerequisites included *)
Definition annotate_node (append_prereqs : bool) (nesting : list string) (e : expr) :
    option (string + expr) :=
  match e with
  | EAndOr t a subs =>
      r ← annotate_subs append_prereqs nesting t subs;
      Some (match r with inl error => inl error | inr subs => inr (EAndOr t a subs) end)
  | _ => None
  end.

Definition annotate_andor (append_prereqs : bool) (nesting : list string) (e : expr) :
    option (string + expr) :=
  if append_prereqs then
    match expr_get_unique_symbol e with
    | Some s =>
        r ← expr_append_prereqs nesting e s;
        match r with
        | inl error => Some (inl error)
        | inr e => annotate_node false nesting e
        end
    | None => annotate_node true nesting e
    end
  else annotate_node false nesting e.

End Annotation.

Fixpoint expr_annotate__ (fuel : nat) (append_prereqs : bool) (nesting : list string) (e : expr) :
    option (string + expr) :=
  match fuel with
  | O => None
  | S fuel =>
      let parse_and_annotate := parse_and_annotate (expr_annotate__ fuel true) in
      match e with
      | ECmp a c => expr_annotate_cmp parse_and_annotate append_prereqs nesting a c
      | EAndOr _ _ _ =>
          annotate_andor parse_and_annotate (expr_annotate__ fuel) append_prereqs nesting e
      | EBoolean _ | ECondition _ _ => Some (inr e)
      end
  end.

Definition expr_annotate (fuel : nat) (e : expr) : option (string + expr) :=
  expr_annotate__ fuel true [] e.

End Table.
End Annotate.
End ExprAnnotate.
