(* ===== verification/LogicalFields.v ===== *)
(** * The symbols of OVN's logical flows (ovn/lib/logical-fields.c)

    [ovn_init_symtab] fills the symbol table that matches of logical flows are parsed
    with, and [ovn_init_acl_ct_symtab] the one for access control lists that are to
    match all fragments.  What they use of a field of the switch is transcribed from
    the comments of ovs/include/openvswitch/meta-flow.h, from which the build
    generates the table of fields. *)

From stdpp Require Import base option list strings gmap.
From Stdlib Require Import ZArith Lia.
From S2P Require Import Prelude Strings CString Binary64 OvsJson OvnLex.
From S2P Require Import Subvalue Expr ExprParse ExprAnnotate.

Local Open Scope Z_scope.
Local Open Scope string_scope.

Module LogicalFields.
Import OvnLex Expr ExprParse ExprAnnotate.

(** ** Fields of the switch *)

(** The register fields carry their number. *)
Inductive mf_field_id :=
  | MFF_PKT_MARK | MFF_CT_STATE | MFF_CT_MARK | MFF_CT_LABEL | MFF_CT_NW_PROTO
  | MFF_CT_TP_SRC | MFF_CT_TP_DST
  | MFF_REG (i : Z) | MFF_XREG (i : Z) | MFF_XXREG (i : Z)
  | MFF_ETH_SRC | MFF_ETH_DST | MFF_ETH_TYPE | MFF_VLAN_TCI
  | MFF_IPV4_SRC | MFF_IPV4_DST | MFF_IPV6_SRC | MFF_IPV6_DST | MFF_IPV6_LABEL
  | MFF_IP_PROTO | MFF_IP_DSCP_SHIFTED | MFF_IP_ECN | MFF_IP_TTL | MFF_IP_FRAG
  | MFF_ARP_OP | MFF_ARP_SPA | MFF_ARP_SHA | MFF_ARP_TPA | MFF_ARP_THA
  | MFF_TCP_SRC | MFF_TCP_DST | MFF_TCP_FLAGS | MFF_UDP_SRC | MFF_UDP_DST
  | MFF_SCTP_SRC | MFF_SCTP_DST
  | MFF_ICMPV4_TYPE | MFF_ICMPV4_CODE | MFF_ICMPV6_TYPE | MFF_ICMPV6_CODE
  | MFF_ND_TARGET | MFF_ND_SLL | MFF_ND_TLL.

(** The types: bytes, and the bits of them *)
Definition u8 : Z * Z := (1, 8).
Definition be16 : Z * Z := (2, 16).
Definition be32 : Z * Z := (4, 32).
Definition MAC : Z * Z := (6, 48).
Definition be64 : Z * Z := (8, 64).
Definition be128 : Z * Z := (16, 128).
Definition low (t : Z * Z) (n : Z) : Z * Z := (fst t, n).

Inductive maskable := no | bitwise.
Inductive access := read_only | read_write.

Definition mff (t : Z * Z) (m : maskable) (a : access) : option mf_field :=
  Some {| mf_n_bytes := fst t; mf_n_bits := snd t;
          mf_maskable_fully := match m with bitwise => true | no => false end;
          mf_writable := match a with read_write => true | read_only => false end |}.

Definition metadata_field (id : mf_field_id) : option mf_field :=
  match id with
  | MFF_PKT_MARK => mff be32 bitwise read_write
  | MFF_CT_STATE => mff be32 bitwise read_only
  | MFF_CT_MARK => mff be32 bitwise read_write
  | MFF_CT_LABEL => mff be128 bitwise read_write
  | MFF_CT_NW_PROTO => mff u8 no read_only
  | MFF_CT_TP_SRC => mff be16 bitwise read_only
  | MFF_CT_TP_DST => mff be16 bitwise read_only
  | _ => None
  end.

Definition register_field (id : mf_field_id) : option mf_field :=
  match id with
  | MFF_REG _ => mff be32 bitwise read_write
  | MFF_XREG _ => mff be64 bitwise read_write
  | MFF_XXREG _ => mff be128 bitwise read_write
  | _ => None
  end.

Definition ethernet_field (id : mf_field_id) : option mf_field :=
  match id with
  | MFF_ETH_SRC => mff MAC bitwise read_write
  | MFF_ETH_DST => mff MAC bitwise read_write
  | MFF_ETH_TYPE => mff be16 no read_only
  | MFF_VLAN_TCI => mff be16 bitwise read_write
  | _ => None
  end.

Definition ip_field (id : mf_field_id) : option mf_field :=
  match id with
  | MFF_IPV4_SRC => mff be32 bitwise read_write
  | MFF_IPV4_DST => mff be32 bitwise read_write
  | MFF_IPV6_SRC => mff be128 bitwise read_write
  | MFF_IPV6_DST => mff be128 bitwise read_write
  | MFF_IPV6_LABEL => mff (low be32 20) bitwise read_write
  | MFF_IP_PROTO => mff u8 no read_only
  | MFF_IP_DSCP_SHIFTED => mff (low u8 6) no read_write
  | MFF_IP_ECN => mff (low u8 2) no read_write
  | MFF_IP_TTL => mff u8 no read_write
  | MFF_IP_FRAG => mff (low u8 2) bitwise read_only
  | _ => None
  end.

Definition arp_field (id : mf_field_id) : option mf_field :=
  match id with
  | MFF_ARP_OP => mff be16 no read_write
  | MFF_ARP_SPA => mff be32 bitwise read_write
  | MFF_ARP_TPA => mff be32 bitwise read_write
  | MFF_ARP_SHA => mff MAC bitwise read_write
  | MFF_ARP_THA => mff MAC bitwise read_write
  | _ => None
  end.

Definition transport_field (id : mf_field_id) : option mf_field :=
  match id with
  | MFF_TCP_SRC => mff be16 bitwise read_write
  | MFF_TCP_DST => mff be16 bitwise read_write
  | MFF_TCP_FLAGS => mff (low be16 12) bitwise read_only
  | MFF_UDP_SRC => mff be16 bitwise read_write
  | MFF_UDP_DST => mff be16 bitwise read_write
  | MFF_SCTP_SRC => mff be16 bitwise read_write
  | MFF_SCTP_DST => mff be16 bitwise read_write
  | _ => None
  end.

Definition icmp_field (id : mf_field_id) : option mf_field :=
  match id with
  | MFF_ICMPV4_TYPE => mff u8 no read_write
  | MFF_ICMPV4_CODE => mff u8 no read_write
  | MFF_ICMPV6_TYPE => mff u8 no read_write
  | MFF_ICMPV6_CODE => mff u8 no read_write
  | MFF_ND_TARGET => mff be128 bitwise read_write
  | MFF_ND_SLL => mff MAC bitwise read_write
  | MFF_ND_TLL => mff MAC bitwise read_write
  | _ => None
  end.

(** Every identifier belongs to one group. *)
Definition mf_from_id (id : mf_field_id) : option mf_field :=
  union (metadata_field id) (union (register_field id) (union (ethernet_field id)
    (union (ip_field id) (union (arp_field id) (union (transport_field id) (icmp_field id)))))).

Definition MFF_LOG_FLAGS := MFF_REG 10.
Definition MFF_LOG_INPORT := MFF_REG 14.
Definition MFF_LOG_OUTPORT := MFF_REG 15.
Definition MFF_LOG_REMOTE_OUTPORT := MFF_REG 1.
Definition MFF_N_LOG_REGS : Z := 10.

Definition WR_DEFAULT : Z := 1.
Definition WR_CT_COMMIT : Z := 2.

(** [ovn_fields]: the name and the number of bits *)
Inductive ovn_field_id := OVN_ICMP4_FRAG_MTU | OVN_ICMP6_FRAG_MTU.

Definition ovn_field_from_id (id : ovn_field_id) : string * Z :=
  match id with
  | OVN_ICMP4_FRAG_MTU => ("icmp4.frag_mtu", 16)
  | OVN_ICMP6_FRAG_MTU => ("icmp6.frag_mtu", 32)
  end.

Section Symtab.
Context {HI : Inet}.

(** ** Additions to a table *)

Definition addition : Type := symtab -> option symtab.

Fixpoint perform (additions : list addition) (tab : symtab) : option symtab :=
  match additions with
  | [] => Some tab
  | add :: additions => tab ← add tab; perform additions tab
  end.

Definition field_scoped (id : string) (field : mf_field_id) (prereqs : option string)
    (must_crossproduct : bool) (scope : Z) : addition := fun tab =>
  f ← mf_from_id field; expr_symtab_add_field_scoped tab id f prereqs must_crossproduct scope.
Definition field (id : string) (field : mf_field_id) (prereqs : option string)
    (must_crossproduct : bool) : addition :=
  field_scoped id field prereqs must_crossproduct WR_DEFAULT.

Definition string_field (id : string) (field : mf_field_id) : addition := fun tab =>
  f ← mf_from_id field; expr_symtab_add_string_scoped tab id f None WR_DEFAULT.

Definition subfield_scoped (id : string) (prereqs : option string) (text : string) (scope : Z) :
    addition := fun tab => expr_symtab_add_subfield_scoped tab id prereqs text scope.
Definition subfield (id : string) (prereqs : option string) (text : string) : addition :=
  subfield_scoped id prereqs text WR_DEFAULT.

Definition predicate (id text : string) : addition := fun tab =>
  expr_symtab_add_predicate tab id text.

Definition ovn_field (id : string) (field : ovn_field_id) : addition := fun tab =>
  expr_symtab_add_ovn_field tab id (snd (ovn_field_from_id field)).

(** [name[low]] and [name[low..high]] *)
Definition bit (id : string) (i : Z) : string := id +:+ "[" +:+ str_int i +:+ "]".
Definition bits (id : string) (low high : Z) : string :=
  id +:+ "[" +:+ str_int low +:+ ".." +:+ str_int high +:+ "]".

Definition add_subregister (id parent_name : string) (parent_idx width idx : Z) : addition :=
  let lsb := width * idx in
  let msb := lsb + (width - 1) in
  subfield id None (bits (parent_name +:+ str_int parent_idx) lsb msb).

Definition CS_TRACKED_BIT : Z := 5.

Definition add_ct_bit (id : string) (index : Z) : addition :=
  subfield id (if Z.eqb index CS_TRACKED_BIT then None else Some "ct.trk") (bit "ct_state" index).

Definition CS_STATES : list (string * Z) :=
  [("new", 0); ("est", 1); ("rel", 2); ("rpl", 3); ("inv", 4); ("trk", 5); ("snat", 6);
   ("dnat", 7)].

(** The numbers below [n] *)
Definition upto (n : Z) : list Z := map Z.of_nat (seq 0 (Z.to_nat n)).

(** ** [ovn_init_symtab] *)

Definition registers : list addition :=
  (map (fun xxi => field ("xxreg" +:+ str_int xxi) (MFF_XXREG xxi) None false)
     (upto (MFF_N_LOG_REGS / 4))
   ++ map (fun xi =>
        let xxi := xi / 2 in
        if (xxi <? MFF_N_LOG_REGS / 4)%Z
        then add_subregister ("xreg" +:+ str_int xi) "xxreg" xxi 64 (1 - xi mod 2)
        else field ("xreg" +:+ str_int xi) (MFF_XREG xi) None false)
     (upto (MFF_N_LOG_REGS / 2))
   ++ map (fun i =>
        let xxi := i / 4 in
        let xi := i / 2 in
        if (xxi <? MFF_N_LOG_REGS / 4)%Z
        then add_subregister ("reg" +:+ str_int i) "xxreg" xxi 32 (3 - i mod 4)
        else if (xi <? MFF_N_LOG_REGS / 2)%Z
        then add_subregister ("reg" +:+ str_int i) "xreg" xi 32 (1 - i mod 2)
        else field ("reg" +:+ str_int i) (MFF_REG i) None false)
     (upto MFF_N_LOG_REGS))%list.

(** Bits of the flags; enum mff_log_flags_bits gives their numbers. *)
Definition flags : list addition :=
  [field "flags" MFF_LOG_FLAGS None false;
   subfield "flags.loopback" None (bit "flags" 0);
   subfield "flags.force_snat_for_dnat" None (bit "flags" 2);
   subfield "flags.force_snat_for_lb" None (bit "flags" 3);
   subfield "flags.skip_snat_for_lb" None (bit "flags" 9);
   subfield "flags.use_snat_zone" None (bit "flags" 11);
   subfield "flags.localnet" None (bit "flags" 15);
   subfield "flags.icmp_snat" None (bit "flags" 17);
   subfield "flags.tunnel_rx" None (bit "flags" 16);
   subfield "flags.unsnat_new" None (bit "flags" 20);
   subfield "flags.unsnat_not_tracked" None (bit "flags" 21);
   subfield "flags.network_id" None (bits "flags" 28 31);
   subfield "flags.from_ctrl" None (bit "flags" 19);
   subfield "flags.igmp_loopback" None (bit "flags" 22);
   subfield "flags.pkt_sampled" None (bit "flags" 23)].

Definition conntrack : list addition :=
  ([field_scoped "ct_mark" MFF_CT_MARK None false WR_CT_COMMIT;
    subfield_scoped "ct_mark.blocked" None (bit "ct_mark" 0) WR_CT_COMMIT;
    subfield_scoped "ct_mark.natted" None (bit "ct_mark" 1) WR_CT_COMMIT;
    subfield_scoped "ct_mark.ecmp_reply_port" None "ct_mark[16..31]" WR_CT_COMMIT;
    subfield_scoped "ct_mark.skip_snat" None (bit "ct_mark" 2) WR_CT_COMMIT;
    subfield_scoped "ct_mark.force_snat" None (bit "ct_mark" 3) WR_CT_COMMIT;
    subfield_scoped "ct_mark.obs_stage" None (bits "ct_mark" 4 5) WR_CT_COMMIT;
    subfield_scoped "ct_mark.allow_established" None (bit "ct_mark" 6) WR_CT_COMMIT;
    subfield_scoped "ct_mark.obs_collector_id" None "ct_mark[16..23]" WR_CT_COMMIT;
    field_scoped "ct_label" MFF_CT_LABEL None false WR_CT_COMMIT;
    subfield_scoped "ct_label.ecmp_reply_eth" None (bits "ct_label" 32 79) WR_CT_COMMIT;
    subfield_scoped "ct_label.label" None "ct_label[96..127]" WR_CT_COMMIT;
    subfield_scoped "ct_label.obs_point_id" None "ct_label[96..127]" WR_CT_COMMIT;
    subfield_scoped "ct_label.obs_unused" None "ct_label[0..95]" WR_CT_COMMIT;
    subfield_scoped "ct_label.acl_id" None "ct_label[80..95]" WR_CT_COMMIT;
    subfield_scoped "ct_label.nf" None (bit "ct_label" 7) WR_CT_COMMIT;
    subfield_scoped "ct_label.nf_id" None (bits "ct_label" 17 24) WR_CT_COMMIT;
    subfield_scoped "ct_label.tun_if" None (bit "ct_label" 8) WR_CT_COMMIT;
    subfield_scoped "ct_label.tun_if_id" None (bits "ct_label" 80 95) WR_CT_COMMIT;
    field "ct_state" MFF_CT_STATE None false]
   ++ map (fun '(id, i) => add_ct_bit ("ct." +:+ id) i) CS_STATES)%list.

Definition ethernet : list addition :=
  [field "eth.src" MFF_ETH_SRC None false;
   field "eth.dst" MFF_ETH_DST None false;
   field "eth.type" MFF_ETH_TYPE None true;
   predicate "eth.bcast" "eth.dst == ff:ff:ff:ff:ff:ff";
   subfield "eth.mcast" None "eth.dst[40]";
   predicate "eth.mcastv6" "eth.dst[32..47] == 0x3333";
   field "vlan.tci" MFF_VLAN_TCI None false;
   predicate "vlan.present" "vlan.tci[12]";
   subfield "vlan.pcp" (Some "vlan.present") "vlan.tci[13..15]";
   subfield "vlan.vid" (Some "vlan.present") "vlan.tci[0..11]"].

Definition ip : list addition :=
  [predicate "ip4" "eth.type == 0x800";
   predicate "ip6" "eth.type == 0x86dd";
   predicate "ip" "ip4 || ip6";
   field "ip.proto" MFF_IP_PROTO (Some "ip") true;
   field "ip.dscp" MFF_IP_DSCP_SHIFTED (Some "ip") false;
   field "ip.ecn" MFF_IP_ECN (Some "ip") false;
   field "ip.ttl" MFF_IP_TTL (Some "ip") false;
   field "ip4.src" MFF_IPV4_SRC (Some "ip4") false;
   field "ip4.dst" MFF_IPV4_DST (Some "ip4") false;
   predicate "ip4.src_mcast" "ip4.src[28..31] == 0xe";
   predicate "ip4.mcast" "eth.mcast && ip4.dst[28..31] == 0xe";
   predicate "icmp4" "ip4 && ip.proto == 1";
   field "icmp4.type" MFF_ICMPV4_TYPE (Some "icmp4") false;
   field "icmp4.code" MFF_ICMPV4_CODE (Some "icmp4") false;
   predicate "igmp" "ip4.mcast && ip.proto == 2";
   field "ip6.src" MFF_IPV6_SRC (Some "ip6") false;
   field "ip6.dst" MFF_IPV6_DST (Some "ip6") false;
   field "ip6.label" MFF_IPV6_LABEL (Some "ip6") false].

(** Predefined IPv6 multicast groups, ICMPv6 and fragments *)
Definition ip6_groups : list addition :=
  [predicate "ip6.mcast_rsvd"
     ("ip6.dst == { " +:+ "ff00::0, ff01::0, ff02::0, ff03::0, "
      +:+ "ff04::0, ff05::0, ff06::0, ff07::0, " +:+ "ff08::0, ff09::0, ff0a::0, ff0b::0, "
      +:+ "ff0c::0, ff0d::0, ff0e::0, ff0f::0 " +:+ "}");
   predicate "ip6.mcast_all_nodes" "ip6.dst == ff01::1 || ip6.dst == ff02::1";
   predicate "ip6.mcast_all_rtrs"
     ("ip6.dst == ff01::2 || ip6.dst == ff02::2 || " +:+ "ip6.dst == ff05::2");
   predicate "ip6.mcast_sol_node" "ip6.dst == ff02::1:ff00:0000/104";
   predicate "ip6.mcast_flood"
     ("eth.mcastv6 && " +:+ "(ip6.mcast_rsvd || " +:+ "ip6.mcast_all_nodes || "
      +:+ "ip6.mcast_all_rtrs || " +:+ "ip6.mcast_sol_node)");
   predicate "ip6.mcast" "eth.mcastv6 && ip6.dst[120..127] == 0xff";
   predicate "icmp6" "ip6 && ip.proto == 58";
   field "icmp6.type" MFF_ICMPV6_TYPE (Some "icmp6") true;
   field "icmp6.code" MFF_ICMPV6_CODE (Some "icmp6") true;
   predicate "icmp" "icmp4 || icmp6";
   field "ip.frag" MFF_IP_FRAG (Some "ip") false;
   predicate "ip.is_frag" "ip.frag[0]";
   predicate "ip.later_frag" "ip.frag[1]";
   predicate "ip.first_frag" "ip.is_frag && !ip.later_frag"].

Definition arp : list addition :=
  [predicate "arp" "eth.type == 0x806";
   field "arp.op" MFF_ARP_OP (Some "arp") false;
   field "arp.spa" MFF_ARP_SPA (Some "arp") false;
   field "arp.sha" MFF_ARP_SHA (Some "arp") false;
   field "arp.tpa" MFF_ARP_TPA (Some "arp") false;
   field "arp.tha" MFF_ARP_THA (Some "arp") false;
   predicate "rarp" "eth.type == 0x8035";
   field "rarp.op" MFF_ARP_OP (Some "rarp") false;
   field "rarp.spa" MFF_ARP_SPA (Some "rarp") false;
   field "rarp.sha" MFF_ARP_SHA (Some "rarp") false;
   field "rarp.tpa" MFF_ARP_TPA (Some "rarp") false;
   field "rarp.tha" MFF_ARP_THA (Some "rarp") false].

Definition nd : list addition :=
  [predicate "nd" "icmp6.type == {135, 136} && icmp6.code == 0 && ip.ttl == 255";
   predicate "nd_ns" "icmp6.type == 135 && icmp6.code == 0 && ip.ttl == 255";
   predicate "nd_ns_mcast"
     ("ip6.mcast && icmp6.type == 135 && icmp6.code == 0 && " +:+ "ip.ttl == 255");
   predicate "nd_na" "icmp6.type == 136 && icmp6.code == 0 && ip.ttl == 255";
   predicate "nd_rs" "icmp6.type == 133 && icmp6.code == 0 && ip.ttl == 255";
   predicate "nd_ra" "icmp6.type == 134 && icmp6.code == 0 && ip.ttl == 255";
   field "nd.target" MFF_ND_TARGET (Some "nd") false;
   field "nd.sll" MFF_ND_SLL (Some "nd_ns") false;
   field "nd.tll" MFF_ND_TLL (Some "nd_na") false;
   predicate "mldv1"
     ("eth.mcastv6 && ip6.src == fe80::/10 && " +:+ "icmp6.type == {130, 131, 132}");
   predicate "mldv2" ("eth.mcastv6 && ip6.dst == ff02::16 && " +:+ "icmp6.type == 143")].

Definition transport : list addition :=
  [predicate "tcp" "ip.proto == 6";
   field "tcp.src" MFF_TCP_SRC (Some "tcp") false;
   field "tcp.dst" MFF_TCP_DST (Some "tcp") false;
   field "tcp.flags" MFF_TCP_FLAGS (Some "tcp") false;
   predicate "udp" "ip.proto == 17";
   field "udp.src" MFF_UDP_SRC (Some "udp") false;
   field "udp.dst" MFF_UDP_DST (Some "udp") false;
   predicate "sctp" "ip.proto == 132";
   field "sctp.src" MFF_SCTP_SRC (Some "sctp") false;
   field "sctp.dst" MFF_SCTP_DST (Some "sctp") false;
   field "pkt.mark" MFF_PKT_MARK None false;
   ovn_field "icmp4.frag_mtu" OVN_ICMP4_FRAG_MTU;
   ovn_field "icmp6.frag_mtu" OVN_ICMP6_FRAG_MTU].

(** The table, built by the additions in the order of the code *)
Definition ovn_init_symtab : option symtab :=
  perform
    ([string_field "inport" MFF_LOG_INPORT;
      string_field "outport" MFF_LOG_OUTPORT;
      string_field "remote_outport" MFF_LOG_REMOTE_OUTPORT]
     ++ registers ++ flags ++ conntrack ++ ethernet ++ ip ++ ip6_groups ++ arp ++ nd
     ++ transport)%list ∅.

(** ** [ovn_init_acl_ct_symtab] *)

Definition expr_symtab_remove (tab : symtab) (id : string) : symtab := delete id tab.

Definition ovn_init_acl_ct_symtab : option symtab :=
  tab ← ovn_init_symtab;
  perform
    [field "ct_proto" MFF_CT_NW_PROTO (Some "ct.trk") false;
     predicate "tcp" "ct.trk && !ct.inv && ct_proto == 6";
     field "tcp.src" MFF_CT_TP_SRC (Some "tcp") false;
     field "tcp.dst" MFF_CT_TP_DST (Some "tcp") false;
     predicate "udp" "ct.trk && !ct.inv && ct_proto == 17";
     field "udp.src" MFF_CT_TP_SRC (Some "udp") false;
     field "udp.dst" MFF_CT_TP_DST (Some "udp") false;
     predicate "sctp" "ct.trk && !ct.inv && ct_proto == 132";
     field "sctp.src" MFF_CT_TP_SRC (Some "sctp") false;
     field "sctp.dst" MFF_CT_TP_DST (Some "sctp") false]
    (foldl expr_symtab_remove tab
       ["tcp.src"; "tcp.dst"; "tcp"; "udp.src"; "udp.dst"; "udp"; "sctp.src"; "sctp.dst";
        "sctp"]).

End Symtab.
End LogicalFields.
