(* ===== verification/ExprMeaning.v ===== *)
(** * What a parsed match expression means

    Symbols are not all fields: a subfield is part of another field, a predicate
    stands for an expression, and a symbol may have prerequisites.  [full] says when
    a comparison of any symbol holds of a microflow, without rewriting the
    expression: it is the specification of annotation. *)

From stdpp Require Import base option list strings gmap.
From Stdlib Require Import ZArith Lia.
From S2P Require Import Prelude Strings CString Binary64 OvsJson OvnLex.
From S2P Require Import Subvalue Expr ExprLemmas ExprSimplify ExprParse ExprAnnotate.

Local Open Scope Z_scope.

Module ExprMeaning.
Import OvnLex Subvalue Expr ExprParse ExprAnnotate.

Section Meaning.
Context {HI : Inet} (tab : symtab).
Context (flow : expr_symbol -> Z) (lookup_port : string -> option Z).
Context (is_chassis_resident : string -> bool).

(** An expression whose comparisons mean [f] *)
Section Comparisons.
Context (f : expr_cmp -> bool).

Fixpoint meaning (e : expr) : bool :=
  match e with
  | ECmp _ c => f c
  | EAndOr AND _ subs => forallb meaning subs
  | EAndOr OR _ subs => existsb meaning subs
  | EBoolean b => b
  | ECondition n s => xorb (is_chassis_resident s) n
  end.
End Comparisons.

(** The bits of a subfield of [p] *)
Definition subfield_value (info : symbol_info) (p : expr_symbol) : Z :=
  Z.land (Z.shiftr (field_value flow p) (parent_ofs info)) (Z.ones (width (sym info))).

Section Texts.
Context (texts : string -> bool).

(** A comparison without its prerequisites.  A predicate is compared with a bit. *)
Definition core (c : expr_cmp) : bool :=
  match tab !! name (symbol c) with
  | None => false
  | Some info =>
      match parent info, predicate info with
      | Some p, _ =>
          expr_relop_test (relop c) (memcmp (Z.land (subfield_value info p) (mask c)) (value c))
      | None, Some text =>
          Bool.eqb (texts text)
            (xorb (Z.testbit (value c) 0) (bool_decide (relop c = EXPR_R_NE)))
      | None, None => expr_evaluate_cmp flow lookup_port c
      end
  end.

Definition prerequisites (c : expr_cmp) : bool :=
  match tab !! name (symbol c) with
  | None => false
  | Some info => match prereqs info with Some text => texts text | None => true end
  end.

Definition full (c : expr_cmp) : bool := prerequisites c && core c.
End Texts.

(** A text means what it parses to; [depth] bounds how deep texts are nested. *)
Fixpoint text_holds (depth : nat) (text : string) : bool :=
  match depth with
  | O => false
  | S depth =>
      match parse_in tab text with
      | Some (Some e, _) => meaning (full (text_holds depth)) e
      | _ => false
      end
  end.

Definition holds (depth : nat) (e : expr) : bool := meaning (full (text_holds depth)) e.
End Meaning.

(** ** Tables that can be annotated *)

(** [rank] orders the symbols so that a text only names lower ones; [good] symbols
    are fields of the switch, or stand for them; [pure] symbols do not stand for
    strings. *)
Record certificate := Certificate {
  rank : string -> nat;
  good : string -> bool;
  pure : string -> bool;
}.

Section Certified.
Context {HI : Inet} (tab : symtab) (cert : certificate).

(** Only these names occur in the text. *)
Definition text_names (P : string -> Prop) (text : string) : Prop :=
  exists e, parse_in tab text = Some (Some e, None) /\ all_cmps (fun c => P (name (symbol c))) e.

(** A symbol of its own field *)
Definition is_root (info : symbol_info) : Prop := parent info = None /\ predicate info = None.

Record parent_ok (id : string) (info : symbol_info) (p : expr_symbol) : Prop := {
  po_predicate : predicate info = None;
  po_width : Expr.width (sym info) <> 0;
  po_root : exists pinfo, tab !! name p = Some pinfo /\ sym pinfo = p /\ is_root pinfo;
  po_good : good cert (name p) = true;
  po_rank : (rank cert (name p) <= rank cert id)%nat;
  po_ofs : 0 <= parent_ofs info;
  po_bits : parent_ofs info + Expr.width (sym info) <= Expr.width p;
  po_size : Expr.width p <= subvalue_bits;
}.

Record symbol_ok (id : string) (info : symbol_info) : Prop := {
  so_parent p : parent info = Some p -> parent_ok id info p;
  so_root : is_root info -> wf_symbol (sym info);
  so_pure : pure cert id = true -> Expr.width (sym info) <> 0;
  so_prereqs text : prereqs info = Some text ->
    text_names (fun s => good cert s = true /\ (rank cert s < rank cert id)%nat /\
                  pure cert s = true) text;
  so_predicate text : predicate info = Some text ->
    text_names (fun s => good cert s = true /\ (rank cert s < rank cert id)%nat /\
                  (level (sym info) <> EXPR_L_NOMINAL \/ pure cert id = true ->
                   pure cert s = true)) text;
}.

Definition certified : Prop :=
  forall id info, tab !! id = Some info -> good cert id = true -> symbol_ok id info.
End Certified.
End ExprMeaning.
