(* ===== verification/ExprCertificate.v ===== *)
(** * Checking the certificate of a symbol table

    Whether a table is well formed and certified can be computed; the ranks are how
    deep the texts of a symbol are nested. *)

From stdpp Require Import base option list strings gmap.
From Stdlib Require Import ZArith Lia.
From S2P Require Import Prelude Strings CString Binary64 OvsJson OvnLex.
From S2P Require Import Subvalue Expr ExprLemmas ExprSimplify.
From S2P Require Import ExprParse ExprParseProofs ExprAnnotate ExprMeaning.

Local Open Scope Z_scope.

Module ExprCertificate.
Import OvnLex Subvalue Expr ExprParse ExprParseProofs ExprAnnotate ExprMeaning.

(** The names in an expression *)
Fixpoint names_of (e : expr) : list string :=
  match e with
  | ECmp _ c => [name (symbol c)]
  | EAndOr _ _ subs => flat_map names_of subs
  | EBoolean _ | ECondition _ _ => []
  end.

Lemma all_names (P : string -> Prop) e :
  Forall P (names_of e) <-> all_cmps (fun c => P (name (symbol c))) e.
Proof.
  induction e as [a c | t a subs IH | |] using expr_induction; cbn [names_of].
  - by rewrite Forall_singleton.
  - rewrite all_cmps_andor, Forall_flat_map. induction IH as [| e subs He _ IHs].
    + by rewrite !Forall_nil.
    + by rewrite !Forall_cons, He, IHs.
  - by rewrite Forall_nil.
  - by rewrite Forall_nil.
Qed.

Section Table.
Context {HI : Inet} (tab : symtab).

Definition names_in (text : string) : list string :=
  match parse_in tab text with
  | Some (Some e, _) => names_of e
  | _ => []
  end.

(** How deep the texts of a symbol are nested, up to [fuel] *)
Fixpoint nesting_depth (fuel : nat) (id : string) : nat :=
  match fuel with
  | O => O
  | S fuel =>
      match tab !! id with
      | None => O
      | Some info =>
          let names := flat_map names_in (option_list (prereqs info) ++ option_list (predicate info)) in
          S (max_list (map (nesting_depth fuel) names))
      end
  end.

Section Certificate.
Context (cert : certificate).

Definition info_check (id : string) (info : symbol_info) : bool :=
  String.eqb (name (sym info)) id && (0 <=? Expr.width (sym info)) &&
  (negb (Expr.width (sym info) =? 0) || bool_decide (level (sym info) = EXPR_L_NOMINAL)) &&
  (bool_decide (predicate info = None) || (Expr.width (sym info) =? 1)).

Definition text_check (P : string -> bool) (text : string) : bool :=
  match parse_in tab text with
  | Some (Some e, None) => forallb P (names_of e)
  | _ => false
  end.

Definition root_check (p : expr_symbol) : bool :=
  match tab !! name p with
  | Some pinfo =>
      bool_decide (sym pinfo = p) && bool_decide (parent pinfo = None) &&
      bool_decide (predicate pinfo = None)
  | None => false
  end.

Definition parent_check (id : string) (info : symbol_info) (p : expr_symbol) : bool :=
  bool_decide (predicate info = None) && negb (Expr.width (sym info) =? 0) && root_check p &&
  good cert (name p) && (rank cert (name p) <=? rank cert id)%nat && (0 <=? parent_ofs info) &&
  (parent_ofs info + Expr.width (sym info) <=? Expr.width p) && (Expr.width p <=? subvalue_bits).

Definition symbol_check (id : string) (info : symbol_info) : bool :=
  match parent info with
  | Some p => parent_check id info p
  | None =>
      bool_decide (is_Some (predicate info)) ||
      ((0 <=? Expr.width (sym info)) && (Expr.width (sym info) <=? 8 * n_bytes (sym info)))
  end &&
  (negb (pure cert id) || negb (Expr.width (sym info) =? 0)) &&
  forallb (text_check (fun s => good cert s && (rank cert s <? rank cert id)%nat && pure cert s))
    (option_list (prereqs info)) &&
  forallb (text_check (fun s => good cert s && (rank cert s <? rank cert id)%nat &&
      (bool_decide (level (sym info) = EXPR_L_NOMINAL) && negb (pure cert id) || pure cert s)))
    (option_list (predicate info)).

Definition table_check : bool :=
  forallb (fun '(id, info) => info_check id info && (negb (good cert id) || symbol_check id info))
    (map_to_list tab).

(** *** The checks are sound *)

Lemma info_check_ok id info : info_check id info = true -> info_ok id info.
Proof.
  unfold info_check. rewrite !andb_true_iff, !orb_true_iff.
  intros [[[Hn%String.eqb_eq Hw%Z.leb_le] Hs] Hp]. constructor; [done | done | |].
  - intros E. rewrite E in Hs. destruct Hs as [Hs | Hs]; [done | by apply bool_decide_eq_true in Hs].
  - intros Hsome. destruct Hp as [Hp%bool_decide_eq_true | Hp%Z.eqb_eq]; [| done].
    rewrite Hp in Hsome. by destruct Hsome.
Qed.

Lemma text_check_ok (P : string -> bool) (Q : string -> Prop) text :
  (forall s, P s = true -> Q s) -> text_check P text = true -> text_names tab Q text.
Proof.
  intros HPQ. unfold text_check. destruct (parse_in tab text) as [[[e |] [err |]] |] eqn:He; try done.
  intros H. exists e. split; [done |]. apply all_names. apply Forall_forall. intros s Hs.
  apply HPQ. rewrite forallb_forall in H. apply H. by apply list_elem_of_In.
Qed.

Lemma parent_check_ok id info p : parent_check id info p = true -> parent_ok tab cert id info p.
Proof.
  unfold parent_check, root_check. rewrite !andb_true_iff.
  intros [[[[[[[H1%bool_decide_eq_true H2] H3] H4] H5%Nat.leb_le] H6%Z.leb_le] H7%Z.leb_le] H8%Z.leb_le].
  constructor; try done.
  - by intros E; rewrite E in H2.
  - destruct (tab !! name p) as [pinfo |]; [| done]. rewrite !andb_true_iff in H3.
    destruct H3 as [[H31%bool_decide_eq_true H32%bool_decide_eq_true] H33%bool_decide_eq_true].
    by exists pinfo.
Qed.

Lemma symbol_check_ok id info : symbol_check id info = true -> symbol_ok tab cert id info.
Proof.
  unfold symbol_check. rewrite !andb_true_iff. intros [[[H1 H2] H3] H4]. constructor.
  - intros p Hp. rewrite Hp in H1. by apply parent_check_ok.
  - intros [Hp Hpred]. rewrite Hp, Hpred in H1. cbn in H1.
    apply andb_true_iff in H1 as [?%Z.leb_le ?%Z.leb_le]. unfold wf_symbol. lia.
  - intros Hpure. rewrite Hpure in H2. intros E. by rewrite E in H2.
  - intros text Ht. rewrite Ht in H3. apply andb_true_iff in H3 as [H3 _].
    eapply text_check_ok; [| done]. intros s. cbv beta.
    rewrite !andb_true_iff, Nat.ltb_lt. tauto.
  - intros text Ht. rewrite Ht in H4. apply andb_true_iff in H4 as [H4 _].
    eapply text_check_ok; [| done]. intros s. cbv beta.
    rewrite !andb_true_iff, orb_true_iff, Nat.ltb_lt, andb_true_iff, bool_decide_eq_true, negb_true_iff.
    intros [[Hg Hr] Hp]. split_and!; [done | done |].
    intros [Hl | Hpu]; destruct Hp as [[? Hf] | ?]; congruence.
Qed.

Lemma table_check_ok : table_check = true -> symbols_ok (Some tab) /\ certified tab cert.
Proof.
  unfold table_check. rewrite forallb_forall. intros H.
  assert (forall id info, tab !! id = Some info ->
    info_check id info && (negb (good cert id) || symbol_check id info) = true) as Hall.
  { intros id info Hi. apply (H (id, info)). apply list_elem_of_In. by apply elem_of_map_to_list. }
  split.
  - intros t id info [= <-] Hi. apply info_check_ok. by apply Hall, andb_true_iff in Hi as [? _].
  - intros id info Hi Hg. apply symbol_check_ok. apply Hall, andb_true_iff in Hi as [_ Hi].
    by rewrite Hg in Hi.
Qed.
End Certificate.
End Table.
End ExprCertificate.
