(* ===== verification/ExprAnnotateProofs.v ===== *)
(** * Annotation ends and keeps the meaning of an expression

    With a table that has a certificate, [expr_annotate] turns every parsed
    expression into one over fields, which the later passes accept, and which holds
    where the specification [ExprMeaning.holds] says so. *)

From stdpp Require Import base option list strings gmap.
From Stdlib Require Import ZArith Lia.
From S2P Require Import Prelude Strings CString Binary64 OvsJson OvnLex OvnLexNumbers OvnLexAddresses.
From S2P Require Import Subvalue Expr ExprLemmas ExprSimplify ExprNormalize.
From S2P Require Import ExprParse ExprParseProofs ExprAnnotate ExprMeaning ExprCertificate.
From S2P Require Import OvnLexInet LogicalFields.

Local Open Scope Z_scope.
Local Open Scope string_scope.

Module ExprAnnotateProofs.
Import OvnLex OvnLexNumbers OvnLexAddresses Subvalue Expr ExprParse ExprParseProofs ExprAnnotate.
Import ExprMeaning ExprCertificate OvnLexInet.

(** ** Meanings *)

Lemma denote_meaning flow lookup_port icr e :
  denote flow lookup_port icr e = meaning icr (expr_evaluate_cmp flow lookup_port) e.
Proof. reflexivity. Qed.

Definition meaning_subs (icr : string -> bool) (f : expr_cmp -> bool) (t : andor)
    (subs : list expr) : bool :=
  match t with AND => forallb (meaning icr f) subs | OR => existsb (meaning icr f) subs end.

Lemma meaning_andor icr f t a subs : meaning icr f (EAndOr t a subs) = meaning_subs icr f t subs.
Proof. by destruct t. Qed.

Lemma meaning_subs_cons icr f t e subs :
  meaning_subs icr f t (e :: subs) = denote_op t (meaning icr f e) (meaning_subs icr f t subs).
Proof. by destruct t. Qed.

(** A conjunct that all comparisons share can be taken out, if there are
    comparisons only. *)
Lemma meaning_shared icr b f g s e :
  expr_get_unique_symbol e = Some s -> expr_honors_invariants e = true ->
  all_cmps (fun c => symbol c = s -> g c = b && f c) e ->
  meaning icr g e = b && meaning icr f e.
Proof.
  induction e as [a c | t a subs IH | |] using expr_induction; cbn [expr_get_unique_symbol]; try done.
  - cbn. intros [= ->] _ H. by apply H.
  - intros [Hu _]%unique_symbol_of_Some [Hl Hh]%honors_andor H%all_cmps_andor.
    rewrite !meaning_andor.
    assert (Forall (fun e => meaning icr g e = b && meaning icr f e) subs) as Heq.
    { rewrite Forall_forall in *. intros e He. apply IH; [done | by apply Hu | by apply Hh | by apply H]. }
    destruct subs as [| e subs]; [cbn in Hl; lia |]. clear -Heq. revert e Heq.
    induction subs as [| e' subs IH]; intros e [H1 H2]%Forall_cons; rewrite meaning_subs_cons, H1.
    + rewrite meaning_subs_cons. destruct t; cbn; by rewrite ?andb_true_r, ?orb_false_r.
    + rewrite (IH e') by done. rewrite (meaning_subs_cons _ _ _ e).
      destruct t, b, (meaning icr f e); cbn; try done; by rewrite ?andb_false_r.
Qed.

(** ** Negation *)

Definition numeric (e : expr) : Prop := all_cmps (fun c => Expr.width (symbol c) <> 0) e.

Lemma numeric_not e : numeric e -> numeric (expr_not e).
Proof.
  unfold numeric. induction e as [a c | t a subs IH | |] using expr_induction; try done.
  cbn [expr_not]. rewrite !all_cmps_andor, Forall_map. intros H. induction IH; inversion H; auto.
Qed.

Lemma numeric_ports lookup_port e : numeric e -> all_cmps (port_known lookup_port) e.
Proof. apply all_cmps_impl. by intros c Hw ?. Qed.

(** A comparison of a subfield is the shifted comparison of its field. *)
Lemma shift_compare x m v o w :
  0 <= x -> 0 <= o -> 0 <= m < 2 ^ w -> 0 <= w ->
  memcmp (Z.land x (Z.shiftl m o)) (Z.shiftl v o)
  = memcmp (Z.land (Z.land (Z.shiftr x o) (Z.ones w)) m) v.
Proof.
  intros Hx Ho Hm Hw.
  replace (Z.land (Z.land (Z.shiftr x o) (Z.ones w)) m) with (Z.land (Z.shiftr x o) m).
  2: { rewrite <- Z.land_assoc, (Z.land_comm (Z.ones w)), Z.land_ones by done.
       by rewrite Z.mod_small. }
  replace (Z.land x (Z.shiftl m o)) with (Z.shiftl (Z.land (Z.shiftr x o) m) o).
  2: { apply Z.bits_inj'. intros n Hn. rewrite Z.land_spec.
       destruct (Z.lt_ge_cases n o); [by rewrite !Z.shiftl_spec_low, andb_false_r by done |].
       rewrite !Z.shiftl_spec, Z.land_spec, Z.shiftr_spec by lia.
       by replace (n - o + o) with n by lia. }
  unfold memcmp. rewrite !Z.shiftl_mul_pow2 by done.
  rewrite (Zmult_compare_compat_r _ v (2 ^ o)) by lia. done.
Qed.

Lemma subvalue_shift v o w :
  0 <= o -> 0 <= v < 2 ^ w -> 0 <= w -> o + w <= subvalue_bits ->
  mf_subvalue_shift v o = Z.shiftl v o.
Proof.
  intros Ho Hv Hw Hb. unfold mf_subvalue_shift.
  destruct (Z.eqb_spec o 0) as [-> |]; [by rewrite Z.shiftl_0_r |].
  destruct (Z.ltb_spec 0 o); [| lia]. cbn [andb].
  destruct (Z.ltb_spec o subvalue_bits) as [Hlt | Hge]; cbn [andb].
  - rewrite Z.land_ones by done. apply Z.mod_small. rewrite Z.shiftl_mul_pow2 by done.
    assert (2 ^ w * 2 ^ o <= 2 ^ subvalue_bits)
      by (rewrite <- Z.pow_add_r by done; apply Z.pow_le_mono_r; lia).
    assert (0 < 2 ^ o) by lia. nia.
  - assert (w = 0) as -> by lia. assert (v = 0) as -> by (cbn in Hv; lia).
    rewrite Z.shiftl_0_l. destruct (Z.ltb_spec o 0); [lia | done].
Qed.

Lemma wf_match_shift s p v m o :
  wf_match s v m -> wf_symbol p -> 0 <= o -> 0 <= Expr.width s -> o + Expr.width s <= Expr.width p ->
  wf_match p (Z.shiftl v o) (Z.shiftl m o).
Proof.
  intros [Hv Hm Hsub] Hp Ho Hs Hw. constructor.
  - by apply Z.shiftl_nonneg.
  - split; [apply Z.shiftl_nonneg; lia |]. rewrite Z.shiftl_mul_pow2 by done.
    apply Z.lt_le_trans with (2 ^ Expr.width s * 2 ^ o).
    + assert (0 < 2 ^ o) by lia. nia.
    + rewrite <- Z.pow_add_r by done. apply Z.pow_le_mono_r; lia.
  - intros n Hn. destruct (Z.lt_ge_cases n o); [by rewrite Z.shiftl_spec_low |].
    rewrite !Z.shiftl_spec by lia. apply Hsub. lia.
Qed.

Lemma range_shift start n o : 0 <= start -> 0 <= o -> Z.shiftl (sv_range start n) o = sv_range (start + o) n.
Proof. intros. unfold sv_range. by rewrite Z.shiftl_shiftl. Qed.

Section Annotate.
Context {HI : Inet} {HL : InetLaws} (tab : symtab) (cert : certificate).
Context (Hsymbols : symbols_ok (Some tab)) (Hcert : certified tab cert).

(** What annotation takes: comparisons of good symbols below [r] *)
Definition ready (r : nat) (c : expr_cmp) : Prop :=
  cmp_ok (Some tab) True false c /\ good cert (name (symbol c)) = true /\
  (rank cert (name (symbol c)) < r)%nat.

(** What it returns: comparisons of fields *)
Definition rooted (r : nat) (c : expr_cmp) : Prop :=
  simplifiable c /\ (exists info, tab !! name (symbol c) = Some info /\ is_root info) /\
  (rank cert (name (symbol c)) < r)%nat.

Lemma honest_impl (P Q : expr_cmp -> Prop) e : (forall c, P c -> Q c) -> honest P e -> honest Q e.
Proof. intros H [H1 H2]. split; [by eapply all_cmps_impl | done]. Qed.

Lemma rooted_le r r' c : (r <= r')%nat -> rooted r c -> rooted r' c.
Proof. intros Hr (H1 & H2 & H3). split_and!; [done | done | lia]. Qed.

Lemma rooted_not r e : numeric e -> honest (rooted r) e -> honest (rooted r) (expr_not e).
Proof.
  unfold numeric. induction e as [a c | t a subs IH | |] using expr_induction; try done.
  - cbn. intros Hw [([Hwf Hstr Hrange] & Hroot & Hrank) Hh]. split; [| done].
    split_and!; [constructor | done | done]; [by destruct Hwf | done |].
    cbn. intros _ H1 H2. apply Hrange; [done | by intros E; rewrite E in H2 | by intros E; rewrite E in H1].
  - cbn [expr_not]. rewrite all_cmps_andor, !honest_andor, length_map, Forall_map.
    intros Hn [Hl H]. split; [done |]. rewrite Forall_forall in *. intros e He.
    destruct (H e He) as [Ht Hp]. split; [| by apply IH; [| apply Hn |]].
    rewrite expr_not_type. by destruct t.
Qed.

(** *** Runs *)

(** Enough fuel gives the result. *)
Definition settles (f : nat -> option (string + expr)) (e : expr) : Prop :=
  exists fuel, forall n, (fuel <= n)%nat -> f n = Some (inr e).

Definition annotates (ap : bool) (nesting : list string) (e e' : expr) : Prop :=
  settles (fun n => expr_annotate__ tab n ap nesting e) e'.

Definition parse_and_annotate_n (n : nat) : list string -> string -> option (string + expr) :=
  parse_and_annotate tab (expr_annotate__ tab n true).

Lemma annotate_unfold n ap nesting e :
  expr_annotate__ tab (S n) ap nesting e =
  match e with
  | ECmp a c => expr_annotate_cmp tab (parse_and_annotate_n n) ap nesting a c
  | EAndOr _ _ _ =>
      annotate_andor tab (parse_and_annotate_n n) (expr_annotate__ tab n) ap nesting e
  | EBoolean _ | ECondition _ _ => Some (inr e)
  end.
Proof. reflexivity. Qed.

Lemma annotates_step ap nesting e e' :
  settles (fun n =>
    match e with
    | ECmp a c => expr_annotate_cmp tab (parse_and_annotate_n n) ap nesting a c
    | EAndOr _ _ _ =>
        annotate_andor tab (parse_and_annotate_n n) (expr_annotate__ tab n) ap nesting e
    | EBoolean _ | ECondition _ _ => Some (inr e)
    end) e' ->
  annotates ap nesting e e'.
Proof.
  intros [fuel H]. exists (S fuel). intros [| n] Hn; [lia |]. rewrite annotate_unfold.
  apply H. lia.
Qed.

(** *** Nodes *)

(** The loop over the subexpressions of a node *)
Lemma annotate_subs_settles ap nesting t subs subs' :
  Forall2 (annotates ap nesting) subs subs' ->
  exists fuel, forall n, (fuel <= n)%nat ->
    annotate_subs (expr_annotate__ tab n) ap nesting t subs
    = Some (inr (flat_map (expr_insert_andor t) subs')).
Proof.
  induction 1 as [| e e' subs subs' [f1 He] _ [f2 IH]]; [by exists 0%nat |].
  exists (f1 + f2)%nat. intros n Hn. cbn [annotate_subs]. rewrite He by lia. cbn.
  rewrite IH by lia. done.
Qed.

Lemma annotate_node_settles ap nesting t a subs subs' :
  Forall2 (annotates ap nesting) subs subs' ->
  settles (fun n => annotate_node (expr_annotate__ tab n) ap nesting (EAndOr t a subs))
    (EAndOr t a (flat_map (expr_insert_andor t) subs')).
Proof.
  intros [fuel H]%(annotate_subs_settles _ _ t). exists fuel. intros n Hn.
  cbn [annotate_node]. by rewrite H.
Qed.

(** Its result *)
Lemma node_honest P t a subs :
  (2 <= length subs)%nat -> Forall (honest P) subs ->
  honest P (EAndOr t a (flat_map (expr_insert_andor t) subs)).
Proof.
  intros Hl H. apply honest_andor. split.
  - enough (length subs <= length (flat_map (expr_insert_andor t) subs))%nat by lia. clear Hl.
    induction H as [| e subs He _ IH]; [done |]. cbn [flat_map length].
    rewrite length_app. destruct (honest_insert P t e He). lia.
  - clear Hl. induction H as [| e subs He _ IH]; [constructor |]. cbn [flat_map].
    apply Forall_app. split; [by apply honest_insert | done].
Qed.

Lemma node_denote flow lookup_port icr t a subs :
  denote flow lookup_port icr (EAndOr t a (flat_map (expr_insert_andor t) subs))
  = denote_subs flow lookup_port icr t subs.
Proof.
  rewrite denote_andor. induction subs as [| e subs IH]; [done |]. cbn [flat_map].
  by rewrite denote_subs_app, denote_insert_andor, IH, denote_subs_cons.
Qed.

Lemma numeric_insert t e : numeric e -> Forall numeric (expr_insert_andor t e).
Proof.
  unfold numeric. destruct e as [| t' a subs | |]; cbn [expr_insert_andor]; try (by repeat constructor).
  case_decide; [by rewrite all_cmps_andor | by repeat constructor].
Qed.

Lemma numeric_node t a subs :
  Forall numeric subs -> numeric (EAndOr t a (flat_map (expr_insert_andor t) subs)).
Proof.
  intros H. apply all_cmps_andor. induction H as [| e subs He _ IH]; [constructor |].
  cbn [flat_map]. apply Forall_app. split; [by apply numeric_insert | done].
Qed.

(** *** Comparisons *)

Definition above (k : nat) (nesting : list string) : Prop :=
  Forall (fun id => (k <= rank cert id)%nat) nesting.

(** What annotation makes of [e] *)
Definition annotation_ok (r : nat) (ap : bool) (nesting : list string) (e : expr) : Prop :=
  exists e', annotates ap nesting e e' /\ honest (rooted r) e' /\
    (all_cmps (fun c => pure cert (name (symbol c)) = true) e -> numeric e') /\
    forall flow lookup_port icr d, (r <= d)%nat ->
      denote flow lookup_port icr e' =
      meaning icr ((if ap then full else core) tab flow lookup_port
                     (text_holds tab flow lookup_port icr d)) e.

Lemma parsed_text text e :
  parse_in tab text = Some (Some e, None) -> honest (cmp_ok (Some tab) True false) e.
Proof using HL Hsymbols.
  unfold parse_in. intros H.
  destruct (parse_string_ok (Some tab) None None 0 Hsymbols ltac:(by intros ?) text None None)
    as (o & err & ctx & E & Ho).
  rewrite E in H. cbn in H. simplify_eq. destruct Ho as [_ [Hall Hh]]. split; [| done].
  revert Hall. apply all_cmps_impl. intros c [H1 H2 H3]. constructor; [done | done |].
  intros Hr. destruct (H3 Hr) as [Hl Hrange]. split; [done |]. intros _. apply Hrange. by intros ?.
Qed.

Section Rank.
Context (r : nat).
Context (IH : forall k, (k < r)%nat -> forall nesting e,
  honest (ready k) e -> above k nesting -> annotation_ok k true nesting e).

(** The text of a prerequisite or a predicate *)
Lemma text_settles k (A : Prop) text nesting :
  (k < r)%nat -> above k nesting ->
  text_names tab (fun s => good cert s = true /\ (rank cert s < k)%nat /\
                    (A -> pure cert s = true)) text ->
  exists p, settles (fun n => parse_and_annotate_n n nesting text) p /\ honest (rooted k) p /\
    (A -> numeric p) /\
    forall flow lookup_port icr d, (k < d)%nat ->
      denote flow lookup_port icr p = text_holds tab flow lookup_port icr d text.
Proof using All.
  intros Hk Hn (e & He & Hnames). destruct (parsed_text text e He) as [Hall Hh].
  destruct (IH k Hk nesting e) as (p & [fuel Hs] & Hp & Hpure & Hd); [| done |].
  { split; [| done]. clear -Hall Hnames.
    induction e as [a c | t a subs IH | |] using expr_induction; try done.
    - cbn in *. split; [done |]. tauto.
    - rewrite all_cmps_andor in *. rewrite Forall_forall in *. auto. }
  exists p. split_and!; [| done | |].
  - exists fuel. intros n Hle. unfold parse_and_annotate_n, parse_and_annotate.
    rewrite He. cbn. by rewrite Hs.
  - intros HA. apply Hpure. revert Hnames. apply all_cmps_impl. tauto.
  - intros flow lookup_port icr [| d] Hle; [lia |]. cbn [text_holds]. rewrite He.
    rewrite (Hd _ _ _ d) by lia. done.
Qed.

End Rank.

Lemma simplifiable_honors a c : simplifiable c -> expr_honors_invariants (ECmp a c) = true.
Proof.
  intros [[_ Hm] _ _]. cbn. destruct (Z.eqb_spec (Expr.width (symbol c)) 0) as [| Hw]; [done |].
  cbn [negb]. apply Z.eqb_eq. by apply subset_ldiff, Hm.
Qed.

Lemma relational_ne q : q <> EXPR_R_EQ -> q <> EXPR_R_NE -> is_relational q = true.
Proof. by destruct q. Qed.

(** A comparison of a field is left alone. *)
Lemma root_rooted r a c info :
  ready r c -> tab !! name (symbol c) = Some info -> is_root info ->
  honest (rooted r) (ECmp a c).
Proof using Hsymbols Hcert.
  intros ([(t & info' & [= <-] & Hinfo' & Hsym & Hnom) Hmatch Hrange] & Hgood & Hrank) Hinfo Hroot.
  rewrite Hinfo in Hinfo'. injection Hinfo' as <-.
  assert (simplifiable c) as Hsf.
  { constructor.
    - split; [| done]. rewrite <- Hsym. by apply (so_root _ _ _ _ (Hcert _ _ Hinfo Hgood)).
    - intros Hw. destruct Hroot as [_ Hpred]. rewrite Hpred in Hnom. cbn in Hnom. apply Hnom.
      rewrite <- Hsym. apply (io_string _ _ (Hsymbols _ _ _ eq_refl Hinfo)). by rewrite Hsym.
    - intros _ H1 H2. by apply Hrange; [apply relational_ne |]. }
  split; [| by apply simplifiable_honors]. cbn. split_and!; [done | by exists info | done].
Qed.

(** A comparison of a subfield is made one of its field. *)
Definition shifted (info : symbol_info) (p : expr_symbol) (c : expr_cmp) : expr_cmp :=
  {| symbol := p; relop := relop c; cst_string := cst_string c;
     value := mf_subvalue_shift (value c) (parent_ofs info);
     mask := mf_subvalue_shift (mask c) (parent_ofs info) |}.

Lemma shifted_facts r c info p :
  ready r c -> tab !! name (symbol c) = Some info -> parent info = Some p ->
  simplifiable (shifted info p c) /\ rooted r (shifted info p c) /\ Expr.width p <> 0 /\
  forall flow lookup_port,
    expr_evaluate_cmp flow lookup_port (shifted info p c) =
    expr_relop_test (relop c)
      (memcmp (Z.land (subfield_value flow info p) (mask c)) (value c)).
Proof using Hsymbols Hcert.
  intros ([(t & info' & [= <-] & Hinfo' & Hsym & Hnom) Hmatch Hrange] & Hgood & Hrank) Hinfo Hparent.
  rewrite Hinfo in Hinfo'. injection Hinfo' as <-.
  destruct (so_parent _ _ _ _ (Hcert _ _ Hinfo Hgood) p Hparent)
    as [_ Hw (pinfo & Hp & Hpsym & Hproot) Hpgood Hprank Ho Hbits Hsize].
  pose proof (io_width _ _ (Hsymbols _ _ _ eq_refl Hinfo)) as Hw0.
  assert (wf_symbol p) as Hwf.
  { rewrite <- Hpsym. by apply (so_root _ _ _ _ (Hcert _ _ Hp Hpgood)). }
  rewrite Hsym in *. specialize (Hmatch Hw).
  assert (0 <= value c < 2 ^ Expr.width (symbol c)) as Hv.
  { destruct Hmatch as [Hv Hm Hsub]. split; [done |].
    apply Z.le_lt_trans with (mask c); [| lia]. apply Z.ldiff_le; [lia | by apply subset_ldiff]. }
  pose proof (wm_mask _ _ _ Hmatch) as Hm.
  assert (shifted info p c =
    {| symbol := p; relop := relop c; cst_string := cst_string c;
       value := Z.shiftl (value c) (parent_ofs info);
       mask := Z.shiftl (mask c) (parent_ofs info) |}) as Hshift.
  { unfold shifted. by rewrite !(subvalue_shift _ _ (Expr.width (symbol c))) by lia. }
  assert (simplifiable (shifted info p c)) as Hsf.
  { rewrite Hshift. constructor; cbn.
    - split; [done |]. intros _. by apply (wf_match_shift (symbol c)).
    - lia.
    - intros _ H1 H2. destruct (Hrange (relational_ne _ H1 H2)) as [_ Hr].
      destruct (Hr I) as (start & n & Hs & Hn & Hle & ->). exists (start + parent_ofs info), n.
      split_and!; [lia | done | lia | by apply range_shift]. }
  split_and!; [done | | lia |].
  - split_and!; [done | by exists pinfo | cbn; lia].
  - intros flow lookup_port. rewrite eval_numeric; [| by destruct Hsf | cbn; lia]. rewrite Hshift. cbn.
    unfold subfield_value. rewrite Hsym.
    rewrite (shift_compare _ _ _ _ (Expr.width (symbol c))); try done. by apply field_value_nonneg.
Qed.

Section Expand.
Context (r : nat).
Context (IH : forall k, (k < r)%nat -> forall nesting e,
  honest (ready k) e -> above k nesting -> annotation_ok k true nesting e).

(** The symbol of a comparison is replaced by what it stands for. *)
Lemma expand_settles nesting info a c :
  ready r c -> tab !! name (symbol c) = Some info -> above (rank cert (name (symbol c))) nesting ->
  exists e, settles (fun n => expand_symbol (parse_and_annotate_n n) nesting info a c) e /\
    honest (rooted r) e /\ (pure cert (name (symbol c)) = true -> numeric e) /\
    forall flow lookup_port icr d, (r <= d)%nat ->
      denote flow lookup_port icr e =
      core tab flow lookup_port (text_holds tab flow lookup_port icr d) c.
Proof using All.
  intros Hready Hinfo Hn. unfold core. rewrite Hinfo. unfold expand_symbol.
  destruct (parent info) as [p |] eqn:Hparent.
  { destruct (shifted_facts r c info p Hready Hinfo Hparent) as (Hsf & Hroot & Hw & Hd).
    exists (ECmp a (shifted info p c)). split_and!.
    - by exists 0%nat.
    - split; [done | by apply simplifiable_honors].
    - done.
    - intros flow lookup_port icr d _. apply Hd. }
  destruct (predicate info) as [text |] eqn:Hpred.
  2: { exists (ECmp a c). split_and!; [by exists 0%nat | by eapply root_rooted | | done].
       intros Hp. destruct Hready as ([(t & info' & [= <-] & Hinfo' & Hsym & _) _ _] & Hgood & _).
       cbn. rewrite Hinfo in Hinfo'. injection Hinfo' as <-. rewrite <- Hsym.
       by apply (so_pure _ _ _ _ (Hcert _ _ Hinfo Hgood)). }
  destruct Hready as ([(t & info' & [= <-] & Hinfo' & Hsym & Hnom) Hmatch Hrange] & Hgood & Hrank).
  rewrite Hinfo in Hinfo'. injection Hinfo' as <-.
  pose proof (so_predicate _ _ _ _ (Hcert _ _ Hinfo Hgood) text Hpred) as Htext.
  destruct (text_settles r IH _ _ text nesting Hrank Hn Htext) as (p & [fuel Hs] & Hp & Hnum & Hd).
  apply (honest_impl _ (rooted r)) in Hp; [| intros; eapply rooted_le; [| done]; lia].
  set (positive := xorb (Z.testbit (value c) 0) (bool_decide (relop c = EXPR_R_NE))) in *.
  exists (if positive then p else expr_not p).
  assert (positive = false -> numeric p) as Hneg.
  { intros E. apply Hnum. left. intros Hlevel. rewrite Hsym in Hlevel. specialize (Hnom Hlevel).
    rewrite Hpred, bool_decide_true in Hnom by done. by rewrite E in Hnom. }
  split_and!.
  - exists fuel. intros n Hle. rewrite Hs by done. done.
  - destruct positive; [done |]. apply rooted_not; auto.
  - intros Hpure. destruct positive; [auto |]. apply numeric_not; auto.
  - intros flow lookup_port icr d Hle. rewrite <- (Hd flow lookup_port icr d) by lia.
    destruct positive; [by destruct (denote _ _ _ p) |].
    rewrite denote_not by (apply numeric_ports; auto). by destruct (denote _ _ _ p).
Qed.

(** The prerequisites of a symbol *)
Lemma prereqs_text_settles nesting info id text :
  tab !! id = Some info -> good cert id = true -> (rank cert id < r)%nat ->
  above (rank cert id) nesting -> prereqs info = Some text ->
  exists p, settles (fun n => parse_and_annotate_n n nesting text) p /\ honest (rooted r) p /\
    numeric p /\
    forall flow lookup_port icr d, (r <= d)%nat ->
      denote flow lookup_port icr p = text_holds tab flow lookup_port icr d text.
Proof using All.
  intros Hinfo Hgood Hrank Hn Hpre.
  pose proof (so_prereqs _ _ _ _ (Hcert _ _ Hinfo Hgood) text Hpre) as Htext.
  destruct (text_settles r IH (rank cert id) True text nesting Hrank Hn) as (p & Hs & Hp & Hnum & Hd).
  { destruct Htext as (e' & H1 & H2). exists e'. split; [done |]. revert H2.
    apply all_cmps_impl. tauto. }
  exists p. split_and!; [done | | by apply Hnum | intros; apply Hd; lia].
  revert Hp. apply honest_impl. intros c. apply rooted_le. lia.
Qed.

(** An expression and the prerequisites of a symbol *)
Lemma prereqs_settle nesting info id f e :
  tab !! id = Some info -> good cert id = true -> (rank cert id < r)%nat ->
  above (rank cert id) nesting -> settles f e -> honest (rooted r) e ->
  exists e', settles (fun n => with_prereqs (parse_and_annotate_n n) nesting (prereqs info) (f n)) e' /\
    honest (rooted r) e' /\ (numeric e -> numeric e') /\
    forall flow lookup_port icr d, (r <= d)%nat ->
      denote flow lookup_port icr e' =
      match prereqs info with
      | Some text => text_holds tab flow lookup_port icr d text
      | None => true
      end && denote flow lookup_port icr e.
Proof using All.
  intros Hinfo Hgood Hrank Hn [f1 He] Hroot. unfold with_prereqs.
  destruct (prereqs info) as [text |] eqn:Hpre; [| by exists e; split_and!; [exists f1 | | |]].
  destruct (prereqs_text_settles nesting info id text Hinfo Hgood Hrank Hn Hpre)
    as (p & [f2 Hs] & Hp & Hnum & Hd).
  destruct (honest_combine (rooted r) AND e p Hroot Hp) as (e' & Hc & Hh). exists e'. split_and!.
  - exists (f1 + f2)%nat. intros n Hle. rewrite Hs by lia. cbn [mbind option_bind].
    rewrite He by lia. cbn [mbind option_bind]. by rewrite Hc.
  - done.
  - intros Hne. rewrite combine_insert in Hc. injection Hc as <-. apply all_cmps_andor, Forall_app.
    split; apply numeric_insert; auto.
  - intros flow lookup_port icr d Hle. rewrite <- (Hd flow lookup_port icr d) by lia.
    pose proof (denote_combine flow lookup_port icr AND (Some e) (Some p)) as H.
    rewrite Hc in H. cbn in H. by rewrite H, andb_comm.
Qed.

Lemma above_cons id nesting : above r nesting -> (rank cert id < r)%nat ->
  above (rank cert id) (id :: nesting).
Proof.
  intros H Hid. apply Forall_cons. split; [done |]. eapply Forall_impl; [done |]. cbn. lia.
Qed.

Lemma cmp_annotation ap nesting a c :
  ready r c -> above r nesting -> annotation_ok r ap nesting (ECmp a c).
Proof using All.
  intros Hready Hn. pose proof Hready as ([(t & info & [= <-] & Hinfo & _) _ _] & Hgood & Hrank).
  assert (name (symbol c) ∉ nesting) as Hfresh.
  { intros Hin. unfold above in Hn. rewrite Forall_forall in Hn. specialize (Hn _ Hin). lia. }
  pose proof (above_cons _ _ Hn Hrank) as Hn'.
  destruct (expand_settles (name (symbol c) :: nesting) info a c Hready Hinfo Hn')
    as (e1 & Hs1 & Hr1 & Hp1 & Hd1).
  destruct ap.
  - destruct (prereqs_settle (name (symbol c) :: nesting) info (name (symbol c)) _ e1
      Hinfo Hgood Hrank Hn' Hs1 Hr1) as (e2 & [fuel Hs2] & Hr2 & Hp2 & Hd2).
    exists e2. split_and!; [| done | auto |].
    + apply annotates_step. exists fuel. intros n Hle. unfold expr_annotate_cmp, info_of.
      rewrite Hinfo. cbn [mbind option_bind]. rewrite bool_decide_false by done. by apply Hs2.
    + intros flow lookup_port icr d Hle. rewrite (Hd2 _ _ _ d) by done. cbn.
      unfold full, prerequisites. by rewrite Hinfo, (Hd1 _ _ _ d).
  - destruct Hs1 as [fuel Hs1]. exists e1. split_and!; [| done | auto | by intros; rewrite (Hd1 _ _ _ d)].
    apply annotates_step. exists fuel. intros n Hle. unfold expr_annotate_cmp, info_of.
    rewrite Hinfo. cbn [mbind option_bind]. rewrite bool_decide_false by done. by apply Hs1.
Qed.

(** *** Nodes whose comparisons are annotated *)

Lemma flat_insert_id t subs :
  Forall (fun e => type_of e <> andor_type t) subs -> flat_map (expr_insert_andor t) subs = subs.
Proof.
  induction 1 as [| e subs He _ IHs]; [done |]. cbn [flat_map]. rewrite IHs.
  destruct e as [| t' a l | |]; try done. cbn [expr_insert_andor].
  rewrite decide_False; [done |]. intros ->. by destruct t.
Qed.

(** What is annotated already is left alone, if no prerequisites are added. *)
Lemma rooted_annotates nesting e :
  honest (rooted r) e -> above r nesting -> annotates false nesting e e.
Proof.
  intros He Hn. revert He.
  induction e as [a c | t a subs IHs | |] using expr_induction; intros He; apply annotates_step.
  - destruct He as [(_ & (info & Hinfo & Hpar & Hpred) & Hrank) _]. exists 0%nat. intros n _.
    unfold expr_annotate_cmp, info_of. rewrite Hinfo. cbn [mbind option_bind].
    rewrite bool_decide_false; [unfold with_prereqs, expand_symbol; by rewrite Hpar, Hpred |].
    intros Hin. unfold above in Hn. rewrite Forall_forall in Hn. specialize (Hn _ Hin). lia.
  - apply honest_andor in He as [_ H].
    assert (Forall2 (annotates false nesting) subs subs) as Hsubs.
    { apply Forall_Forall2_diag. rewrite Forall_forall in *. intros e He.
      apply IHs; [done | by apply H]. }
    pose proof (annotate_node_settles false nesting t a subs subs Hsubs) as Hnode.
    rewrite flat_insert_id in Hnode; [exact Hnode |].
    eapply Forall_impl; [done |]. by intros ? [? _].
  - by exists 0%nat.
  - by exists 0%nat.
Qed.

(** The results for the subexpressions *)
Lemma subs_annotation ap nesting t subs :
  Forall (annotation_ok r ap nesting) subs ->
  exists subs', Forall2 (annotates ap nesting) subs subs' /\ Forall (honest (rooted r)) subs' /\
    (Forall (all_cmps (fun c => pure cert (name (symbol c)) = true)) subs -> Forall numeric subs') /\
    forall flow lookup_port icr d, (r <= d)%nat ->
      denote_subs flow lookup_port icr t subs' =
      meaning_subs icr ((if ap then full else core) tab flow lookup_port
                          (text_holds tab flow lookup_port icr d)) t subs.
Proof.
  induction 1 as [| e subs (e' & H1 & H2 & H3 & H4) _ (subs' & I1 & I2 & I3 & I4)].
  { exists []. split_and!; try constructor; by destruct t. }
  exists (e' :: subs'). split_and!; [by constructor | by constructor | |].
  - intros [Hp Hps]%Forall_cons. constructor; auto.
  - intros flow lookup_port icr d Hd.
    by rewrite denote_subs_cons, meaning_subs_cons, (H4 _ _ _ d), (I4 _ _ _ d).
Qed.

(** A node whose prerequisites are not those of one symbol *)
Lemma plain_annotation ap nesting t a subs :
  (2 <= length subs)%nat -> Forall (annotation_ok r ap nesting) subs ->
  (ap = true -> expr_get_unique_symbol (EAndOr t a subs) = None) ->
  annotation_ok r ap nesting (EAndOr t a subs).
Proof.
  intros Hl H Hu. destruct (subs_annotation ap nesting t subs H) as (subs' & H1 & H2 & H3 & H4).
  pose proof (Forall2_length _ _ _ H1) as Hlen.
  exists (EAndOr t a (flat_map (expr_insert_andor t) subs')). split_and!.
  - apply annotates_step. destruct (annotate_node_settles _ _ t a _ _ H1) as [fuel Hs].
    exists fuel. intros n Hn. unfold annotate_andor. destruct ap; [| by apply Hs].
    rewrite (Hu eq_refl). by apply Hs.
  - apply node_honest; [lia | done].
  - intros Hp%all_cmps_andor. apply numeric_node; auto.
  - intros flow lookup_port icr d Hd. by rewrite node_denote, meaning_andor, (H4 _ _ _ d).
Qed.

(** The list that a conjunction gets from a node *)
Lemma insert_annotation nesting t a subs :
  (2 <= length subs)%nat -> Forall (annotation_ok r false nesting) subs ->
  exists l, Forall2 (annotates false nesting) (expr_insert_andor AND (EAndOr t a subs)) l /\
    (1 <= length l)%nat /\ Forall (honest (rooted r)) l /\
    (Forall (all_cmps (fun c => pure cert (name (symbol c)) = true)) subs -> Forall numeric l) /\
    forall flow lookup_port icr d, (r <= d)%nat ->
      denote_subs flow lookup_port icr AND l =
      meaning icr (core tab flow lookup_port (text_holds tab flow lookup_port icr d))
        (EAndOr t a subs).
Proof.
  intros Hl H. destruct t; cbn [expr_insert_andor].
  - rewrite decide_True by done.
    destruct (subs_annotation false nesting AND subs H) as (subs' & H1 & H2 & H3 & H4).
    pose proof (Forall2_length _ _ _ H1) as Hlen.
    exists subs'. split_and!; [done | lia | done | done | done].
  - rewrite decide_False by done.
    destruct (plain_annotation false nesting OR a subs Hl H ltac:(done)) as (e' & H1 & H2 & H3 & H4).
    exists [e']. split_and!; [by constructor | done | by constructor | |].
    + intros Hp. constructor; [| constructor]. apply H3. by apply all_cmps_andor.
    + intros flow lookup_port icr d Hd. rewrite denote_subs_singleton. by apply H4.
Qed.

Lemma unique_symbol_elem (P : expr_cmp -> Prop) e s :
  expr_get_unique_symbol e = Some s -> honest P e -> exists c, symbol c = s /\ P c.
Proof.
  induction e as [a c | t a subs IHs | |] using expr_induction; cbn [expr_get_unique_symbol]; try done.
  - intros [= <-] [H _]. by exists c.
  - intros [Hu _]%unique_symbol_of_Some [Hl H]%honest_andor.
    destruct subs as [| e subs]; [cbn in Hl; lia |].
    apply Forall_cons in IHs as [IHe _]. apply Forall_cons in Hu as [Hu _].
    apply Forall_cons in H as [[_ H] _]. by apply IHe.
Qed.

(** The conjunction of a node and of annotated prerequisites *)
Lemma conjunction_settles nesting t a subs p :
  (2 <= length subs)%nat -> Forall (annotation_ok r false nesting) subs -> above r nesting ->
  honest (rooted r) p ->
  exists e, settles (fun n => annotate_node (expr_annotate__ tab n) false nesting
      (EAndOr AND None (expr_insert_andor AND (EAndOr t a subs) ++ expr_insert_andor AND p)%list)) e /\
    honest (rooted r) e /\
    (Forall (all_cmps (fun c => pure cert (name (symbol c)) = true)) subs -> numeric p -> numeric e) /\
    forall flow lookup_port icr d, (r <= d)%nat ->
      denote flow lookup_port icr e =
      denote flow lookup_port icr p &&
      meaning icr (core tab flow lookup_port (text_holds tab flow lookup_port icr d))
        (EAndOr t a subs).
Proof.
  intros Hl Hsubs Hn Hp.
  destruct (insert_annotation nesting t a subs Hl Hsubs) as (l & H1 & Hl1 & H2 & H3 & H4).
  destruct (honest_insert _ AND p Hp) as [Lp Fp].
  assert (Forall (honest (rooted r)) (expr_insert_andor AND p)) as Fp'
    by (eapply Forall_impl; [done |]; by intros ? [_ ?]).
  eexists. split; [| split_and!].
  - apply annotate_node_settles, Forall2_app; [done |]. apply Forall_Forall2_diag.
    eapply Forall_impl; [done |]. intros e' He'. by apply rooted_annotates.
  - apply node_honest; [rewrite length_app; lia | by apply Forall_app].
  - intros Hpure Hnum. apply numeric_node, Forall_app. split; [auto | by apply numeric_insert].
  - intros flow lookup_port icr d Hle. rewrite node_denote, denote_subs_app, denote_insert_andor.
    rewrite (H4 _ _ _ d) by done. apply andb_comm.
Qed.

(** A node with one symbol, whose prerequisites are added once *)
Lemma unique_annotation nesting t a subs s :
  honest (ready r) (EAndOr t a subs) -> above r nesting ->
  Forall (annotation_ok r false nesting) subs ->
  expr_get_unique_symbol (EAndOr t a subs) = Some s ->
  annotation_ok r true nesting (EAndOr t a subs).
Proof using All.
  intros He Hn Hsubs Hu. pose proof He as [Hl _]%honest_andor.
  destruct (unique_symbol_elem _ _ _ Hu He)
    as (c & Hc & [(tab' & info & [= <-] & Hinfo & _) _ _] & Hgood & Hrank).
  rewrite Hc in Hinfo, Hgood, Hrank.
  assert (forall flow lookup_port icr d,
    meaning icr (full tab flow lookup_port (text_holds tab flow lookup_port icr d)) (EAndOr t a subs)
    = match prereqs info with
      | Some text => text_holds tab flow lookup_port icr d text
      | None => true
      end && meaning icr (core tab flow lookup_port (text_holds tab flow lookup_port icr d))
               (EAndOr t a subs)) as Hfull.
  { intros flow lookup_port icr d. apply (meaning_shared icr _ _ _ s); [done | by destruct He |].
    eapply all_cmps_impl; [| by destruct He]. intros c' _ Hc'. unfold full, prerequisites.
    by rewrite Hc', Hinfo. }
  destruct (prereqs info) as [text |] eqn:Hpre.
  - destruct (prereqs_text_settles nesting info (name s) text Hinfo Hgood Hrank)
      as (p & [f2 Hs] & Hp & Hnum & Hd); [| done |].
    { eapply Forall_impl; [done |]. cbn. lia. }
    destruct (conjunction_settles nesting t a subs p Hl Hsubs Hn Hp)
      as (e' & [f1 Hnode] & H2 & H3 & H4).
    exists e'. split_and!; [| done | |].
    + apply annotates_step. exists (f1 + f2)%nat. intros n Hle. unfold annotate_andor. rewrite Hu.
      unfold expr_append_prereqs, info_of, with_prereqs. rewrite Hinfo. cbn [mbind option_bind].
      rewrite Hpre, Hs by lia. cbn [mbind option_bind]. rewrite combine_insert.
      cbn [fmap option_fmap option_map mbind option_bind]. apply Hnode. lia.
    + intros Hpure%all_cmps_andor. auto.
    + intros flow lookup_port icr d Hle. by rewrite Hfull, (H4 _ _ _ d), (Hd _ _ _ d).
  - destruct (plain_annotation false nesting t a subs Hl Hsubs ltac:(done))
      as (e' & [fuel H1] & H2 & H3 & H4).
    exists e'. split_and!; [| done | done | intros; rewrite Hfull; by apply H4].
    apply annotates_step. exists fuel. intros n Hle. specialize (H1 (S n) ltac:(lia)).
    rewrite annotate_unfold in H1. unfold annotate_andor in *. rewrite Hu.
    unfold expr_append_prereqs, info_of, with_prereqs. rewrite Hinfo. cbn [mbind option_bind].
    by rewrite Hpre.
Qed.

Lemma rank_annotation ap nesting e :
  honest (ready r) e -> above r nesting -> annotation_ok r ap nesting e.
Proof using All.
  intros He Hn. revert ap He.
  induction e as [a c | t a subs IHs | b | n s] using expr_induction; intros ap He.
  - apply cmp_annotation; [by destruct He | done].
  - pose proof He as [Hl H]%honest_andor.
    assert (forall ap, Forall (annotation_ok r ap nesting) subs) as Hsubs.
    { intros ap'. rewrite Forall_forall in *. intros e Hin. apply IHs; [done | by apply H]. }
    destruct ap; [| by apply plain_annotation].
    destruct (expr_get_unique_symbol (EAndOr t a subs)) as [s |] eqn:Hu;
      [by eapply unique_annotation | by apply plain_annotation].
  - exists (EBoolean b). split_and!; [by apply annotates_step; exists 0%nat | done | done | done].
  - exists (ECondition n s). split_and!; [by apply annotates_step; exists 0%nat | done | done | done].
Qed.

End Expand.

(** Annotation ends, with an expression over fields that means the same. *)
Lemma annotation_spec r ap nesting e :
  honest (ready r) e -> above r nesting -> annotation_ok r ap nesting e.
Proof using All.
  revert ap nesting e. induction r as [r IH] using lt_wf_ind. intros ap nesting e.
  apply rank_annotation. auto.
Qed.

End Annotate.
(** ** Parsed expressions *)

Section Text.
Context {HI : Inet} {HL : InetLaws} (tab : symtab) (cert : certificate).
Context (Hsymbols : symbols_ok (Some tab)) (Hcert : certified tab cert).

(** No address set has masks, or no relational operator is used. *)
Definition ranges_only (addr_sets : option (gmap string expr_constant_set)) (e : expr) : Prop :=
  sets_unmasked addr_sets \/ all_cmps (fun c => is_relational (relop c) = false) e.

Lemma parsed_ready addr_sets r e :
  parsed (Some tab) (sets_unmasked addr_sets) false e -> ranges_only addr_sets e ->
  all_cmps (fun c => good cert (name (symbol c)) = true /\
                     (rank cert (name (symbol c)) < r)%nat) e ->
  honest (ready tab cert r) e.
Proof.
  intros [Hall Hh] Hr Hg. split; [| done]. clear Hh. revert Hall Hr Hg.
  induction e as [a c | t a subs IH | |] using expr_induction; try done.
  - cbn. intros [H1 H2 H3] Hr Hg. split; [| done]. constructor; [done | done |].
    intros Hrel. destruct (H3 Hrel) as [Hl Hrange]. split; [done |]. intros _.
    destruct Hr as [Hr | Hr]; [by apply Hrange |]. cbn in Hr. by rewrite Hr in Hrel.
  - unfold ranges_only. rewrite !all_cmps_andor. intros Hall Hr Hg.
    rewrite Forall_forall in *. intros e He. apply IH; [done | by apply Hall | | by apply Hg].
    destruct Hr as [Hr | Hr]; [by left | right; by apply Hr].
Qed.

Lemma annotate_parsed addr_sets r e :
  parsed (Some tab) (sets_unmasked addr_sets) false e -> ranges_only addr_sets e ->
  all_cmps (fun c => good cert (name (symbol c)) = true /\
                     (rank cert (name (symbol c)) < r)%nat) e ->
  exists fuel e', (forall n, (fuel <= n)%nat -> expr_annotate tab n e = Some (inr e')) /\
    all_cmps simplifiable e' /\ expr_honors_invariants e' = true /\
    forall flow lookup_port icr, denote flow lookup_port icr e' = holds tab flow lookup_port icr r e.
Proof using All.
  intros Hp Hr Hg. pose proof (parsed_ready addr_sets r e Hp Hr Hg) as Hready.
  destruct (annotation_spec tab cert Hsymbols Hcert r true [] e Hready ltac:(constructor))
    as (e' & [fuel H] & [H1 H2] & _ & H3).
  exists fuel, e'. split_and!; [done | | done |].
  - revert H1. apply all_cmps_impl. by intros c [? _].
  - intros flow lookup_port icr. by apply H3.
Qed.
End Text.

(** What [parse_in] parses *)
Lemma parse_in_string {HI : Inet} tab text e :
  parse_in tab text = Some (Some e, None) ->
  exists ctx, expr_parse_string (Some tab) None None 0 text None None = Some (Some e, None, ctx).
Proof.
  unfold parse_in. intros ([[o err] ctx] & -> & [= -> ->])%bind_Some. by exists ctx.
Qed.

(** ** Properties *)

(** A table with a field, a subfield, prerequisites and predicates *)
Definition mcast_symtab : symtab :=
  default ∅ (LogicalFields.perform
    [LogicalFields.field "eth.dst" LogicalFields.MFF_ETH_DST None false;
     LogicalFields.field "eth.type" LogicalFields.MFF_ETH_TYPE None true;
     LogicalFields.subfield "eth.mcast" None "eth.dst[40]";
     LogicalFields.predicate "ip4" "eth.type == 0x800";
     LogicalFields.field "ip4.dst" LogicalFields.MFF_IPV4_DST (Some "ip4") false;
     LogicalFields.predicate "ip4.mcast" "eth.mcast && ip4.dst[28..31] == 0xe"] ∅).

Definition mcast_certificate : certificate :=
  {| rank := nesting_depth mcast_symtab 5; good := fun _ => true; pure := fun _ => true |}.

Definition mcast_text : string := "!ip4.mcast || eth.dst[0..7] > 1".

Lemma mcast_checked :
  table_check mcast_symtab mcast_certificate = true /\
  text_check mcast_symtab (fun id => (rank mcast_certificate id <? 6)%nat) mcast_text = true.
Proof. vm_compute. done. Qed.

(** C10: annotation of a parsed expression, with a symbol table that has a
    certificate, well-formed symbols and address sets whose values have no bits
    outside their masks: the recursion through prerequisites and predicates ends, and its
    result is an expression over fields of the switch that the later passes accept
    and that holds of exactly the microflows where the specification [holds] says
    that the parsed expression does.  The expression uses symbols that the
    certificate calls good and ranks below [r], and it uses no relational operator
    or the address sets have no masks. *)
Theorem expr_annotate_correct {HI : Inet} {HL : InetLaws} tab cert addr_sets port_groups dp_id
    as_refs pg_refs text e err ctx r :
  symbols_ok (Some tab) -> certified tab cert -> sets_ok addr_sets ->
  expr_parse_string (Some tab) addr_sets port_groups dp_id text as_refs pg_refs
  = Some (Some e, err, ctx) ->
  all_cmps (fun c => good cert (name (symbol c)) = true /\
                     (rank cert (name (symbol c)) < r)%nat) e ->
  ranges_only addr_sets e ->
  exists fuel e', (forall n, (fuel <= n)%nat -> expr_annotate tab n e = Some (inr e')) /\
    all_cmps simplifiable e' /\ expr_honors_invariants e' = true /\
    forall flow lookup_port icr, denote flow lookup_port icr e' = holds tab flow lookup_port icr r e.
Proof.
  intros Hsym Hcert Hsets Hparse Hg Hr.
  destruct (parse_string_ok (Some tab) addr_sets port_groups dp_id Hsym Hsets text as_refs pg_refs)
    as (o & err' & ctx' & E & Ho).
  rewrite E in Hparse. injection Hparse as -> -> ->. destruct Ho as [_ Hp].
  by apply (annotate_parsed tab cert Hsym Hcert addr_sets).
Qed.

Lemma expr_annotate_correct_witness :
  exists e fuel e', parse_in mcast_symtab mcast_text = Some (Some e, None) /\
    (forall n, (fuel <= n)%nat -> expr_annotate mcast_symtab n e = Some (inr e')) /\
    all_cmps simplifiable e' /\ expr_honors_invariants e' = true /\
    forall flow lookup_port icr,
      denote flow lookup_port icr e' = holds mcast_symtab flow lookup_port icr 6 e.
Proof.
  destruct mcast_checked as [Htab Htext].
  destruct (table_check_ok _ _ Htab) as [Hsym Hcert].
  destruct (text_check_ok mcast_symtab _ (fun id => rank mcast_certificate id < 6)%nat _
    (fun id => proj1 (Nat.ltb_lt _ _)) Htext) as (e & He & Hranks).
  destruct (parse_in_string _ _ _ He) as [ctx Hparse].
  destruct (expr_annotate_correct mcast_symtab mcast_certificate None None 0 None None
    mcast_text e None ctx 6 Hsym Hcert ltac:(by intros ?) Hparse) as (fuel & e' & H).
  - revert Hranks. apply all_cmps_impl. intros c Hc. split; [reflexivity | exact Hc].
  - left. by intros ?.
  - exists e, fuel, e'. split; [exact He | exact H].
Defined.

End ExprAnnotateProofs.
