(* ===== verification/ExprGrammar.v ===== *)
(** * The language of match expressions

    What a match is and what it means, as ovn-sb(5) describes it and without the
    parser: a grammar over the tokens of the text, and the microflows of which an
    expression of the grammar holds.

    A symbol is a field, a part of another field, or a predicate, which stands for
    another expression.  Where it has prerequisites, a comparison of it holds only
    if they hold, too, and this is not changed by [!]: the negation of a comparison
    is the opposite comparison with the same prerequisites.  So the meaning of an
    expression is defined together with that of its negation. *)

From stdpp Require Import base option list strings gmap.
From Stdlib Require Import ZArith Lia.
From S2P Require Import Prelude Strings CString Binary64 OvsJson OvnLex.
From S2P Require Import Subvalue Expr ExprLemmas ExprParse.

Local Open Scope Z_scope.
Local Open Scope string_scope.

Module ExprGrammar.
Import OvnLex Expr.

(** ** Syntax *)

(** An integer, with a mask if it has one and whether it is written in decimal, or
    a string *)
Inductive datum :=
| DInteger (v : Z) (mask : option Z) (decimal : bool)
| DString (s : string).

(** A field by name, with the lowest and highest bit of a selected part *)
Record field := MkField {
  f_name : string;
  f_bits : option (Z * Z);
}.

Inductive syntax :=
| Compare (f : field) (r : expr_relop) (ds : list datum)
| Within (d1 : list datum) (r1 : expr_relop) (f : field) (r2 : expr_relop) (d2 : list datum)
| Bit (f : field)
| Literal (b : bool)
| Resident (port : string)
| Not (a : syntax)
| All (l : list syntax)
| Any (l : list syntax).

(** [x < y] is [y > x]. *)
Definition mirror (r : expr_relop) : expr_relop :=
  match r with
  | EXPR_R_EQ => EXPR_R_EQ | EXPR_R_NE => EXPR_R_NE
  | EXPR_R_LT => EXPR_R_GT | EXPR_R_LE => EXPR_R_GE
  | EXPR_R_GT => EXPR_R_LT | EXPR_R_GE => EXPR_R_LE
  end.

(** The address sets and port groups that a text may refer to *)
Record sets := Sets {
  s_addr_sets : option (gmap string ExprParse.expr_constant_set);
  s_port_groups : option (gmap string ExprParse.expr_constant_set);
  s_dp_id : Z;
}.

Definition no_sets : sets := Sets None None 0.

Definition integer_datum (c : ExprParse.expr_constant) : datum :=
  DInteger (ExprParse.c_value c)
    (if ExprParse.c_masked c then Some (ExprParse.c_mask c) else None)
    (bool_decide (ExprParse.c_format c = LEX_F_DECIMAL)).

Definition string_datum (c : ExprParse.expr_constant) : datum :=
  DString (ExprParse.c_string c).

(** ** Grammar *)

Section Grammar.
Context (env : sets).

(** A constant is one token; the name of a set stands for its elements. *)
Inductive constant : lex_token -> list datum -> Prop :=
| constant_integer t :
    type t = LEX_T_INTEGER ->
    constant t [DInteger (OvnLex.value t) None (bool_decide (format t = LEX_F_DECIMAL))]
| constant_masked t :
    type t = LEX_T_MASKED_INTEGER ->
    constant t [DInteger (OvnLex.value t) (Some (OvnLex.mask t))
                  (bool_decide (format t = LEX_F_DECIMAL))]
| constant_string t s :
    type t = LEX_T_STRING -> str t = Some s -> constant t [DString s]
| constant_address_set t id tab set :
    type t = LEX_T_MACRO -> str t = Some id ->
    s_addr_sets env = Some tab -> tab !! id = Some set ->
    constant t (map integer_datum (ExprParse.values set))
| constant_port_group t id tab set :
    type t = LEX_T_PORT_GROUP -> str t = Some id ->
    s_port_groups env = Some tab -> tab !! (str_int (s_dp_id env) +:+ "_" +:+ id) = Some set ->
    constant t (map string_datum (ExprParse.values set)).

Inductive comma : list lex_token -> Prop :=
| comma_none : comma []
| comma_one t : type t = LEX_T_COMMA -> comma [t].

(** The constants in curly braces, from the first of them to the closing brace *)
Inductive constants : list lex_token -> list datum -> Prop :=
| constants_last t ds ts close :
    constant t ds -> comma ts -> type close = LEX_T_RCURLY ->
    constants (t :: ts ++ [close]) ds
| constants_more t ds ts us es :
    constant t ds -> comma ts -> constants us es ->
    constants (t :: ts ++ us) (ds ++ es).

Inductive constant_set : list lex_token -> list datum -> Prop :=
| constant_set_one t ds : constant t ds -> constant_set [t] ds
| constant_set_braces open ts ds :
    type open = LEX_T_LCURLY -> constants ts ds -> constant_set (open :: ts) ds.

(** A small decimal number *)
Definition small_int (t : lex_token) (n : Z) : Prop :=
  type t = LEX_T_INTEGER /\ format t = LEX_F_DECIMAL /\ OvnLex.value t mod 2 ^ 64 = n.

Inductive field_ref : list lex_token -> field -> Prop :=
| field_whole t id :
    type t = LEX_T_ID -> str t = Some id -> field_ref [t] (MkField id None)
| field_bit t id open a n close :
    type t = LEX_T_ID -> str t = Some id -> type open = LEX_T_LSQUARE ->
    small_int a n -> type close = LEX_T_RSQUARE ->
    field_ref [t; open; a; close] (MkField id (Some (n, n)))
| field_bits t id open a n dots b m close :
    type t = LEX_T_ID -> str t = Some id -> type open = LEX_T_LSQUARE ->
    small_int a n -> type dots = LEX_T_ELLIPSIS -> small_int b m ->
    type close = LEX_T_RSQUARE ->
    field_ref [t; open; a; dots; b; close] (MkField id (Some (n, m))).

Definition relation (t : lex_type) : option expr_relop :=
  match t with
  | LEX_T_EQ => Some EXPR_R_EQ | LEX_T_NE => Some EXPR_R_NE
  | LEX_T_LT => Some EXPR_R_LT | LEX_T_LE => Some EXPR_R_LE
  | LEX_T_GT => Some EXPR_R_GT | LEX_T_GE => Some EXPR_R_GE
  | _ => None
  end.

Definition operator (t : lex_token) (r : expr_relop) : Prop := relation (type t) = Some r.

(** An operand without [!], and whether [!] may be put before it: a comparison
    needs parentheses for that. *)
Inductive primary : list lex_token -> syntax -> bool -> Prop :=
| primary_paren open ts a close :
    type open = LEX_T_LPAREN -> expression ts a -> type close = LEX_T_RPAREN ->
    primary (open :: ts ++ [close]) a true
| primary_resident t open p port close :
    type t = LEX_T_ID -> str t = Some "is_chassis_resident" -> type open = LEX_T_LPAREN ->
    type p = LEX_T_STRING -> str p = Some port -> type close = LEX_T_RPAREN ->
    primary [t; open; p; close] (Resident port) true
| primary_bit fs f : field_ref fs f -> primary fs (Bit f) true
| primary_literal t v b :
    constant t [DInteger v None true] -> v mod 2 ^ 64 = Z.b2z b ->
    primary [t] (Literal b) true
| primary_compare fs f o r cs ds :
    field_ref fs f -> operator o r -> constant_set cs ds ->
    primary (fs ++ o :: cs) (Compare f r ds) false
| primary_mirrored cs ds o r fs f :
    constant_set cs ds -> operator o r -> field_ref fs f ->
    primary (cs ++ o :: fs) (Compare f (mirror r) ds) false
| primary_within cs1 d1 o1 r1 fs f o2 r2 cs2 d2 :
    constant_set cs1 d1 -> operator o1 r1 -> field_ref fs f -> operator o2 r2 ->
    constant_set cs2 d2 ->
    primary (cs1 ++ o1 :: fs ++ o2 :: cs2) (Within d1 r1 f r2 d2) false

with operand : list lex_token -> syntax -> Prop :=
| operand_primary ts a atomic : primary ts a atomic -> operand ts a
| operand_not t ts a : type t = LEX_T_LOG_NOT -> primary ts a true -> operand (t :: ts) (Not a)

(** Operands with the operator [op] between them *)
with operands : lex_type -> list lex_token -> list syntax -> Prop :=
| operands_two op ts a o us b :
    operand ts a -> type o = op -> operand us b -> operands op (ts ++ o :: us) [a; b]
| operands_more op ts a o us l :
    operand ts a -> type o = op -> operands op us l -> operands op (ts ++ o :: us) (a :: l)

with expression : list lex_token -> syntax -> Prop :=
| expression_one ts a : operand ts a -> expression ts a
| expression_all ts l : operands LEX_T_LOG_AND ts l -> expression ts (All l)
| expression_any ts l : operands LEX_T_LOG_OR ts l -> expression ts (Any l).
End Grammar.

(** ** Meaning *)

Definition test (r : expr_relop) (x y : Z) : bool :=
  match r with
  | EXPR_R_EQ => Z.eqb x y | EXPR_R_NE => negb (Z.eqb x y)
  | EXPR_R_LT => Z.ltb x y | EXPR_R_LE => Z.leb x y
  | EXPR_R_GT => Z.ltb y x | EXPR_R_GE => Z.leb y x
  end.

(** [n] bits of [v] from the bit [ofs] on *)
Definition bits (v ofs n : Z) : Z := Z.land (Z.shiftr v ofs) (Z.ones n).

Section Meaning.
Context (tab : ExprParse.symtab).
Context (flow : expr_symbol -> Z) (lookup_port : string -> option Z).
Context (is_chassis_resident : string -> bool).
Context (texts : string -> bool).

(** The number that a field has in the microflow, or that a part of one has *)
Definition number (info : ExprParse.symbol_info) : Z :=
  match ExprParse.parent info with
  | Some p => bits (field_value flow p) (ExprParse.parent_ofs info) (width (ExprParse.sym info))
  | None => field_value flow (ExprParse.sym info)
  end.

Definition is_predicate (info : ExprParse.symbol_info) : option string :=
  match ExprParse.parent info with Some _ => None | None => ExprParse.predicate info end.

(** A comparison without the prerequisites of its symbol, negated if [neg].  A
    predicate is compared with the lowest bit of the constant, whatever its mask;
    a string names a port, and no comparison with an unknown port holds. *)
Definition compared (info : ExprParse.symbol_info) (f : field) (neg : bool) (r : expr_relop)
    (d : datum) : bool :=
  match d, is_predicate info with
  | DString s, _ =>
      match lookup_port s with
      | Some p => xorb neg (test r (flow (ExprParse.sym info)) p)
      | None => false
      end
  | DInteger v _ _, Some text =>
      let unequal := match r with
                     | EXPR_R_EQ => neg | EXPR_R_NE => negb neg | _ => false
                     end in
      Bool.eqb (texts text) (xorb (Z.testbit v 0) unequal)
  | DInteger v m _, None =>
      let '(ofs, n) := match f_bits f with
                       | Some (low, high) => (low, high - low + 1)
                       | None => (0, width (ExprParse.sym info))
                       end in
      let m := match m with Some m => m | None => Z.ones n end in
      xorb neg (test r (Z.land (bits (number info) ofs n) m) (Z.land v (Z.ones n)))
  end.

Definition atom (f : field) (neg : bool) (r : expr_relop) (d : datum) : bool :=
  match tab !! f_name f with
  | Some info =>
      match ExprParse.prereqs info with Some text => texts text | None => true end &&
      compared info f neg r d
  | None => false
  end.

(** [==] asks for one of the constants, and every other operator for all of them. *)
Definition compare (neg : bool) (f : field) (r : expr_relop) (ds : list datum) : bool :=
  if xorb neg (bool_decide (r = EXPR_R_EQ))
  then existsb (atom f neg r) ds else forallb (atom f neg r) ds.

Fixpoint sem (neg : bool) (a : syntax) : bool :=
  match a with
  | Compare f r ds => compare neg f r ds
  | Within d1 r1 f r2 d2 =>
      let x := compare neg f (mirror r1) d1 in
      let y := compare neg f r2 d2 in
      if neg then x || y else x && y
  | Bit f => atom f neg EXPR_R_NE (DInteger 0 None false)
  | Literal b => xorb neg b
  | Resident port => xorb neg (is_chassis_resident port)
  | Not a => sem (negb neg) a
  | All l => if neg then existsb (sem neg) l else forallb (sem neg) l
  | Any l => if neg then forallb (sem neg) l else existsb (sem neg) l
  end.

(** The names of the symbols that are compared with something *)
Fixpoint names (a : syntax) : list string :=
  match a with
  | Compare f _ ds => map (fun _ => f_name f) ds
  | Within d1 _ f _ d2 => map (fun _ => f_name f) (d1 ++ d2)
  | Bit f => [f_name f]
  | Literal _ | Resident _ => []
  | Not a => names a
  | All l | Any l => concat (map names l)
  end.
End Meaning.

(** The prerequisites of a symbol and what it stands for *)
Definition symbol_text (tab : ExprParse.symtab) (id text : string) : Prop :=
  exists info, tab !! id = Some info /\
    (ExprParse.prereqs info = Some text \/ ExprParse.predicate info = Some text).

Section Texts.
Context {HI : Inet} (tab : ExprParse.symtab).
Context (flow : expr_symbol -> Z) (lookup_port : string -> option Z).
Context (is_chassis_resident : string -> bool).

(** The text means [b]: its tokens are an expression of the grammar that has the value
    [b] when the texts of its symbols have the values that they mean in turn, which
    refer to no sets.  [depth] bounds how deep they are nested. *)
Fixpoint means (depth : nat) (env : sets) (text : string) (b : bool) : Prop :=
  match depth with
  | O => False
  | S depth => exists ts a texts,
      tokens (ds_cstr text) = Some ts /\ expression env ts a /\
      (forall id t, id ∈ names a -> symbol_text tab id t -> means depth no_sets t (texts t)) /\
      b = sem tab flow lookup_port is_chassis_resident texts false a
  end.
End Texts.
End ExprGrammar.
