(* ===== verification/ExprGrammarTrees.v ===== *)
(** * Trees of the parser and what they mean

    The trees that the parser makes for comparisons, conjunctions, disjunctions and
    negations have the meaning that [ExprGrammar] gives to their syntax. *)

From stdpp Require Import base option list strings gmap.
From Stdlib Require Import ZArith Lia.
From S2P Require Import Prelude Strings CString Binary64 OvsJson OvnLex OvnLexNumbers.
From S2P Require Import OvnLexAddresses OvnLexTokens Subvalue Expr ExprLemmas ExprSimplify.
From S2P Require Import ExprParse ExprParseProofs ExprAnnotate ExprMeaning ExprGrammar.

Local Open Scope Z_scope.
Local Open Scope string_scope.

Module ExprGrammarTrees.
Import OvnLex OvnLexNumbers OvnLexAddresses OvnLexTokens Subvalue Expr ExprParse.
Import ExprParseProofs ExprAnnotate ExprMeaning.
Import ExprGrammar(datum, DInteger, DString, syntax, Compare, Within, Bit, Literal,
  Resident, Not, All, Any, sets, no_sets, sem, names, atom, means).

(** ** Trees and syntax *)

Lemma test_memcmp r x y : expr_relop_test r (memcmp x y) = ExprGrammar.test r x y.
Proof.
  unfold memcmp, ExprGrammar.test. destruct (Z.compare_spec x y), r; simpl; lia.
Qed.

Lemma test_invert r x y :
  ExprGrammar.test (expr_relop_invert r) x y = negb (ExprGrammar.test r x y).
Proof. destruct r; simpl; lia. Qed.

Lemma turn_mirror r : expr_relop_turn r = ExprGrammar.mirror r.
Proof. by destruct r. Qed.

Lemma invert_involutive r : expr_relop_invert (expr_relop_invert r) = r.
Proof. by destruct r. Qed.

Lemma expr_not_involutive e : expr_not (expr_not e) = e.
Proof.
  induction e as [a c | t a subs IH | b | n s] using expr_induction; cbn [expr_not].
  - f_equal. destruct c. cbn. by rewrite invert_involutive.
  - f_equal; [by destruct t |]. rewrite map_map.
    induction IH as [| e subs He _ IH]; cbn; [done |]. by rewrite He, IH.
  - by rewrite negb_involutive.
  - by rewrite negb_involutive.
Qed.

(** A comparison of bits at an offset *)
Lemma land_shiftl v m o :
  0 <= o -> Z.land v (Z.shiftl m o) = Z.shiftl (Z.land (Z.shiftr v o) m) o.
Proof.
  intros Ho. apply Z.bits_inj'. intros k Hk. rewrite Z.land_spec.
  destruct (Z_lt_ge_dec k o).
  - by rewrite !Z.shiftl_spec_low, andb_false_r by lia.
  - rewrite !Z.shiftl_spec, Z.land_spec, Z.shiftr_spec by lia.
    by rewrite Z.sub_add.
Qed.

Lemma test_shiftl r x y o :
  0 <= o -> ExprGrammar.test r (Z.shiftl x o) (Z.shiftl y o) = ExprGrammar.test r x y.
Proof.
  intros Ho. rewrite !Z.shiftl_mul_pow2 by done. assert (0 < 2 ^ o) by lia.
  destruct r; simpl; nia.
Qed.

Lemma placed_test r V c m o n :
  0 <= o ->
  ExprGrammar.test r (Z.land V (match m with Some m => sv_place m o n | None => sv_range o n end))
    (sv_place c o n) =
  ExprGrammar.test r
    (Z.land (ExprGrammar.bits V o n) (match m with Some m => m | None => Z.ones n end))
    (Z.land c (Z.ones n)).
Proof.
  intros Ho. unfold sv_place, sv_range, ExprGrammar.bits.
  destruct m as [m |]; rewrite land_shiftl, test_shiftl by done; f_equal.
  - by rewrite (Z.land_comm m), Z.land_assoc.
  - by rewrite <- Z.land_assoc, Z.land_diag.
Qed.

(** The constants of a set as data *)
Definition datum_as (t : expr_constant_type) (c : expr_constant) : datum :=
  match t with
  | EXPR_C_INTEGER => ExprGrammar.integer_datum c
  | EXPR_C_STRING => ExprGrammar.string_datum c
  end.

Definition set_data (cs : expr_constant_set) (ds : list datum) : Prop :=
  ds = map (datum_as (cs_type cs)) (values cs).

Section Table.
Context (tab : symtab).
(** The symbols for which [core] is what the specification says: fields of the
    switch, with parts that are no predicates or strings *)
Context (G : string -> Prop).
Context (HG : forall id info, tab !! id = Some info -> G id ->
  (is_root info -> wf_symbol (sym info)) /\
  (forall p, parent info = Some p -> predicate info = None /\ Expr.width (sym info) <> 0)).
Context (Hsymbols : symbols_ok (Some tab)).

(** A field of the parser and one of the grammar *)
Record field_is (f : expr_field) (g : ExprGrammar.field) : Prop := {
  fi_name : name (sym (f_symbol f)) = ExprGrammar.f_name g;
  fi_ok : field_ok (Some tab) f;
  fi_bits : (ofs f, n_bits f) = match ExprGrammar.f_bits g with
                                | Some (low, high) => (low, high - low + 1)
                                | None => (0, Expr.width (sym (f_symbol f)))
                                end;
}.

(** The type of constants that a field is compared with *)
Definition field_type (f : expr_field) : expr_constant_type :=
  if Z.eqb (Expr.width (sym (f_symbol f))) 0 then EXPR_C_STRING else EXPR_C_INTEGER.

Section Flow.
Context (flow : expr_symbol -> Z) (lookup_port : string -> option Z).
Context (icr : string -> bool) (texts : string -> bool).

Abbreviation fullc := (full tab flow lookup_port texts).
Abbreviation semc := (sem tab flow lookup_port icr texts).
Abbreviation atomc := (atom tab flow lookup_port texts).

Definition cmp_of (f : expr_field) (r : expr_relop) (c : expr_constant) : expr_cmp :=
  match make_cmp__ f r c with
  | ECmp _ c => c
  | _ => {| symbol := sym (f_symbol f); relop := r; cst_string := EmptyString; value := 0;
            mask := 0 |}
  end.

Definition turned (neg : bool) (c : expr_cmp) : expr_cmp :=
  if neg then {| symbol := symbol c; relop := expr_relop_invert (relop c);
                 cst_string := cst_string c; value := value c; mask := mask c |}
  else c.

Lemma test_turned (neg : bool) r x y :
  ExprGrammar.test (if neg then expr_relop_invert r else r) x y =
    xorb neg (ExprGrammar.test r x y).
Proof. destruct neg; rewrite ?test_invert; by destruct (ExprGrammar.test r x y). Qed.

Lemma port_test r x y :
  expr_relop_test r (if (x <? y)%Z then -1 else Z.b2z (y <? x)%Z) = ExprGrammar.test r x y.
Proof. destruct (Z.ltb_spec x y), (Z.ltb_spec y x), r; simpl; lia. Qed.

(** A comparison of a field with a string *)
Lemma string_atom f g neg r c :
  field_is f g -> G (ExprGrammar.f_name g) -> Expr.width (sym (f_symbol f)) = 0 ->
  fullc (turned neg (cmp_of f r c)) = atomc g neg r (ExprGrammar.string_datum c).
Proof.
  intros [Hn [(t & [= <-] & Hi) _ _ _ _] _] Hg Hw.
  unfold full, prerequisites, core, atom, cmp_of, make_cmp__. rewrite Hw. cbn [Z.eqb negb].
  assert (forall c', name (symbol (turned neg c')) = name (symbol c')) as Hname
    by (by destruct neg).
  rewrite !Hname. cbn [symbol]. rewrite <- Hn, Hi. f_equal.
  rewrite <- Hn in Hg. destruct (HG _ _ Hi Hg) as [_ Hp].
  destruct (parent (f_symbol f)) as [p |] eqn:Hpar; [by destruct (Hp p) |].
  pose proof (Hsymbols _ _ _ eq_refl Hi) as Hio.
  destruct (predicate (f_symbol f)) as [text |] eqn:Hpred.
  { pose proof (io_predicate _ _ Hio ltac:(by eexists)). lia. }
  unfold ExprGrammar.compared, ExprGrammar.string_datum, expr_evaluate_cmp.
  assert (Expr.width (symbol (turned neg {| symbol := sym (f_symbol f); relop := r;
    cst_string := c_string c; value := 0; mask := 0 |})) = 0) as -> by (by destruct neg).
  cbn [Z.eqb negb]. destruct neg; cbn [turned cst_string symbol relop];
    destruct (lookup_port (c_string c)); try done; rewrite port_test;
    rewrite ?test_invert; by destruct (ExprGrammar.test r _ _).
Qed.

(** A comparison of a field with an integer *)
Lemma integer_atom f g neg r c :
  field_is f g -> G (ExprGrammar.f_name g) -> Expr.width (sym (f_symbol f)) <> 0 ->
  fullc (turned neg (cmp_of f r c)) = atomc g neg r (ExprGrammar.integer_datum c).
Proof.
  intros [Hn Hf Hb] Hg Hw.
  destruct Hf as [(t & [= <-] & Hi) Ho Hbits Hs Hnom]. specialize (Hs Hw).
  unfold full, prerequisites, core, atom, cmp_of, make_cmp__.
  rewrite (proj2 (Z.eqb_neq _ _) Hw). cbn [negb].
  set (m := if c_masked c then Some (c_mask c) else None).
  assert ((if c_masked c then sv_place (c_mask c) (ofs f) (n_bits f)
           else sv_range (ofs f) (n_bits f)) =
          match m with Some m => sv_place m (ofs f) (n_bits f)
          | None => sv_range (ofs f) (n_bits f) end) as -> by (unfold m; by destruct (c_masked c)).
  set (k := {| symbol := _ |}).
  assert (symbol (turned neg k) = sym (f_symbol f)) as Hsym by (by destruct neg).
  assert (relop (turned neg k) = if neg then expr_relop_invert r else r) as Hrel
    by (by destruct neg).
  assert (value (turned neg k) = sv_place (c_value c) (ofs f) (n_bits f)) as Hval
    by (by destruct neg).
  assert (mask (turned neg k) = match m with Some m => sv_place m (ofs f) (n_bits f)
    | None => sv_range (ofs f) (n_bits f) end) as Hmask by (by destruct neg).
  rewrite Hsym, <- Hn, Hi. f_equal.
  rewrite <- Hn in Hg. destruct (HG _ _ Hi Hg) as [Hroot Hp].
  unfold ExprGrammar.compared, ExprGrammar.integer_datum, ExprGrammar.is_predicate,
    ExprGrammar.number. fold m.
  destruct (parent (f_symbol f)) as [p |] eqn:Hpar.
  - rewrite Hrel, Hval, Hmask, test_memcmp, placed_test, test_turned by done.
    rewrite <- Hb. done.
  - destruct (predicate (f_symbol f)) as [text |] eqn:Hpred.
    + pose proof (io_predicate _ _ (Hsymbols _ _ _ eq_refl Hi) ltac:(by eexists)) as H1.
      rewrite Hval, Hrel. f_equal. f_equal; [| by destruct neg, r].
      rewrite sv_place_testbit by lia. replace (ofs f) with 0 by lia.
      rewrite Z.sub_0_r. assert ((0 <? 0 + n_bits f) = true)%Z as -> by lia. done.
    + assert (wf_symbol (sym (f_symbol f))) as Hwf by (by apply Hroot). unfold wf_symbol in Hwf.
      unfold expr_evaluate_cmp. rewrite Hsym, (proj2 (Z.eqb_neq _ _) Hw). cbn [negb].
      assert (2 ^ (ofs f + n_bits f) <= 2 ^ (8 * n_bytes (sym (f_symbol f))))
        by (apply Z.pow_le_mono_r; lia).
      rewrite (uwrap_id _ (mask _)), (uwrap_id _ (value _)).
      * rewrite Hrel, Hval, Hmask, test_memcmp, placed_test, test_turned by done.
        rewrite <- Hb. done.
      * rewrite Hval. pose proof (sv_place_range (c_value c) (ofs f) (n_bits f)). lia.
      * rewrite Hmask. destruct m as [m0 |];
          [pose proof (sv_place_range m0 (ofs f) (n_bits f))
          | pose proof (sv_range_bounds (ofs f) (n_bits f))]; lia.
Qed.

Lemma field_atom f g neg r c :
  field_is f g -> G (ExprGrammar.f_name g) ->
  fullc (turned neg (cmp_of f r c)) = atomc g neg r (datum_as (field_type f) c).
Proof.
  intros Hf Hg. unfold field_type. destruct (Z.eqb_spec (Expr.width (sym (f_symbol f))) 0).
  - by apply string_atom.
  - by apply integer_atom.
Qed.

(** *** Trees *)

Lemma forallb_map_with {A B} (p : B -> bool) (h : A -> B) l :
  forallb p (map h l) = forallb (fun x => p (h x)) l.
Proof. induction l as [| x l IH]; cbn; [done | by rewrite IH]. Qed.

Lemma existsb_map_with {A B} (p : B -> bool) (h : A -> B) l :
  existsb p (map h l) = existsb (fun x => p (h x)) l.
Proof. induction l as [| x l IH]; cbn; [done | by rewrite IH]. Qed.

(** The value of a tree, or of its negation *)
Definition tree_value (neg : bool) (e : expr) : bool :=
  meaning icr fullc (if neg then expr_not e else e).

Definition joined (neg : bool) (t : andor) (x y : bool) : bool :=
  match t, neg with
  | AND, false | OR, true => x && y
  | OR, false | AND, true => x || y
  end.

Lemma insert_value neg t e :
  match t, neg with
  | AND, false | OR, true => forallb (tree_value neg) (expr_insert_andor t e)
  | OR, false | AND, true => existsb (tree_value neg) (expr_insert_andor t e)
  end = tree_value neg e.
Proof.
  assert (forall e, (tree_value neg e && true = tree_value neg e) /\
    (tree_value neg e || false = tree_value neg e)) as H1
    by (intros; by rewrite andb_true_r, orb_false_r).
  destruct e as [a c | t' a subs | b | n s]; cbn [expr_insert_andor];
    try (destruct t, neg; apply H1).
  case_decide as Ht; [| destruct t, neg; apply H1]. subst t'. unfold tree_value.
  destruct t, neg; cbn [expr_not meaning]; rewrite ?forallb_map_with, ?existsb_map_with; done.
Qed.

Lemma combine_value neg t e1 e2 e :
  expr_combine t (Some e1) (Some e2) = Some e ->
  tree_value neg e = joined neg t (tree_value neg e1) (tree_value neg e2).
Proof.
  rewrite combine_insert. intros [= <-].
  rewrite <- (insert_value neg t e1), <- (insert_value neg t e2). unfold tree_value.
  destruct t, neg; cbn [expr_not meaning joined];
    rewrite ?forallb_map_with, ?existsb_map_with, ?forallb_app, ?existsb_app; done.
Qed.
End Flow.

Lemma insert_cmps P t e : Forall (all_cmps P) (expr_insert_andor t e) <-> all_cmps P e.
Proof.
  destruct e as [a c | t' a subs | b | n s]; cbn [expr_insert_andor];
    rewrite ?Forall_singleton; try done.
  case_decide; [by rewrite all_cmps_andor | by rewrite Forall_singleton].
Qed.

Lemma combine_cmps P t e1 e2 e :
  expr_combine t (Some e1) (Some e2) = Some e ->
  all_cmps P e <-> all_cmps P e1 /\ all_cmps P e2.
Proof.
  rewrite combine_insert. intros [= <-].
  by rewrite all_cmps_andor, Forall_app, !insert_cmps.
Qed.

Definition names_in (P : string -> Prop) (e : expr) : Prop :=
  all_cmps (fun c => P (name (symbol c))) e.

(** The tree [e] has the meaning of [a] in every microflow, and [a] compares no
    other symbols. *)
Record denotes (e : expr) (a : syntax) : Prop := {
  dn_names P : names_in P e -> Forall P (names a);
  dn_value flow lookup_port icr texts neg :
    names_in G e ->
    tree_value flow lookup_port icr texts neg e =
      sem tab flow lookup_port icr texts neg a;
}.

Lemma compare_snoc flow lookup_port texts neg g r ds d :
  ExprGrammar.compare tab flow lookup_port texts neg g r (ds ++ [d]) =
    joined neg (if bool_decide (r = EXPR_R_EQ) then OR else AND)
      (ExprGrammar.compare tab flow lookup_port texts neg g r ds)
      (atom tab flow lookup_port texts g neg r d).
Proof.
  unfold ExprGrammar.compare, joined.
  destruct neg, (bool_decide (r = EXPR_R_EQ)); cbn [xorb];
    rewrite ?existsb_app, ?forallb_app; cbn; by rewrite ?andb_true_r, ?orb_false_r.
Qed.

Lemma make_cmp___denotes f g r c :
  field_is f g -> denotes (make_cmp__ f r c) (Compare g r [datum_as (field_type f) c]).
Proof.
  intros Hf. assert (exists o, make_cmp__ f r c = ECmp o (cmp_of f r c)) as [o Ho]
    by (by eexists).
  assert (name (symbol (cmp_of f r c)) = ExprGrammar.f_name g) as Hn.
  { rewrite <- (fi_name _ _ Hf). unfold cmp_of, make_cmp__. by destruct (negb _). }
  rewrite Ho. split; unfold names_in; cbn [all_cmps]; rewrite Hn.
  - intros P HP. by repeat constructor.
  - intros flow lookup_port icr texts neg Hg.
    replace (tree_value flow lookup_port icr texts neg (ECmp o (cmp_of f r c))) with
      (full tab flow lookup_port texts (turned neg (cmp_of f r c))) by (by destruct neg).
    rewrite (field_atom flow lookup_port texts f g neg r c Hf Hg). cbn [sem].
    unfold ExprGrammar.compare. destruct (xorb _ _); cbn;
      by rewrite ?andb_true_r, ?orb_false_r.
Qed.

Lemma make_cmps_denotes f g r cs e :
  field_is f g -> (cs = [] -> is_relational r = false) -> make_cmps f r cs = Some e ->
  denotes e (Compare g r (map (datum_as (field_type f)) cs)).
Proof.
  intros Hf Hr. destruct cs as [| c cs].
  { specialize (Hr eq_refl). intros [= <-]. split; [by constructor |]. intros flow lookup_port icr texts neg _.
    unfold tree_value, expr_create_boolean. cbn. unfold ExprGrammar.compare.
    by destruct neg, r. }
  clear Hr. cbn [make_cmps map]. change (datum_as (field_type f) c :: map (datum_as (field_type f)) cs)
    with ([datum_as (field_type f) c] ++ map (datum_as (field_type f)) cs)%list.
  pose proof (make_cmp___denotes f g r c Hf) as H0. revert H0.
  generalize (make_cmp__ f r c) as e0, [datum_as (field_type f) c] as ds0.
  induction cs as [| c' cs IH]; intros e0 ds0 H0; cbn [foldl map].
  { intros [= <-]. by rewrite app_nil_r. }
  rewrite combine_insert. intros Hfold.
  replace (ds0 ++ datum_as (field_type f) c' :: map (datum_as (field_type f)) cs)%list with
    ((ds0 ++ [datum_as (field_type f) c']) ++ map (datum_as (field_type f)) cs)%list
    by (by rewrite <- app_assoc).
  eapply IH; [| exact Hfold]. clear IH Hfold.
  pose proof (make_cmp___denotes f g r c' Hf) as [N1 V1]. destruct H0 as [N0 V0].
  pose proof (combine_insert (if bool_decide (r = EXPR_R_EQ) then OR else AND) e0
    (make_cmp__ f r c')) as Hc.
  split.
  - intros P HP. apply (combine_cmps _ _ _ _ _ Hc) in HP as [HP0 HP1].
    cbn [names]. rewrite map_app. apply Forall_app.
    split; [by apply N0 | by apply N1].
  - intros flow lookup_port icr texts neg HP.
    apply (combine_cmps _ _ _ _ _ Hc) in HP as [HP0 HP1].
    rewrite (combine_value _ _ _ _ neg _ _ _ _ Hc), V0, V1 by done. cbn [sem].
    rewrite compare_snoc. f_equal. unfold ExprGrammar.compare.
    destruct (xorb _ _); cbn; by rewrite ?andb_true_r, ?orb_false_r.
Qed.

Lemma not_names P e : names_in P (expr_not e) <-> names_in P e.
Proof.
  unfold names_in. induction e as [a c | t a subs IH | b | n s] using expr_induction;
    cbn [expr_not]; try done.
  rewrite !all_cmps_andor, Forall_map. induction IH as [| e subs He _ IH].
  - by rewrite !Forall_nil.
  - by rewrite !Forall_cons, He, IH.
Qed.

Lemma denotes_not e a : denotes e a -> denotes (expr_not e) (Not a).
Proof.
  intros [N V]. split.
  - intros P HP. by apply N, not_names.
  - intros flow lookup_port icr texts neg HP. rewrite not_names in HP. cbn [sem].
    rewrite <- V by done. unfold tree_value. destruct neg; cbn [negb]; [| done].
    by rewrite expr_not_involutive.
Qed.

Lemma denotes_boolean b : denotes (expr_create_boolean b) (Literal b).
Proof. split; [by constructor |]. intros ? ? ? ? [] _; by destruct b. Qed.

Lemma denotes_resident port : denotes (ECondition false port) (Resident port).
Proof.
  split; [by constructor |]. intros ? ? icr ? [] _; cbn; by destruct (icr port).
Qed.

Lemma denotes_bit e g :
  denotes e (Compare g EXPR_R_NE [DInteger 0 None false]) -> denotes e (Bit g).
Proof.
  intros [N V]. split; [done |]. intros flow lookup_port icr texts neg HP. rewrite V by done.
  cbn [sem]. unfold ExprGrammar.compare. destruct (xorb _ _); cbn;
    by rewrite ?andb_true_r, ?orb_false_r.
Qed.

Lemma denotes_within e1 e2 e g r1 r2 d1 d2 :
  denotes e1 (Compare g (ExprGrammar.mirror r1) d1) -> denotes e2 (Compare g r2 d2) ->
  expr_combine AND (Some e1) (Some e2) = Some e -> denotes e (Within d1 r1 g r2 d2).
Proof.
  intros [N1 V1] [N2 V2] Hc. split.
  - intros P [H1 H2]%(combine_cmps _ _ _ _ _ Hc). cbn [names]. rewrite map_app.
    apply Forall_app. split; [by apply N1 | by apply N2].
  - intros flow lookup_port icr texts neg [H1 H2]%(combine_cmps _ _ _ _ _ Hc).
    rewrite (combine_value _ _ _ _ neg _ _ _ _ Hc), V1, V2 by done. by destruct neg.
Qed.

(** Operands of a conjunction or a disjunction *)
Definition group (t : andor) (l : list syntax) : syntax :=
  match t with AND => All l | OR => Any l end.

Lemma group_names t l : names (group t l) = concat (map names l).
Proof. by destruct t. Qed.

Lemma denotes_group_one t e a : denotes e a -> denotes e (group t [a]).
Proof.
  intros [N V]. split.
  - intros P HP. rewrite group_names. cbn. rewrite app_nil_r. by apply N.
  - intros flow lookup_port icr texts neg HP. rewrite V by done.
    destruct t, neg; cbn; by rewrite ?andb_true_r, ?orb_false_r.
Qed.

Lemma denotes_group_snoc t l b e1 e2 e :
  denotes e1 (group t l) -> denotes e2 b ->
  expr_combine t (Some e1) (Some e2) = Some e -> denotes e (group t (l ++ [b])).
Proof.
  intros [N1 V1] [N2 V2] Hc. rewrite group_names in N1. split.
  - intros P [H1 H2]%(combine_cmps _ _ _ _ _ Hc). rewrite group_names, map_app, concat_app.
    apply Forall_app. split; [by apply N1 |]. cbn. rewrite app_nil_r. by apply N2.
  - intros flow lookup_port icr texts neg [H1 H2]%(combine_cmps _ _ _ _ _ Hc).
    rewrite (combine_value _ _ _ _ neg _ _ _ _ Hc), V1, V2 by done.
    destruct t, neg; cbn; rewrite ?forallb_app, ?existsb_app; cbn;
      by rewrite ?andb_true_r, ?orb_false_r.
Qed.
End Table.
End ExprGrammarTrees.
