(* ===== verification/ExprGrammarProofs.v ===== *)
(** * The parser reads the language of match expressions

    Whatever [expr_parse_string] accepts is an expression of the grammar of
    [ExprGrammar], and the tree that it returns has the meaning of that expression. *)

From stdpp Require Import base option list strings gmap.
From Stdlib Require Import ZArith Lia.
From S2P Require Import Prelude Strings CString Binary64 OvsJson OvnLex OvnLexNumbers.
From S2P Require Import OvnLexAddresses OvnLexTokens Subvalue Expr ExprLemmas ExprSimplify.
From S2P Require Import ExprParse ExprParseProofs ExprAnnotate ExprMeaning.
From S2P Require Import ExprGrammar ExprGrammarTrees.

Local Open Scope Z_scope.
Local Open Scope string_scope.

Module ExprGrammarProofs.
Import OvnLex OvnLexNumbers OvnLexAddresses OvnLexTokens Subvalue Expr ExprParse.
Import ExprParseProofs ExprAnnotate ExprMeaning ExprGrammarTrees.
Import ExprGrammar(datum, DInteger, DString, syntax, Compare, Within, Bit, Literal,
  Resident, Not, All, Any, sets, no_sets, sem, names, atom, means, constant, constants,
  comma, constant_set, field_ref, operator, small_int, primary, operand, operands,
  expression).

Section Parsing.
Context {HI : Inet} {HL : InetLaws}.

(** ** What a parser reads *)

(** The tokens that are left *)
Definition stream (l : OvnLex.lexer) : list lex_token :=
  if bool_decide (type (token l) = LEX_T_END) then []
  else token l :: default [] (tokens (input l)).

Lemma tokens_some p : exists ts, tokens p = Some ts.
Proof.
  destruct (lex_tokens_ok (S (String.length p)) p) as (ts & E & _); [lia |]. by exists ts.
Qed.

Lemma stream_get l l' : lexer_get l = Some l' -> tokens (input l) = Some (stream l').
Proof.
  unfold lexer_get. destruct (lex_token_parse_ok (input l)) as (t & st & rest & E & _ & _ & H).
  rewrite E. intros [= <-]. unfold stream. cbn [token input].
  unfold tokens at 1. cbn [lex_tokens]. rewrite E. cbn [mbind option_bind].
  destruct H as [[-> ->] | [Ht Hl]]; [done |].
  rewrite !bool_decide_false by (by apply token_type).
  rewrite (lex_tokens_fuel _ (S (String.length rest))) by lia.
  destruct (tokens_some rest) as [ts Ets].
  change (tokens rest ≫= (fun ts => Some (t :: ts)) = Some (t :: default [] (tokens rest))).
  by rewrite Ets.
Qed.

Lemma stream_take l l' :
  type (token l) <> LEX_T_END -> lexer_get l = Some l' -> stream l = token l :: stream l'.
Proof.
  intros Ht Hg. unfold stream at 1. rewrite bool_decide_false by done.
  by rewrite (stream_get _ _ Hg).
Qed.

(** If the parser returns a value, it has taken tokens from the input with which [Q]
    holds. *)
Definition reads {A} (m : parser A) (ctx : expr_context)
    (Q : list lex_token -> A -> expr_context -> Prop) : Prop :=
  lexer_ok (lexer ctx) -> forall a ctx', m ctx = Some (Some a, ctx') ->
  lexer_ok (lexer ctx') /\
  exists ts, stream (lexer ctx) = (ts ++ stream (lexer ctx'))%list /\ Q ts a ctx'.

Lemma reads_ret {A} (a : A) ctx (Q : list lex_token -> A -> expr_context -> Prop) :
  Q [] a ctx -> reads (ret a) ctx Q.
Proof. intros HQ Hl ? ? [= <- <-]. split; [done |]. by exists []. Qed.

Lemma reads_bind {A B} (m : parser A) (k : A -> parser B) ctx
    (Q : list lex_token -> B -> expr_context -> Prop) :
  reads m ctx (fun ts a ctx' => reads (k a) ctx' (fun us => Q (ts ++ us)%list)) ->
  reads (bind m k) ctx Q.
Proof.
  intros H Hl b ctx'' Hb. unfold bind in Hb.
  destruct (m ctx) as [[[a |] ctx1] |] eqn:E; try done. cbn in Hb.
  destruct (H Hl _ _ E) as (Hl1 & ts & Hts & Hk).
  destruct (Hk Hl1 _ _ Hb) as (Hl2 & us & Hus & HQ). split; [done |].
  exists (ts ++ us)%list. by rewrite Hts, Hus, app_assoc.
Qed.

Lemma reads_mono {A} (m : parser A) ctx (Q R : list lex_token -> A -> expr_context -> Prop) :
  reads m ctx Q -> (forall ts a ctx', Q ts a ctx' -> R ts a ctx') -> reads m ctx R.
Proof.
  intros H HQR Hl a ctx' E. destruct (H Hl _ _ E) as (Hl' & ts & Hts & HQ).
  split; [done |]. exists ts. auto.
Qed.

Lemma reads_ok {A} (m : parser A) ctx (Q : list lex_token -> A -> expr_context -> Prop) :
  (lexer_ok (lexer ctx) -> reads m ctx Q) -> reads m ctx Q.
Proof. intros H Hl. by apply H. Qed.

Lemma reads_error {A} message ctx (Q : list lex_token -> A -> expr_context -> Prop) :
  reads (error message) ctx Q.
Proof. by intros ? ? ? [=]. Qed.

Lemma reads_syntax_error {A} message ctx (Q : list lex_token -> A -> expr_context -> Prop) :
  reads (syntax_error message) ctx Q.
Proof. by intros ? ? ? [=]. Qed.

Lemma reads_of_option {A} (o : option A) ctx (Q : list lex_token -> A -> expr_context -> Prop) :
  (forall a, o = Some a -> Q [] a ctx) -> reads (of_option o) ctx Q.
Proof. intros HQ Hl a ? [= E <-]. split; [done |]. exists []. auto. Qed.

Lemma reads_token_now ctx (Q : list lex_token -> lex_token -> expr_context -> Prop) :
  Q [] (token (lexer ctx)) ctx -> reads token_now ctx Q.
Proof. intros HQ Hl ? ? [= <- <-]. split; [done |]. by exists []. Qed.

Lemma reads_token_string ctx (Q : list lex_token -> string -> expr_context -> Prop) :
  (forall s, str (token (lexer ctx)) = Some s -> Q [] s ctx) -> reads token_string ctx Q.
Proof.
  intros HQ Hl s ctx'. unfold token_string.
  destruct (str (token (lexer ctx))) as [s' |] eqn:E; [| done].
  intros [= <- <-]. split; [done |]. exists []. auto.
Qed.

Lemma reads_take ctx (Q : list lex_token -> unit -> expr_context -> Prop) :
  type (token (lexer ctx)) <> LEX_T_END ->
  (forall l, lexer_get (lexer ctx) = Some l -> Q [token (lexer ctx)] tt (ctx <| lexer := l |>)) ->
  reads get ctx Q.
Proof.
  intros Ht HQ Hl a ctx'. unfold get, on_lexer.
  destruct (lexer_get_ok (lexer ctx)) as (l & E & Hl' & _ & _). rewrite E. intros [= <- <-].
  split; [done |]. exists [token (lexer ctx)]. split; [| by apply HQ].
  exact (stream_take _ _ Ht E).
Qed.

Lemma reads_match t ctx (Q : list lex_token -> bool -> expr_context -> Prop) :
  t <> LEX_T_END ->
  (forall l, type (token (lexer ctx)) = t -> Q [token (lexer ctx)] true (ctx <| lexer := l |>)) ->
  (type (token (lexer ctx)) <> t -> Q [] false ctx) ->
  reads (match_ t) ctx Q.
Proof.
  intros Ht Htrue Hfalse Hl a ctx'. unfold match_, on_lexer, lexer_match.
  case_bool_decide as Htype.
  - destruct (lexer_get_ok (lexer ctx)) as (l & E & Hl' & _ & _). rewrite E. intros [= <- <-].
    split; [done |]. exists [token (lexer ctx)]. split; [| by apply Htrue].
    apply stream_take; [by rewrite Htype | done].
  - intros [= <- <-]. split; [done |]. exists []. split; [done |].
    destruct ctx. by apply Hfalse.
Qed.

Lemma reads_force_match t ctx (Q : list lex_token -> unit -> expr_context -> Prop) :
  t <> LEX_T_END ->
  (forall l, type (token (lexer ctx)) = t -> Q [token (lexer ctx)] tt (ctx <| lexer := l |>)) ->
  reads (force_match t) ctx Q.
Proof.
  intros Ht HQ Hl a ctx'. unfold force_match, bind, on_lexer, lexer_force_match.
  rewrite bool_decide_false by done. unfold lexer_match. case_bool_decide as Htype.
  - destruct (lexer_get_ok (lexer ctx)) as (l & E & Hl' & _ & _). rewrite E. intros [= <- <-].
    split; [done |]. exists [token (lexer ctx)]. split; [| by apply HQ].
    apply stream_take; [by rewrite Htype | done].
  - cbn. by destruct (lex_token_format (bare t)).
Qed.

Lemma reads_force_int ctx (Q : list lex_token -> Z -> expr_context -> Prop) :
  (forall v l, small_int (token (lexer ctx)) v -> 0 <= v ->
    Q [token (lexer ctx)] v (ctx <| lexer := l |>)) ->
  reads force_int ctx Q.
Proof.
  intros HQ Hl a ctx'. unfold force_int, bind, on_lexer, lexer_force_int, lexer_get_int.
  destruct (lexer_is_int (lexer ctx)) eqn:Hint; [| done].
  unfold lexer_is_int in Hint. rewrite !andb_true_iff, !bool_decide_eq_true in Hint.
  destruct Hint as [[Ht Hf] _].
  destruct (lexer_get_ok (lexer ctx)) as (l & E & Hl' & _ & _). rewrite E.
  cbn -[Z.pow Z.modulo]. intros [= <- <-]. split; [done |]. exists [token (lexer ctx)].
  split; [apply stream_take; [by rewrite Ht | done] |].
  apply HQ; [done |]. apply Z.mod_pos_bound. lia.
Qed.

Lemma reads_update {A} (f : expr_context -> expr_context) (a : A) ctx
    (Q : list lex_token -> A -> expr_context -> Prop) :
  lexer (f ctx) = lexer ctx -> Q [] a (f ctx) -> reads (fun ctx => Some (Some a, f ctx)) ctx Q.
Proof.
  intros Hf HQ Hl ? ? [= <- <-]. rewrite Hf. split; [done |]. by exists [].
Qed.

(** After [m] has failed, [k] returns no value. *)
Lemma reads_attempt {A B} (m : parser A) (k : option A -> parser B) ctx
    (Q : list lex_token -> B -> expr_context -> Prop) :
  reads m ctx (fun ts a ctx' => reads (k (Some a)) ctx' (fun us => Q (ts ++ us)%list)) ->
  (forall ctx1 b ctx2, m ctx = Some (None, ctx1) -> k None ctx1 <> Some (Some b, ctx2)) ->
  reads (bind (attempt m) k) ctx Q.
Proof.
  intros H Hnone Hl b ctx'' Hb. unfold bind, attempt in Hb.
  destruct (m ctx) as [[[a |] ctx1] |] eqn:E; cbn in Hb; [| by destruct (Hnone ctx1 b ctx'') | done].
  destruct (H Hl _ _ E) as (Hl1 & ts & Hts & Hk).
  destruct (Hk Hl1 _ _ Hb) as (Hl2 & us & Hus & HQ). split; [done |].
  exists (ts ++ us)%list. by rewrite Hts, Hus, app_assoc.
Qed.

(** ** Comparisons *)

(** A check leaves the context as it is or records an error. *)
Definition settles {A} (m : parser A) : Prop := forall ctx r ctx', m ctx = Some (r, ctx') ->
  match r with
  | Some _ => ctx' = ctx
  | None => exists message, ctx' = ctx <| lexer ::= lexer_error message |>
  end.

Lemma settles_ret {A} (a : A) : settles (ret a).
Proof. by intros ? ? ? [= <- <-]. Qed.

Lemma settles_error {A} message : settles (error (A := A) message).
Proof. intros ? ? ? [= <- <-]. by eexists. Qed.

Lemma settles_bind {A B} (m : parser A) (k : A -> parser B) :
  settles m -> (forall a, settles (k a)) -> settles (bind m k).
Proof.
  intros Hm Hk ctx r ctx'. unfold bind. destruct (m ctx) as [[[a |] ctx1] |] eqn:E; [| | done].
  - apply Hm in E as ->. apply Hk.
  - intros [= <- <-]. by apply Hm in E.
Qed.

Lemma settles_check_widths s cs : settles (check_widths s cs).
Proof.
  induction cs as [| c cs IH]; cbn [check_widths]; [apply settles_ret |].
  destruct (_ <? _)%Z; [apply settles_error | done].
Qed.

Lemma settles_type_check f cs : settles (type_check f cs).
Proof.
  unfold type_check. destruct (negb (bool_decide _)); [apply settles_error |].
  destruct (negb _); [apply settles_check_widths | apply settles_ret].
Qed.

Lemma settles_check_relational f cs : settles (check_relational f cs).
Proof.
  unfold check_relational. destruct (in_curlies cs); [apply settles_error |].
  destruct (_ || _); [apply settles_error |].
  destruct (values cs) as [| c l]; [apply settles_error |].
  destruct (c_masked c); [apply settles_error | apply settles_ret].
Qed.

Lemma settles_check_nominal not f r cs : settles (check_nominal not f r cs).
Proof.
  unfold check_nominal. destruct (bool_decide (is_Some _)).
  - destruct (negb _); [by intros ? ? ? [=] |].
    destruct (forallb _ _); [apply settles_ret | apply settles_error].
  - destruct (bool_decide _); [apply settles_ret | apply settles_error].
Qed.

Lemma make_cmps_some f r cs : exists e, make_cmps f r cs = Some e.
Proof.
  destruct cs as [| c cs]; [by eexists |]. cbn [make_cmps].
  generalize (make_cmp__ f r c) as e.
  induction cs as [| c' cs IH]; intros e; [by exists e |]. cbn [foldl]. rewrite combine_insert.
  apply IH.
Qed.

Lemma settles_make_cmp not f r cs : settles (make_cmp not f r cs).
Proof.
  unfold make_cmp. apply settles_bind; [apply settles_type_check |]. intros _.
  apply settles_bind.
  { destruct (is_relational r); [apply settles_check_relational | apply settles_ret]. }
  intros _. apply settles_bind.
  { destruct (bool_decide _); [apply settles_check_nominal | apply settles_ret]. }
  intros _. destruct (make_cmps_some f r (values cs)) as [e ->]. apply settles_ret.
Qed.

Lemma reads_settled {A} (m : parser A) (P : A -> Prop) ctx
    (Q : list lex_token -> A -> expr_context -> Prop) :
  settles m -> (forall a ctx', m ctx = Some (Some a, ctx') -> P a) ->
  (forall a, P a -> Q [] a ctx) -> reads m ctx Q.
Proof.
  intros Hs HP HQ Hl a ctx' E. pose proof (Hs _ _ _ E) as Hctx. cbn in Hctx. subst ctx'.
  split; [done |]. exists []. split; [done |]. by eapply HQ, HP.
Qed.

(** The operator is not relational, or the set is not empty. *)
Lemma relational_check f r cs ctx a ctx' :
  (if is_relational r then check_relational f cs else ret tt) ctx = Some (Some a, ctx') ->
  values cs = [] -> is_relational r = false.
Proof.
  destruct (is_relational r); [| done]. unfold check_relational. intros H E. revert H.
  destruct (in_curlies cs); [done |]. destruct (_ || _); [done |]. by rewrite E.
Qed.

Lemma type_checked f cs ctx a ctx' :
  type_check f cs ctx = Some (Some a, ctx') -> cs_type cs = field_type f.
Proof.
  unfold type_check, field_type.
  destruct (Z.eqb (Expr.width (sym (f_symbol f))) 0); cbn [negb];
    (case_bool_decide; cbn [negb]; by intros ?).
Qed.

Section Tables.
Context (tab : symtab) (addr_sets port_groups : option (gmap string expr_constant_set)).
Context (dp_id : Z).
Context (G : string -> Prop).
Context (HG : forall id info, tab !! id = Some info -> G id ->
  (is_root info -> wf_symbol (sym info)) /\
  (forall p, parent info = Some p -> predicate info = None /\ Expr.width (sym info) <> 0)).
Context (Hsymbols : symbols_ok (Some tab)).

Abbreviation env := (ExprGrammar.Sets addr_sets port_groups dp_id).
Abbreviation denotes := (denotes tab G).
Abbreviation field_is := (field_is tab).

Lemma reads_make_cmp not f r cs g ds ctx (Q : list lex_token -> expr -> expr_context -> Prop) :
  field_is f g -> set_data cs ds ->
  (forall e, denotes e (Compare g r ds) -> Q [] e ctx) ->
  reads (make_cmp not f r cs) ctx Q.
Proof.
  intros Hf Hds HQ. unfold make_cmp.
  apply reads_bind, (reads_settled _ (fun _ => cs_type cs = field_type f));
    [apply settles_type_check | by intros ? ? ?%type_checked |]. intros _ Ht.
  apply reads_bind, (reads_settled _ (fun _ => values cs = [] -> is_relational r = false)).
  { destruct (is_relational r); [apply settles_check_relational | apply settles_ret]. }
  { intros a ctx'. apply relational_check. }
  intros _ Hr. apply reads_bind, (reads_settled _ (fun _ => True)).
  { destruct (bool_decide _); [apply settles_check_nominal | apply settles_ret]. }
  { done. }
  intros _ _. apply reads_of_option. intros e He. apply HQ. unfold set_data in Hds.
  rewrite Hds, Ht. by apply make_cmps_denotes.
Qed.

(** Both comparisons of a range are made. *)
Lemma reads_make_range not f r1 r2 c1 c2 g d1 d2 ctx
    (Q : list lex_token -> expr -> expr_context -> Prop) :
  field_is f g -> set_data c1 d1 -> set_data c2 d2 ->
  (forall e, denotes e (Within d1 r1 g r2 d2) -> Q [] e ctx) ->
  reads (make_range not f r1 r2 c1 c2) ctx Q.
Proof.
  intros Hf H1 H2 HQ. apply reads_ok. intros Hl. unfold make_range. apply reads_attempt.
  - apply (reads_make_cmp _ _ _ _ g d1); [done | done |]. intros e1 He1. apply reads_attempt.
    + apply (reads_make_cmp _ _ _ _ g d2); [done | done |]. intros e2 He2 _ e ctx'.
      destruct (lex_err (lexer ctx)) as [m |]; [done |]. intros [= He <-].
      split; [done |]. exists []. split; [done |]. apply HQ.
      rewrite turn_mirror in He1. by eapply denotes_within.
    + intros ctx1 e ctx2 E. apply settles_make_cmp in E as [m ->].
      destruct (lexer_error_ok (lexer ctx) m Hl) as (_ & [m' Hm] & _). cbn. by rewrite Hm.
  - intros ctx1 e ctx3 E. apply settles_make_cmp in E as [m ->].
    destruct (lexer_error_ok (lexer ctx) m Hl) as (Hok & [m' Hm] & _). unfold bind, attempt.
    destruct (make_cmp not f r2 c2 _) as [[o ctx2] |] eqn:E; [| done]. cbn.
    apply settles_make_cmp in E. assert (is_Some (lex_err (lexer ctx2))) as [m2 ->]; [| done].
    destruct o as [e2 |]; [subst ctx2; by exists m' |]. destruct E as [m2 ->].
    exact (proj1 (proj2 (lexer_error_ok _ m2 Hok))).
Qed.

(** ** Fields, operators and constants *)

Lemma reads_parse_field ctx (Q : list lex_token -> expr_field -> expr_context -> Prop) :
  (forall ts f g ctx', field_ref ts g -> field_is f g -> Q ts f ctx') ->
  reads (parse_field (Some tab)) ctx Q.
Proof.
  intros HQ. unfold parse_field. apply reads_bind, reads_token_now.
  case_bool_decide as Htype; cbn [negb]; [| apply reads_syntax_error].
  apply reads_bind, reads_token_string. intros id Hid. cbn [mbind option_bind].
  destruct (tab !! id) as [symbol |] eqn:Hlook; [| apply reads_syntax_error].
  pose proof (Hsymbols tab id symbol eq_refl Hlook) as Hi. pose proof (io_name _ _ Hi) as Hname.
  apply reads_bind, reads_take; [by rewrite Htype |]. intros l1 _.
  set (t := token (lexer ctx)) in *.
  apply reads_bind, reads_match; [done | |].
  2: { intros _. cbn [negb]. apply reads_ret.
       apply (HQ _ _ (ExprGrammar.MkField id None)); [by constructor |].
       constructor; cbn; [done | | done]. apply (whole_field (Some tab) Hsymbols tab); [done |].
       by rewrite Hname. }
  intros l2 Hopen. cbn [negb]. cbn in Hopen.
  destruct (Z.eqb_spec (Expr.width (sym symbol)) 0) as [Hw | Hw]; [apply reads_error |].
  apply reads_bind, reads_force_int. intros low l3 Hlow Hlow0. cbn in Hlow.
  assert (forall ts high ctx', 0 <= high ->
    (field_ref ts (ExprGrammar.MkField id (Some (low, high)))) ->
    reads (if (high <? low)%Z then
            error ("Invalid bit range " +:+ str_int low +:+ " to " +:+ str_int high +:+ ".")
          else if (Expr.width (sym symbol) <=? high)%Z then
            error ("Cannot select bits " +:+ str_int low +:+ " to " +:+ str_int high +:+ " of "
                   +:+ str_int (Expr.width (sym symbol)) +:+ "-bit field " +:+ name (sym symbol)
                   +:+ ".")
          else if bool_decide (level (sym symbol) = EXPR_L_NOMINAL)
                  && (negb (Z.eqb low 0) || negb (Z.eqb high (Expr.width (sym symbol) - 1))) then
            error ("Cannot select subfield of nominal field " +:+ name (sym symbol) +:+ ".")
          else ret (Field symbol low (high - low + 1))) ctx'
      (fun us => Q (ts ++ us)%list)) as Hend.
  { intros ts high ctx' Hhigh Href.
    destruct (Z.ltb_spec high low) as [| Hlh]; [apply reads_error |].
    destruct (Z.leb_spec (Expr.width (sym symbol)) high) as [| Hhw]; [apply reads_error |].
    destruct (bool_decide (level (sym symbol) = EXPR_L_NOMINAL) && _) eqn:Hnom;
      [apply reads_error |].
    apply reads_ret. rewrite app_nil_r. apply (HQ _ _ _ _ Href).
    constructor; cbn; [done | | done]. constructor; cbn; [| done | lia | lia |].
    - exists tab. by rewrite Hname.
    - intros Hlevel. rewrite bool_decide_true in Hnom by done. cbn [andb] in Hnom.
      apply orb_false_iff in Hnom as [H1%negb_false_iff%Z.eqb_eq H2%negb_false_iff%Z.eqb_eq].
      lia. }
  apply reads_bind, reads_match; [done | |].
  - intros l4 Hdots. apply reads_bind, reads_force_int. intros high l5 Hhigh Hhigh0.
    apply reads_bind, reads_force_match; [done |]. intros l6 Hclose. cbn in *.
    refine (reads_mono _ _ _ _ (Hend _ high _ Hhigh0 _) _);
      [by eapply (ExprGrammar.field_bits t id) | done].
  - intros _. apply reads_bind, reads_ret.
    apply reads_bind, reads_force_match; [done |]. intros l6 Hclose. cbn in *.
    refine (reads_mono _ _ _ _ (Hend _ low _ Hlow0 _) _);
      [by eapply (ExprGrammar.field_bit t id) | done].
Qed.

Lemma relation_token t : expr_relop_from_token t = ExprGrammar.relation t.
Proof. by destruct t. Qed.

Lemma reads_parse_relop ctx (Q : list lex_token -> expr_relop -> expr_context -> Prop) :
  (forall o r ctx', operator o r -> Q [o] r ctx') -> reads parse_relop ctx Q.
Proof.
  intros HQ. unfold parse_relop. apply reads_bind, reads_token_now.
  destruct (expr_relop_from_token _) as [r |] eqn:E; [| apply reads_syntax_error].
  apply reads_bind, reads_take; [by intros Ht; rewrite Ht in E |]. intros l _. apply reads_ret.
  apply HQ. unfold operator. by rewrite <- relation_token.
Qed.

(** Constants are added to a set. *)
Definition adds (cs : expr_constant_set) (ds : list datum) (cs' : expr_constant_set) : Prop :=
  in_curlies cs' = in_curlies cs /\ forall d0, set_data cs d0 -> set_data cs' (d0 ++ ds).

Lemma adds_push cs t l ds :
  values cs = [] \/ cs_type cs = t -> ds = map (datum_as t) l ->
  adds cs ds (push (cs <| cs_type := t |>) l).
Proof.
  intros Ht ->. split; [done |]. unfold set_data. cbn. intros d0 ->. rewrite map_app. f_equal.
  by destruct Ht as [-> | ->].
Qed.

Lemma adds_trans cs1 d1 cs2 d2 cs3 : adds cs1 d1 cs2 -> adds cs2 d2 cs3 -> adds cs1 (d1 ++ d2) cs3.
Proof.
  intros [C1 H1] [C2 H2]. split; [by rewrite C2 |]. intros d0 H. rewrite app_assoc. auto.
Qed.

Lemma reads_assign_type cs t ctx (Q : list lex_token -> expr_constant_set -> expr_context -> Prop) :
  (values cs = [] \/ cs_type cs = t -> Q [] (cs <| cs_type := t |>) ctx) ->
  reads (assign_constant_set_type cs t) ctx Q.
Proof.
  intros HQ. unfold assign_constant_set_type.
  destruct (bool_decide (values cs = []) || bool_decide (cs_type cs = t)) eqn:Hor;
    [| apply reads_syntax_error].
  apply reads_ret, HQ. by rewrite orb_true_iff, !bool_decide_eq_true in Hor.
Qed.

Lemma renamed_data t id l :
  map (datum_as t) l = map (datum_as t) (map (fun c => c <| as_name := id |>) l).
Proof. rewrite map_map. apply map_ext. by destruct t. Qed.

Lemma reads_parse_constant cs ctx
    (Q : list lex_token -> expr_constant_set -> expr_context -> Prop) :
  (forall t ds cs' ctx', constant env t ds -> adds cs ds cs' -> Q [t] cs' ctx') ->
  reads (parse_constant addr_sets port_groups dp_id cs) ctx Q.
Proof.
  intros HQ. unfold parse_constant. apply reads_bind, reads_token_now.
  set (t := token (lexer ctx)) in *.
  destruct (type t) eqn:Ht; try (apply reads_syntax_error); try (apply reads_error).
  - apply reads_bind, reads_assign_type. intros Hcs.
    apply reads_bind, reads_token_string. intros s Hs.
    apply reads_bind, reads_take; [unfold t in Ht; by rewrite Ht |]. intros l _. apply reads_ret.
    eapply HQ; [by eapply ExprGrammar.constant_string | by apply adds_push].
  - apply reads_bind, reads_assign_type. intros Hcs.
    apply reads_bind, reads_take; [unfold t in Ht; by rewrite Ht |]. intros l _. apply reads_ret.
    eapply HQ; [by eapply ExprGrammar.constant_integer | by apply adds_push].
  - apply reads_bind, reads_assign_type. intros Hcs.
    apply reads_bind, reads_take; [unfold t in Ht; by rewrite Ht |]. intros l _. apply reads_ret.
    eapply HQ; [by eapply ExprGrammar.constant_masked | by apply adds_push].
  - apply reads_bind. unfold parse_addr_sets. apply reads_bind, reads_token_string. intros id Hid.
    apply reads_bind, (reads_update (fun ctx => ctx <| addr_sets_ref ::= fmap (count_ref id) |>));
      [done |].
    destruct (addr_sets ≫= _) as [set |] eqn:Hset; [| apply reads_syntax_error].
    apply bind_Some in Hset as (tab' & Htab & Hset).
    apply reads_bind, reads_assign_type. intros Hcs. apply reads_ret.
    apply reads_bind, reads_take; [cbn; unfold t in Ht; by rewrite Ht |]. intros l _.
    apply reads_ret. eapply HQ; [by eapply ExprGrammar.constant_address_set |].
    apply adds_push; [done |]. apply (renamed_data EXPR_C_INTEGER).
  - apply reads_bind. unfold parse_port_group. apply reads_bind, reads_token_string.
    intros id Hid. apply reads_bind, (reads_update (fun ctx => ctx <| port_groups_ref ::=
      fmap (fun s => {[get_sb_port_group_name dp_id id]} ∪ s) |>)); [done |].
    destruct (port_groups ≫= _) as [set |] eqn:Hset; [| apply reads_syntax_error].
    apply bind_Some in Hset as (tab' & Htab & Hset).
    apply reads_bind, reads_assign_type. intros Hcs. apply reads_ret.
    apply reads_bind, reads_take; [cbn; unfold t in Ht; by rewrite Ht |]. intros l _.
    apply reads_ret. eapply HQ; [by eapply ExprGrammar.constant_port_group |].
    apply adds_push; [done |]. apply (renamed_data EXPR_C_STRING).
Qed.

Lemma reads_comma ctx (Q : list lex_token -> bool -> expr_context -> Prop) :
  (forall ts b ctx', comma ts -> Q ts b ctx') -> reads (match_ LEX_T_COMMA) ctx Q.
Proof.
  intros HQ. apply reads_match; [done | |].
  - intros l Ht. by apply HQ, ExprGrammar.comma_one.
  - intros _. by apply HQ, ExprGrammar.comma_none.
Qed.

Lemma reads_parse_constants fuel cs ctx
    (Q : list lex_token -> expr_constant_set -> expr_context -> Prop) :
  (forall ts ds cs' ctx', constants env ts ds -> adds cs ds cs' -> Q ts cs' ctx') ->
  reads (parse_constants addr_sets port_groups dp_id fuel cs) ctx Q.
Proof.
  revert cs ctx Q. induction fuel as [| fuel IH]; intros cs ctx Q HQ; [by intros ? ? ? [=] |].
  cbn [parse_constants]. apply reads_bind, reads_parse_constant.
  intros t ds cs1 ctx1 Hc H1. apply reads_bind, reads_comma. intros ts b ctx2 Hcomma.
  apply reads_bind, reads_match; [done | |].
  - intros l Hclose. apply reads_ret. rewrite app_nil_r.
    eapply HQ; [by eapply ExprGrammar.constants_last | done].
  - intros _. apply IH. intros us es cs' ctx' Hus H2.
    apply (HQ _ (ds ++ es)%list);
      [exact (ExprGrammar.constants_more _ _ _ _ _ _ Hc Hcomma Hus) | by eapply adds_trans].
Qed.

Lemma reads_parse_constant_set ctx
    (Q : list lex_token -> expr_constant_set -> expr_context -> Prop) :
  (forall ts ds cs ctx', constant_set env ts ds -> set_data cs ds ->
    (in_curlies cs = false -> exists t, ts = [t] /\ constant env t ds) -> Q ts cs ctx') ->
  reads (parse_constant_set addr_sets port_groups dp_id) ctx Q.
Proof.
  intros HQ. unfold parse_constant_set. apply reads_bind, reads_match; [done | |].
  - intros l Hopen. cbv beta. intros Hl a ctx' E.
    apply (reads_parse_constants (S (remaining l)) (empty_set <| in_curlies := true |>)
      (ctx <| lexer := l |>)
      (fun us => Q ([token (lexer ctx)] ++ us)%list)); [| done | done].
    intros ts ds cs' ctx2 Hc [Hcurly Hadd]. eapply HQ.
    + by apply ExprGrammar.constant_set_braces.
    + by apply (Hadd []).
    + rewrite Hcurly. cbn. done.
  - intros _. apply reads_parse_constant. intros t ds cs' ctx' Hc [_ Hadd]. eapply HQ.
    + by apply ExprGrammar.constant_set_one.
    + by apply (Hadd []).
    + intros _. by exists t.
Qed.

(** ** Operands *)

(** A tree of an operand, and whether it is atomic *)
Definition primary_read (ts : list lex_token) (r : expr * bool) : Prop :=
  exists a, primary env ts a (snd r) /\ denotes (fst r) a.

Lemma reads_parse_field_cmp not ctx :
  reads (parse_field_cmp (Some tab) addr_sets port_groups dp_id not) ctx
    (fun ts r _ => primary_read ts r).
Proof.
  unfold parse_field_cmp. apply reads_bind, reads_parse_field. intros fs f g ctx1 Href Hf.
  apply reads_bind, reads_token_now. destruct (expr_relop_from_token _) as [r |].
  - apply reads_bind, reads_parse_relop. intros o r' ctx2 Ho.
    apply reads_bind, reads_parse_constant_set. intros cs ds c ctx3 Hcs Hds _.
    apply reads_bind, (reads_make_cmp _ _ _ _ g ds); [done | done |]. intros e He.
    apply reads_ret. exists (Compare g r' ds). rewrite !app_nil_r.
    split; [by apply ExprGrammar.primary_compare | done].
  - destruct (_ || _); [apply reads_syntax_error |]. destruct (_ && _); [apply reads_error |].
    apply reads_bind, (reads_make_cmp _ _ _ _ g [DInteger 0 None false]); [done | done |].
    intros e He. apply reads_ret. exists (Bit g). rewrite !app_nil_r.
    split; [by apply ExprGrammar.primary_bit | by apply denotes_bit].
Qed.

Lemma literal_datum cs next b ds :
  literal cs next = Some b -> set_data cs ds ->
  in_curlies cs = false /\ exists v, ds = [DInteger v None true] /\ v mod 2 ^ 64 = Z.b2z b.
Proof.
  unfold literal, set_data. destruct (expr_relop_from_token next); [done |].
  destruct (values cs) as [| c [|]]; try done.
  destruct (bool_decide (cs_type cs = EXPR_C_INTEGER)) eqn:Ht; [| done].
  destruct (bool_decide (c_format c = LEX_F_DECIMAL)) eqn:Hf; [| done].
  destruct (c_masked c) eqn:Hm; [done |]. destruct (in_curlies cs); [done |].
  cbn -[Z.pow Z.modulo]. destruct (Z.leb_spec (c_value c mod 2 ^ 64) 1) as [Hle |]; [| done].
  intros [= <-] ->. split; [done |]. apply bool_decide_eq_true in Ht. rewrite Ht.
  exists (c_value c). cbn -[Z.pow Z.modulo]. unfold ExprGrammar.integer_datum.
  rewrite Hm, Hf. split; [done |].
  pose proof (Z.mod_pos_bound (c_value c) (2 ^ 64) ltac:(lia)).
  destruct (Z.eqb_spec (c_value c mod 2 ^ 64) 0); cbn; lia.
Qed.

Lemma reads_parse_constant_cmp not ctx :
  reads (parse_constant_cmp (Some tab) addr_sets port_groups dp_id not) ctx
    (fun ts r _ => primary_read ts r).
Proof.
  unfold parse_constant_cmp. apply reads_bind, reads_parse_constant_set.
  intros cs1 d1 c1 ctx1 Hcs1 Hd1 Hone. apply reads_bind, reads_token_now.
  destruct (literal _ _) as [b |] eqn:Hlit.
  { destruct (literal_datum _ _ _ _ Hlit Hd1) as (Hcurly & v & -> & Hv).
    destruct (Hone Hcurly) as (t & -> & Ht). apply reads_ret. exists (Literal b).
    split; [by eapply ExprGrammar.primary_literal | apply denotes_boolean]. }
  apply reads_bind, reads_parse_relop. intros o1 r1 ctx2 Ho1.
  apply reads_bind, reads_parse_field. intros fs f g ctx3 Href Hf.
  apply reads_bind, reads_token_now. destruct (expr_relop_from_token _) as [r |].
  - apply reads_bind, reads_parse_relop. intros o2 r2 ctx4 Ho2.
    apply reads_bind, reads_parse_constant_set. intros cs2 d2 c2 ctx5 Hcs2 Hd2 _.
    destruct (negb _); [apply reads_error |].
    apply reads_bind, (reads_make_range _ _ _ _ _ _ g d1 d2); [done | done | done |].
    intros e He. apply reads_ret. exists (Within d1 r1 g r2 d2). rewrite !app_nil_r.
    split; [by eapply (ExprGrammar.primary_within _ cs1 _ o1 _ fs _ o2) | done].
  - apply reads_bind, (reads_make_cmp _ _ _ _ g d1); [done | done |]. intros e He.
    apply reads_ret. rewrite turn_mirror in He. exists (Compare g (ExprGrammar.mirror r1) d1).
    rewrite !app_nil_r. split; [by apply ExprGrammar.primary_mirrored | done].
Qed.

(** What an expression in parentheses promises *)
Definition parse_reads (parse : option (bool -> parser expr)) : Prop :=
  forall f not ctx, parse = Some f ->
    reads (f not) ctx (fun ts e _ => exists a, expression env ts a /\ denotes e a).

Lemma lookahead_next ctx next ctx1 l :
  lookahead ctx = Some (Some next, ctx1) -> lexer_get (lexer ctx) = Some l ->
  ctx1 = ctx /\ type (token l) = next.
Proof.
  unfold lookahead, on_lexer, lexer_lookahead, lexer_get.
  destruct (lex_token_parse (input (lexer ctx))) as [[[t st] rest] |]; [| done].
  cbn. intros [= <- <-] [= <-]. split; [by destruct ctx | done].
Qed.

Lemma reads_lookahead ctx (Q : list lex_token -> lex_type -> expr_context -> Prop) :
  (forall next, (forall l, lexer_get (lexer ctx) = Some l -> type (token l) = next) ->
    Q [] next ctx) ->
  reads lookahead ctx Q.
Proof.
  intros HQ Hl next ctx' E. destruct (lexer_get_ok (lexer ctx)) as (l & Hg & _ & _ & _).
  destruct (lookahead_next _ _ _ _ E Hg) as [-> Hn]. split; [done |]. exists [].
  split; [done |]. apply HQ. intros l' Hg'. by rewrite Hg' in Hg; injection Hg as ->.
Qed.

Lemma reads_match_id id ctx (Q : list lex_token -> bool -> expr_context -> Prop) :
  (forall l, type (token (lexer ctx)) = LEX_T_ID -> str (token (lexer ctx)) = Some id ->
    lexer_get (lexer ctx) = Some l -> Q [token (lexer ctx)] true (ctx <| lexer := l |>)) ->
  Q [] false ctx ->
  reads (on_lexer (lexer_match_id id)) ctx Q.
Proof.
  intros Htrue Hfalse Hl b ctx'. unfold on_lexer, lexer_match_id.
  destruct (bool_decide (type (token (lexer ctx)) = LEX_T_ID) && _) eqn:E.
  - rewrite andb_true_iff, !bool_decide_eq_true in E. destruct E as [Ht Hs].
    destruct (lexer_get_ok (lexer ctx)) as (l & Hg & Hl' & _ & _). rewrite Hg.
    intros [= <- <-]. split; [done |]. exists [token (lexer ctx)].
    split; [apply stream_take; [by rewrite Ht | done] | by apply Htrue].
  - intros [= <- <-]. split; [done |]. exists []. split; [done |]. by destruct ctx.
Qed.

Lemma reads_chassis_resident ctx (Q : list lex_token -> expr -> expr_context -> Prop) :
  (forall p port close ctx', type p = LEX_T_STRING -> str p = Some port ->
    type close = LEX_T_RPAREN -> Q [p; close] (ECondition false port) ctx') ->
  reads parse_chassis_resident ctx Q.
Proof.
  intros HQ. unfold parse_chassis_resident. apply reads_bind, reads_token_now.
  case_bool_decide as Ht; cbn [negb]; [| apply reads_syntax_error].
  apply reads_bind, reads_token_string. intros s Hs.
  apply reads_bind, reads_take; [by rewrite Ht |]. intros l _.
  apply reads_bind, reads_force_match; [done |]. intros l2 Hclose. apply reads_ret.
  by apply HQ.
Qed.

Lemma reads_parse_primary parse not ctx :
  parse_reads parse ->
  reads (expr_parse_primary (Some tab) addr_sets port_groups dp_id parse not) ctx
    (fun ts r _ => primary_read ts r).
Proof.
  intros Hparse. unfold expr_parse_primary. apply reads_bind, reads_match; [done | |].
  - intros l Hopen. destruct parse as [f |]; [| apply reads_error].
    apply reads_attempt.
    + refine (reads_mono _ _ _ _ (Hparse f not _ eq_refl) _). intros ts e ctx1 (a & Ha & He).
      apply reads_bind, reads_force_match; [done |]. intros l2 Hclose.
      apply reads_of_option. intros r [= <-]. exists a. rewrite app_nil_r.
      split; [by apply ExprGrammar.primary_paren | done].
    + intros ctx1 b ctx2 _. unfold bind at 1.
      destruct (force_match LEX_T_RPAREN ctx1) as [[[] ?] |]; by intros ?.
  - intros Hno. apply reads_bind, reads_token_now.
    destruct (type (token (lexer ctx))) eqn:Ht; try (apply reads_parse_constant_cmp);
      [| apply reads_error].
    apply reads_bind, reads_lookahead. intros next Hnext.
    case_bool_decide as Hparen; [| apply reads_parse_field_cmp].
    apply reads_bind, reads_match_id; [| apply reads_error]. intros l _ Hid Hg.
    specialize (Hnext _ Hg). rewrite Hparen in Hnext.
    apply reads_bind, reads_take; [cbn; by rewrite Hnext |]. intros l2 _.
    apply reads_bind, reads_chassis_resident. intros p port close ctx2 Hp Hport Hclose.
    apply reads_ret. exists (Resident port).
    split; [by apply ExprGrammar.primary_resident | apply denotes_resident].
Qed.

Lemma reads_parse_not parse not ctx :
  parse_reads parse ->
  reads (expr_parse_not (Some tab) addr_sets port_groups dp_id parse not) ctx
    (fun ts e _ => exists a, operand env ts a /\ denotes e a).
Proof.
  intros Hparse. unfold expr_parse_not. apply reads_bind, reads_match; [done | |].
  - intros l Hnot. apply reads_bind.
    refine (reads_mono _ _ _ _ (reads_parse_primary parse _ _ Hparse) _).
    intros ts [e atomic] ctx1 (a & Ha & He). destruct atomic; [| apply reads_error].
    apply reads_ret. exists (Not a). rewrite app_nil_r.
    split; [by apply ExprGrammar.operand_not | by apply denotes_not].
  - intros _. apply reads_bind.
    refine (reads_mono _ _ _ _ (reads_parse_primary parse _ _ Hparse) _).
    intros ts [e atomic] ctx1 (a & Ha & He). apply reads_ret. exists a. rewrite app_nil_r.
    split; [by eapply ExprGrammar.operand_primary | done].
Qed.

(** ** Expressions *)

(** One operand or more, with the operator between them *)
Definition operand_list (op : lex_type) (ts : list lex_token) (l : list syntax) : Prop :=
  (exists a, l = [a] /\ operand env ts a) \/ operands env op ts l.

Lemma operand_list_cons op ts a o us l :
  operand env ts a -> type o = op -> operand_list op us l ->
  operands env op (ts ++ o :: us) (a :: l).
Proof.
  intros Ha Ho [(b & -> & Hb) | Hl];
    [by apply ExprGrammar.operands_two | by apply ExprGrammar.operands_more].
Qed.

Definition andor_of (op : lex_type) : andor :=
  if bool_decide (op = LEX_T_LOG_AND) then AND else OR.

Lemma reads_parse_operands parse not op fuel e l0 ctx :
  parse_reads parse -> op <> LEX_T_END -> denotes e (group (andor_of op) l0) ->
  reads (parse_operands (Some tab) addr_sets port_groups dp_id parse not op fuel e) ctx
    (fun ts e' _ => exists l, operand_list op ts l /\
       denotes e' (group (andor_of op) (l0 ++ l))).
Proof.
  intros Hparse Hop. revert e l0 ctx.
  induction fuel as [| fuel IH]; intros e l0 ctx He; [by intros ? ? ? [=] |].
  cbn [parse_operands]. apply reads_bind.
  refine (reads_mono _ _ _ _ (reads_parse_not parse not ctx Hparse) _).
  intros ts e2 ctx1 (a & Ha & He2). apply reads_bind, reads_of_option. intros e' He'.
  pose proof (denotes_group_snoc _ _ _ _ _ _ _ _ He He2 He') as Hsnoc.
  apply reads_bind, reads_match; [done | |].
  - intros l Ho. refine (reads_mono _ _ _ _ (IH e' _ _ Hsnoc) _).
    intros us e3 ctx2 (l1 & Hl1 & He3). exists (a :: l1). rewrite <- app_assoc in He3.
    split; [right | done]. exact (operand_list_cons _ _ _ _ _ _ Ha Ho Hl1).
  - intros _. apply reads_ret. exists [a]. rewrite !app_nil_r. split; [| done].
    left. by exists a.
Qed.

Lemma operands_expression op ts l :
  is_logical op = true -> operands env op ts l -> expression env ts (group (andor_of op) l).
Proof.
  unfold is_logical, andor_of. rewrite orb_true_iff, !bool_decide_eq_true.
  intros [-> | ->] H; [by apply ExprGrammar.expression_all | by apply ExprGrammar.expression_any].
Qed.

(** One level of parentheses: [parse] parses the level below. *)
Lemma reads_parse_level parse not ctx :
  parse_reads parse ->
  reads (bind (expr_parse_not (Some tab) addr_sets port_groups dp_id parse not) (fun e =>
         bind token_now (fun t =>
           if is_logical (type t) then
             bind get (fun _ =>
             bind (fun ctx => parse_operands (Some tab) addr_sets port_groups dp_id parse not
                                (type t) (S (remaining (lexer ctx))) e ctx) (fun e =>
             bind token_now (fun t =>
               if is_logical (type t)
               then error "&& and || must be parenthesized when used together."
               else ret e)))
           else ret e))) ctx
    (fun ts e _ => exists a, expression env ts a /\ denotes e a).
Proof.
  intros Hparse. apply reads_bind.
  refine (reads_mono _ _ _ _ (reads_parse_not parse not ctx Hparse) _).
  intros ts e ctx1 (a & Ha & He). apply reads_bind, reads_token_now.
  destruct (is_logical (type (token (lexer ctx1)))) eqn:Hlog.
  2: { apply reads_ret. exists a. rewrite !app_nil_r.
       split; [by apply ExprGrammar.expression_one | done]. }
  set (o := token (lexer ctx1)) in *.
  assert (type o <> LEX_T_END) as Hend by (by intros Ht; rewrite Ht in Hlog).
  apply reads_bind, reads_take; [done |]. intros l _. apply reads_bind. intros Hl r ctx2 E.
  assert (denotes e (group (andor_of (type o)) [a])) as Hone by (by apply denotes_group_one).
  eapply (reads_parse_operands parse not (type o) _ e [a] _ Hparse Hend Hone) in E as
    (Hl2 & us & Hus & l1 & Hl1 & He1); [| done].
  split; [done |]. exists us. split; [done |].
  apply reads_bind, reads_token_now.
  destruct (is_logical (type (token (lexer ctx2)))); [apply reads_error |].
  apply reads_ret. rewrite !app_nil_r. eexists. split; [| exact He1].
  apply operands_expression; [exact Hlog |]. by apply (operand_list_cons _ ts a o).
Qed.

Lemma reads_parse__ levels not ctx :
  reads (expr_parse__ (Some tab) addr_sets port_groups dp_id levels not) ctx
    (fun ts e _ => exists a, expression env ts a /\ denotes e a).
Proof.
  revert not ctx. induction levels as [| levels IH]; intros not ctx;
    apply (reads_parse_level _ not); intros f not' ctx' [= <-]. apply IH.
Qed.

(** A text that is accepted is an expression, and the tree has its meaning. *)
Lemma parse_string_denotes text as_refs pg_refs e ctx :
  expr_parse_string (Some tab) addr_sets port_groups dp_id text as_refs pg_refs
  = Some (Some e, None, ctx) ->
  exists ts a, tokens (ds_cstr text) = Some ts /\ expression env ts a /\ denotes e a.
Proof.
  unfold expr_parse_string. destruct (lexer_get_ok (lexer_init text)) as (l & Hg & Hl & Herr & _).
  rewrite Hg. cbn [mbind option_bind]. unfold expr_parse. cbn [lexer]. rewrite Herr.
  cbn [lexer_init lex_err].
  destruct (expr_parse__ _ _ _ _ _ _ _) as [[r ctx1] |] eqn:E; [| done].
  cbn [mbind option_bind]. unfold lexer_force_end, lexer_steal_error.
  case_bool_decide as Hend.
  - destruct (lex_err (lexer ctx1)); [done |]. intros [= -> <-].
    destruct (reads_parse__ _ _ (Context l as_refs pg_refs) Hl _ _ E)
      as (_ & ts & Hts & a & Ha & He).
    exists ts, a. split; [| done]. apply stream_get in Hg. cbn [lexer_init input] in Hg.
    rewrite Hg. cbn [lexer] in Hts.
    rewrite Hts. unfold stream. rewrite bool_decide_true by done. by rewrite app_nil_r.
  - destruct r as [e1 |]; [| by destruct (lex_err (lexer_syntax_error _ _))].
    destruct (reads_parse__ _ _ (Context l as_refs pg_refs) Hl _ _ E) as [Hl1 _].
    destruct (lexer_syntax_error_ok (lexer ctx1) (Some "expecting end of input") Hl1)
      as (_ & [m ->] & _). done.
Qed.
End Tables.

(** ** Tables with a certificate *)

Section Certified.
Context (tab : symtab) (cert : certificate).
Context (Hsymbols : symbols_ok (Some tab)) (Hcert : certified tab cert).
Context (flow : expr_symbol -> Z) (lookup_port : string -> option Z) (icr : string -> bool).

Definition below (k : nat) (id : string) : Prop := good cert id = true /\ (rank cert id < k)%nat.

Lemma good_symbols id info :
  tab !! id = Some info -> good cert id = true ->
  (is_root info -> wf_symbol (sym info)) /\
  (forall p, parent info = Some p -> predicate info = None /\ Expr.width (sym info) <> 0).
Proof.
  intros Hi Hg. destruct (Hcert id info Hi Hg) as [Hp Hr _ _ _]. split; [done |].
  intros p Hpar. by destruct (Hp p Hpar).
Qed.

(** The texts of a symbol only name symbols of lower rank. *)
Lemma symbol_text_names id t :
  good cert id = true -> ExprGrammar.symbol_text tab id t ->
  exists e, parse_in tab t = Some (Some e, None) /\ names_in (below (rank cert id)) e.
Proof.
  intros Hg (info & Hi & Ht). destruct (Hcert id info Hi Hg) as [_ _ _ Hpre Hpred].
  assert (exists e, parse_in tab t = Some (Some e, None) /\
    all_cmps (fun c => good cert (name (symbol c)) = true /\
      (rank cert (name (symbol c)) < rank cert id)%nat) e) as (e & He & Hn); [| by exists e].
  destruct Ht as [Ht | Ht]; [destruct (Hpre t Ht) as (e & He & Hn) |
    destruct (Hpred t Ht) as (e & He & Hn)];
    (exists e; split; [done |]; revert Hn; apply all_cmps_impl; tauto).
Qed.

Lemma names_weaken (P P' : string -> Prop) e :
  (forall id, P id -> P' id) -> names_in P e -> names_in P' e.
Proof. intros H. apply all_cmps_impl. auto. Qed.

(** What is parsed has the meaning that the text has. *)
Lemma parse_string_means k addr_sets port_groups dp_id text as_refs pg_refs e ctx :
  expr_parse_string (Some tab) addr_sets port_groups dp_id text as_refs pg_refs
  = Some (Some e, None, ctx) ->
  names_in (below k) e ->
  means tab flow lookup_port icr (S k) (ExprGrammar.Sets addr_sets port_groups dp_id) text
    (holds tab flow lookup_port icr k e).
Proof.
  revert addr_sets port_groups dp_id text as_refs pg_refs e ctx.
  induction k as [| k IH]; intros addr_sets port_groups dp_id text as_refs pg_refs e ctx He Hn;
    destruct (parse_string_denotes tab addr_sets port_groups dp_id (fun id => good cert id = true)
      good_symbols Hsymbols _ _ _ _ _ He) as (ts & a & Hts & Ha & [N V]);
    pose proof (N _ Hn) as Hnames;
    apply (names_weaken _ (fun id => good cert id = true)) in Hn; try (by intros id [Hg _]).
  - exists ts, a, (text_holds tab flow lookup_port icr 0). split_and!; [done | done | |].
    + intros id t Hid _. rewrite Forall_forall in Hnames. destruct (Hnames id Hid). lia.
    + exact (V flow lookup_port icr _ false Hn).
  - exists ts, a, (text_holds tab flow lookup_port icr (S k)). split_and!; [done | done | |].
    + intros id t Hid Ht. rewrite Forall_forall in Hnames. destruct (Hnames id Hid) as [Hg Hr].
      destruct (symbol_text_names id t Hg Ht) as (e' & He' & Hn').
      cbn [text_holds]. rewrite He'.
      unfold parse_in in He'. apply bind_Some in He' as ([[o err] ctx'] & Hparse & [= -> ->]).
      eapply IH; [exact Hparse |]. revert Hn'. apply names_weaken. unfold below. intuition lia.
    + exact (V flow lookup_port icr _ false Hn).
Qed.
End Certified.
End Parsing.
End ExprGrammarProofs.
