(* ===== verification/ExprGrammarUnique.v ===== *)
(** * A match expression has one meaning

    The grammar of [ExprGrammar] is unambiguous: the tokens of a text are those of at
    most one expression, and so the text has at most one meaning. *)

From stdpp Require Import base option list strings gmap.
From Stdlib Require Import ZArith Lia.
From S2P Require Import Prelude Strings CString Binary64 OvsJson OvnLex.
From S2P Require Import Subvalue Expr ExprLemmas ExprParse ExprGrammar.

Local Open Scope Z_scope.
Local Open Scope string_scope.

Module ExprGrammarUnique.
Create HintDb kinds.
Import OvnLex Expr.
Import ExprGrammar(datum, DInteger, DString, syntax, Compare, Within, Bit, Literal,
  Resident, Not, All, Any, sets, no_sets, sem, names, atom, means, constant, constants,
  comma, constant_set, field_ref, relation, operator, small_int, primary, operand, operands,
  expression).

(** ** What follows an operand *)

(** The list is empty or starts with a token of such a type. *)
Definition starts (P : lex_type -> Prop) (r : list lex_token) : Prop :=
  match r with [] => True | t :: _ => P (type t) end.

Definition ends_operand (t : lex_type) : Prop :=
  t = LEX_T_RPAREN \/ t = LEX_T_LOG_AND \/ t = LEX_T_LOG_OR.

Definition after_field (t : lex_type) : Prop := ends_operand t \/ is_Some (relation t).

Lemma after_field_types t :
  after_field t -> t <> LEX_T_LSQUARE /\ t <> LEX_T_LPAREN.
Proof.
  intros [[-> | [-> | ->]] | [r Hr]]; [done | done | done |]. by split; intros ->.
Qed.

Lemma operator_after o r : operator o r -> after_field (type o).
Proof. right. by exists r. Qed.

Lemma ends_no_operator t o r : ends_operand (type t) -> operator o r -> t <> o.
Proof. intros [E | [E | E]] Ho ->; unfold operator in Ho; by rewrite E in Ho. Qed.

Lemma starts_after r : starts ends_operand r -> starts after_field r.
Proof. destruct r; [done |]. by left. Qed.

(** ** Fields and constants *)

Lemma field_ref_head fs f : field_ref fs f -> exists t us, fs = t :: us /\ type t = LEX_T_ID.
Proof. intros H. destruct H; by eexists _, _. Qed.

(** Types that conflict, and equations between lists *)
Ltac conflict :=
  repeat match goal with
  | H : small_int _ _ |- _ => destruct H as (? & ? & ?)
  end;
  simplify_eq/=; try congruence.

Lemma field_ref_prefix fs f r fs' f' r' :
  field_ref fs f -> field_ref fs' f' -> (fs ++ r = fs' ++ r')%list ->
  starts after_field r -> starts after_field r' -> fs = fs' /\ f = f' /\ r = r'.
Proof.
  intros H H' E Hr Hr'.
  destruct H as [t id Ht Hid | t id o a n c Ht Hid Ho Ha Hc | t id o a n d b m c Ht Hid Ho Ha Hd Hb Hc];
    destruct H' as [t' id' Ht' Hid' | t' id' o' a' n' c' Ht' Hid' Ho' Ha' Hc' |
      t' id' o' a' n' d' b' m' c' Ht' Hid' Ho' Ha' Hd' Hb' Hc']; simplify_eq/=;
    try (by destruct (after_field_types _ Hr)); try (by destruct (after_field_types _ Hr'));
    conflict; split_and!; congruence.
Qed.

Section Unique.
Context (env : sets).

Definition is_constant (t : lex_type) : Prop :=
  t = LEX_T_INTEGER \/ t = LEX_T_MASKED_INTEGER \/ t = LEX_T_STRING \/ t = LEX_T_MACRO \/
  t = LEX_T_PORT_GROUP.

Lemma constant_type t ds : constant env t ds -> is_constant (type t).
Proof. unfold is_constant. intros H. destruct H; tauto. Qed.

Lemma constant_unique t ds ds' : constant env t ds -> constant env t ds' -> ds = ds'.
Proof. intros H H'. destruct H; destruct H'; congruence. Qed.

Lemma comma_prefix ts r ts' r' t u :
  comma ts -> comma ts' -> (ts ++ t :: r = ts' ++ u :: r')%list ->
  type t <> LEX_T_COMMA -> type u <> LEX_T_COMMA -> ts = ts' /\ t = u /\ r = r'.
Proof. intros H H' E Ht Hu. destruct H, H'; simplify_eq/=; done. Qed.

Lemma constants_head ts ds :
  constants env ts ds -> exists t us, ts = t :: us /\ is_constant (type t).
Proof.
  intros H. destruct H as [t ? ? ? H | t ? ? ? ? H]; eexists _, _; split; try done;
    by eapply constant_type.
Qed.

Lemma constant_not_comma t : is_constant t -> t <> LEX_T_COMMA /\ t <> LEX_T_RCURLY.
Proof. unfold is_constant. by intros [-> | [-> | [-> | [-> | ->]]]]. Qed.

Lemma constants_prefix ts ds :
  constants env ts ds -> forall ts' ds' r r', constants env ts' ds' ->
  (ts ++ r = ts' ++ r')%list -> ts = ts' /\ ds = ds' /\ r = r'.
Proof.
  induction 1 as [t ds cs close Ht Hcs Hclose | t ds cs us es Ht Hcs Hus IH];
    intros ts' ds' r r' H' E;
    destruct H' as [t' ds' cs' close' Ht' Hcs' Hclose' | t' ds' cs' us' es' Ht' Hcs' Hus'];
    cbn in E; rewrite <- !app_assoc in E; injection E as -> E;
    pose proof (constant_unique _ _ _ Ht Ht') as ->.
  - destruct (comma_prefix _ _ _ _ _ _ Hcs Hcs' E) as (-> & -> & ->); congruence || done.
  - destruct (constants_head _ _ Hus') as (u & vs & -> & [Hu Hu']%constant_not_comma).
    destruct (comma_prefix _ _ _ _ _ _ Hcs Hcs' E) as (_ & -> & _); congruence.
  - destruct (constants_head _ _ Hus) as (u & vs & -> & [Hu Hu']%constant_not_comma).
    destruct (comma_prefix _ _ _ _ _ _ Hcs Hcs' E) as (_ & <- & _); congruence.
  - pose proof (constants_head _ _ Hus) as (u & vs & -> & [Hu _]%constant_not_comma).
    pose proof (constants_head _ _ Hus') as (u' & vs' & -> & [Hu' _]%constant_not_comma).
    destruct (comma_prefix _ _ _ _ _ _ Hcs Hcs' E) as (-> & -> & E'); [done | done |].
    destruct (IH (u' :: vs') es' r r' Hus') as (-> & -> & ->); [exact (f_equal (cons u') E') | done].
Qed.

Lemma constant_set_prefix cs ds r cs' ds' r' :
  constant_set env cs ds -> constant_set env cs' ds' -> (cs ++ r = cs' ++ r')%list ->
  cs = cs' /\ ds = ds' /\ r = r'.
Proof.
  assert (forall t, is_constant (type t) -> type t = LEX_T_LCURLY -> False) as Hno.
  { intros t H E. rewrite E in H. unfold is_constant in H. intuition discriminate. }
  intros H H' E. destruct H as [t ds Ht | o ts ds Ho Hts], H' as [t' ds' Ht' | o' ts' ds' Ho' Hts'];
    injection E as -> E.
  - by rewrite (constant_unique _ _ _ Ht Ht').
  - destruct (Hno o'); [by eapply constant_type | done].
  - destruct (Hno t'); [by eapply constant_type | done].
  - destruct (constants_prefix _ _ Hts _ _ _ _ Hts' E) as (-> & -> & ->). done.
Qed.

Lemma constant_set_head cs ds :
  constant_set env cs ds ->
  exists t us, cs = t :: us /\ (is_constant (type t) \/ type t = LEX_T_LCURLY).
Proof.
  intros H. destruct H as [t ds Ht | o ts ds Ho Hts]; eexists _, _; (split; [done |]).
  - left. by eapply constant_type.
  - by right.
Qed.

(** ** Operands *)

(** What an operand starts with *)
Inductive kind := KParen | KName | KConstant.

Definition kind_of (t : lex_type) : option kind :=
  match t with
  | LEX_T_LPAREN => Some KParen
  | LEX_T_ID => Some KName
  | LEX_T_INTEGER | LEX_T_MASKED_INTEGER | LEX_T_STRING | LEX_T_MACRO | LEX_T_PORT_GROUP
  | LEX_T_LCURLY => Some KConstant
  | _ => None
  end.

Definition has_kind (ts : list lex_token) (k : kind) : Prop :=
  exists t us, ts = t :: us /\ kind_of (type t) = Some k.

Lemma kind_conflict ts r ts' r' k k' :
  has_kind ts k -> has_kind ts' k' -> k <> k' -> (ts ++ r)%list <> (ts' ++ r')%list.
Proof. intros (t & us & -> & H) (t' & us' & -> & H') Hk [= <- _]. congruence. Qed.

Lemma paren_kind o us : type o = LEX_T_LPAREN -> has_kind (o :: us) KParen.
Proof. intros H. exists o, us. by rewrite H. Qed.

Lemma name_kind t us : type t = LEX_T_ID -> has_kind (t :: us) KName.
Proof. intros H. exists t, us. by rewrite H. Qed.

Lemma field_kind fs f us : field_ref fs f -> has_kind (fs ++ us)%list KName.
Proof. intros (t & vs & -> & H)%field_ref_head. by apply name_kind. Qed.

Lemma field_kind_alone fs f : field_ref fs f -> has_kind fs KName.
Proof. intros H. rewrite <- (app_nil_r fs). by eapply field_kind. Qed.

Lemma constant_kind t ds us : constant env t ds -> has_kind (t :: us) KConstant.
Proof.
  intros H%constant_type. exists t, us. split; [done |].
  by destruct H as [-> | [-> | [-> | [-> | ->]]]].
Qed.

Lemma constants_kind cs ds us : constant_set env cs ds -> has_kind (cs ++ us)%list KConstant.
Proof.
  intros (t & vs & -> & H)%constant_set_head. exists t, (vs ++ us)%list. split; [done |].
  by destruct H as [[-> | [-> | [-> | [-> | ->]]]] | ->].
Qed.

#[local] Hint Resolve paren_kind name_kind field_kind field_kind_alone constant_kind
  constants_kind : kinds.

(** The kinds of two operands differ. *)
Ltac kinds_are k k' :=
  eapply (kind_conflict _ _ _ _ k k');
  [solve [eauto with kinds] | solve [eauto with kinds] | discriminate].

Ltac kinds :=
  exfalso; match goal with E : (_ ++ _)%list = (_ ++ _)%list |- _ =>
    revert E; first
      [ kinds_are KParen KName | kinds_are KParen KConstant | kinds_are KName KParen
      | kinds_are KName KConstant | kinds_are KConstant KParen | kinds_are KConstant KName ]
  end.

Lemma operator_unique o r r' : operator o r -> operator o r' -> r = r'.
Proof. unfold operator. congruence. Qed.

(** A field followed by an operator or the end *)
Lemma field_no_paren fs f rest t o us :
  field_ref fs f -> (fs ++ rest)%list = t :: o :: us -> type o = LEX_T_LPAREN ->
  starts after_field rest -> False.
Proof.
  intros H E Ho Hr. destruct H; simplify_eq/=; [| congruence | congruence].
  by destruct (after_field_types _ Hr).
Qed.

Lemma ends_operator o r us : starts ends_operand (o :: us) -> operator o r -> False.
Proof. intros H Ho. by eapply ends_no_operator. Qed.

(** [ts] is read the same way, whatever operand is tried. *)
Definition primary_unique (ts : list lex_token) (a : syntax) (atomic : bool) : Prop :=
  forall ts' a' atomic' r r', primary env ts' a' atomic' -> (ts ++ r = ts' ++ r')%list ->
  starts ends_operand r -> starts ends_operand r' ->
  ts = ts' /\ a = a' /\ atomic = atomic' /\ r = r'.

Lemma bit_unique fs f : field_ref fs f -> primary_unique fs (Bit f) true.
Proof.
  intros Hf ts' a' atomic' r r' H' E Hr Hr'.
  destruct H' as [| t o p port c Ht _ Ho _ _ _ | fs' f' Hf' | | fs' f' o rel cs ds Hf' Ho Hcs | |];
    try kinds.
  - exfalso. eapply field_no_paren; [exact Hf | exact E | done | by apply starts_after].
  - destruct (field_ref_prefix _ _ _ _ _ _ Hf Hf' E) as (-> & -> & ->);
      [by apply starts_after | by apply starts_after | done].
  - rewrite <- app_assoc in E.
    destruct (field_ref_prefix _ _ _ _ _ _ Hf Hf' E) as (_ & _ & ->);
      [by apply starts_after | by eapply operator_after |].
    exfalso. by eapply ends_operator.
Qed.

Lemma resident_unique t o p port c :
  type t = LEX_T_ID -> type o = LEX_T_LPAREN -> str p = Some port ->
  primary_unique [t; o; p; c] (Resident port) true.
Proof.
  intros Ht Ho Hp ts' a' atomic' r r' H' E Hr Hr'.
  destruct H' as [| t' o' p' port' c' _ _ _ _ Hp' _ | fs' f' Hf' | | fs' f' o' rel cs ds Hf' Ho' Hcs | |];
    try kinds.
  - simplify_eq/=. done.
  - exfalso. eapply field_no_paren; [exact Hf' | exact (eq_sym E) | done | by apply starts_after].
  - exfalso. rewrite <- (app_assoc fs') in E.
    eapply field_no_paren; [exact Hf' | exact (eq_sym E) | done | by eapply operator_after].
Qed.

Lemma compare_unique fs f o rel cs ds :
  field_ref fs f -> operator o rel -> constant_set env cs ds ->
  primary_unique (fs ++ o :: cs) (Compare f rel ds) false.
Proof.
  intros Hf Ho Hcs ts' a' atomic' r r' H' E Hr Hr'.
  destruct H' as [| t' o' p' port' c' _ _ Ho' _ _ _ | fs' f' Hf' | | fs' f' o' rel' cs' ds' Hf' Ho' Hcs' | |];
    try kinds; rewrite <- app_assoc in E.
  - exfalso. eapply field_no_paren; [exact Hf | exact E | done | by eapply operator_after].
  - destruct (field_ref_prefix _ _ _ _ _ _ Hf Hf' E) as (_ & _ & E');
      [by eapply operator_after | by apply starts_after |].
    exfalso. rewrite <- E' in Hr'. by eapply ends_operator.
  - rewrite <- app_assoc in E.
    destruct (field_ref_prefix _ _ _ _ _ _ Hf Hf' E) as (-> & -> & E');
      [by eapply operator_after | by eapply operator_after |]. injection E' as -> E'.
    destruct (constant_set_prefix _ _ _ _ _ _ Hcs Hcs' E') as (-> & -> & ->).
    by rewrite (operator_unique _ _ _ Ho Ho').
Qed.

Lemma literal_unique t v b :
  constant env t [DInteger v None true] -> v mod 2 ^ 64 = Z.b2z b ->
  primary_unique [t] (Literal b) true.
Proof.
  intros Ht Hv ts' a' atomic' r r' H' E Hr Hr'.
  pose proof (ExprGrammar.constant_set_one _ _ _ Ht) as Hone.
  destruct H' as [| | | t' v' b' Ht' Hv' | | cs' ds' o' rel' fs' f' Hcs' Ho' Hf' |
    cs1 d1 o1 r1 fs' f' o2 r2 cs2 d2 H1 Ho1 Hf' Ho2 H2]; try kinds.
  - injection E as -> ->. pose proof (constant_unique _ _ _ Ht Ht') as [= ->].
    rewrite Hv in Hv'. by destruct b, b'.
  - rewrite <- app_assoc in E. destruct (constant_set_prefix _ _ _ _ _ _ Hone Hcs' E) as (_ & _ & ->).
    exfalso. by eapply ends_operator.
  - rewrite <- app_assoc in E. destruct (constant_set_prefix _ _ _ _ _ _ Hone H1 E) as (_ & _ & ->).
    exfalso. by eapply ends_operator.
Qed.

Lemma mirrored_unique cs ds o rel fs f :
  constant_set env cs ds -> operator o rel -> field_ref fs f ->
  primary_unique (cs ++ o :: fs) (Compare f (ExprGrammar.mirror rel) ds) false.
Proof.
  intros Hcs Ho Hf ts' a' atomic' r r' H' E Hr Hr'.
  destruct H' as [| | | t' v' b' Ht' Hv' | | cs' ds' o' rel' fs' f' Hcs' Ho' Hf' |
    cs1 d1 o1 r1 fs' f' o2 r2 cs2 d2 H1 Ho1 Hf' Ho2 H2]; try kinds; rewrite <- app_assoc in E.
  - pose proof (ExprGrammar.constant_set_one _ _ _ Ht') as Hone.
    destruct (constant_set_prefix _ _ _ _ _ _ Hcs Hone E) as (_ & _ & <-).
    exfalso. by eapply ends_operator.
  - rewrite <- app_assoc in E.
    destruct (constant_set_prefix _ _ _ _ _ _ Hcs Hcs' E) as (-> & -> & E'). injection E' as -> E'.
    destruct (field_ref_prefix _ _ _ _ _ _ Hf Hf' E') as (-> & -> & ->);
      [by apply starts_after | by apply starts_after |].
    by rewrite (operator_unique _ _ _ Ho Ho').
  - rewrite <- app_assoc in E.
    destruct (constant_set_prefix _ _ _ _ _ _ Hcs H1 E) as (-> & -> & E'). injection E' as -> E'.
    change (fs ++ r = (fs' ++ o2 :: cs2) ++ r')%list in E'. rewrite <- app_assoc in E'.
    destruct (field_ref_prefix _ _ _ _ _ _ Hf Hf' E') as (_ & _ & ->);
      [by apply starts_after | by eapply operator_after |].
    exfalso. by eapply ends_operator.
Qed.

Lemma within_unique cs1 d1 o1 r1 fs f o2 r2 cs2 d2 :
  constant_set env cs1 d1 -> operator o1 r1 -> field_ref fs f -> operator o2 r2 ->
  constant_set env cs2 d2 ->
  primary_unique (cs1 ++ o1 :: fs ++ o2 :: cs2) (Within d1 r1 f r2 d2) false.
Proof.
  intros H1 Ho1 Hf Ho2 H2 ts' a' atomic' r r' H' E Hr Hr'.
  destruct H' as [| | | t' v' b' Ht' Hv' | | cs' ds' o' rel' fs' f' Hcs' Ho' Hf' |
    cs1' d1' o1' r1' fs' f' o2' r2' cs2' d2' H1' Ho1' Hf' Ho2' H2']; try kinds;
    rewrite <- app_assoc in E.
  - pose proof (ExprGrammar.constant_set_one _ _ _ Ht') as Hone.
    destruct (constant_set_prefix _ _ _ _ _ _ H1 Hone E) as (_ & _ & <-).
    exfalso. by eapply ends_operator.
  - rewrite <- app_assoc in E.
    destruct (constant_set_prefix _ _ _ _ _ _ H1 Hcs' E) as (-> & -> & E'). injection E' as -> E'.
    change ((fs ++ o2 :: cs2) ++ r = fs' ++ r')%list in E'. rewrite <- app_assoc in E'.
    destruct (field_ref_prefix _ _ _ _ _ _ Hf Hf' E') as (_ & _ & E2);
      [by eapply operator_after | by apply starts_after |].
    exfalso. rewrite <- E2 in Hr'. by eapply ends_operator.
  - rewrite <- app_assoc in E.
    destruct (constant_set_prefix _ _ _ _ _ _ H1 H1' E) as (-> & -> & E'). injection E' as -> E'.
    change ((fs ++ o2 :: cs2) ++ r = (fs' ++ o2' :: cs2') ++ r')%list in E'.
    rewrite <- !app_assoc in E'.
    destruct (field_ref_prefix _ _ _ _ _ _ Hf Hf' E') as (-> & -> & E2);
      [by eapply operator_after | by eapply operator_after |]. injection E2 as -> E2.
    destruct (constant_set_prefix _ _ _ _ _ _ H2 H2' E2) as (-> & -> & ->).
    by rewrite (operator_unique _ _ _ Ho1 Ho1'), (operator_unique _ _ _ Ho2 Ho2').
Qed.

Lemma primary_kind ts a atomic : primary env ts a atomic -> exists k, has_kind ts k.
Proof.
  intros H. destruct H; eexists; solve
    [by apply paren_kind | by apply name_kind | by eapply field_kind_alone | by eapply field_kind
    | by eapply constant_kind | by eapply constants_kind].
Qed.

(** ** Expressions *)

Definition logical (t : lex_type) : Prop := t = LEX_T_LOG_AND \/ t = LEX_T_LOG_OR.
Definition closes (t : lex_type) : Prop := t = LEX_T_RPAREN.

Lemma logical_ends t : logical t -> ends_operand t.
Proof. unfold logical, ends_operand. tauto. Qed.

Lemma closes_ends r : starts closes r -> starts ends_operand r.
Proof. destruct r; [done |]. by left. Qed.

Lemma closes_logical o us : starts closes (o :: us) -> logical (type o) -> False.
Proof. intros H [E | E]; cbn in H; unfold closes in H; congruence. Qed.

Definition operand_unique (ts : list lex_token) (a : syntax) : Prop :=
  forall ts' a' r r', operand env ts' a' -> (ts ++ r = ts' ++ r')%list ->
  starts ends_operand r -> starts ends_operand r' -> ts = ts' /\ a = a' /\ r = r'.

(** They are not a single operand, either. *)
Record operands_unique (op : lex_type) (ts : list lex_token) (l : list syntax) : Prop := {
  ou_unique op' ts' l' r r' : logical op' -> operands env op' ts' l' ->
    (ts ++ r = ts' ++ r')%list -> starts closes r -> starts closes r' ->
    op = op' /\ ts = ts' /\ l = l' /\ r = r';
  ou_several ts' b r r' : operand env ts' b -> (ts ++ r = ts' ++ r')%list ->
    starts closes r' -> False;
}.

Definition expression_unique (ts : list lex_token) (a : syntax) : Prop :=
  forall ts' a' r r', expression env ts' a' -> (ts ++ r = ts' ++ r')%list ->
  starts closes r -> starts closes r' -> ts = ts' /\ a = a' /\ r = r'.

Lemma paren_unique o ts a c :
  type o = LEX_T_LPAREN -> expression_unique ts a -> type c = LEX_T_RPAREN ->
  primary_unique (o :: ts ++ [c]) a true.
Proof.
  intros Ho Ha Hc ts' a' atomic' r r' H' E Hr Hr'.
  destruct H' as [o' us a' c' Ho' Ha' Hc' | | | | | |]; try kinds.
  injection E as -> E. rewrite <- !app_assoc in E.
  destruct (Ha _ _ _ _ Ha' E) as (-> & -> & [= -> ->]); [done | done | done].
Qed.

Lemma primary_operand ts a atomic :
  primary_unique ts a atomic -> (exists k, has_kind ts k) -> operand_unique ts a.
Proof.
  intros Ha (k & u & vs & -> & Hu) ts' a' r r' H' E Hr Hr'. destruct H' as [ts' a' atomic' H' | t us b Ht H'].
  - destruct (Ha _ _ _ _ _ H' E) as (<- & -> & _ & ->); done.
  - injection E as -> _. by rewrite Ht in Hu.
Qed.

Lemma not_unique t ts a :
  type t = LEX_T_LOG_NOT -> primary_unique ts a true -> operand_unique (t :: ts) (Not a).
Proof.
  intros Ht Ha ts' a' r r' H' E Hr Hr'. destruct H' as [ts' a' atomic' H' | u us b Hu H'].
  - destruct (primary_kind _ _ _ H') as (k & u & vs & -> & Hu).
    injection E as -> _. by rewrite Ht in Hu.
  - injection E as -> E. destruct (Ha _ _ _ _ _ H' E) as (-> & -> & _ & ->); done.
Qed.

(** An operand at the end is not the first of several. *)
Lemma operand_alone ts a op ts' l r r' :
  operand_unique ts a -> logical op -> operands env op ts' l -> (ts ++ r = ts' ++ r')%list ->
  starts closes r -> False.
Proof.
  intros Ha Hop H' E Hr.
  assert (exists us b o vs, ts' = (us ++ o :: vs)%list /\ operand env us b /\ type o = op)
    as (us & b & o & vs & -> & Hb & Ho) by (destruct H'; by eexists _, _, _, _).
  rewrite <- app_assoc in E.
  destruct (Ha _ _ _ _ Hb E) as (_ & _ & ->); [by apply closes_ends | |].
  - cbn. rewrite Ho. by apply logical_ends.
  - eapply closes_logical; [exact Hr |]. by rewrite Ho.
Qed.

Lemma not_alone ts a o us ts' b r r' :
  operand_unique ts a -> logical (type o) -> operand env ts' b ->
  ((ts ++ o :: us) ++ r = ts' ++ r')%list -> starts closes r' -> False.
Proof.
  intros Ha Ho Hb E Hr. rewrite <- app_assoc in E.
  destruct (Ha _ _ _ _ Hb E) as (_ & _ & E'); [by apply logical_ends | by apply closes_ends |].
  rewrite <- E' in Hr. by eapply closes_logical.
Qed.

Lemma two_unique op ts a o us b :
  logical op -> operand_unique ts a -> type o = op -> operand_unique us b ->
  operands_unique op (ts ++ o :: us) [a; b].
Proof.
  intros Hop Ha <- Hb. split; [| intros ? ? ? ?; exact (not_alone _ _ _ _ _ _ _ _ Ha Hop)].
  intros op' ts' l' r r' Hop' H' E Hr Hr'.
  destruct H' as [op' ts' a' o' us' b' Ha' Ho' Hb' | op' ts' a' o' us' l' Ha' Ho' Hl'];
    rewrite <- !app_assoc in E; subst op';
    (destruct (Ha _ _ _ _ Ha' E) as (-> & -> & E');
      [by apply logical_ends | by apply logical_ends |]); injection E' as -> E'.
  - destruct (Hb _ _ _ _ Hb' E') as (-> & -> & ->); [by apply closes_ends | by apply closes_ends | done].
  - exfalso. exact (operand_alone _ _ _ _ _ _ _ Hb Hop Hl' E' Hr).
Qed.

Lemma more_unique op ts a o us l :
  logical op -> operand_unique ts a -> type o = op -> operands_unique op us l ->
  operands_unique op (ts ++ o :: us) (a :: l).
Proof.
  intros Hop Ha <- [IH Hseveral]. split; [| intros ? ? ? ?; exact (not_alone _ _ _ _ _ _ _ _ Ha Hop)].
  intros op' ts' l' r r' Hop' H' E Hr Hr'.
  destruct H' as [op' ts' a' o' us' b' Ha' Ho' Hb' | op' ts' a' o' us' l' Ha' Ho' Hl'];
    rewrite <- !app_assoc in E; subst op';
    (destruct (Ha _ _ _ _ Ha' E) as (-> & -> & E');
      [by apply logical_ends | by apply logical_ends |]); injection E' as -> E'.
  - exfalso. by eapply Hseveral.
  - destruct (IH _ _ _ _ _ Hop' Hl' E' Hr Hr') as (_ & -> & -> & ->). done.
Qed.

(** An expression of several operands *)
Definition gathered (op : lex_type) (l : list syntax) : syntax :=
  if bool_decide (op = LEX_T_LOG_AND) then All l else Any l.

Lemma expression_cases ts a :
  expression env ts a ->
  operand env ts a \/ exists op l, logical op /\ operands env op ts l /\ a = gathered op l.
Proof.
  intros H. destruct H as [ts a H | ts l H | ts l H]; [by left | |]; right.
  - exists LEX_T_LOG_AND, l. split; [by left | done].
  - exists LEX_T_LOG_OR, l. split; [by right | done].
Qed.

Lemma one_unique ts a : operand_unique ts a -> expression_unique ts a.
Proof.
  intros Ha ts' a' r r' [H | (op & l & Hop & Hl & ->)]%expression_cases E Hr Hr'.
  - apply Ha; [done | done | by apply closes_ends | by apply closes_ends].
  - exfalso. by eapply operand_alone.
Qed.

Lemma several_unique op ts l :
  logical op -> operands_unique op ts l -> expression_unique ts (gathered op l).
Proof.
  intros Hop [Hu Hs] ts' a' r r' [H | (op' & l' & Hop' & Hl' & ->)]%expression_cases E Hr Hr'.
  - exfalso. by eapply Hs.
  - destruct (Hu _ _ _ _ _ Hop' Hl' E Hr Hr') as (-> & -> & -> & ->). done.
Qed.

Scheme primary_mut := Minimality for ExprGrammar.primary Sort Prop
  with operand_mut := Minimality for ExprGrammar.operand Sort Prop
  with operands_mut := Minimality for ExprGrammar.operands Sort Prop
  with expression_mut := Minimality for ExprGrammar.expression Sort Prop.

(** The tokens are those of one expression only. *)
Lemma unambiguous ts a : expression env ts a -> expression_unique ts a.
Proof.
  apply (expression_mut env
    (fun ts a atomic => primary_unique ts a atomic /\ exists k, has_kind ts k)
    operand_unique
    (fun op ts l => logical op -> operands_unique op ts l)
    expression_unique).
  - intros o us b c Ho _ Hb Hc. split; [by apply paren_unique |]. by eexists; apply paren_kind.
  - intros t o p port c Ht Hid Ho Hp Hport Hc. split; [by apply resident_unique |].
    by eexists; apply name_kind.
  - intros fs f Hf. split; [by apply bit_unique |]. by eexists; eapply field_kind_alone.
  - intros t v b Ht Hv. split; [by eapply literal_unique |]. by eexists; eapply constant_kind.
  - intros fs f o rel cs ds Hf Ho Hcs. split; [by apply compare_unique |].
    by eexists; eapply field_kind.
  - intros cs ds o rel fs f Hcs Ho Hf. split; [by apply mirrored_unique |].
    by eexists; eapply constants_kind.
  - intros cs1 d1 o1 r1 fs f o2 r2 cs2 d2 H1 Ho1 Hf Ho2 H2. split; [by apply within_unique |].
    by eexists; eapply constants_kind.
  - intros us b atomic _ [Hb Hk]. by eapply primary_operand.
  - intros t us b Ht _ [Hb _]. by apply not_unique.
  - intros op us b o vs c _ Hb Ho _ Hc Hop. by apply two_unique.
  - intros op us b o vs l _ Hb Ho _ Hl Hop. apply more_unique; auto.
  - intros us b _. apply one_unique.
  - intros us l _ Hl. apply (several_unique LEX_T_LOG_AND); [by left | apply Hl; by left].
  - intros us l _ Hl. apply (several_unique LEX_T_LOG_OR); [by right | apply Hl; by right].
Qed.

Lemma expression_functional ts a a' : expression env ts a -> expression env ts a' -> a = a'.
Proof.
  intros H H'. by destruct (unambiguous _ _ H ts a' [] [] H') as (_ & -> & _).
Qed.
End Unique.

(** ** Meanings *)

Section Meanings.
Context {HI : Inet} (tab : ExprParse.symtab).
Context (flow : expr_symbol -> Z) (lookup_port : string -> option Z).
Context (is_chassis_resident : string -> bool).

Lemma compared_ext t1 t2 info f neg r d :
  (forall text, ExprParse.predicate info = Some text -> t1 text = t2 text) ->
  ExprGrammar.compared flow lookup_port t1 info f neg r d =
    ExprGrammar.compared flow lookup_port t2 info f neg r d.
Proof.
  intros H. unfold ExprGrammar.compared, ExprGrammar.is_predicate.
  destruct d as [v m dec | s]; [| done]. destruct (ExprParse.parent info); [done |].
  destruct (ExprParse.predicate info) as [text |]; [| done]. by rewrite H.
Qed.

Lemma atom_ext t1 t2 f neg r d :
  (forall t, ExprGrammar.symbol_text tab (ExprGrammar.f_name f) t -> t1 t = t2 t) ->
  atom tab flow lookup_port t1 f neg r d = atom tab flow lookup_port t2 f neg r d.
Proof.
  intros H. unfold atom. destruct (tab !! ExprGrammar.f_name f) as [info |] eqn:Hi; [| done].
  f_equal.
  - destruct (ExprParse.prereqs info) as [text |] eqn:Hp; [| done]. apply H. exists info. auto.
  - apply compared_ext. intros text Hp. apply H. exists info. auto.
Qed.

Lemma forallb_ext_in {A} (f g : A -> bool) l :
  Forall (fun x => f x = g x) l -> forallb f l = forallb g l.
Proof. induction 1 as [| x l H _ IH]; cbn; congruence. Qed.

Lemma existsb_ext_in {A} (f g : A -> bool) l :
  Forall (fun x => f x = g x) l -> existsb f l = existsb g l.
Proof. induction 1 as [| x l H _ IH]; cbn; congruence. Qed.

Definition agree (t1 t2 : string -> bool) (ids : list string) : Prop :=
  Forall (fun id => forall t, ExprGrammar.symbol_text tab id t -> t1 t = t2 t) ids.

Lemma compare_ext t1 t2 neg f r ds :
  agree t1 t2 (map (fun _ => ExprGrammar.f_name f) ds) ->
  ExprGrammar.compare tab flow lookup_port t1 neg f r ds =
    ExprGrammar.compare tab flow lookup_port t2 neg f r ds.
Proof.
  intros H. assert (Forall (fun d => atom tab flow lookup_port t1 f neg r d =
    atom tab flow lookup_port t2 f neg r d) ds) as Ha.
  { unfold agree in H. rewrite Forall_map in H. eapply Forall_impl; [exact H |].
    intros d. apply atom_ext. }
  unfold ExprGrammar.compare. destruct (xorb _ _);
    [by apply existsb_ext_in | by apply forallb_ext_in].
Qed.

(** Induction over expressions with lists of them *)
Section Induction.
Context (P : syntax -> Prop).
Context (Hcompare : forall f r ds, P (Compare f r ds)).
Context (Hwithin : forall d1 r1 f r2 d2, P (Within d1 r1 f r2 d2)).
Context (Hbit : forall f, P (Bit f)) (Hliteral : forall b, P (Literal b)).
Context (Hresident : forall port, P (Resident port)).
Context (Hnot : forall a, P a -> P (Not a)).
Context (Hall : forall l, Forall P l -> P (All l)) (Hany : forall l, Forall P l -> P (Any l)).

Fixpoint syntax_induction (a : syntax) : P a :=
  let fix go (l : list syntax) : Forall P l :=
    match l with
    | [] => Forall_nil_2 _
    | a :: l => Forall_cons_2 _ _ _ (syntax_induction a) (go l)
    end in
  match a with
  | Compare f r ds => Hcompare f r ds
  | Within d1 r1 f r2 d2 => Hwithin d1 r1 f r2 d2
  | Bit f => Hbit f
  | Literal b => Hliteral b
  | Resident port => Hresident port
  | Not a => Hnot a (syntax_induction a)
  | All l => Hall l (go l)
  | Any l => Hany l (go l)
  end.
End Induction.

Lemma agree_list t1 t2 l :
  agree t1 t2 (concat (map names l)) -> Forall (fun a => agree t1 t2 (names a)) l.
Proof.
  induction l as [| a l IH]; [done |]. cbn. unfold agree. rewrite Forall_app.
  intros [H1 H2]. constructor; auto.
Qed.

(** The texts of other symbols make no difference. *)
Lemma sem_ext t1 t2 a :
  agree t1 t2 (names a) -> forall neg,
  sem tab flow lookup_port is_chassis_resident t1 neg a =
    sem tab flow lookup_port is_chassis_resident t2 neg a.
Proof.
  induction a as [f r ds | d1 r1 f r2 d2 | f | b | port | a IH | l IH | l IH]
    using syntax_induction; cbn [names sem]; intros H neg.
  - by apply compare_ext.
  - unfold agree in H. rewrite map_app, Forall_app in H. destruct H as [H1 H2].
    by rewrite (compare_ext t1 t2 neg f _ d1), (compare_ext t1 t2 neg f r2 d2).
  - apply atom_ext. by inversion H.
  - done.
  - done.
  - by apply IH.
  - apply agree_list in H. assert (Forall (fun a =>
      sem tab flow lookup_port is_chassis_resident t1 neg a =
      sem tab flow lookup_port is_chassis_resident t2 neg a) l) as Ha.
    { rewrite Forall_forall in *. auto. }
    destruct neg; [by apply existsb_ext_in | by apply forallb_ext_in].
  - apply agree_list in H. assert (Forall (fun a =>
      sem tab flow lookup_port is_chassis_resident t1 neg a =
      sem tab flow lookup_port is_chassis_resident t2 neg a) l) as Ha.
    { rewrite Forall_forall in *. auto. }
    destruct neg; [by apply forallb_ext_in | by apply existsb_ext_in].
Qed.

(** A text has at most one meaning. *)
Lemma means_unique depth env text b b' :
  means tab flow lookup_port is_chassis_resident depth env text b ->
  means tab flow lookup_port is_chassis_resident depth env text b' -> b = b'.
Proof.
  revert env text b b'. induction depth as [| depth IH]; intros env text b b'; [done |].
  intros (ts & a & t1 & Hts & Ha & H1 & ->) (ts' & a' & t2 & Hts' & Ha' & H2 & ->).
  rewrite Hts in Hts'. injection Hts' as <-.
  pose proof (expression_functional _ _ _ _ Ha Ha') as <-.
  apply sem_ext. apply Forall_forall. intros id Hid t Ht. exact (IH _ _ _ _ (H1 id t Hid Ht) (H2 id t Hid Ht)).
Qed.
End Meanings.
End ExprGrammarUnique.
