(* ===== verification/LogicalFieldsProofs.v ===== *)
(** * Matches of logical flows, from text to normal form

    The symbol tables of OVN can be annotated, so that every match that parses goes
    through all passes and ends as an expression from which flows are generated, with
    the meaning that its text has. *)

From stdpp Require Import base option list strings gmap.
From Stdlib Require Import ZArith Lia.
From S2P Require Import Prelude Strings CString Binary64 OvsJson OvnLex OvnLexNumbers.
From S2P Require Import OvnLexAddresses OvnLexInet Subvalue Expr ExprLemmas ExprSimplify ExprProofs.
From S2P Require Import ExprParse ExprParseProofs ExprAnnotate ExprMeaning ExprAnnotateProofs.
From S2P Require Import ExprCertificate ExprGrammar ExprGrammarTrees ExprGrammarProofs.
From S2P Require Import ExprGrammarUnique LogicalFields ExprSupersets.

Local Open Scope Z_scope.
Local Open Scope string_scope.

Module LogicalFieldsProofs.
Import OvnLex OvnLexNumbers OvnLexAddresses OvnLexInet Subvalue Expr.
Import ExprParse ExprParseProofs ExprAnnotate ExprMeaning ExprAnnotateProofs.
Import ExprCertificate LogicalFields.
Import ExprGrammar(Sets, means).
Import ExprGrammarTrees(names_in).
Import ExprGrammarProofs(below, parse_string_means).
Import ExprGrammarUnique(means_unique).

(** ** The tables of OVN *)

(** The symbols with texts, by how deep these are nested; others have rank 1.  In the
    table for access control lists the symbols that are replaced have the ranks they
    have in the other one. *)
Definition ovn_ranks : list (nat * list string) :=
  [(2%nat, ["ct.new"; "ct.est"; "ct.rel"; "ct.rpl"; "ct.inv"; "ct.snat"; "ct.dnat"; "ct_proto";
            "eth.bcast"; "eth.mcastv6"; "vlan.present"; "ip4"; "ip6"; "arp"; "rarp"]);
   (3%nat, ["vlan.pcp"; "vlan.vid"; "ip"; "ip4.src"; "ip4.dst"; "ip6.src"; "ip6.dst"; "ip6.label";
            "arp.op"; "arp.spa"; "arp.sha"; "arp.tpa"; "arp.tha";
            "rarp.op"; "rarp.spa"; "rarp.sha"; "rarp.tpa"; "rarp.tha"]);
   (4%nat, ["ip.proto"; "ip.dscp"; "ip.ecn"; "ip.ttl"; "ip.frag"; "ip4.src_mcast"; "ip4.mcast";
            "ip6.mcast"; "ip6.mcast_rsvd"; "ip6.mcast_all_nodes"; "ip6.mcast_all_rtrs";
            "ip6.mcast_sol_node"]);
   (5%nat, ["icmp4"; "icmp6"; "igmp"; "ip.is_frag"; "ip.later_frag"; "ip6.mcast_flood"; "tcp"; "udp";
            "sctp"]);
   (6%nat, ["icmp"; "icmp4.type"; "icmp4.code"; "icmp6.type"; "icmp6.code"; "ip.first_frag";
            "tcp.src"; "tcp.dst"; "tcp.flags"; "udp.src"; "udp.dst"; "sctp.src"; "sctp.dst"]);
   (7%nat, ["nd"; "nd_ns"; "nd_ns_mcast"; "nd_na"; "nd_rs"; "nd_ra"; "mldv1"; "mldv2"]);
   (8%nat, ["nd.target"; "nd.sll"; "nd.tll"])].

Definition is_one_of (l : list string) (id : string) : bool := existsb (String.eqb id) l.

Definition ovn_rank (id : string) : nat :=
  match List.find (fun '(_, l) => is_one_of l id) ovn_ranks with
  | Some (r, _) => r
  | None => 1
  end.

(** The fields that only OVN's actions know *)
Definition is_ovn_field : string -> bool := is_one_of ["icmp4.frag_mtu"; "icmp6.frag_mtu"].

Definition ovn_certificate : certificate :=
  {| rank := ovn_rank;
     good := fun id => negb (is_ovn_field id);
     pure := fun id => negb (is_one_of ["inport"; "outport"; "remote_outport"] id) |}.

Lemma ovn_rank_bound id : (ovn_rank id < 9)%nat.
Proof.
  unfold ovn_rank. destruct (List.find _ ovn_ranks) as [[r l] |] eqn:E; [| lia].
  apply List.find_some in E as [E _].
  repeat (destruct E as [[= <- _] | E]; [lia |]). destruct E.
Qed.

Definition ovn_symtab : symtab := default ∅ ovn_init_symtab.
Definition ovn_acl_ct_symtab : symtab := default ∅ ovn_init_acl_ct_symtab.

(** A match that the tables are tried with *)
Definition example_match : string :=
  "tcp.dst > 1000 && (ip4.mcast || ip6.dst == ff02::1) && !flags.loopback".

(** The table has [n] symbols, is certified, and parses the example. *)
Definition built_and_checked (o : option symtab) (n : nat) : bool :=
  match o with
  | Some t =>
      (size t =? n)%nat && table_check t ovn_certificate &&
      text_check t (fun id => negb (is_ovn_field id)) example_match
  | None => false
  end.

Lemma ovn_symtab_checked : built_and_checked ovn_init_symtab 141 = true.
Proof. vm_compute. reflexivity. Qed.

Lemma ovn_acl_ct_symtab_checked : built_and_checked ovn_init_acl_ct_symtab 142 = true.
Proof. vm_compute. reflexivity. Qed.

Lemma built_and_checked_ok o n :
  built_and_checked o n = true ->
  exists t, o = Some t /\ size t = n /\ symbols_ok (Some t) /\ certified t ovn_certificate /\
    text_names t (fun id => is_ovn_field id = false) example_match.
Proof.
  destruct o as [t |]; [| done].
  intros [[Hs%Nat.eqb_eq H]%andb_true_iff He]%andb_true_iff. exists t.
  apply table_check_ok in H as [H1 H2]. split_and!; [done | done | done | done |].
  eapply text_check_ok; [| done]. intros id. by rewrite negb_true_iff.
Qed.

(** The table that a match is parsed with *)
Definition match_symtab (acl_ct : bool) : symtab :=
  if acl_ct then ovn_acl_ct_symtab else ovn_symtab.

Lemma match_symtab_ok acl_ct :
  symbols_ok (Some (match_symtab acl_ct)) /\ certified (match_symtab acl_ct) ovn_certificate /\
  text_names (match_symtab acl_ct) (fun id => is_ovn_field id = false) example_match.
Proof.
  unfold match_symtab, ovn_acl_ct_symtab, ovn_symtab.
  destruct (built_and_checked_ok _ _ ovn_symtab_checked) as (t & -> & _ & Ht).
  destruct (built_and_checked_ok _ _ ovn_acl_ct_symtab_checked) as (t' & -> & _ & Ht').
  by destruct acl_ct.
Qed.

#[local] Opaque match_symtab.

(** ** Properties *)

(** C1: every match of a logical flow, from its text to the expression that flows are
    generated from.  With either symbol table of OVN, [expr_parse_string] returns an
    expression or an error for every text.  An expression that does not use the fields
    of actions ([icmp4.frag_mtu] and [icmp6.frag_mtu]), and no relational operator with
    an address set that has masks, is annotated by a recursion that ends, then
    simplified, has its conditions evaluated and is normalized; no assertion fails on
    the way.  The result is normalized and honours the invariants of expr.h, and on
    every microflow it evaluates to the one value that the text means: [means] is defined
    by the grammar of the language and the values of its symbols, without the parser
    and the passes.  The constants of address sets have no bits outside of their masks,
    different ports have different numbers, and addresses are read as [text_inet]
    reads them. *)
Theorem ovn_match_correct `{!Qsort} acl_ct addr_sets port_groups dp_id as_refs pg_refs
    is_chassis_resident lookup_port text :
  sets_ok addr_sets ->
  (forall a b p, lookup_port a = Some p -> lookup_port b = Some p -> a = b) ->
  let tab := match_symtab acl_ct in
  exists e err ctx,
    expr_parse_string (Some tab) addr_sets port_groups dp_id text as_refs pg_refs
    = Some (e, err, ctx) /\
    match e with
    | None => is_Some err
    | Some e =>
        err = None /\
        (all_cmps (fun c => is_ovn_field (name (symbol c)) = false) e -> ranges_only addr_sets e ->
         exists fuel e1 e2 e3,
           (forall n, (fuel <= n)%nat -> expr_annotate tab n e = Some (inr e1)) /\
           expr_simplify e1 = Some e2 /\
           expr_normalize (expr_evaluate_condition is_chassis_resident e2) = Some e3 /\
           expr_is_normalized e3 = true /\ expr_honors_invariants e3 = true /\
           forall flow b,
             means tab flow lookup_port is_chassis_resident 10
               (Sets addr_sets port_groups dp_id) text b <->
             expr_evaluate flow lookup_port e3 = b)
    end.
Proof.
  intros Hsets Hinj tab. destruct (match_symtab_ok acl_ct) as (Hsym & Hcert & _).
  destruct (parse_string_ok (Some tab) addr_sets port_groups dp_id Hsym Hsets text as_refs pg_refs)
    as (e & err & ctx & Hparse & He).
  exists e, err, ctx. split; [exact Hparse |]. destruct e as [e |]; [| done].
  destruct He as [-> Hp]. split; [done |]. intros Hovn Hranges.
  assert (names_in (below ovn_certificate 9) e) as Hbelow.
  { revert Hovn. apply all_cmps_impl. intros c Hc. split; [| apply ovn_rank_bound].
    unfold ovn_certificate. cbn [good]. by rewrite Hc. }
  destruct (annotate_parsed tab ovn_certificate Hsym Hcert addr_sets 9 e Hp Hranges)
    as (fuel & e1 & Ha & Hsf & _ & Hd); [exact Hbelow |].
  destruct (pipeline_spec is_chassis_resident lookup_port e1 Hsf Hinj)
    as (e2 & e3 & H2 & H3 & Hn & Hh & Hev).
  exists fuel, e1, e2, e3. split_and!; [exact Ha | done | done | done | done |].
  intros flow b. rewrite Hev, Hd.
  pose proof (parse_string_means tab ovn_certificate Hsym Hcert flow lookup_port
    is_chassis_resident 9 _ _ _ _ _ _ _ _ Hparse Hbelow) as Hmeans.
  split; [exact (means_unique _ _ _ _ _ _ _ _ _ Hmeans) | by intros <-].
Qed.

Lemma ovn_match_correct_witness :
  let tab := match_symtab true in
  exists e ctx,
    expr_parse_string (Some tab) None None 0 example_match None None = Some (Some e, None, ctx) /\
    exists fuel e1 e2 e3,
      (forall n, (fuel <= n)%nat -> expr_annotate tab n e = Some (inr e1)) /\
      expr_simplify e1 = Some e2 /\
      @expr_normalize insertion_qsort (expr_evaluate_condition (fun _ => true) e2) = Some e3 /\
      expr_is_normalized e3 = true /\ expr_honors_invariants e3 = true /\
      forall flow b,
        means tab flow example_lookup (fun _ => true) 10 (Sets None None 0) example_match b <->
        expr_evaluate flow example_lookup e3 = b.
Proof.
  intros tab. destruct (match_symtab_ok true) as (_ & _ & e & He & Hnames).
  destruct (parse_in_string _ _ _ He) as [ctx E].
  destruct (@ovn_match_correct insertion_qsort true None None 0 None None (fun _ => true)
    example_lookup example_match ltac:(by intros ?) example_lookup_inj)
    as (o & err & ctx' & Hparse & H).
  rewrite E in Hparse. injection Hparse as <- <- <-. destruct H as [_ H].
  exists e, ctx. split; [exact E |]. apply H; [exact Hnames | by left; intros ?].
Defined.

End LogicalFieldsProofs.
