(* ===== verification/ExprExamples.v ===== *)
(** * What the expression parser and annotation do at their edges

    Evaluations of the model with small symbol tables, where the code differs from
    what its comments and the documentation say. *)

From stdpp Require Import base option list strings gmap.
From Stdlib Require Import ZArith Lia.
From S2P Require Import Prelude Strings CString Binary64 OvsJson OvnLex OvnLexInet.
From S2P Require Import Subvalue Expr ExprParse ExprAnnotate LogicalFields.

Local Open Scope Z_scope.
Local Open Scope string_scope.

Module ExprExamples.
Import OvnLex OvnLexInet Subvalue Expr ExprParse ExprAnnotate LogicalFields.

Definition example_symtab : symtab :=
  default ∅ (perform
    [field "eth.dst" MFF_ETH_DST None false;
     field "eth.type" MFF_ETH_TYPE None true;
     subfield "eth.mcast" None "eth.dst[40]";
     predicate "ip4" "eth.type == 0x800";
     field "ip4.dst" MFF_IPV4_DST (Some "ip4") false;
     predicate "ip4.mcast" "eth.mcast && ip4.dst[28..31] == 0xe";
     subfield "eth.dst_low" None "eth.dst[0..15]";
     subfield "eth.dst_byte" None "eth.dst_low[0..7]";
     field "ip.ttl" MFF_IP_TTL (Some "ip.ttl == 1 || ip.ttl == 2") false;
     field "ip.dscp" MFF_IP_DSCP_SHIFTED (Some "ip.dscp == 1") false;
     ovn_field "icmp4.frag_mtu" OVN_ICMP4_FRAG_MTU] ∅).

(** The expression of a text, with address sets, and annotated *)
Definition parsed_to (sets : gmap string expr_constant_set) (text : string) : option expr :=
  '(e, _, _) ← expr_parse_string (Some example_symtab) (Some sets) None 0 text None None; e.

Definition annotated_to (sets : gmap string expr_constant_set) (text : string) : option expr :=
  e ← parsed_to sets text;
  match expr_annotate example_symtab 20 e with Some (inr e) => Some e | _ => None end.

(** The comparisons of an expression: the symbol, the operator, value and mask *)
Fixpoint comparisons (e : expr) : list (string * expr_relop * Z * Z) :=
  match e with
  | ECmp _ c => [(name (symbol c), relop c, value c, mask c)]
  | EAndOr _ _ subs => flat_map comparisons subs
  | EBoolean _ | ECondition _ _ => []
  end.

(** A constant that is wider than the bits it is compared with is accepted, if it is
    not wider than the field, and loses its high bits. *)
Lemma subfield_constant_truncated :
  parsed_to ∅ "eth.dst[0..7] == 0x1ff" = parsed_to ∅ "eth.dst[0..7] == 0xff" /\
  comparisons <$> parsed_to ∅ "eth.dst[0..7] == 0x1ff" = Some [("eth.dst", EXPR_R_EQ, 255, 255)].
Proof. vm_compute. done. Qed.

(** Only the first constant of an address set is checked for a mask. *)
Definition masked_sets : gmap string expr_constant_set :=
  {["as" := ConstantSet
     [Constant None EmptyString 167772161 0 false LEX_F_IPV4;
      Constant None EmptyString 167772160 4278190335 true LEX_F_IPV4] EXPR_C_INTEGER true]}.

Lemma masked_address_set_assertion :
  match annotated_to masked_sets "ip4.dst > $as" with
  | Some e => expr_simplify e = None
  | None => False
  end.
Proof. vm_compute. done. Qed.

(** A negated predicate tests a nominal field for inequality. *)
Lemma negated_predicate_nominal :
  comparisons <$> annotated_to ∅ "!ip4.mcast" =
  Some [("eth.dst", EXPR_R_EQ, 0, 1099511627776);
        ("ip4.dst", EXPR_R_NE, 3758096384, 4026531840);
        ("eth.type", EXPR_R_NE, 2048, 65535)].
Proof. vm_compute. done. Qed.

(** A subfield of a subfield is replaced by the latter, which is not a field. *)
Lemma nested_subfield_left :
  comparisons <$> annotated_to ∅ "eth.dst_byte == 1" = Some [("eth.dst_low", EXPR_R_EQ, 1, 255)] /\
  parent <$> (example_symtab !! "eth.dst_low") = Some (sym <$> (example_symtab !! "eth.dst")).
Proof. vm_compute. done. Qed.

(** A field of OVN's actions, which the switch does not have, passes as a match. *)
Lemma ovn_field_matched :
  comparisons <$> annotated_to ∅ "icmp4.frag_mtu == 1" =
    Some [("icmp4.frag_mtu", EXPR_R_EQ, 1, 65535)] /\
  (n_bytes ∘ sym) <$> (example_symtab !! "icmp4.frag_mtu") = Some 0.
Proof. vm_compute. done. Qed.

(** ** Prerequisites that name their own symbol *)

Definition ttl_text : string := "ip.ttl == 1 || ip.ttl == 2".
Definition ttl_expr : expr := default (EBoolean false) (parsed_to ∅ ttl_text).

Lemma ttl_facts :
  parse_in example_symtab ttl_text = Some (Some ttl_expr, None) /\
  (exists a subs s, ttl_expr = EAndOr OR a subs /\
     expr_get_unique_symbol ttl_expr = Some s /\
     prereqs <$> info_of example_symtab s = Some (Some ttl_text)).
Proof. split; [by vm_compute |]. vm_compute. by eexists _, _, _. Qed.

(** C40: The recursion of annotation does not end: the symbol of all comparisons is not
    put into [nesting] when its prerequisites are added once for all of them. *)
Theorem annotation_recurses fuel nesting :
  expr_annotate__ example_symtab fuel true nesting ttl_expr = None.
Proof.
  destruct ttl_facts as [Hparse (a & subs & s & He & Hu & Hp)].
  revert Hparse He Hu Hp. generalize ttl_expr, example_symtab. intros e tab Hparse He Hu Hp.
  revert nesting. induction fuel as [| fuel IH]; intros nesting; [done |].
  cbn [expr_annotate__]. rewrite He at 1. unfold annotate_andor. rewrite Hu.
  unfold expr_append_prereqs. destruct (info_of tab s) as [info |]; [cbn in Hp | done].
  injection Hp as Hp. cbn [mbind option_bind]. unfold with_prereqs, parse_and_annotate.
  rewrite Hp, Hparse. cbn [mbind option_bind]. by rewrite IH.
Qed.

(** If a prerequisite is one comparison, its symbol is in [nesting]. *)
Lemma annotation_recursion_seen :
  (e ← parsed_to ∅ "ip.dscp == 2"; expr_annotate example_symtab 20 e) =
  Some (inl (annotation_error "ip.dscp == 1" "Recursive expansion of symbol `ip.dscp'.")).
Proof. vm_compute. done. Qed.

End ExprExamples.
