(* ===== verification/Python.v ===== *)
(** * The Python language as the services of src/ovn_api use it

    Exceptions and the state-and-exception monad in which the services are
    written, the string methods they call (on ASCII strings), [str] and [repr]
    of the values that database rows hold, and UUIDs. *)

From stdpp Require Import base option list strings.
From Stdlib Require Import ZArith Lia Ascii DecimalString.
From S2P Require Import Prelude Strings.

Local Open Scope Z_scope.

(** ** Exceptions

    [HTTPException] of fastapi is the exception that the services handle;
    [Exception name msg] is any other one. *)

Inductive exn :=
| HTTPException (status_code : Z) (detail : string)
| Exception (name msg : string).

Abbreviation result := (sum exn).

#[global] Instance result_ret : MRet result := fun A x => inr x.
#[global] Instance result_bind : MBind result := fun A B f m =>
  match m with inl e => inl e | inr x => f x end.

(** A computation over the state [S]; the state survives an exception. *)
Definition M (S A : Type) : Type := S -> result A * S.

#[global] Instance M_ret S : MRet (M S) := fun A x s => (inr x, s).
#[global] Instance M_bind S : MBind (M S) := fun A B f m s =>
  match m s with
  | (inl e, s') => (inl e, s')
  | (inr x, s') => f x s'
  end.

Section Monad.
Context {S : Type}.

Definition raise {A} (e : exn) : M S A := fun s => (inl e, s).
Definition lift {A} (r : result A) : M S A := fun s => (r, s).
Definition get : M S S := fun s => (inr s, s).
Definition modify (f : S -> S) : M S unit := fun s => (inr tt, f s).

(** [try: m except HTTPException as exc: h(exc.detail)] *)
Definition except_http {A} (m : M S A) (h : string -> M S A) : M S A := fun s =>
  match m s with
  | (inl (HTTPException _ detail), s') => h detail s'
  | r => r
  end.
End Monad.

(** What a computation does to the state, whether it raises or not: a preorder
    that relates the states before and after it *)
Section Guarantee.
Context {S : Type} (R : relation S) `{!PreOrder R}.

Definition guarantees {A} (m : M S A) : Prop := forall s, R s (m s).2.

Lemma guarantees_ret {A} (x : A) : guarantees (mret x).
Proof. by intros s. Qed.

Lemma guarantees_raise {A} e : guarantees (raise (A:=A) e).
Proof. by intros s. Qed.

Lemma guarantees_lift {A} (r : result A) : guarantees (lift r).
Proof. by intros s. Qed.

Lemma guarantees_bind {A B} (m : M S A) (k : A -> M S B) :
  guarantees m -> (forall x, guarantees (k x)) -> guarantees (m ≫= k).
Proof.
  intros Hm Hk s. unfold mbind, M_bind. specialize (Hm s).
  destruct (m s) as [[e | x] s']; simpl in *; [done |].
  etrans; [done | apply Hk].
Qed.

Lemma guarantees_except {A} (m : M S A) h :
  guarantees m -> (forall d, guarantees (h d)) -> guarantees (except_http m h).
Proof.
  intros Hm Hh s. unfold except_http. specialize (Hm s).
  destruct (m s) as [[[] | x] s']; simpl in *; try done.
  etrans; [done | apply Hh].
Qed.
End Guarantee.

Create HintDb guarantee discriminated.
#[export] Hint Constants Opaque : guarantee.
#[export] Hint Resolve guarantees_ret guarantees_raise guarantees_lift : guarantee.

(** Follows the structure of a computation. *)
Ltac guarantee :=
  repeat match goal with
  | |- guarantees _ (_ ≫= _) => apply guarantees_bind; [apply _ | | intros ?]
  | |- guarantees _ (except_http _ _) =>
      apply guarantees_except; [apply _ | | intros ?]
  | |- guarantees _ (match ?x with _ => _ end) => destruct x
  | |- guarantees _ _ => solve [eauto with guarantee typeclass_instances]
  end.

(** ** Strings *)

Definition is_space (c : Ascii.ascii) : bool :=
  let n := Ascii.N_of_ascii c in
  ((9 <=? n) && (n <=? 13) || (28 <=? n) && (n <=? 32))%N.

Definition lower_ascii (c : Ascii.ascii) : Ascii.ascii :=
  let n := Ascii.N_of_ascii c in
  if ((65 <=? n) && (n <=? 90))%N then Ascii.ascii_of_N (n + 32)%N else c.

Fixpoint py_lower (s : string) : string :=
  match s with
  | EmptyString => EmptyString
  | String c s => String (lower_ascii c) (py_lower s)
  end.

Fixpoint lstrip (s : string) : string :=
  match s with
  | EmptyString => EmptyString
  | String c s' => if is_space c then lstrip s' else s
  end.

(** [rstrip] keeps a character unless everything from it on is space. *)
Fixpoint rstrip (s : string) : string :=
  match s with
  | EmptyString => EmptyString
  | String c s' =>
      match rstrip s' with
      | EmptyString => if is_space c then EmptyString else String c EmptyString
      | r => String c r
      end
  end.

Definition py_strip (s : string) : string := rstrip (lstrip s).

Definition startswith (s prefix : string) : bool := String.prefix prefix s.

(** [pat in s] *)
Fixpoint py_in (pat s : string) : bool :=
  String.prefix pat s ||
  match s with EmptyString => false | String _ s' => py_in pat s' end.

(** [s.split(sep, 1)[0]] for a separator of one character *)
Fixpoint split_head (sep : Ascii.ascii) (s : string) : string :=
  match s with
  | EmptyString => EmptyString
  | String c s' =>
      if Ascii.eqb c sep then EmptyString else String c (split_head sep s')
  end.

Definition py_join (sep : string) (l : list string) : string :=
  String.concat sep l.

(** [s.splitlines()]: a carriage return and the line feed after it are one
    boundary. *)
Definition is_line_break (c : Ascii.ascii) : bool :=
  let n := Ascii.N_of_ascii c in
  ((10 <=? n) && (n <=? 13) || (28 <=? n) && (n <=? 30))%N.

Fixpoint splitlines_from (line : string) (s : string) : list string :=
  match s with
  | EmptyString =>
      match line with EmptyString => [] | _ => [line] end
  | String c s' =>
      if is_line_break c then
        line :: match c, s' with
                | "013"%char, String "010"%char s'' =>
                    splitlines_from EmptyString s''
                | _, _ => splitlines_from EmptyString s'
                end
      else splitlines_from (line +:+ String c EmptyString) s'
  end.
Definition splitlines (s : string) : list string := splitlines_from EmptyString s.

(** [int(s)] for decimal digits with an optional minus sign *)
Definition py_int (s : string) : result Z :=
  match NilZero.int_of_string s with
  | Some i => mret (Z.of_int i)
  | None => inl (Exception "ValueError" "invalid literal for int()")
  end.

Definition hex_digit (d : Z) : Ascii.ascii :=
  Ascii.ascii_of_N (Z.to_N (if d <? 10 then 48 + d else 87 + d)).

(** The [n] lowest hexadecimal digits of [z] *)
Fixpoint hex_digits (n : nat) (z : Z) : string :=
  match n with
  | O => EmptyString
  | S n => hex_digits n (z / 16) +:+ String (hex_digit (z mod 16)) EmptyString
  end.

Definition hex_value (c : Ascii.ascii) : option Z :=
  let n := Z.of_N (Ascii.N_of_ascii c) in
  if (48 <=? n) && (n <=? 57) then Some (n - 48)
  else if (97 <=? n) && (n <=? 102) then Some (n - 87)
  else if (65 <=? n) && (n <=? 70) then Some (n - 55)
  else None.

(** [repr] of a string: single quotes surround it, or double quotes where only
    single ones occur in it; backslashes, the quote and control characters are
    escaped. *)
Definition repr_char (q c : Ascii.ascii) : string :=
  let n := Ascii.N_of_ascii c in
  let esc s := String backslash s in
  if (Ascii.eqb c q || Ascii.eqb c backslash)%bool then esc (String c EmptyString)
  else if (n =? 9)%N then esc "t"
  else if (n =? 10)%N then esc "n"
  else if (n =? 13)%N then esc "r"
  else if ((n <? 32) || (127 <=? n))%N then
    esc ("x" +:+ hex_digits 2 (Z.of_N n))
  else String c EmptyString.

Fixpoint repr_chars (q : Ascii.ascii) (s : string) : string :=
  match s with
  | EmptyString => EmptyString
  | String c s => repr_char q c +:+ repr_chars q s
  end.

Definition py_repr (s : string) : string :=
  let q := if has_char squote s && negb (has_char dquote s)
           then dquote else squote in
  String q (repr_chars q s +:+ String q EmptyString).

(** ** Values of database rows

    What the IDL returns for a column: an optional or set column is a list, a
    map column a dict, a reference a row. *)

Inductive pyval :=
| PyNone
| PyStr (s : string)
| PyInt (z : Z)
| PyUUID (s : string)
| PyDict (kv : list (string * string))
| PyList (l : list pyval)
| PyRow (uuid : string) (columns : list (string * pyval)).

Record row := Row {
  row_uuid : string;
  row_columns : list (string * pyval);
}.

(** How a row of the IDL prints itself is outside of the services. *)
Class RowStr := row_str : string -> string.

Fixpoint assoc {A} (k : string) (l : list (string * A)) : option A :=
  match l with
  | [] => None
  | (k', v) :: l => if String.eqb k k' then Some v else assoc k l
  end.

Section Values.
Context `{!RowStr}.

Definition repr_dict (kv : list (string * string)) : string :=
  "{" +:+ py_join ", "
    (map (fun '(k, v) => py_repr k +:+ ": " +:+ py_repr v) kv) +:+ "}".

Fixpoint repr_val (v : pyval) : string :=
  match v with
  | PyNone => "None"
  | PyStr s => py_repr s
  | PyInt z => str_int z
  | PyUUID s => "UUID(" +:+ py_repr s +:+ ")"
  | PyDict kv => repr_dict kv
  | PyList l => "[" +:+ py_join ", " (map repr_val l) +:+ "]"
  | PyRow uuid _ => row_str uuid
  end.

Definition str_val (v : pyval) : string :=
  match v with
  | PyStr s | PyUUID s => s
  | _ => repr_val v
  end.
End Values.

Definition str_opt (o : option string) : string := default "None"%string o.

(** [getattr(row, name, dflt)] *)
Definition getattr (r : row) (name : string) (dflt : pyval) : pyval :=
  default dflt (assoc name (row_columns r)).

(** [v == s] for a string, [v == z] for an int *)
Definition is_str (v : pyval) (s : string) : bool :=
  match v with PyStr s' => String.eqb s' s | _ => false end.
Definition is_int_val (v : pyval) (z : Z) : bool :=
  match v with PyInt z' => z' =? z | _ => false end.

Definition truthy (v : pyval) : bool :=
  match v with
  | PyNone | PyStr EmptyString | PyDict [] | PyList [] => false
  | PyInt z => negb (z =? 0)
  | _ => true
  end.

(** [dict(v)] *)
Definition to_dict (v : pyval) : result (list (string * string)) :=
  match v with
  | PyDict kv => mret kv
  | _ => inl (Exception "TypeError" "cannot convert to a dict")
  end.

(** [d[k]] *)
Definition getitem {A} (k : string) (d : list (string * A)) : result A :=
  match assoc k d with
  | Some v => mret v
  | None => inl (Exception "KeyError" (py_repr k))
  end.

(** ** UUIDs *)

Fixpoint substring_split (lens : list nat) (s : string) : list string :=
  match lens with
  | [] => []
  | n :: lens =>
      String.substring 0 n s ::
      substring_split lens (String.substring n (String.length s - n) s)
  end.

(** [str(u)] for the UUID with the integer [z] *)
Definition uuid_str (z : Z) : string :=
  py_join "-" (substring_split [8; 4; 4; 4; 12]%nat (hex_digits 32 z)).

Fixpoint hex_parse (acc : Z) (s : string) : option Z :=
  match s with
  | EmptyString => Some acc
  | String c s => d ← hex_value c; hex_parse (acc * 16 + d) s
  end.

Fixpoint remove_char (c : Ascii.ascii) (s : string) : string :=
  match s with
  | EmptyString => EmptyString
  | String d s =>
      if Ascii.eqb d c then remove_char c s else String d (remove_char c s)
  end.

(** [uuid.UUID(s).int], for strings without the prefixes and braces that the
    constructor also accepts *)
Definition uuid_int (s : string) : result Z :=
  let hex := remove_char "-" s in
  if (String.length hex =? 32)%nat then
    match hex_parse 0 hex with
    | Some z => mret z
    | None => inl (Exception "ValueError" "invalid literal for int()")
    end
  else inl (Exception "ValueError" "badly formed hexadecimal UUID string").

Section UUID.
Lemma hex_value_digit d : 0 <= d < 16 -> hex_value (hex_digit d) = Some d.
Proof.
  intros H. assert (In d (seqZ 0 16)) as Hin.
  { apply list_elem_of_In, elem_of_seqZ. lia. }
  simpl in Hin. by decompose [or] Hin; subst.
Qed.

Lemma hex_digit_not_dash d : 0 <= d < 16 -> Ascii.eqb (hex_digit d) "-" = false.
Proof.
  intros H. assert (In d (seqZ 0 16)) as Hin.
  { apply list_elem_of_In, elem_of_seqZ. lia. }
  simpl in Hin. by decompose [or] Hin; subst.
Qed.

Lemma hex_parse_snoc acc s d :
  0 <= d < 16 ->
  hex_parse acc (s +:+ String (hex_digit d) EmptyString) =
    option_map (fun v => v * 16 + d) (hex_parse acc s).
Proof.
  intros Hd. revert acc. induction s as [| c s IH]; intros acc; simpl.
  - by rewrite hex_value_digit.
  - destruct (hex_value c); simpl; [apply IH | done].
Qed.

Lemma hex_parse_digits n z :
  0 <= z -> hex_parse 0 (hex_digits n z) = Some (z mod 16 ^ Z.of_nat n).
Proof.
  revert z. induction n as [| n IH]; intros z Hz.
  { simpl. by rewrite Z.mod_1_r. }
  simpl. rewrite hex_parse_snoc by (apply Z.mod_pos_bound; lia).
  rewrite IH by (apply Z.div_pos; lia). simpl. f_equal.
  rewrite Nat2Z.inj_succ, Z.pow_succ_r by lia.
  rewrite Z.rem_mul_r by lia. lia.
Qed.

Lemma length_hex_digits n z : String.length (hex_digits n z) = n.
Proof.
  revert z. induction n as [| n IH]; intros z; simpl; [done |].
  rewrite string_length_app, IH. simpl. lia.
Qed.

Lemma remove_char_app c s t :
  remove_char c (s +:+ t) = remove_char c s +:+ remove_char c t.
Proof.
  induction s as [| d s IH]; simpl; [done |].
  destruct (Ascii.eqb d c); simpl; by rewrite IH.
Qed.

Lemma hex_digits_no_dash n z : remove_char "-" (hex_digits n z) = hex_digits n z.
Proof.
  revert z. induction n as [| n IH]; intros z; simpl; [done |].
  rewrite remove_char_app, IH. simpl.
  by rewrite hex_digit_not_dash by (apply Z.mod_pos_bound; lia).
Qed.

(** Taking the dashes out of a formatted UUID gives back its digits. *)
Lemma remove_dashes s :
  String.length s = 32%nat -> remove_char "-" s = s ->
  remove_char "-" (py_join "-" (substring_split [8; 4; 4; 4; 12]%nat s)) = s.
Proof.
  intros Hl Hs. trans (remove_char "-" s); [| done]. clear Hs.
  unfold py_join, substring_split. cbn [String.concat].
  rewrite !remove_char_app. change (remove_char "-" "-") with EmptyString.
  assert (forall t, EmptyString +:+ t = t) as He by done. rewrite !He.
  rewrite <- !remove_char_app. f_equal.
  do 32 (destruct s as [| ? s]; [done |]). by destruct s.
Qed.

Lemma uuid_roundtrip z : 0 <= z < 2 ^ 128 -> uuid_int (uuid_str z) = inr z.
Proof.
  intros Hz. unfold uuid_int, uuid_str.
  rewrite remove_dashes by (apply length_hex_digits || apply hex_digits_no_dash).
  rewrite length_hex_digits, hex_parse_digits by lia.
  change (16 ^ Z.of_nat 32) with (2 ^ 128). by rewrite Z.mod_small.
Qed.
End UUID.
