(* ===== verification/Procfs.v ===== *)
(** * Reading /proc: src/ovn_cpu/app/services/procfs.py

    The parsers of [ProcfsReader] as functions of the text of the files they
    read.  The kernel prints the name of a process between parentheses without
    escaping it, so that a name may hold spaces, parentheses and line feeds; the
    theorem of this file is that a line of a stat file is parsed to what the
    kernel printed, whatever the name is. *)

From stdpp Require Import base option list strings gmap.
From Stdlib Require Import ZArith Lia Ascii DecimalString DecimalZ.
From S2P Require Import Prelude Strings Binary64 Python.

Local Open Scope Z_scope.
Local Open Scope string_scope.

Module Procfs.

(** ** String methods *)

(** [s.find(c)] and [s.rfind(c)] for one character; [None] is -1 *)
Fixpoint find (c : ascii) (s : string) : option nat :=
  match s with
  | EmptyString => None
  | String d s => if Ascii.eqb d c then Some O else S <$> find c s
  end.

Fixpoint rfind (c : ascii) (s : string) : option nat :=
  match s with
  | EmptyString => None
  | String d s =>
      match rfind c s with
      | Some n => Some (S n)
      | None => if Ascii.eqb d c then Some O else None
      end
  end.

(** [s[:n]] and [s[n:]] *)
Fixpoint str_take (n : nat) (s : string) : string :=
  match n, s with
  | S n, String c s => String c (str_take n s)
  | _, _ => EmptyString
  end.

Fixpoint str_drop (n : nat) (s : string) : string :=
  match n, s with
  | S n, String _ s => str_drop n s
  | _, _ => s
  end.

(** [s.split()] *)
Fixpoint split_from (word s : string) : list string :=
  let pending := match word with EmptyString => [] | _ => [word] end in
  match s with
  | EmptyString => pending
  | String c s =>
      if is_space c then (pending ++ split_from EmptyString s)%list
      else split_from (word +:+ String c EmptyString) s
  end.
Definition split (s : string) : list string := split_from EmptyString s.

(** The lines of a text without their line feeds *)
Fixpoint lines_from (line s : string) : list string :=
  match s with
  | EmptyString => match line with EmptyString => [] | _ => [line] end
  | String c s =>
      if Ascii.eqb c newline then line :: lines_from EmptyString s
      else lines_from (line +:+ String c EmptyString) s
  end.
Definition lines (s : string) : list string := lines_from EmptyString s.

(** [raw.replace(b'\x00', b' ')] *)
Fixpoint nul_to_space (s : string) : string :=
  match s with
  | EmptyString => EmptyString
  | String c s =>
      String (if Ascii.eqb c (ascii_of_N 0) then " "%char else c) (nul_to_space s)
  end.

Fixpoint py_ints (l : list string) : result (list Z) :=
  match l with
  | [] => mret []
  | s :: l => z ← py_int s; zs ← py_ints l; mret (z :: zs)
  end.

Definition ValueError {A} (msg : string) : result A :=
  inl (Exception "ValueError" msg).

(** ** Data *)

Record CpuStat := Cpu {
  cpu_user : Z; cpu_nice : Z; cpu_system : Z; cpu_idle : Z; cpu_iowait : Z;
  cpu_irq : Z; cpu_softirq : Z; cpu_steal : Z; cpu_guest : Z; cpu_guest_nice : Z;
}.

Definition total (c : CpuStat) : Z :=
  cpu_user c + cpu_nice c + cpu_system c + cpu_idle c + cpu_iowait c + cpu_irq c
  + cpu_softirq c + cpu_steal c + cpu_guest c + cpu_guest_nice c.

Definition busy (c : CpuStat) : Z := total c - cpu_idle c - cpu_iowait c.

Record SchedEntityStat := SchedEntity {
  se_pid : Z;
  se_comm : string;
  se_state : string;
  se_ppid : Z;
  se_utime : Z;
  se_stime : Z;
  se_num_threads : Z;
  se_starttime : Z;
}.

(** ** Parsers *)

Definition parse_stat_line (raw : string) : result SchedEntityStat :=
  match find "("%char raw, rfind ")"%char raw with
  | Some left_, Some right_ =>
      if (right_ <=? left_)%nat
      then ValueError ("Malformed stat line: " +:+ py_repr raw)
      else
        pid ← py_int (py_strip (str_take left_ raw));
        let comm := str_drop (left_ + 1) (str_take right_ raw) in
        let fields := split (py_strip (str_drop (right_ + 1) raw)) in
        if (length fields <? 20)%nat
        then ValueError ("Malformed stat payload: " +:+ py_repr raw)
        else
          let field n := default EmptyString (fields !! n) in
          ppid ← py_int (field 1%nat);
          utime ← py_int (field 11%nat);
          stime ← py_int (field 12%nat);
          num_threads ← py_int (field 17%nat);
          starttime ← py_int (field 19%nat);
          mret (SchedEntity pid comm (field 0%nat) ppid utime stime num_threads
                  starttime)
  | _, _ => ValueError ("Malformed stat line: " +:+ py_repr raw)
  end.

(** [read_cmdline], for the bytes of ASCII characters *)
Definition parse_cmdline (raw : string) : string := py_strip (nul_to_space raw).

(** [read_wchan], for a file that could be read *)
Definition parse_wchan (raw : string) : option string :=
  match py_strip raw with EmptyString => None | value => Some value end.

(** [read_system_cpu]; missing values are 0. *)
Definition parse_system_cpu (text : string) : result CpuStat :=
  match split (py_strip (default EmptyString (head (lines text)))) with
  | "cpu" :: parts =>
      values ← py_ints parts;
      let value n := default 0 (values !! n) in
      mret (Cpu (value 0) (value 1) (value 2) (value 3) (value 4) (value 5)
              (value 6) (value 7) (value 8) (value 9))%nat
  | _ => ValueError "Could not find aggregate CPU line in /proc/stat."
  end.

(** The loop of [read_softirqs] over the lines after the first one *)
Fixpoint softirq_lines (names : list string) (l : list string)
    (acc : gmap string (list Z)) : result (gmap string (list Z)) :=
  match l with
  | [] => mret acc
  | line :: l =>
      match find ":"%char line with
      | None => softirq_lines names l acc
      | Some n =>
          let name := py_strip (str_take n line) in
          if bool_decide (name ∈ names) then
            values ← py_ints (split (str_drop (n + 1) line));
            softirq_lines names l (<[name := values]> acc)
          else softirq_lines names l acc
      end
  end.

(** [result.setdefault(name, [])] for each name *)
Definition set_defaults (names : list string) (m : gmap string (list Z)) :
    gmap string (list Z) :=
  foldl (fun m name => match m !! name with
                       | Some _ => m
                       | None => <[name := []]> m
                       end) m names.

Definition parse_softirqs (names : list string) (text : string) :
    result (gmap string (list Z)) :=
  m ← softirq_lines names (tail (lines text)) ∅;
  mret (set_defaults names m).

(** ** Lemmas on strings *)

Lemma find_app c a b :
  str_all (fun d => negb (Ascii.eqb d c)) a = true ->
  find c (a +:+ String c b) = Some (String.length a).
Proof.
  induction a as [| d a IH]; simpl; [by rewrite Ascii.eqb_refl |].
  intros [Hd Ha]%andb_true_iff. apply negb_true_iff in Hd. by rewrite Hd, IH.
Qed.

Lemma rfind_none c b :
  str_all (fun d => negb (Ascii.eqb d c)) b = true -> rfind c b = None.
Proof.
  induction b as [| d b IH]; simpl; [done |].
  intros [Hd Hb]%andb_true_iff. apply negb_true_iff in Hd. by rewrite IH, Hd.
Qed.

Lemma rfind_app c a b :
  str_all (fun d => negb (Ascii.eqb d c)) b = true ->
  rfind c (a +:+ String c b) = Some (String.length a).
Proof.
  intros Hb. induction a as [| d a IH]; simpl; [| by rewrite IH].
  by rewrite rfind_none, Ascii.eqb_refl.
Qed.

Lemma str_take_app a b : str_take (String.length a) (a +:+ b) = a.
Proof. induction a as [| c a IH]; simpl; [by destruct b | by rewrite IH]. Qed.

Lemma str_drop_app a c b : str_drop (String.length a + 1) (a +:+ String c b) = b.
Proof. induction a as [| d a IH]; simpl; [by destruct b | done]. Qed.

(** A word has characters and none of them is a space. *)
Definition word (s : string) : Prop :=
  s <> EmptyString /\ str_all (fun c => negb (is_space c)) s = true.

Lemma split_word acc w s :
  str_all (fun c => negb (is_space c)) w = true ->
  split_from acc (w +:+ s) = split_from (acc +:+ w) s.
Proof.
  revert acc. induction w as [| c w IH]; intros acc; simpl.
  { by rewrite app_nil_str. }
  intros [Hc Hw]%andb_true_iff. apply negb_true_iff in Hc.
  rewrite Hc, IH by done. by rewrite app_assoc_str.
Qed.

Lemma join_cons sep w w' ws :
  py_join sep (w :: w' :: ws) = w +:+ (sep +:+ py_join sep (w' :: ws)).
Proof. done. Qed.

Lemma split_join ws :
  Forall word ws -> split (py_join " " ws) = ws.
Proof.
  unfold split. induction 1 as [| w ws [Hne Hw] Hws IH]; [done |].
  destruct ws as [| w' ws].
  - cbn. rewrite <- (app_nil_str w) at 1. rewrite split_word by done.
    by destruct w.
  - rewrite join_cons, split_word by done.
    destruct w as [| c w]; [done |]. exact (f_equal (cons (String c w)) IH).
Qed.

(** *** Stripping *)

Lemma lstrip_word w s :
  word w -> lstrip (w +:+ s) = w +:+ s.
Proof.
  intros [Hne Hw]. destruct w as [| c w]; [done |]. simpl in *.
  apply andb_true_iff in Hw as [Hc _]. apply negb_true_iff in Hc. by rewrite Hc.
Qed.

Lemma rstrip_spaces s : str_all is_space s = true -> rstrip s = EmptyString.
Proof.
  induction s as [| c s IH]; simpl; [done |].
  intros [Hc Hs]%andb_true_iff. by rewrite IH, Hc.
Qed.

Lemma rstrip_word a w t :
  word w -> str_all is_space t = true -> rstrip (a +:+ (w +:+ t)) = a +:+ w.
Proof.
  intros [Hne Hw] Ht. induction a as [| c a IH]; simpl.
  - destruct w as [| c w]; [done |]. clear Hne. revert c Hw.
    induction w as [| d w IH]; intros c Hw; simpl in *.
    + rewrite rstrip_spaces by done. apply andb_true_iff in Hw as [Hc _].
      apply negb_true_iff in Hc. by rewrite Hc.
    + apply andb_true_iff in Hw as [_ Hw]. by rewrite (IH d Hw).
  - rewrite IH. by destruct a, w.
Qed.

Lemma str_int_word z : word (str_int z).
Proof.
  split; [apply str_int_nonempty |].
  eapply str_all_impl; [| apply str_int_chars]. intros c.
  by apply (num_char_inv c (fun c => negb (is_space c))).
Qed.

Lemma str_int_free d z :
  num_char d = false ->
  str_all (fun c => negb (Ascii.eqb c d)) (str_int z) = true.
Proof.
  intros Hd. eapply str_all_impl; [| apply str_int_chars]. intros c Hc.
  apply negb_true_iff, Ascii.eqb_neq. intros ->. congruence.
Qed.

Lemma py_int_str z : py_int (str_int z) = inr z.
Proof.
  unfold py_int, str_int.
  rewrite NilZero.isi; [by rewrite DecimalZ.of_to | |]; intros H;
    pose proof (DecimalZ.of_to z) as Hz; rewrite H in Hz; simpl in Hz; by subst.
Qed.

(** ** The line of a stat file *)

(** What the kernel prints for a process: the fields after the name are words
    without a closing parenthesis. *)
Definition stat_line (pid : Z) (comm : string) (fields : list string) : string :=
  str_int pid +:+ " (" +:+ comm +:+ ") " +:+ py_join " " fields +:+
  String newline EmptyString.

Definition field_word (s : string) : Prop :=
  word s /\ str_all (fun c => negb (Ascii.eqb c ")"%char)) s = true.

Lemma join_free c ws :
  c <> " "%char ->
  Forall (fun w => str_all (fun d => negb (Ascii.eqb d c)) w = true) ws ->
  str_all (fun d => negb (Ascii.eqb d c)) (py_join " " ws) = true.
Proof.
  intros Hc. induction 1 as [| w ws Hw Hws IH]; [done |].
  destruct ws as [| w' ws]; [done |]. rewrite join_cons, !str_all_app, Hw, IH.
  assert (Ascii.eqb " "%char c = false) as He by (apply Ascii.eqb_neq; congruence).
  cbn [str_all]. by rewrite He.
Qed.

Lemma join_first w ws : exists s, py_join " " (w :: ws) = w +:+ s.
Proof.
  destruct ws as [| w' ws]; [exists EmptyString; by rewrite app_nil_str |].
  rewrite join_cons. by eexists.
Qed.

Lemma join_last ws w : exists a, py_join " " (ws ++ [w]) = a +:+ w.
Proof.
  induction ws as [| v ws [a IH]]; [by exists EmptyString |].
  destruct (ws ++ [w])%list as [| v' l] eqn:He; [by destruct ws |].
  exists (v +:+ (" " +:+ a)). simpl app. rewrite He, join_cons, IH.
  by rewrite !app_assoc_str.
Qed.

(** Around the words there is a space before and a line feed after. *)
Lemma strip_fields ws :
  Forall word ws -> ws <> [] ->
  py_strip (" " +:+ (py_join " " ws +:+ String newline EmptyString)) = py_join " " ws.
Proof.
  intros Hws Hne. unfold py_strip.
  trans (rstrip (lstrip (py_join " " ws +:+ String newline EmptyString))); [done |].
  destruct ws as [| w0 ws0] eqn:He; [done |].
  destruct (join_first w0 ws0) as [s Hs]. rewrite Hs, app_assoc_str.
  apply Forall_cons in Hws as Hw. rewrite lstrip_word by apply Hw.
  rewrite <- app_assoc_str, <- Hs, <- He in *. clear Hs s Hw He Hne.
  destruct ws as [| w ws _] using rev_ind; [done |].
  destruct (join_last ws w) as [a Ha]. rewrite Ha, app_assoc_str.
  apply Forall_app in Hws as [_ Hw]. apply Forall_cons in Hw as [Hw _].
  by apply rstrip_word.
Qed.

(** Where the parentheses of a line are *)
Lemma stat_line_parts pid comm fields :
  Forall field_word fields -> fields <> [] ->
  let raw := stat_line pid comm fields in
  exists l r, find "("%char raw = Some l /\ rfind ")"%char raw = Some r /\
    (r <=? l)%nat = false /\ py_strip (str_take l raw) = str_int pid /\
    str_drop (l + 1) (str_take r raw) = comm /\
    split (py_strip (str_drop (r + 1) raw)) = fields.
Proof.
  intros Hf Hne raw. set (a := str_int pid +:+ " ").
  set (rest := " " +:+ (py_join " " fields +:+ String newline EmptyString)).
  assert (raw = a +:+ String "(" (comm +:+ String ")" rest)) as Hl.
  { unfold raw, stat_line, a. by rewrite app_assoc_str. }
  assert (raw = (a +:+ String "(" comm) +:+ String ")" rest) as Hr.
  { rewrite Hl, app_assoc_str. done. }
  exists (String.length a), (String.length (a +:+ String "(" comm)).
  split; [| split; [| split; [| split; [| split]]]].
  - rewrite Hl. apply find_app. unfold a. rewrite str_all_app.
    by rewrite str_int_free.
  - rewrite Hr. apply rfind_app. unfold rest. rewrite !str_all_app. simpl.
    rewrite andb_true_r. apply join_free; [done |].
    eapply Forall_impl; [exact Hf |]. by intros w [_ ?].
  - apply Nat.leb_gt. rewrite string_length_app. simpl. lia.
  - rewrite Hl, str_take_app. unfold py_strip, a. rewrite lstrip_word by apply str_int_word.
    apply (rstrip_word EmptyString (str_int pid) " "); [apply str_int_word | done].
  - rewrite Hr, str_take_app. apply str_drop_app.
  - rewrite Hr, str_drop_app. unfold rest.
    assert (Forall word fields) as Hw.
    { eapply Forall_impl; [exact Hf |]. by intros w [? _]. }
    rewrite strip_fields by done. by apply split_join.
Qed.

Lemma str_int_field z : field_word (str_int z).
Proof. split; [apply str_int_word | by apply str_int_free]. Qed.

(** C30: Whatever the name of a process is, parentheses, spaces and line feeds
    included, the line that the kernel prints for it, once it has been read and
    decoded, is parsed to the name and the numbers that it printed. *)
Theorem stat_line_parsed pid comm state ppid l1 utime stime l2 threads x starttime l3 :
  length l1 = 9%nat -> length l2 = 4%nat ->
  Forall field_word (state :: l1 ++ l2 ++ x :: l3) ->
  parse_stat_line (stat_line pid comm
    (state :: str_int ppid :: l1 ++ str_int utime :: str_int stime :: l2
     ++ str_int threads :: x :: str_int starttime :: l3)) =
  inr (SchedEntity pid comm state ppid utime stime threads starttime).
Proof.
  intros H1 H2 Hf. apply Forall_cons in Hf as [Hst Hf].
  apply Forall_app in Hf as [Hf1 Hf]. apply Forall_app in Hf as [Hf2 Hf].
  apply Forall_cons in Hf as [Hx Hf3].
  match goal with |- parse_stat_line (stat_line _ _ ?fs) = _ => set (fields := fs) end.
  assert (Forall field_word fields) as Hall.
  { unfold fields. repeat first [apply Forall_app; split | apply Forall_cons; split];
      auto using str_int_field. }
  destruct (stat_line_parts pid comm fields Hall) as (l & r & Hl & Hr & Hlr & Hp & Hc & Hs);
    [done |].
  unfold parse_stat_line. rewrite Hl, Hr, Hlr, Hp, py_int_str, Hc, Hs. simpl.
  do 10 (destruct l1 as [| ? l1]; [try discriminate H1 | try discriminate H1]).
  do 5 (destruct l2 as [| ? l2]; [try discriminate H2 | try discriminate H2]).
  unfold fields. simpl. by rewrite !py_int_str.
Qed.

Lemma stat_line_parsed_witness :
  parse_stat_line (stat_line 7 "a) (b"
    (["S"; str_int 1] ++ replicate 9 "0" ++ [str_int 30; str_int 12]
     ++ replicate 4 "0" ++ [str_int 2; "0"; str_int 99])) =
  inr (SchedEntity 7 "a) (b" "S" 1 30 12 2 99).
Proof.
  apply (stat_line_parsed 7 "a) (b" "S" 1 (replicate 9 "0") 30 12 (replicate 4 "0")
    2 "0" 99 []); [done | done |].
  repeat (apply Forall_cons; split; [done |]). done.
Defined.

End Procfs.
