(* ===== verification/CpuMonitor.v ===== *)
(** * The CPU monitor: src/ovn_cpu/app/services/cpu_monitor.py

    [CpuMonitorService] samples /proc at intervals and computes from two samples
    how much processor time the processes and threads of Open vSwitch and OVN
    used.  What a collection reads is the record [proc]; a file that cannot be
    read is an [oserror].  The attributes of the service are the record
    [monitor].  The start and the end of its thread are not modelled, nor are
    the texts of metrics other than their labels, for they need the printing of
    floating point numbers. *)

From stdpp Require Import base option list strings gmap.
From Stdlib Require Import ZArith Lia Ascii.
From S2P Require Import Prelude Strings Binary64 Python Procfs.

Local Open Scope Z_scope.
Local Open Scope string_scope.

Module CpuMonitor.
Import Procfs.

(** ** Data *)

Record Settings := MkSettings {
  history_size : nat;
  default_top_threads : nat;
  default_threads_per_component : nat;
  enable_kernel_threads : bool;
  softirq_names : list string;
  user_process_names : list string;
}.

Record Usage := MkUsage {
  total_pct : float;
  user_pct : float;
  system_pct : float;
}.

Record ProcessIdentity := Identity {
  id_component : string;
  id_category : string;
  id_label : string;
  id_is_kernel : bool;
}.

(** [ThreadCpuSample] has the same fields, with rounded usage. *)
Record ThreadRecord := MkThread {
  th_pid : Z;
  th_tid : Z;
  th_process_name : string;
  th_process_component : string;
  th_process_category : string;
  th_process_label : string;
  th_thread_name : string;
  th_thread_group : string;
  th_state : string;
  th_wchan : option string;
  th_cpu : Usage;
}.

(** [ProcessCpuSample] has the same fields, with rounded usage and the hot
    threads instead of all. *)
Record ProcessRecord := MkProcess {
  ps_pid : Z;
  ps_process_name : string;
  ps_component : string;
  ps_category : string;
  ps_label : string;
  ps_cmdline : string;
  ps_thread_count : Z;
  ps_cpu : Usage;
  ps_threads : list ThreadRecord;
}.

Record GroupRecord := MkGroup {
  gr_component : string;
  gr_category : string;
  gr_thread_group : string;
  gr_threads : Z;
  gr_cpu : Usage;
}.

Record SoftirqRecord := MkSoftirq {
  si_name : string;
  si_total_delta : Z;
  si_per_cpu_delta : list Z;
}.

Record SnapshotState := MkSnapshot {
  sn_generated_at : string;
  sn_elapsed_s : float;
  sn_warmup : bool;
  sn_cpu_count : Z;
  sn_host_cpu_pct : option float;
  sn_loadavg : float * float * float;
  sn_processes : list ProcessRecord;
  sn_threads : list ThreadRecord;
  sn_groups : list GroupRecord;
  sn_softirqs : list SoftirqRecord;
}.

Record CpuHistoryPoint := MkPoint {
  hp_generated_at : string;
  hp_elapsed_s : float;
  hp_warmup : bool;
  hp_host_cpu_pct : option float;
  hp_components : list ProcessRecord;
  hp_top_threads : list ThreadRecord;
  hp_softirqs : list SoftirqRecord;
}.

Record CpuSpike := MkSpike {
  sp_generated_at : string;
  sp_component : string;
  sp_pid : Z;
  sp_cpu : Usage;
  sp_hot_threads : list ThreadRecord;
}.

(** ** What a collection reads *)

Record oserror := OSError { oe_name : string; oe_msg : string }.

Record proc := Proc {
  pr_monotonic : float;
  pr_utc_now : string;
  pr_stat : oserror + string;
  pr_softirqs : oserror + string;
  pr_loadavg : oserror + (float * float * float);
  pr_pids : oserror + list Z;
  pr_pid_stat : Z -> oserror + string;
  pr_cmdline : Z -> oserror + string;
  pr_wchan : Z -> option Z -> oserror + string;
  pr_tasks : Z -> oserror + list Z;
  pr_task_stat : Z -> Z -> oserror + string;
}.

(** An error of the system that nobody handles *)
Definition read {A} (r : oserror + A) : result A :=
  match r with
  | inl e => inl (Exception (oe_name e) (oe_msg e))
  | inr a => inr a
  end.

Definition read_wchan (p : proc) (pid : Z) (tid : option Z) : option string :=
  match pr_wchan p pid tid with
  | inl _ => None
  | inr raw => parse_wchan raw
  end.

(** ** The attributes of the service *)

Record monitor := Monitor {
  mo_snapshot : option SnapshotState;
  mo_history : list CpuHistoryPoint;
  mo_last_error : option string;
  mo_prev_ts : option float;
  mo_prev_system_cpu : option CpuStat;
  mo_prev_softirqs : option (gmap string (list Z));
  mo_prev_process_times : gmap (Z * Z) (Z * Z);
  mo_prev_thread_times : gmap (Z * Z * Z) (Z * Z);
}.

#[export] Instance rebuild_monitor : Rebuild monitor := fun m =>
  Monitor (mo_snapshot m) (mo_history m) (mo_last_error m) (mo_prev_ts m)
    (mo_prev_system_cpu m) (mo_prev_softirqs m) (mo_prev_process_times m)
    (mo_prev_thread_times m).

Definition created : monitor := Monitor None [] None None None None ∅ ∅.

(** ** Sorting

    [list.sort] with a key is stable; [before a b] compares the keys. *)

Fixpoint insert_by {A} (before : A -> A -> bool) (x : A) (l : list A) : list A :=
  match l with
  | [] => [x]
  | y :: l' => if before y x then y :: insert_by before x l' else x :: l
  end.

Definition sort_by {A} (before : A -> A -> bool) (l : list A) : list A :=
  foldr (insert_by before) [] l.

(** A key [(-total_pct, ...)] *)
Definition hotter (a b : Usage) (rest : bool) : bool :=
  if Float.eqb (total_pct a) (total_pct b) then rest
  else Float.ltb (total_pct b) (total_pct a).

Definition str_then (a b : string) (rest : bool) : bool :=
  if String.eqb a b then rest else String.ltb a b.

Definition int_then (a b : Z) (rest : bool) : bool :=
  if Z.eqb a b then rest else Z.ltb a b.

Definition task_before (a b : ThreadRecord) : bool :=
  hotter (th_cpu a) (th_cpu b) (Z.ltb (th_tid a) (th_tid b)).
Definition thread_before (a b : ThreadRecord) : bool :=
  hotter (th_cpu a) (th_cpu b)
    (int_then (th_pid a) (th_pid b) (Z.ltb (th_tid a) (th_tid b))).
Definition process_before (a b : ProcessRecord) : bool :=
  hotter (ps_cpu a) (ps_cpu b)
    (str_then (ps_component a) (ps_component b) (Z.ltb (ps_pid a) (ps_pid b))).
Definition group_before (a b : GroupRecord) : bool :=
  hotter (gr_cpu a) (gr_cpu b)
    (str_then (gr_component a) (gr_component b)
       (String.ltb (gr_thread_group a) (gr_thread_group b))).

(** ** Classification *)

Definition is_kernel_datapath_thread (comm cmdline : string) : bool :=
  let lower := py_lower comm in
  match cmdline with
  | EmptyString => startswith lower "ksoftirqd/" || startswith lower "irq/" ||
                   startswith lower "napi/"
  | _ => false
  end.

Definition matches_any (value : string) (patterns : list string) : bool :=
  existsb (fun pattern => py_in pattern value) patterns.

Definition classify_thread_group (thread_name : string) (pid tid : Z)
    (is_kernel : bool) : string :=
  let lower := py_lower thread_name in
  if is_kernel then
    if startswith lower "ksoftirqd/" then "ksoftirqd"
    else if startswith lower "irq/" then "irq"
    else if startswith lower "napi/" then "napi"
    else "kernel-other"
  else if Z.eqb pid tid then "main"
  else if String.eqb lower "handler" then "handler"
  else if String.eqb lower "revalidator" then "revalidator"
  else if startswith lower "pmd-" then "pmd"
  else if String.eqb lower "urcu" then "urcu"
  else if String.eqb lower "monitor" then "monitor"
  else if String.eqb lower "ovn_pinctrl" then "pinctrl"
  else if String.eqb lower "ovn_statctrl" then "statctrl"
  else if String.eqb lower "compaction" then "compaction"
  else if String.eqb lower "log_fsync" then "log_fsync"
  else if String.eqb lower "dpdk_offload" then "dpdk_offload"
  else if String.eqb lower "dpdk_watchdog" then "dpdk_watchdog"
  else if String.eqb lower "ovs_vhost" then "ovs_vhost"
  else if String.eqb lower "ct_clean" then "ct_clean"
  else if String.eqb lower "ipf_clean" then "ipf_clean"
  else "other".

Section Service.
Context (cfg : Settings) (cpu_count clock_ticks : Z).

Definition classify_process (stat : SchedEntityStat) (cmdline : string) :
    option ProcessIdentity :=
  let comm := py_lower (se_comm stat) in
  let lower_cmd := py_lower cmdline in
  if enable_kernel_threads cfg && is_kernel_datapath_thread (se_comm stat) cmdline
  then Some (Identity "kernel-datapath" "kernel" (se_comm stat) true)
  else if negb (bool_decide (comm ∈ map py_lower (user_process_names cfg))) then None
  else if String.eqb comm "ovs-vswitchd" then
    Some (Identity "ovs-vswitchd" "datapath" "ovs-vswitchd" false)
  else if String.eqb comm "ovn-controller" then
    Some (Identity "ovn-controller" "control-plane" "ovn-controller" false)
  else if String.eqb comm "ovn-controller-vtep" then
    Some (Identity "ovn-controller-vtep" "control-plane" "ovn-controller-vtep" false)
  else if String.eqb comm "ovn-northd" then
    Some (Identity "ovn-northd" "control-plane" "ovn-northd" false)
  else if String.eqb comm "ovsdb-server" then
    if matches_any lower_cmd
         ["ovnsb_db"; "ovnsb"; "ovn_southbound"; "ovn-southbound"; "sb.db"]
    then Some (Identity "ovn-sb-db" "ovsdb" "ovn-sb-db" false)
    else if matches_any lower_cmd
         ["ovnnb_db"; "ovnnb"; "ovn_northbound"; "ovn-northbound"; "nb.db"]
    then Some (Identity "ovn-nb-db" "ovsdb" "ovn-nb-db" false)
    else if matches_any lower_cmd ["sb-relay"; "relay"]
    then Some (Identity "ovn-sb-relay" "ovsdb" "ovn-sb-relay" false)
    else if matches_any lower_cmd ["conf.db"; "open_vswitch"; "openvswitch"]
    then Some (Identity "ovs-db" "ovsdb" "ovs-db" false)
    else Some (Identity "ovsdb-server" "ovsdb" "ovsdb-server" false)
  else Some (Identity (se_comm stat) "other" (se_comm stat) false).

(** ** Computation *)

Definition calculate_usage (previous : option (Z * Z)) (utime stime : Z)
    (elapsed_s : float) : Usage :=
  match previous with
  | Some (u, s) =>
      if Float.leb elapsed_s Float.zero then MkUsage Float.zero Float.zero Float.zero
      else
        let delta_user := Z.max 0 (utime - u) in
        let delta_system := Z.max 0 (stime - s) in
        let scale := Float.div (Float.of_Z 100)
                       (Float.mul (Float.of_Z clock_ticks) elapsed_s) in
        let user := Float.mul (Float.of_Z delta_user) scale in
        let sys := Float.mul (Float.of_Z delta_system) scale in
        MkUsage (Float.add user sys) user sys
  | None => MkUsage Float.zero Float.zero Float.zero
  end.

Definition compute_host_cpu_pct (previous : option CpuStat) (current : CpuStat) :
    option float :=
  match previous with
  | None => None
  | Some previous =>
      let busy_delta := busy current - busy previous in
      match total current - total previous with
      | Zpos total_delta =>
          Some (Float.max Float.zero
                  (Float.mul (Float.int_div busy_delta total_delta) (Float.of_Z 100)))
      | _ => None
      end
  end.

(** The deltas of one kind: a CPU without a previous value has delta 0. *)
Fixpoint softirq_delta (previous current : list Z) : list Z :=
  match current with
  | [] => []
  | value :: current =>
      Z.max 0 (value - default value (head previous))
      :: softirq_delta (tail previous) current
  end.

Definition compute_softirq_records (previous : option (gmap string (list Z)))
    (softirqs : gmap string (list Z)) : list SoftirqRecord :=
  let previous := default ∅ previous in
  map (fun name =>
    let delta := softirq_delta (default [] (previous !! name))
                   (default [] (softirqs !! name)) in
    MkSoftirq name (foldl Z.add 0 delta) delta) (softirq_names cfg).

(** [_aggregate_groups]: the dict keeps the order in which keys came. *)
Definition group_key : Type := string * string * string.

Definition key_of (t : ThreadRecord) : group_key :=
  (th_process_component t, th_process_category t, th_thread_group t).

Record totals := Totals {
  to_total : float; to_user : float; to_system : float; to_count : float;
}.

Definition add_thread (t : ThreadRecord) (v : totals) : totals :=
  Totals (Float.add (to_total v) (total_pct (th_cpu t)))
    (Float.add (to_user v) (user_pct (th_cpu t)))
    (Float.add (to_system v) (system_pct (th_cpu t)))
    (Float.add (to_count v) (Float.of_Z 1)).

Fixpoint count_thread (t : ThreadRecord) (groups : list (group_key * totals)) :
    list (group_key * totals) :=
  match groups with
  | [] => [(key_of t, add_thread t (Totals Float.zero Float.zero Float.zero Float.zero))]
  | (k, v) :: groups =>
      if bool_decide (k = key_of t) then (k, add_thread t v) :: groups
      else (k, v) :: count_thread t groups
  end.

Definition aggregate_groups (threads : list ThreadRecord) : list GroupRecord :=
  sort_by group_before
    (map (fun '((component, category, thread_group), v) =>
       MkGroup component category thread_group (Float.trunc (to_count v))
         (MkUsage (to_total v) (to_user v) (to_system v)))
     (foldl (fun groups t => count_thread t groups) [] threads)).

(** ** Collection *)

(** A thread of a process as [_collect_snapshot] records it *)
Definition thread_record (pid tid : Z) (process_name : string)
    (i : ProcessIdentity) (thread_name thread_group state : string)
    (wchan : option string) (cpu : Usage) : ThreadRecord :=
  MkThread pid tid process_name (id_component i) (id_category i) (id_label i)
    thread_name thread_group state wchan cpu.

(** The threads of a process that could be read, with their times *)
Fixpoint sample_tasks (p : proc) (prev : gmap (Z * Z * Z) (Z * Z))
    (elapsed_s : float) (pid : Z) (process_name : string) (i : ProcessIdentity)
    (tids : list Z) : list (ThreadRecord * ((Z * Z * Z) * (Z * Z))) :=
  match tids with
  | [] => []
  | tid :: tids =>
      let others := sample_tasks p prev elapsed_s pid process_name i tids in
      match read (pr_task_stat p pid tid) ≫= parse_stat_line with
      | inl _ => others
      | inr stat =>
          let key := (pid, tid, se_starttime stat) in
          let usage := calculate_usage (prev !! key) (se_utime stat)
                         (se_stime stat) elapsed_s in
          (thread_record pid tid process_name i (se_comm stat)
             (classify_thread_group (se_comm stat) pid tid false) (se_state stat)
             (read_wchan p pid (Some tid)) usage,
           (key, (se_utime stat, se_stime stat))) :: others
      end
  end.

(** What one iteration over the pids adds *)
Record sample := MkSample {
  sa_process : ProcessRecord;
  sa_time : (Z * Z) * (Z * Z);
  sa_task_times : list ((Z * Z * Z) * (Z * Z));
}.

Definition sample_pid (p : proc) (m : monitor) (elapsed_s : float) (pid : Z) :
    option sample :=
  match read (pr_pid_stat p pid) ≫= parse_stat_line, pr_cmdline p pid with
  | inr stat, inr raw =>
      let cmdline := parse_cmdline raw in
      match classify_process stat cmdline with
      | None => None
      | Some i =>
          let key := (pid, se_starttime stat) in
          let usage := calculate_usage (mo_prev_process_times m !! key)
                         (se_utime stat) (se_stime stat) elapsed_s in
          let time := (key, (se_utime stat, se_stime stat)) in
          let own_thread group :=
            thread_record pid pid (se_comm stat) i (se_comm stat) group
              (se_state stat) (read_wchan p pid None) usage in
          let process count threads :=
            MkProcess pid (se_comm stat) (id_component i) (id_category i)
              (id_label i) cmdline count usage threads in
          if id_is_kernel i then
            Some (MkSample (process 1
              [own_thread (classify_thread_group (se_comm stat) pid pid true)])
              time [])
          else
            let tids := match pr_tasks p pid with inl _ => [pid] | inr l => l end in
            let tasks := sample_tasks p (mo_prev_thread_times m) elapsed_s pid
                           (se_comm stat) i tids in
            let threads := match map fst tasks with
                           | [] => [own_thread "main"]
                           | l => l
                           end in
            let threads := sort_by task_before threads in
            Some (MkSample
              (process (Z.max (se_num_threads stat) (Z.of_nat (length threads)))
                 threads)
              time (map snd tasks))
      end
  | _, _ => None
  end.

(** A dict after the assignments in order *)
Definition assigned `{Countable K} {V} (l : list (K * V)) : gmap K V :=
  foldl (fun m '(k, v) => <[k := v]> m) ∅ l.

Definition collect_snapshot (p : proc) : M monitor SnapshotState :=
  m ← get;
  let now := pr_monotonic p in
  let elapsed_s := Float.max
    match mo_prev_ts m with Some t => Float.sub now t | None => Float.zero end
    Float.zero in
  let warmup := match mo_prev_ts m with None => true | Some _ => false end in
  system_cpu ← lift (read (pr_stat p) ≫= parse_system_cpu);
  softirqs ← lift (read (pr_softirqs p) ≫= parse_softirqs (softirq_names cfg));
  loadavg ← lift (read (pr_loadavg p));
  pids ← lift (read (pr_pids p));
  let samples := omap (sample_pid p m elapsed_s) pids in
  let all_threads := sort_by thread_before
    (samples ≫= fun sa => ps_threads (sa_process sa)) in
  let processes := sort_by process_before (map sa_process samples) in
  let groups := aggregate_groups all_threads in
  let softirq_records := compute_softirq_records (mo_prev_softirqs m) softirqs in
  let host_cpu_pct := compute_host_cpu_pct (mo_prev_system_cpu m) system_cpu in
  modify (fun m =>
    m <| mo_prev_ts := Some now |> <| mo_prev_system_cpu := Some system_cpu |>
      <| mo_prev_softirqs := Some softirqs |>
      <| mo_prev_process_times := assigned (map sa_time samples) |>
      <| mo_prev_thread_times := assigned (samples ≫= sa_task_times) |>);;
  mret (MkSnapshot (pr_utc_now p) elapsed_s warmup cpu_count host_cpu_pct loadavg
          processes all_threads groups softirq_records).

(** ** What clients see *)

Definition usage_model (u : Usage) : Usage :=
  MkUsage (Float.round3 (total_pct u)) (Float.round3 (user_pct u))
    (Float.round3 (system_pct u)).

Definition thread_model (t : ThreadRecord) : ThreadRecord :=
  MkThread (th_pid t) (th_tid t) (th_process_name t) (th_process_component t)
    (th_process_category t) (th_process_label t) (th_thread_name t)
    (th_thread_group t) (th_state t) (th_wchan t) (usage_model (th_cpu t)).

Definition process_model (hot_thread_limit : nat) (r : ProcessRecord) :
    ProcessRecord :=
  MkProcess (ps_pid r) (ps_process_name r) (ps_component r) (ps_category r)
    (ps_label r) (ps_cmdline r) (ps_thread_count r) (usage_model (ps_cpu r))
    (map thread_model (take hot_thread_limit (ps_threads r))).

Definition visible_processes (l : list ProcessRecord) : list ProcessRecord :=
  List.filter (fun r => negb (String.eqb (ps_category r) "kernel") ||
                        Float.ltb Float.zero (total_pct (ps_cpu r))) l.

Definition visible_threads (l : list ThreadRecord) : list ThreadRecord :=
  List.filter (fun t => Float.ltb Float.zero (total_pct (th_cpu t))) l.

Definition build_history_point (s : SnapshotState) : CpuHistoryPoint :=
  let hot_threads := Nat.min (default_top_threads cfg) 10 in
  let per_component := Nat.min (default_threads_per_component cfg) 3 in
  MkPoint (sn_generated_at s) (Float.round3 (sn_elapsed_s s)) (sn_warmup s)
    (Float.round3 <$> sn_host_cpu_pct s)
    (map (process_model per_component) (visible_processes (sn_processes s)))
    (map thread_model (take hot_threads (visible_threads (sn_threads s))))
    (sn_softirqs s).

(** [deque(maxlen=n).append] *)
Definition deque_append {A} (n : nat) (l : list A) (x : A) : list A :=
  let l := (l ++ [x])%list in drop (length l - n) l.

Definition collect_now (p : proc) : M monitor SnapshotState :=
  state ← collect_snapshot p;
  let point := build_history_point state in
  modify (fun m =>
    m <| mo_snapshot := Some state |>
      <| mo_history ::= fun h => deque_append (history_size cfg) h point |>
      <| mo_last_error := None |>);;
  mret state.

Definition exn_text (x : exn) : string :=
  match x with
  | HTTPException code detail =>
      "HTTPException: " +:+ str_int code +:+ ": " +:+ detail
  | Exception name msg => name +:+ ": " +:+ msg
  end.

Definition refresh_safely (p : proc) (m : monitor) : monitor :=
  match collect_now p m with
  | (inl x, m) => m <| mo_last_error := Some (exn_text x) |>
  | (inr _, m) => m
  end.

(** ** Queries *)

Definition not_ready (m : monitor) (text : string) : exn :=
  HTTPException 503
    match mo_last_error m with
    | None | Some EmptyString => text
    | Some e => e
    end.

Definition require_snapshot (m : monitor) : result SnapshotState :=
  match mo_snapshot m with
  | None => inl (not_ready m "CPU monitor has not produced a snapshot yet.")
  | Some s => inr s
  end.

(** [history[-limit:]] for a limit that is not negative *)
Definition get_history (limit : nat) (m : monitor) : result (list CpuHistoryPoint) :=
  match mo_history m with
  | [] => inl (not_ready m "CPU monitor has not produced a snapshot yet.")
  | history =>
      inr (if (limit =? 0)%nat then history
           else drop (length history - limit) history)
  end.

(** A filter by name that was given and is not empty *)
Definition passes (filter_ : option string) (value : string) : bool :=
  match filter_ with
  | None | Some EmptyString => true
  | Some f => String.eqb (py_lower value) (py_lower f)
  end.

(** The loop of [get_threads], with the threads selected so far *)
Fixpoint select_threads (component thread_group : option string) (limit : nat)
    (min_cpu_pct : float) (selected l : list ThreadRecord) : list ThreadRecord :=
  match l with
  | [] => selected
  | t :: l =>
      if negb (passes component (th_process_component t)) then
        select_threads component thread_group limit min_cpu_pct selected l
      else if negb (passes thread_group (th_thread_group t)) then
        select_threads component thread_group limit min_cpu_pct selected l
      else if Float.ltb (total_pct (th_cpu t)) min_cpu_pct then
        select_threads component thread_group limit min_cpu_pct selected l
      else
        let selected := (selected ++ [thread_model t])%list in
        if (limit <=? length selected)%nat then selected
        else select_threads component thread_group limit min_cpu_pct selected l
  end.

Definition get_threads (component thread_group : option string) (limit : nat)
    (min_cpu_pct : float) (m : monitor) : result (list ThreadRecord) :=
  state ← require_snapshot m;
  mret (select_threads component thread_group limit min_cpu_pct [] (sn_threads state)).

Definition spike (point : CpuHistoryPoint) (r : ProcessRecord) : CpuSpike :=
  MkSpike (hp_generated_at point) (ps_component r) (ps_pid r) (ps_cpu r)
    (take 3 (ps_threads r)).

(** The inner loop of [find_spikes]; [inl] is the early return. *)
Fixpoint spikes_of (component : option string) (threshold_pct : float)
    (limit : nat) (point : CpuHistoryPoint) (spikes : list CpuSpike)
    (l : list ProcessRecord) : list CpuSpike + list CpuSpike :=
  match l with
  | [] => inr spikes
  | r :: l =>
      if negb (passes component (ps_component r)) then
        spikes_of component threshold_pct limit point spikes l
      else if Float.ltb (total_pct (ps_cpu r)) threshold_pct then
        spikes_of component threshold_pct limit point spikes l
      else
        let spikes := (spikes ++ [spike point r])%list in
        if (limit <=? length spikes)%nat then inl spikes
        else spikes_of component threshold_pct limit point spikes l
  end.

Fixpoint spikes_in (component : option string) (threshold_pct : float)
    (limit : nat) (spikes : list CpuSpike) (points : list CpuHistoryPoint) :
    list CpuSpike :=
  match points with
  | [] => spikes
  | point :: points =>
      match spikes_of component threshold_pct limit point spikes
              (hp_components point) with
      | inl spikes => spikes
      | inr spikes => spikes_in component threshold_pct limit spikes points
      end
  end.

Definition find_spikes (component : option string) (threshold_pct : float)
    (limit : nat) (m : monitor) : result (list CpuSpike) :=
  match mo_history m with
  | [] => inl (not_ready m "CPU monitor has not produced any history yet.")
  | history => inr (spikes_in component threshold_pct limit [] (rev history))
  end.
End Service.

(** ** Labels of metrics *)

(** [s.replace(c, r)] for one character *)
Fixpoint replace_char (c : ascii) (r s : string) : string :=
  match s with
  | EmptyString => EmptyString
  | String d s =>
      (if Ascii.eqb d c then r else String d EmptyString) +:+ replace_char c r s
  end.

Definition escaped (c : ascii) : string := String backslash (String c EmptyString).

Definition escape_label_value (raw : string) : string :=
  replace_char dquote (escaped dquote)
    (replace_char backslash (escaped backslash) raw).

End CpuMonitor.
