(* ===== verification/CpuMeasures.v ===== *)
(** * What a measurement of the CPU monitor is

    Two readings of /proc give a measurement: how much processor time each
    process and thread used between them.  [measures] says so without the
    service: the time of a thread before is looked up in the earlier reading,
    its usage is the difference over the time that passed, the lists are those
    of the later reading in the order of usage, and each group of threads has the
    sums of its threads. *)

From stdpp Require Import base option list strings gmap sorting.
From Stdlib Require Import ZArith Lia Ascii SpecFloat.
From S2P Require Import Prelude Strings Binary64 Python Procfs CpuMonitor.

Local Open Scope Z_scope.
Local Open Scope string_scope.

Module CpuMeasures.
Import Procfs CpuMonitor.

Section Spec.
Context (cfg : Settings) (cpu_count clock_ticks : Z).

(** ** Readings *)

Record reading := Reading {
  rd_proc : proc;
  rd_cpu : CpuStat;
  rd_softirqs : gmap string (list Z);
  rd_loadavg : float * float * float;
  rd_pids : list Z;
}.

Definition parsed (p : proc) : result reading :=
  cpu ← read (pr_stat p) ≫= parse_system_cpu;
  softirqs ← read (pr_softirqs p) ≫= parse_softirqs (softirq_names cfg);
  loadavg ← read (pr_loadavg p);
  pids ← read (pr_pids p);
  mret (Reading p cpu softirqs loadavg pids).

(** The processes of a reading that are monitored *)
Definition observed (p : proc) (pid : Z) : option (SchedEntityStat * ProcessIdentity) :=
  match read (pr_pid_stat p pid) ≫= parse_stat_line, pr_cmdline p pid with
  | inr stat, inr raw => pair stat <$> classify_process cfg stat (parse_cmdline raw)
  | _, _ => None
  end.

(** The threads that a process of a reading has; those of the kernel have none. *)
Definition tasks_of (p : proc) (pid : Z) : list Z :=
  match pr_tasks p pid with inl _ => [pid] | inr l => l end.

Definition task_stat (p : proc) (pid tid : Z) : option SchedEntityStat :=
  match read (pr_task_stat p pid tid) ≫= parse_stat_line with
  | inr stat => Some stat
  | inl _ => None
  end.

(** ** Times *)

Definition times (stat : SchedEntityStat) : Z * Z := (se_utime stat, se_stime stat).

(** The user and system time that the process [pid] that started at [start] had in
    the earlier reading *)
Definition time_before (prev : option reading) (pid start : Z) : option (Z * Z) :=
  r ← prev;
  '(stat, _) ← observed (rd_proc r) pid;
  if bool_decide (pid ∈ rd_pids r) && Z.eqb (se_starttime stat) start
  then Some (times stat) else None.

Definition thread_time_before (prev : option reading) (pid tid start : Z) :
    option (Z * Z) :=
  r ← prev;
  '(_, i) ← observed (rd_proc r) pid;
  stat ← task_stat (rd_proc r) pid tid;
  if bool_decide (pid ∈ rd_pids r) && negb (id_is_kernel i) &&
     bool_decide (tid ∈ tasks_of (rd_proc r) pid) && Z.eqb (se_starttime stat) start
  then Some (times stat) else None.

(** The ticks of an interval of [e] seconds in percent of one processor, none in
    an interval that has not passed *)
Definition percent (ticks : Z) (e : float) : float :=
  Float.mul (Float.of_Z (Z.max 0 ticks))
    (Float.div (Float.of_Z 100) (Float.mul (Float.of_Z clock_ticks) e)).

Definition usage_over (before : option (Z * Z)) (after : Z * Z) (e : float) : Usage :=
  match before with
  | Some (user, sys) =>
      if Float.leb e Float.zero then MkUsage Float.zero Float.zero Float.zero
      else
        let u := percent (after.1 - user) e in
        let s := percent (after.2 - sys) e in
        MkUsage (Float.add u s) u s
  | None => MkUsage Float.zero Float.zero Float.zero
  end.

Definition time_between (prev : option reading) (r : reading) : float :=
  match prev with
  | Some r0 =>
      Float.max (Float.sub (pr_monotonic (rd_proc r)) (pr_monotonic (rd_proc r0)))
        Float.zero
  | None => Float.zero
  end.

(** ** Threads and processes *)

(** No element belongs before the one that it follows. *)
Definition in_order {A} (before : A -> A -> bool) (l : list A) : Prop :=
  Sorted (fun a b => before b a = false) l.

Definition thread_measured (prev : option reading) (r : reading) (pid : Z)
    (process : SchedEntityStat) (i : ProcessIdentity) (tid : Z) :
    option ThreadRecord :=
  stat ← task_stat (rd_proc r) pid tid;
  Some (MkThread pid tid (se_comm process) (id_component i) (id_category i)
    (id_label i) (se_comm stat)
    (classify_thread_group (se_comm stat) pid tid false) (se_state stat)
    (read_wchan (rd_proc r) pid (Some tid))
    (usage_over (thread_time_before prev pid tid (se_starttime stat)) (times stat)
       (time_between prev r))).

Definition process_usage (prev : option reading) (r : reading) (pid : Z)
    (stat : SchedEntityStat) : Usage :=
  usage_over (time_before prev pid (se_starttime stat)) (times stat)
    (time_between prev r).

(** The process as its own thread, where it is one of the kernel or where none of
    its threads could be read *)
Definition process_thread (prev : option reading) (r : reading) (pid : Z)
    (stat : SchedEntityStat) (i : ProcessIdentity) : ThreadRecord :=
  MkThread pid pid (se_comm stat) (id_component i) (id_category i) (id_label i)
    (se_comm stat)
    (if id_is_kernel i then classify_thread_group (se_comm stat) pid pid true
     else "main") (se_state stat) (read_wchan (rd_proc r) pid None)
    (process_usage prev r pid stat).

Definition threads_measured (prev : option reading) (r : reading) (pid : Z)
    (stat : SchedEntityStat) (i : ProcessIdentity) : list ThreadRecord :=
  let tasks := omap (thread_measured prev r pid stat i) (tasks_of (rd_proc r) pid) in
  if id_is_kernel i || bool_decide (tasks = [])
  then [process_thread prev r pid stat i] else tasks.

Record process_measured (prev : option reading) (r : reading)
    (o : Z * SchedEntityStat * ProcessIdentity) (ps : ProcessRecord) : Prop := {
  pm_pid : ps_pid ps = o.1.1;
  pm_name : ps_process_name ps = se_comm o.1.2;
  pm_component : ps_component ps = id_component o.2;
  pm_category : ps_category ps = id_category o.2;
  pm_label : ps_label ps = id_label o.2;
  pm_cmdline : exists raw, pr_cmdline (rd_proc r) o.1.1 = inr raw /\
    ps_cmdline ps = parse_cmdline raw;
  pm_cpu : ps_cpu ps = process_usage prev r o.1.1 o.1.2;
  pm_threads : ps_threads ps ≡ₚ threads_measured prev r o.1.1 o.1.2 o.2;
  pm_order : in_order task_before (ps_threads ps);
  pm_count : ps_thread_count ps =
    if id_is_kernel o.2 then 1
    else Z.max (se_num_threads o.1.2) (Z.of_nat (length (ps_threads ps)));
}.

(** The processes of a reading that are monitored *)
Definition monitored (r : reading) : list (Z * SchedEntityStat * ProcessIdentity) :=
  omap (fun pid => (fun '(stat, i) => (pid, stat, i)) <$> observed (rd_proc r) pid)
    (rd_pids r).

(** ** Groups *)

Definition group_of (g : GroupRecord) : string * string * string :=
  (gr_component g, gr_category g, gr_thread_group g).

Definition sum_of (f : Usage -> float) (threads : list ThreadRecord) : float :=
  foldl (fun x t => Float.add x (f (th_cpu t))) Float.zero threads.

(** The threads are counted with a float. *)
Definition count_of (threads : list ThreadRecord) : Z :=
  Float.trunc (foldl (fun x _ => Float.add x (Float.of_Z 1)) Float.zero threads).

Definition group_measured (threads : list ThreadRecord) (g : GroupRecord) : Prop :=
  let own := List.filter (fun t => bool_decide (group_of g =
    (th_process_component t, th_process_category t, th_thread_group t))) threads in
  own <> [] /\ gr_threads g = count_of own /\
  gr_cpu g = MkUsage (sum_of total_pct own) (sum_of user_pct own)
               (sum_of system_pct own).

Record groups_measured (threads : list ThreadRecord) (gs : list GroupRecord) :
    Prop := {
  gm_each : Forall (group_measured threads) gs;
  gm_distinct : NoDup (map group_of gs);
  gm_all : Forall (fun t =>
    (th_process_component t, th_process_category t, th_thread_group t)
    ∈ map group_of gs) threads;
  gm_order : in_order group_before gs;
}.

(** ** The host *)

(** The share of busy ticks, where ticks have passed *)
Definition host_share (prev : option reading) (r : reading) : option float :=
  r0 ← prev;
  let busy_ticks := busy (rd_cpu r) - busy (rd_cpu r0) in
  match total (rd_cpu r) - total (rd_cpu r0) with
  | Zpos ticks =>
      Some (Float.max Float.zero
        (Float.mul (Float.int_div busy_ticks ticks) (Float.of_Z 100)))
  | _ => None
  end.

(** How often each kind of softirq ran on each processor; a processor that the
    earlier reading did not have counts from its first value. *)
Definition softirq_ran (prev : option reading) (r : reading) (name : string) :
    list Z :=
  let count r := default [] (rd_softirqs r !! name) in
  imap (fun cpu n => Z.max 0 (n - default n ((r0 ← prev; count r0 !! cpu) : option Z)))
    (count r).

Definition softirq_measured (prev : option reading) (r : reading) (name : string) :
    SoftirqRecord :=
  let l := softirq_ran prev r name in MkSoftirq name (foldr Z.add 0 l) l.

(** ** A measurement *)

Record measures (prev : option reading) (r : reading) (s : SnapshotState) : Prop := {
  me_at : sn_generated_at s = pr_utc_now (rd_proc r);
  me_elapsed : sn_elapsed_s s = time_between prev r;
  me_warmup : sn_warmup s = bool_decide (prev = None);
  me_cpus : sn_cpu_count s = cpu_count;
  me_host : sn_host_cpu_pct s = host_share prev r;
  me_loadavg : sn_loadavg s = rd_loadavg r;
  me_processes : exists l, sn_processes s ≡ₚ l /\
    Forall2 (process_measured prev r) (monitored r) l;
  me_process_order : in_order process_before (sn_processes s);
  me_threads : sn_threads s ≡ₚ (sn_processes s ≫= ps_threads);
  me_thread_order : in_order thread_before (sn_threads s);
  me_groups : groups_measured (sn_threads s) (sn_groups s);
  me_softirqs : sn_softirqs s = map (softirq_measured prev r) (softirq_names cfg);
}.
End Spec.

(** ** Sorting *)

(** Comparing the other way round *)
Lemma SFcompare_swap a b :
  SFcompare b a = (fun c => CompOpp c) <$> SFcompare a b.
Proof.
  destruct a as [s1 | s1 | | s1 m1 e1], b as [s2 | s2 | | s2 m2 e2]; simpl;
    try (by destruct s1); try (by destruct s2); try (by destruct s1, s2); try done.
  pose proof (Pos.compare_cont_antisym m1 m2 Eq) as Hm. simpl in Hm.
  rewrite (Z.compare_antisym e1 e2), <- Hm.
  destruct s1, s2, (Z.compare e1 e2); simpl; rewrite ?CompOpp_involutive; done.
Qed.

Lemma float_ltb_asym a b : Float.ltb a b = true -> Float.ltb b a = false.
Proof.
  unfold Float.ltb, SFltb. rewrite (SFcompare_swap a b).
  by destruct (SFcompare a b) as [[] |].
Qed.

Lemma float_eqb_sym a b : Float.eqb a b = Float.eqb b a.
Proof.
  unfold Float.eqb, SFeqb. rewrite (SFcompare_swap a b).
  by destruct (SFcompare a b) as [[] |].
Qed.

Definition asymmetric {A} (before : A -> A -> bool) : Prop :=
  forall a b, before a b = true -> before b a = false.

Lemma hotter_asym a b x y :
  (x = true -> y = false) -> hotter a b x = true -> hotter b a y = false.
Proof.
  intros H. unfold hotter. rewrite (float_eqb_sym (total_pct b)).
  destruct (Float.eqb _ _); [done | apply float_ltb_asym].
Qed.

Lemma string_ltb_asym a b : String.ltb a b = true -> String.ltb b a = false.
Proof.
  unfold String.ltb. rewrite (String.compare_antisym a b).
  by destruct (String.compare b a).
Qed.

Lemma str_then_asym a b x y :
  (x = true -> y = false) -> str_then a b x = true -> str_then b a y = false.
Proof.
  intros H. unfold str_then. rewrite (String.eqb_sym b a).
  destruct (String.eqb a b); [done | apply string_ltb_asym].
Qed.

Lemma int_then_asym a b x y :
  (x = true -> y = false) -> int_then a b x = true -> int_then b a y = false.
Proof.
  intros H. unfold int_then. rewrite (Z.eqb_sym b a).
  destruct (Z.eqb a b); [done | lia].
Qed.

Lemma task_before_asym : asymmetric task_before.
Proof. intros a b. apply hotter_asym. lia. Qed.
Lemma thread_before_asym : asymmetric thread_before.
Proof. intros a b. apply hotter_asym, int_then_asym. lia. Qed.
Lemma process_before_asym : asymmetric process_before.
Proof. intros a b. apply hotter_asym, str_then_asym. lia. Qed.
Lemma group_before_asym : asymmetric group_before.
Proof. intros a b. apply hotter_asym, str_then_asym, string_ltb_asym. Qed.

Section Sort.
Context {A : Type} (before : A -> A -> bool) (Hasym : asymmetric before).

Lemma insert_by_perm x l : insert_by before x l ≡ₚ x :: l.
Proof.
  induction l as [| y l IH]; simpl; [done |].
  destruct (before y x); [| done]. by rewrite IH, Permutation_swap.
Qed.

Lemma sort_by_perm l : sort_by before l ≡ₚ l.
Proof.
  induction l as [| x l IH]; [done |]. simpl.
  by rewrite insert_by_perm, IH.
Qed.

Lemma insert_by_in_order x l : in_order before l -> in_order before (insert_by before x l).
Proof.
  unfold in_order. induction 1 as [| y l Hl IH Hy]; simpl; [by repeat constructor |].
  destruct (before y x) eqn:Hyx; [| by repeat constructor].
  constructor; [done |].
  destruct l as [| z l]; simpl; [constructor; by apply Hasym |].
  apply HdRel_inv in Hy. destruct (before z x); constructor; [done | by apply Hasym].
Qed.

Lemma sort_by_in_order l : in_order before (sort_by before l).
Proof.
  induction l as [| x l IH]; [constructor | by apply insert_by_in_order].
Qed.
End Sort.
End CpuMeasures.
