(* ===== verification/CpuMonitorProofs.v ===== *)
(** * Theorems about the CPU monitor

    The monitor keeps the last sample in its attributes, changes them while it
    collects, and may fail in the middle.  What it shows is the series of
    measurements, in the sense of [CpuMeasures], between consecutive readings that
    succeeded. *)

From stdpp Require Import base option list strings gmap.
From Stdlib Require Import ZArith Lia Ascii.
From S2P Require Import Prelude Strings Binary64 Python Procfs CpuMonitor CpuMeasures.

Local Open Scope Z_scope.
Local Open Scope string_scope.

Module CpuProofs.
Import Procfs CpuMonitor CpuMeasures.

Section Spec.
Context (cfg : Settings) (cpu_count clock_ticks : Z).

Definition process_time (p : proc) (pid : Z) : option ((Z * Z) * (Z * Z)) :=
  (fun '(stat, _) => ((pid, se_starttime stat), (se_utime stat, se_stime stat)))
  <$> observed cfg p pid.

Definition task_time (p : proc) (pid tid : Z) : option ((Z * Z * Z) * (Z * Z)) :=
  (fun stat => ((pid, tid, se_starttime stat), (se_utime stat, se_stime stat)))
  <$> task_stat p pid tid.

Definition task_times (p : proc) (pid : Z) : list ((Z * Z * Z) * (Z * Z)) :=
  match observed cfg p pid with
  | Some (_, i) =>
      if id_is_kernel i then []
      else omap (task_time p pid) (tasks_of p pid)
  | None => []
  end.

(** The attributes that a collection compares with, after the reading [r] *)
Definition base (r : option reading) : monitor :=
  match r with
  | None => created
  | Some r =>
      Monitor None [] None (Some (pr_monotonic (rd_proc r))) (Some (rd_cpu r))
        (Some (rd_softirqs r))
        (assigned (omap (process_time (rd_proc r)) (rd_pids r)))
        (assigned (rd_pids r ≫= task_times (rd_proc r)))
  end.

Definition elapsed (prev : option float) (r : reading) : float :=
  Float.max match prev with
            | Some t => Float.sub (pr_monotonic (rd_proc r)) t
            | None => Float.zero
            end Float.zero.

Definition snapshot_from (m : monitor) (r : reading) : SnapshotState :=
  let e := elapsed (mo_prev_ts m) r in
  let samples := omap (sample_pid cfg clock_ticks (rd_proc r) m e) (rd_pids r) in
  let threads := sort_by thread_before
    (samples ≫= fun sa => ps_threads (sa_process sa)) in
  MkSnapshot (pr_utc_now (rd_proc r)) e
    match mo_prev_ts m with None => true | Some _ => false end cpu_count
    (compute_host_cpu_pct (mo_prev_system_cpu m) (rd_cpu r)) (rd_loadavg r)
    (sort_by process_before (map sa_process samples)) threads
    (aggregate_groups threads)
    (compute_softirq_records cfg (mo_prev_softirqs m) (rd_softirqs r)).

Definition snapshot_of (prev : option reading) (r : reading) : SnapshotState :=
  snapshot_from (base prev) r.

(** ** One collection *)

Lemma sample_tasks_times p prev e pid name i tids :
  map snd (sample_tasks clock_ticks p prev e pid name i tids) =
    omap (task_time p pid) tids.
Proof.
  unfold task_time, task_stat. induction tids as [| tid tids IH]; [done |]. cbn [sample_tasks omap list_omap].
  destruct (read (pr_task_stat p pid tid) ≫= parse_stat_line); [done |].
  simpl. by rewrite IH.
Qed.

Lemma sample_pid_times p m e pid :
  sa_time <$> sample_pid cfg clock_ticks p m e pid = process_time p pid /\
  from_option sa_task_times [] (sample_pid cfg clock_ticks p m e pid) =
    task_times p pid.
Proof.
  unfold sample_pid, process_time, task_times, observed.
  destruct (read (pr_pid_stat p pid) ≫= parse_stat_line) as [| stat]; [done |].
  destruct (pr_cmdline p pid) as [| raw]; [done |].
  destruct (classify_process cfg stat (parse_cmdline raw)) as [i |]; [| done].
  simpl. destruct (id_is_kernel i); [done |]. simpl.
  by rewrite sample_tasks_times.
Qed.

Lemma samples_times p m e pids :
  let samples := omap (sample_pid cfg clock_ticks p m e) pids in
  map sa_time samples = omap (process_time p) pids /\
  (samples ≫= sa_task_times) = (pids ≫= task_times p).
Proof.
  induction pids as [| pid pids [IH1 IH2]]; [done |]. simpl.
  destruct (sample_pid_times p m e pid) as [H1 H2]. rewrite <- H1, <- H2.
  destruct (sample_pid _ _ _ _ _ _) as [sa |]; simpl; split;
    [exact (f_equal (cons _) IH1) | exact (f_equal (app _) IH2) | exact IH1 | exact IH2].
Qed.

(** ** A snapshot is a measurement *)

(** A dict with assignments that do not contradict each other *)
Lemma lookup_assigned `{Countable K} {V} (l : list (K * V)) k v :
  (forall k v v', (k, v) ∈ l -> (k, v') ∈ l -> v = v') ->
  assigned l !! k = Some v <-> (k, v) ∈ l.
Proof.
  unfold assigned. induction l as [| [k0 v0] l IH] using rev_ind; intros Hl.
  { simpl. rewrite lookup_empty. split; [done | by intros ?%elem_of_nil]. }
  rewrite foldl_app, elem_of_app, list_elem_of_singleton. simpl.
  destruct (decide (k0 = k)) as [-> | Hk].
  - rewrite lookup_insert_eq. split; [intros [= ->]; by right |].
    intros Hin. f_equal. apply (Hl k); rewrite elem_of_app, list_elem_of_singleton;
      [by right | destruct Hin as [? | [= ->]]; [by left | by right]].
  - rewrite lookup_insert_ne by done. rewrite IH.
    + split; [by left | intros [? | [= ? ?]]; done].
    + intros k' v' v'' ??. apply (Hl k'); apply elem_of_app; by left.
Qed.

Lemma base_process_time prev pid start :
  mo_prev_process_times (base prev) !! (pid, start) = time_before cfg prev pid start.
Proof.
  destruct prev as [r |]; [| done]. apply option_eq. intros v. simpl.
  assert (forall k v, (k, v) ∈ omap (process_time (rd_proc r)) (rd_pids r) <->
    exists stat i, k.1 ∈ rd_pids r /\ observed cfg (rd_proc r) k.1 = Some (stat, i) /\
      k.2 = se_starttime stat /\ v = times stat) as Hin.
  { intros [k1 k2] w. rewrite list_elem_of_omap. unfold process_time. split.
    - intros (x & Hx & Ho). apply fmap_Some in Ho as ([stat i] & Ho & [= -> -> ->]).
      exists stat, i. done.
    - intros (stat & i & Hx & Ho & Hk & ->). simpl in *. exists k1.
      split; [done |]. rewrite Ho. simpl. by rewrite Hk. }
  rewrite lookup_assigned.
  - rewrite Hin. unfold time_before. simpl. split.
    + intros (stat & i & Hp & -> & -> & ->). simpl.
      by rewrite bool_decide_true, Z.eqb_refl by done.
    + destruct (observed cfg (rd_proc r) pid) as [[stat i] |]; [| done]. simpl.
      destruct (bool_decide_reflect (pid ∈ rd_pids r)); [| done]. simpl.
      destruct (Z.eqb_spec (se_starttime stat) start); [| done]. intros [= <-].
      eauto 10.
  - intros k v1 v2. rewrite !Hin. intros (?&?&_&H1&_&->) (?&?&_&H2&_&->).
    congruence.
Qed.

Lemma base_thread_time prev pid tid start :
  mo_prev_thread_times (base prev) !! (pid, tid, start) =
    thread_time_before cfg prev pid tid start.
Proof.
  destruct prev as [r |]; [| done]. apply option_eq. intros v. simpl.
  assert (forall k v, (k, v) ∈ (rd_pids r ≫= task_times (rd_proc r)) <->
    exists st i stat, k.1.1 ∈ rd_pids r /\
      observed cfg (rd_proc r) k.1.1 = Some (st, i) /\ id_is_kernel i = false /\
      k.1.2 ∈ tasks_of (rd_proc r) k.1.1 /\
      task_stat (rd_proc r) k.1.1 k.1.2 = Some stat /\
      k.2 = se_starttime stat /\ v = times stat) as Hin.
  { intros [[k1 k2] k3] w. rewrite list_elem_of_bind. unfold task_times. split.
    - intros (x & Ho & Hx).
      destruct (observed cfg (rd_proc r) x) as [[st i] |] eqn:Hob;
        [| by apply elem_of_nil in Ho].
      destruct (id_is_kernel i) eqn:Hk; [by apply elem_of_nil in Ho |].
      apply list_elem_of_omap in Ho as (t & Ht & Ho). unfold task_time in Ho.
      apply fmap_Some in Ho as (stat & Hs & [= -> -> -> ->]). eauto 20.
    - intros (st & i & stat & Hp & Ho & Hk & Ht & Hs & He & ->). simpl in *.
      exists k1. split; [| done]. rewrite Ho, Hk. apply list_elem_of_omap.
      exists k2. split; [done |]. unfold task_time. rewrite Hs. simpl. by rewrite He. }
  rewrite lookup_assigned.
  - rewrite Hin. unfold thread_time_before. simpl. split.
    + intros (st & i & stat & Hp & -> & Hk & Ht & -> & -> & ->). simpl.
      by rewrite !bool_decide_true, Hk, Z.eqb_refl by done.
    + destruct (observed cfg (rd_proc r) pid) as [[st i] |]; [| done]. simpl.
      destruct (task_stat (rd_proc r) pid tid) as [stat |]; [| done]. simpl.
      destruct (bool_decide_reflect (pid ∈ rd_pids r)); [| done].
      destruct (id_is_kernel i) eqn:Hk; [done |].
      destruct (bool_decide_reflect (tid ∈ tasks_of (rd_proc r) pid)); [| done]. simpl.
      destruct (Z.eqb_spec (se_starttime stat) start); [| done]. intros [= <-].
      by exists st, i, stat.
  - intros k v1 v2. rewrite !Hin.
    intros (?&?&?&_&_&_&_&H1&_&->) (?&?&?&_&_&_&_&H2&_&->). congruence.
Qed.

Lemma calculate_usage_over before u s e :
  calculate_usage clock_ticks before u s e = usage_over clock_ticks before (u, s) e.
Proof. by destruct before as [[] |]. Qed.

Lemma elapsed_between prev r : elapsed (mo_prev_ts (base prev)) r = time_between prev r.
Proof. by destruct prev. Qed.

Lemma sample_tasks_measured prev r pid stat i tids :
  map fst (sample_tasks clock_ticks (rd_proc r) (mo_prev_thread_times (base prev))
             (time_between prev r) pid (se_comm stat) i tids) =
    omap (thread_measured cfg clock_ticks prev r pid stat i) tids.
Proof.
  unfold thread_measured, task_stat.
  induction tids as [| tid tids IH]; [done |]. cbn [sample_tasks omap list_omap].
  destruct (read (pr_task_stat (rd_proc r) pid tid) ≫= parse_stat_line) as [| st];
    [exact IH |]. cbn [map fst]. rewrite IH. f_equal.
  unfold thread_record. f_equal. by rewrite calculate_usage_over, base_thread_time.
Qed.

Lemma sample_pid_measured prev r pid :
  match observed cfg (rd_proc r) pid,
        sample_pid cfg clock_ticks (rd_proc r) (base prev) (time_between prev r) pid with
  | Some (stat, i), Some sa =>
      process_measured cfg clock_ticks prev r (pid, stat, i) (sa_process sa)
  | None, None => True
  | _, _ => False
  end.
Proof.
  unfold sample_pid, observed.
  destruct (read (pr_pid_stat (rd_proc r) pid) ≫= parse_stat_line) as [| stat]; [done |].
  destruct (pr_cmdline (rd_proc r) pid) as [| raw] eqn:Hraw; [done |].
  destruct (classify_process cfg stat (parse_cmdline raw)) as [i |]; [| done].
  simpl. rewrite calculate_usage_over, base_process_time.
  fold (times stat). fold (process_usage cfg clock_ticks prev r pid stat).
  destruct (id_is_kernel i) eqn:Hk.
  - split; simpl; rewrite ?Hk; try done; [by eauto | | by repeat constructor].
    unfold threads_measured, process_thread. by rewrite Hk.
  - rewrite sample_tasks_measured. fold (tasks_of (rd_proc r) pid).
    set (tasks := omap _ (tasks_of (rd_proc r) pid)).
    assert (match tasks with
            | [] => [thread_record pid pid (se_comm stat) i (se_comm stat) "main"
                       (se_state stat) (read_wchan (rd_proc r) pid None)
                       (process_usage cfg clock_ticks prev r pid stat)]
            | t :: ts => t :: ts
            end = threads_measured cfg clock_ticks prev r pid stat i) as ->.
    { unfold threads_measured, process_thread. fold tasks. rewrite Hk.
      by destruct tasks. }
    split; simpl; rewrite ?Hk; try done; [by eauto | by apply sort_by_perm |].
    by apply sort_by_in_order, task_before_asym.
Qed.

Lemma samples_measured prev r :
  Forall2 (process_measured cfg clock_ticks prev r) (monitored cfg r)
    (map sa_process (omap (sample_pid cfg clock_ticks (rd_proc r) (base prev)
       (time_between prev r)) (rd_pids r))).
Proof.
  unfold monitored. induction (rd_pids r) as [| pid pids IH]; [constructor |].
  pose proof (sample_pid_measured prev r pid) as H. simpl.
  destruct (observed cfg (rd_proc r) pid) as [[stat i] |], (sample_pid _ _ _ _ _ pid);
    simpl; try done. by constructor.
Qed.

(** *** Groups *)

Definition members (k : group_key) (threads : list ThreadRecord) : list ThreadRecord :=
  List.filter (fun t => bool_decide (k = key_of t)) threads.

Definition summed (threads : list ThreadRecord) : totals :=
  foldl (fun v t => add_thread t v)
    (Totals Float.zero Float.zero Float.zero Float.zero) threads.

Record counted (threads : list ThreadRecord) (groups : list (group_key * totals)) :
    Prop := {
  co_each : Forall (fun '(k, v) => members k threads <> [] /\
                      v = summed (members k threads)) groups;
  co_distinct : NoDup groups.*1;
  co_all : Forall (fun t => key_of t ∈ groups.*1) threads;
}.

Lemma members_snoc k threads t :
  members k (threads ++ [t]) =
    (members k threads ++ if bool_decide (k = key_of t) then [t] else [])%list.
Proof. unfold members. rewrite List.filter_app. simpl. by case_bool_decide. Qed.

Lemma count_thread_keys t groups :
  (key_of t ∈ groups.*1 -> (count_thread t groups).*1 = groups.*1) /\
  (key_of t ∉ groups.*1 ->
   count_thread t groups = (groups ++ [(key_of t, add_thread t
     (Totals Float.zero Float.zero Float.zero Float.zero))])%list).
Proof.
  induction groups as [| [k v] groups [IH1 IH2]]; simpl.
  { split; [by intros ?%elem_of_nil | done]. }
  case_bool_decide as Hk.
  - split; [done |]. intros []. subst. by left.
  - rewrite elem_of_cons. split.
    + intros [? | Hin]; [by subst |]. exact (f_equal (cons k) (IH1 Hin)).
    + intros Hn. rewrite IH2; [done |]. tauto.
Qed.

Lemma count_thread_in t groups k v :
  NoDup groups.*1 -> (k, v) ∈ count_thread t groups -> key_of t ∈ groups.*1 ->
  exists v0, (k, v0) ∈ groups /\
    v = if bool_decide (k = key_of t) then add_thread t v0 else v0.
Proof.
  induction groups as [| [k0 v0] groups IH]; simpl; [by intros _ _ ?%elem_of_nil |].
  intros [Hn Hnd]%NoDup_cons.
  destruct (bool_decide_reflect (k0 = key_of t)) as [Hk | Hk].
  - intros [[= -> ->] | Hin]%elem_of_cons _.
    + exists v0. rewrite bool_decide_true by done. split; [by left | done].
    + exists v. split; [by right |]. rewrite bool_decide_false; [done |].
      intros He. apply Hn. rewrite Hk, <- He. by apply (list_elem_of_fmap_2 fst) in Hin.
  - intros [[= -> ->] | Hin]%elem_of_cons Hin'.
    + exists v0. rewrite bool_decide_false by done. split; [by left | done].
    + apply elem_of_cons in Hin' as [? | Hin']; [by subst |].
      destruct (IH Hnd Hin Hin') as (v1 & ? & ?). exists v1. split; [by right | done].
Qed.

Lemma count_thread_counted threads groups t :
  counted threads groups -> counted (threads ++ [t]) (count_thread t groups).
Proof.
  intros [He Hd Ha]. rewrite Forall_forall in He.
  destruct (count_thread_keys t groups) as [Hin Hout].
  destruct (decide (key_of t ∈ groups.*1)) as [Hk | Hk].
  - specialize (Hin Hk). split.
    + apply Forall_forall. intros [k v] Hkv.
      destruct (count_thread_in t groups k v Hd Hkv Hk) as (v0 & Hv0 & ->).
      destruct (He _ Hv0) as [Hne ->]. rewrite members_snoc.
      split; [by destruct (members k threads) |].
      case_bool_decide; [| by rewrite app_nil_r].
      unfold summed. by rewrite foldl_app.
    + by rewrite Hin.
    + rewrite Hin. apply Forall_app. by split; [| repeat constructor].
  - rewrite (Hout Hk). split.
    + apply Forall_app. split.
      * apply Forall_forall. intros [k v] Hkv. destruct (He _ Hkv) as [Hne Hv].
        rewrite members_snoc, bool_decide_false, app_nil_r; [done |].
        intros ->. apply Hk. by apply (list_elem_of_fmap_2 fst) in Hkv.
      * repeat constructor; rewrite members_snoc, bool_decide_true by done.
        { by destruct (members _ _). }
        assert (members (key_of t) threads = []) as ->; [| done].
        unfold members. clear -Ha Hk. induction Ha as [| t' l Ht Ha IH]; [done |]. simpl.
        rewrite bool_decide_false; [done |]. intros He. by rewrite He in Hk.
    + rewrite fmap_app. apply NoDup_app. split; [done |]. split.
      * intros x Hx. simpl. rewrite list_elem_of_singleton. by intros ->.
      * apply NoDup_singleton.
    + rewrite fmap_app. apply Forall_app. split.
      * eapply Forall_impl; [exact Ha |]. intros x Hx. apply elem_of_app. by left.
      * repeat constructor. apply elem_of_app. right. by left.
Qed.

Lemma counted_all threads :
  counted threads (foldl (fun groups t => count_thread t groups) [] threads).
Proof.
  induction threads as [| t threads IH] using rev_ind; [by repeat constructor |].
  rewrite foldl_app. by apply count_thread_counted.
Qed.

Lemma summed_eq threads :
  summed threads = Totals (sum_of total_pct threads) (sum_of user_pct threads)
    (sum_of system_pct threads)
    (foldl (fun x _ => Float.add x (Float.of_Z 1)) Float.zero threads).
Proof.
  unfold summed, sum_of. induction threads as [| t threads IH] using rev_ind; [done |].
  by rewrite !foldl_app, IH.
Qed.

Lemma aggregate_groups_measured threads :
  groups_measured threads (aggregate_groups threads).
Proof.
  destruct (counted_all threads) as [He Hd Ha]. unfold aggregate_groups.
  set (groups := foldl _ [] threads) in *.
  set (f := fun '((component, category, thread_group), v) => MkGroup component category
    thread_group (Float.trunc (to_count v))
    (MkUsage (to_total v) (to_user v) (to_system v))).
  assert (forall l, map group_of (map f l) = l.*1) as Hkeys.
  { intros l. induction l as [| [[[a b] c] v] l IH]; simpl; [done |]. by f_equal. }
  assert (map group_of (sort_by group_before (map f groups)) ≡ₚ groups.*1) as Hp.
  { by rewrite sort_by_perm, Hkeys. }
  split.
  - rewrite sort_by_perm. apply Forall_map. eapply Forall_impl; [exact He |].
    intros [[[a b] c] v] [Hne ->]. rewrite summed_eq. done.
  - by rewrite Hp.
  - eapply Forall_impl; [exact Ha |]. intros t Ht. by rewrite Hp.
  - apply sort_by_in_order, group_before_asym.
Qed.

(** *** The host *)

Lemma softirq_delta_imap (l prev : list Z) :
  softirq_delta prev l = imap (fun i n => Z.max 0 (n - default n (prev !! i))) l.
Proof.
  revert prev. induction l as [| n l IH]; intros prev; [done |]. simpl. f_equal.
  - by destruct prev.
  - rewrite IH. apply imap_ext. intros i x _. simpl. by destruct prev.
Qed.

Lemma foldl_add (l : list Z) z : foldl Z.add z l = (z + foldr Z.add 0 l)%Z.
Proof. revert z. induction l as [| x l IH]; intros z; simpl; [lia |]. rewrite IH. lia. Qed.

Lemma softirq_records_measured prev r :
  compute_softirq_records cfg (mo_prev_softirqs (base prev)) (rd_softirqs r) =
    map (softirq_measured prev r) (softirq_names cfg).
Proof.
  unfold compute_softirq_records. apply map_ext. intros name.
  unfold softirq_measured, softirq_ran.
  assert (forall l, softirq_delta
    (default [] (default ∅ (mo_prev_softirqs (base prev)) !! name)) l =
    imap (fun cpu n => Z.max 0 (n - default n
      (prev ≫= fun r0 => default [] (rd_softirqs r0 !! name) !! cpu))) l) as Hl.
  { intros l. rewrite softirq_delta_imap. by destruct prev. }
  rewrite Hl, foldl_add. done.
Qed.

Lemma snapshot_measures prev r :
  measures cfg cpu_count clock_ticks prev r (snapshot_from (base prev) r).
Proof.
  unfold snapshot_from. rewrite elapsed_between. split; simpl; try done.
  - by destruct prev.
  - by destruct prev.
  - eexists. split; [apply sort_by_perm | apply samples_measured].
  - apply sort_by_in_order, process_before_asym.
  - rewrite !sort_by_perm. induction (omap _ (rd_pids r)) as [| sa l IH]; [done |].
    simpl. by rewrite IH.
  - apply sort_by_in_order, thread_before_asym.
  - apply aggregate_groups_measured.
  - apply softirq_records_measured.
Qed.

(** What a collection compares with, of two states of the service *)
Definition same_base (m m' : monitor) : Prop :=
  mo_prev_ts m = mo_prev_ts m' /\
  mo_prev_system_cpu m = mo_prev_system_cpu m' /\
  mo_prev_softirqs m = mo_prev_softirqs m' /\
  mo_prev_process_times m = mo_prev_process_times m' /\
  mo_prev_thread_times m = mo_prev_thread_times m'.

Lemma snapshot_from_base m m' r :
  same_base m m' -> snapshot_from m r = snapshot_from m' r.
Proof.
  intros (H1 & H2 & H3 & H4 & H5). unfold snapshot_from, sample_pid.
  by rewrite H1, H2, H3, H4, H5.
Qed.

Lemma collect_snapshot_eq p m :
  match parsed cfg p with
  | inl x => collect_snapshot cfg cpu_count clock_ticks p m = (inl x, m)
  | inr r => exists m', collect_snapshot cfg cpu_count clock_ticks p m =
        (inr (snapshot_from m r), m') /\ same_base m' (base (Some r)) /\
      mo_history m' = mo_history m
  end.
Proof.
  unfold parsed, collect_snapshot. unfold lift, mbind, M_bind, result_bind. simpl.
  destruct (read (pr_stat p)) as [| text]; [done |].
  destruct (parse_system_cpu text); [done |].
  destruct (read (pr_softirqs p)) as [| text']; [done |].
  destruct (parse_softirqs _ text'); [done |].
  destruct (read (pr_loadavg p)); [done |].
  destruct (read (pr_pids p)) as [| pids]; [done |]. simpl.
  eexists. split; [| split].
  - reflexivity.
  - match goal with |- context [sample_pid _ _ _ _ ?e] =>
      destruct (samples_times p m e pids) as [H1 H2] end.
    repeat split; simpl; [by rewrite <- H1 | by rewrite <- H2].
  - done.
Qed.

(** ** A series of collections *)

Definition refresh_all (ps : list proc) : monitor :=
  foldl (fun m p => refresh_safely cfg cpu_count clock_ticks p m) created ps.

Definition readings (ps : list proc) : list reading :=
  omap (fun p => match parsed cfg p with inl _ => None | inr r => Some r end) ps.

(** Each reading with the one before it *)
Definition intervals (rs : list reading) : list (option reading * reading) :=
  zip (None :: map Some rs) rs.

Definition lastn {A} (n : nat) (l : list A) : list A := drop (length l - n) l.

Lemma deque_append_lastn {A} n (l : list A) x :
  deque_append n (lastn n l) x = lastn n (l ++ [x]).
Proof.
  unfold deque_append, lastn. rewrite !length_app, length_drop. simpl.
  destruct (decide (n = 0%nat)) as [-> | Hn].
  { rewrite !drop_ge; rewrite ?length_app, ?length_drop; simpl; done || lia. }
  destruct (decide (length l <= n)%nat) as [Hle | Hgt].
  - replace (length l - n)%nat with 0%nat by lia. simpl. f_equal. lia.
  - rewrite !drop_app_le by (rewrite ?length_drop; lia).
    rewrite drop_drop. f_equal. f_equal. lia.
Qed.

Lemma zip_shift (l : list reading) o r :
  zip (o :: map Some (l ++ [r])) (l ++ [r]) =
    (zip (o :: map Some l) l ++
     [(match last l with Some x => Some x | None => o end, r)])%list.
Proof.
  revert o. induction l as [| x l IH]; intros o; [done |].
  specialize (IH (Some x)). cbn [app map zip zip_with] in *. rewrite IH.
  rewrite last_cons. by destruct (last l).
Qed.

Lemma intervals_snoc rs r :
  intervals (rs ++ [r]) = (intervals rs ++ [(last rs, r)])%list.
Proof. unfold intervals. rewrite zip_shift. by destruct (last rs). Qed.

Record shows (ps : list proc) (m : monitor) : Prop := {
  sh_base : same_base m (base (last (readings ps)));
  sh_history : mo_history m = lastn (history_size cfg)
    (map (fun '(a, b) => build_history_point cfg (snapshot_of a b))
       (intervals (readings ps)));
  sh_snapshot : mo_snapshot m =
    (fun '(a, b) => snapshot_of a b) <$> last (intervals (readings ps));
  sh_error : mo_last_error m =
    match last ps with
    | Some p => match parsed cfg p with inl x => Some (exn_text x) | inr _ => None end
    | None => None
    end;
}.

Lemma readings_snoc ps p :
  readings (ps ++ [p]) =
    (readings ps ++ match parsed cfg p with inl _ => [] | inr r => [r] end)%list.
Proof. unfold readings. rewrite omap_app. simpl. by destruct (parsed cfg p). Qed.

Lemma refresh_shows ps p m :
  shows ps m -> shows (ps ++ [p]) (refresh_safely cfg cpu_count clock_ticks p m).
Proof.
  intros [Hb Hh Hs He]. unfold refresh_safely, collect_now.
  unfold mbind, M_bind. pose proof (collect_snapshot_eq p m) as Hc.
  pose proof (readings_snoc ps p) as Hr.
  destruct (parsed cfg p) as [x | r] eqn:Hp.
  - rewrite Hc. rewrite app_nil_r in Hr. split; rewrite ?Hr; try done.
    by rewrite last_snoc, Hp.
  - destruct Hc as (m' & -> & Hb' & Hh'). simpl.
    rewrite (snapshot_from_base _ _ _ Hb). fold (snapshot_of (last (readings ps)) r).
    split; rewrite ?Hr, ?intervals_snoc, ?map_app, ?last_snoc; simpl; try done.
    + by rewrite Hh', Hh, deque_append_lastn.
    + by rewrite Hp.
Qed.

Lemma refresh_all_shows ps : shows ps (refresh_all ps).
Proof.
  induction ps as [| p ps IH] using rev_ind; [by split |].
  unfold refresh_all. rewrite foldl_app. by apply refresh_shows.
Qed.

Lemma lastn_map {A B} (f : A -> B) n l : lastn n (map f l) = map f (lastn n l).
Proof. unfold lastn. by rewrite length_map, <- (fmap_drop f). Qed.

(** C28: The monitor shows measurements between consecutive readings.  After any
    series of collections the snapshot is a measurement between the last two
    collections that succeeded: the usage of each monitored process and thread is
    the difference of its times in the two readings, over the time that passed,
    and none where the earlier reading does not have it; the lists are complete
    and in the order of usage, and each group has the sums of its threads.  The
    history has the points of the last [history_size] such measurements in their
    order, and the error is that of the last collection if it failed.  A
    collection that fails in the middle leaves no trace but the error. *)
Theorem cpu_monitor_measures_intervals ps :
  let m := refresh_all ps in
  Forall2 (fun '(a, b) point => exists s, measures cfg cpu_count clock_ticks a b s /\
             point = build_history_point cfg s)
    (lastn (history_size cfg) (intervals (readings ps))) (mo_history m) /\
  match last (intervals (readings ps)) with
  | Some (a, b) => exists s, mo_snapshot m = Some s /\
      measures cfg cpu_count clock_ticks a b s
  | None => mo_snapshot m = None
  end /\
  mo_last_error m =
    match last ps with
    | Some p => match parsed cfg p with inl x => Some (exn_text x) | inr _ => None end
    | None => None
    end.
Proof.
  destruct (refresh_all_shows ps) as [_ Hh Hs He]. simpl. split; [| split; [| done]].
  - rewrite Hh, lastn_map. apply Forall2_fmap_r, Forall_Forall2_diag, Forall_true.
    intros [a b]. eexists. split; [apply snapshot_measures | done].
  - rewrite Hs. destruct (last _) as [[a b] |]; [| done]. simpl. eexists.
    split; [done | apply snapshot_measures].
Qed.

(** ** Queries *)

Definition thread_selected (component thread_group : option string)
    (min_cpu_pct : float) (t : ThreadRecord) : bool :=
  passes component (th_process_component t) && passes thread_group (th_thread_group t)
  && negb (Float.ltb (total_pct (th_cpu t)) min_cpu_pct).

Definition process_spikes (component : option string) (threshold : float)
    (r : ProcessRecord) : bool :=
  passes component (ps_component r) && negb (Float.ltb (total_pct (ps_cpu r)) threshold).

Definition point_spikes (component : option string) (threshold : float)
    (point : CpuHistoryPoint) : list CpuSpike :=
  map (spike point) (List.filter (process_spikes component threshold)
                       (hp_components point)).

(** A limit of 0 is as one of 1: the loops look at it after they found one. *)
Abbreviation at_least_one limit := (Nat.max 1 limit).

Lemma take_more {A} n (l l' : list A) :
  (n <= length l)%nat -> take n (l ++ l') = take n l.
Proof. intros H. by rewrite take_app_le. Qed.

Lemma snoc_cons {A} (l : list A) x l' : (l ++ x :: l' = (l ++ [x]) ++ l')%list.
Proof. by rewrite <- app_assoc. Qed.

Lemma select_threads_eq component thread_group limit min_cpu sel l :
  (length sel < at_least_one limit)%nat ->
  select_threads component thread_group limit min_cpu sel l =
    take (at_least_one limit) (sel ++ map thread_model
      (List.filter (thread_selected component thread_group min_cpu) l)).
Proof.
  revert sel. induction l as [| t l IH]; intros sel Hsel; cbn [select_threads].
  { rewrite app_nil_r, take_ge; [done | lia]. }
  assert (thread_selected component thread_group min_cpu t =
    passes component (th_process_component t) &&
    passes thread_group (th_thread_group t) &&
    negb (Float.ltb (total_pct (th_cpu t)) min_cpu)) as Ht by done.
  cbn [List.filter]. rewrite Ht. clear Ht.
  destruct (passes component (th_process_component t)); simpl; [| by apply IH].
  destruct (passes thread_group (th_thread_group t)); simpl; [| by apply IH].
  destruct (Float.ltb (total_pct (th_cpu t)) min_cpu); simpl; [by apply IH |].
  rewrite (snoc_cons sel _ (map _ _)), (length_app sel). simpl.
  destruct (limit <=? length sel + 1)%nat eqn:Hl.
  - apply Nat.leb_le in Hl. rewrite take_more by (rewrite length_app; simpl; lia).
    rewrite take_ge; [done |]. rewrite length_app. simpl. lia.
  - apply Nat.leb_gt in Hl. apply IH. rewrite length_app. simpl. lia.
Qed.

Lemma spikes_of_eq component threshold limit point sel l :
  (length sel < at_least_one limit)%nat ->
  let all := (sel ++ map (spike point)
                (List.filter (process_spikes component threshold) l))%list in
  match spikes_of component threshold limit point sel l with
  | inl found => found = take (at_least_one limit) all /\
                 (at_least_one limit <= length all)%nat
  | inr found => found = all /\ (length all < at_least_one limit)%nat
  end.
Proof.
  revert sel. induction l as [| r l IH]; intros sel Hsel; cbn [spikes_of].
  { simpl. by rewrite app_nil_r. }
  assert (process_spikes component threshold r =
    passes component (ps_component r) &&
    negb (Float.ltb (total_pct (ps_cpu r)) threshold)) as Hr by done.
  cbn [List.filter]. rewrite Hr. clear Hr.
  destruct (passes component (ps_component r)); simpl; [| by apply IH].
  destruct (Float.ltb (total_pct (ps_cpu r)) threshold); simpl; [by apply IH |].
  rewrite (snoc_cons sel _ (map _ _)), (length_app sel). simpl.
  destruct (limit <=? length sel + 1)%nat eqn:Hl.
  - apply Nat.leb_le in Hl. rewrite take_more by (rewrite length_app; simpl; lia).
    rewrite take_ge by (rewrite length_app; simpl; lia).
    split; [done |]. rewrite !length_app. simpl. lia.
  - apply Nat.leb_gt in Hl. apply IH. rewrite length_app. simpl. lia.
Qed.

Lemma spikes_in_eq component threshold limit sel points :
  (length sel < at_least_one limit)%nat ->
  spikes_in component threshold limit sel points =
    take (at_least_one limit) (sel ++ flat_map (point_spikes component threshold) points).
Proof.
  revert sel. induction points as [| point points IH]; intros sel Hsel; simpl.
  { rewrite app_nil_r, take_ge; [done | lia]. }
  pose proof (spikes_of_eq component threshold limit point sel
    (hp_components point) Hsel) as H. unfold point_spikes at 1.
  rewrite app_assoc. destruct (spikes_of _ _ _ _ _ _); destruct H as [-> H].
  - symmetry. by apply take_more.
  - by apply IH.
Qed.

(** The queries with early exits return what they describe: [get_threads]
    the first threads of the snapshot that pass the filters, [find_spikes] the
    newest components of the history that reach the threshold, newest point
    first, each cut at the limit; without data both answer 503. *)
Theorem cpu_queries_exact component thread_group limit pct m :
  get_threads component thread_group limit pct m =
    match mo_snapshot m with
    | None => inl (not_ready m "CPU monitor has not produced a snapshot yet.")
    | Some s => inr (take (at_least_one limit) (map thread_model
        (List.filter (thread_selected component thread_group pct) (sn_threads s))))
    end /\
  find_spikes component pct limit m =
    match mo_history m with
    | [] => inl (not_ready m "CPU monitor has not produced any history yet.")
    | history => inr (take (at_least_one limit)
        (flat_map (point_spikes component pct) (rev history)))
    end.
Proof.
  split.
  - unfold get_threads, require_snapshot. destruct (mo_snapshot m) as [s |]; [| done].
    simpl. unfold mret, result_ret. f_equal. apply select_threads_eq. simpl. lia.
  - unfold find_spikes. destruct (mo_history m) as [| point h]; [done |].
    f_equal. apply spikes_in_eq. simpl. lia.
Qed.
End Spec.

(** ** Labels *)

(** How a label value is read in the text format of Prometheus: up to a quote
    that is not escaped; a backslash escapes itself, the quote and [n]; a line
    feed ends the line and so the value with an error. *)
Fixpoint read_label_value (s : string) : option (string * string) :=
  match s with
  | EmptyString => None
  | String c s =>
      if Ascii.eqb c dquote then Some (EmptyString, s)
      else if Ascii.eqb c newline then None
      else if Ascii.eqb c backslash then
        match s with
        | EmptyString => None
        | String d s =>
            let unescaped := if Ascii.eqb d "n"%char then newline else d in
            '(v, rest) ← read_label_value s; Some (String unescaped v, rest)
        end
      else '(v, rest) ← read_label_value s; Some (String c v, rest)
  end.

Lemma escape_cons c s :
  escape_label_value (String c s) =
    (if Ascii.eqb c dquote || Ascii.eqb c backslash
     then escaped c else String c EmptyString) +:+ escape_label_value s.
Proof.
  unfold escape_label_value. cbn [replace_char].
  destruct (Ascii.eqb_spec c backslash) as [-> | Hb]; [done |].
  destruct (Ascii.eqb_spec c dquote) as [-> | Hd]; [done |].
  apply Ascii.eqb_neq in Hd. simpl. by rewrite Hd.
Qed.

Lemma read_escaped c s :
  c = dquote \/ c = backslash ->
  read_label_value (escaped c +:+ s) =
    '(v, rest) ← read_label_value s; Some (String c v, rest).
Proof. by intros [-> | ->]. Qed.

Lemma read_plain c s :
  Ascii.eqb c dquote = false -> Ascii.eqb c backslash = false ->
  read_label_value (String c s) =
    if Ascii.eqb c newline then None
    else '(v, rest) ← read_label_value s; Some (String c v, rest).
Proof. intros Hd Hb. cbn [read_label_value]. by rewrite Hd, Hb. Qed.

(** A label value is read back as it was, whatever backslashes and quotes it
    has; but one with a line feed, which the code does not escape, breaks the
    line. *)
Theorem cpu_label_value_roundtrip v rest :
  read_label_value (escape_label_value v +:+ String dquote rest) =
    if has_char newline v then None else Some (v, rest).
Proof.
  induction v as [| c v IH]; [done |]. rewrite escape_cons, app_assoc_str.
  cbn [has_char]. rewrite (Ascii.eqb_sym newline c).
  destruct (Ascii.eqb c dquote || Ascii.eqb c backslash) eqn:He.
  - apply orb_true_iff in He. rewrite !Ascii.eqb_eq in He.
    rewrite read_escaped, IH by done.
    destruct He as [-> | ->]; simpl; by destruct (has_char newline v).
  - apply orb_false_iff in He as [Hd Hb].
    trans (read_label_value (String c (escape_label_value v +:+ String dquote rest)));
      [done |].
    rewrite read_plain, IH by done. destruct (Ascii.eqb c newline); [done |].
    simpl. by destruct (has_char newline v).
Qed.
End CpuProofs.
