(* ===== verification/CanaryService.v ===== *)
(** * Canary probes: src/ovn_api/app/services/trace_service.py

    A canary probe creates a temporary resource in the OVN northbound database
    with ovn-nbctl, polls the northbound and southbound databases and the
    OpenFlow table of a bridge until the resource has got there, and removes it
    again.  This file has the data of models/traces.py, the command clients of
    core/command.py, core/ovn_nbctl.py and core/ovs.py, and the service.

    The class [World] is what the service runs in: clocks, [time.sleep],
    [uuid.uuid4], [subprocess.run] and the two database replicas.  The state
    [env] pairs a world with the commands run in it so far. *)

From stdpp Require Import base option list strings.
From Stdlib Require Import ZArith Lia Ascii.
From S2P Require Import Prelude Strings Binary64 Python.

Local Open Scope Z_scope.
Local Open Scope string_scope.

Module Canary.

(** ** Data: models/traces.py *)

Inductive CanaryResourceType :=
| acl | logical_flow | nat_ | nat_rule | logical_switch | network
| logical_router | logical_switch_port | logical_port | logical_router_port
| subnet.

#[global] Instance CanaryResourceType_eq_dec : EqDecision CanaryResourceType.
Proof. solve_decision. Defined.

Definition literal (t : CanaryResourceType) : string :=
  match t with
  | acl => "acl" | logical_flow => "logical_flow" | nat_ => "nat"
  | nat_rule => "nat_rule" | logical_switch => "logical_switch"
  | network => "network" | logical_router => "logical_router"
  | logical_switch_port => "logical_switch_port"
  | logical_port => "logical_port"
  | logical_router_port => "logical_router_port" | subnet => "subnet"
  end.

Inductive CanaryTraceStatus := success | partial_success | timeout | failed.
Inductive CanaryStageStatus := Sobserved | Stimeout | Sskipped | Sfailed.

#[global] Instance CanaryTraceStatus_eq_dec : EqDecision CanaryTraceStatus.
Proof. solve_decision. Defined.
#[global] Instance CanaryStageStatus_eq_dec : EqDecision CanaryStageStatus.
Proof. solve_decision. Defined.

Record CanaryProbeRequest := Request {
  rq_resource_type : CanaryResourceType;
  rq_target_name : option string;
  rq_bridge : string;
  rq_timeout_s : float;
  rq_poll_interval_ms : Z;
  rq_expect_openflow : option bool;
}.

Record CanaryProbeStage := Stage {
  st_status : CanaryStageStatus;
  st_observed_at : option string;
  st_latency_ms : option float;
  st_detail : option string;
  st_evidence : list string;
}.

Record CanaryProbeResult := Result {
  r_probe_id : string;
  r_requested_resource_type : CanaryResourceType;
  r_resolved_resource_type : CanaryResourceType;
  r_resource_name : string;
  r_target_name : option string;
  r_started_at : string;
  r_finished_at : option string;
  r_status : CanaryTraceStatus;
  r_openflow_expected : bool;
  r_note : option string;
  r_nb_uuid : option string;
  r_command_latency_ms : float;
  r_nb_committed : CanaryProbeStage;
  r_sb_realized : CanaryProbeStage;
  r_openflow_realized : CanaryProbeStage;
  r_cleanup : CanaryProbeStage;
  r_nb_to_sb_latency_ms : option float;
  r_sb_to_openflow_latency_ms : option float;
  r_total_latency_ms : option float;
}.

#[global] Instance rebuild_result : Rebuild CanaryProbeResult := fun r =>
  Result (r_probe_id r) (r_requested_resource_type r)
    (r_resolved_resource_type r) (r_resource_name r) (r_target_name r)
    (r_started_at r) (r_finished_at r) (r_status r) (r_openflow_expected r)
    (r_note r) (r_nb_uuid r) (r_command_latency_ms r) (r_nb_committed r)
    (r_sb_realized r) (r_openflow_realized r) (r_cleanup r)
    (r_nb_to_sb_latency_ms r) (r_sb_to_openflow_latency_ms r)
    (r_total_latency_ms r).

Record PreparedProbe := Prepared {
  pp_probe_id : string;
  pp_requested_resource_type : CanaryResourceType;
  pp_resolved_resource_type : CanaryResourceType;
  pp_resource_name : string;
  pp_target_name : option string;
  pp_bridge : string;
  pp_timeout_s : float;
  pp_poll_interval_s : float;
  pp_openflow_expected : bool;
  pp_note : option string;
  pp_nb_table : string;
  pp_context : list (string * string);
  pp_create_command : list string;
  pp_setup_commands : list (list string);
  pp_cleanup_commands : list (list string);
  pp_setup_wait : option (CanaryResourceType * string);
}.

#[global] Instance rebuild_prepared : Rebuild PreparedProbe := fun p =>
  Prepared (pp_probe_id p) (pp_requested_resource_type p)
    (pp_resolved_resource_type p) (pp_resource_name p) (pp_target_name p)
    (pp_bridge p) (pp_timeout_s p) (pp_poll_interval_s p)
    (pp_openflow_expected p) (pp_note p) (pp_nb_table p) (pp_context p)
    (pp_create_command p) (pp_setup_commands p) (pp_cleanup_commands p)
    (pp_setup_wait p).

(** [CanaryProbeStage(status=..., detail=...)] *)
Definition stage (s : CanaryStageStatus) (detail : string) : CanaryProbeStage :=
  Stage s None None (Some detail) [].

(** ** Constants of the service *)

Definition OPENFLOW_CAPABLE (t : CanaryResourceType) : bool :=
  match t with acl | nat_ => true | _ => false end.
Definition SB_READY (t : CanaryResourceType) : bool :=
  match t with logical_switch | logical_router => true | _ => false end.
Definition PIPELINE_STAGE_NAMES : list string :=
  ["nb_committed"; "sb_realized"; "openflow_realized"; "cleanup"].
Definition CANARY_RESOURCE_TYPES : list CanaryResourceType :=
  [acl; logical_flow; nat_; nat_rule; logical_switch; network; logical_router;
   logical_switch_port; logical_port; logical_router_port; subnet].

Definition NB_TABLE (t : CanaryResourceType) : option string :=
  match t with
  | acl => Some "ACL" | nat_ => Some "NAT"
  | logical_switch => Some "Logical_Switch"
  | logical_router => Some "Logical_Router"
  | logical_switch_port => Some "Logical_Switch_Port"
  | logical_router_port => Some "Logical_Router_Port"
  | _ => None
  end.
Definition SB_SIGNAL (t : CanaryResourceType) : option string :=
  match t with
  | acl | nat_ => Some "Logical_Flow external_ids[stage-hint] / token match"
  | logical_switch => Some "Datapath_Binding type=logical-switch"
  | logical_router => Some "Datapath_Binding type=logical-router"
  | logical_switch_port | logical_router_port =>
      Some "Port_Binding.logical_port"
  | _ => None
  end.
Definition TARGET_KIND (t : CanaryResourceType) : option string :=
  match t with
  | acl | logical_switch_port => Some "logical_switch"
  | nat_ | logical_router_port => Some "logical_router"
  | _ => None
  end.

(** ** The world of the service *)

Abbreviation idl := (list (string * list row)).

Inductive completed :=
| Completed (stdout : string)
| FileNotFoundError
| CalledProcessError (stderr exc : string)
| RunRaised (name msg : string).

Class World (W : Type) := {
  w_perf_counter : W -> float * W;
  w_utc_now : W -> string * W;
  w_sleep : float -> W -> W;
  w_uuid4 : W -> Z * W;
  w_subprocess_run : list string -> W -> completed * W;
  w_nb_idl : W -> result idl * W;
  w_sb_idl : W -> result idl * W;
}.

(** The settings that the command clients are constructed with *)
Record command_settings := CommandSettings {
  cs_transport : string;
  cs_docker_bin : string;
  cs_ovn_nbctl_bin : string;
  cs_ovn_nb_container : string;
  cs_ovs_ofctl_bin : string;
  cs_ovs_vswitchd_container : string;
}.

Record env (W : Type) := Env {
  e_world : W;
  e_issued : list (list string);
}.
Arguments Env {W} _ _.
Arguments e_world {W} _.
Arguments e_issued {W} _.

(** ** Conversions of column values *)

Section Values.
Context `{!RowStr}.

(** [_single_optional_string] *)
Definition single_optional_string (v : pyval) : option string :=
  match v with
  | PyNone | PyList [] => None
  | PyList (x :: _) => Some (str_val x)
  | _ => Some (str_val v)
  end.

Definition row_uuid_of (v : pyval) : option string :=
  let str v := match v with PyRow u _ => u | _ => str_val v end in
  match v with
  | PyNone | PyList [] => None
  | PyList (x :: _) => Some (str x)
  | _ => Some (str v)
  end.

(** [getattr(value, "name", None) or _row_uuid(value)], as printed *)
Definition row_name_of (v : pyval) : option string :=
  let name v :=
    match v with
    | PyRow u cols =>
        let n := default PyNone (assoc "name" cols) in
        if truthy n then Some (str_val n) else row_uuid_of v
    | _ => row_uuid_of v
    end in
  match v with
  | PyNone | PyList [] => None
  | PyList (x :: _) => name x
  | _ => name v
  end.

Definition normalize_uuid (v : pyval) : option string :=
  match v with
  | PyNone => None
  | _ =>
      match py_lower (py_strip (str_val v)) with
      | EmptyString => None
      | s => Some s
      end
  end.
End Values.

Definition uuid_prefix (u : string) : string := split_head "-"%char u.
Definition limited_evidence (lines : list string) : list string := take 5 lines.

Definition probe_octets (probe_id : string) : result (Z * Z * Z * Z) :=
  seed ← uuid_int probe_id;
  mret (Z.shiftr seed 8 mod 254 + 1, seed mod 254 + 1,
        Z.shiftr seed 24 mod 254 + 1, Z.shiftr seed 16 mod 254 + 1).

Definition probe_mac (probe_id : string) : result string :=
  '(a, b, c, d) ← probe_octets probe_id;
  mret ("aa:55:" +:+ hex_digits 2 a +:+ ":" +:+ hex_digits 2 b +:+ ":" +:+
        hex_digits 2 c +:+ ":" +:+ hex_digits 2 d).

Definition elapsed_ms (start end_ : float) : float :=
  Float.round3 (Float.mul (Float.sub end_ start) (Float.of_Z 1000)).

(** ** The service *)

Section Service.
Context {W : Type} {HW : World W} {HR : RowStr} (cfg : command_settings).

Abbreviation E := (env W).

Definition tick {A} (f : W -> A * W) : M E A := fun e =>
  let '(x, w) := f (e_world e) in (inr x, Env w (e_issued e)).

Definition perf_counter : M E float := tick w_perf_counter.
Definition now : M E string := tick w_utc_now.
Definition sleep (d : float) : M E unit := tick (fun w => (tt, w_sleep d w)).
Definition uuid4 : M E string :=
  tick (fun w => let '(z, w) := w_uuid4 w in (uuid_str z, w)).
Definition nb_idl : M E idl := fun e =>
  let '(r, w) := w_nb_idl (e_world e) in (r, Env w (e_issued e)).
Definition sb_idl : M E idl := fun e =>
  let '(r, w) := w_sb_idl (e_world e) in (r, Env w (e_issued e)).

(** *** Command clients *)

Definition build_command (args : list string) (container : string) :
    result (list string) :=
  if String.eqb (cs_transport cfg) "local" then mret args
  else if String.eqb (cs_transport cfg) "docker-exec" then
    if String.eqb container EmptyString then
      inl (HTTPException 500
        "Container name is required when OVN_COMMAND_TRANSPORT=docker-exec.")
    else mret ([cs_docker_bin cfg; "exec"; container] ++ args)%list
  else
    inl (HTTPException 500
      ("Unsupported OVN_COMMAND_TRANSPORT. Expected 'local' or 'docker-exec', got "
       +:+ py_repr (cs_transport cfg) +:+ ".")).

(** [CommandExecutor.run]; a command is recorded when its process is started. *)
Definition executor_run (args : list string) (container : string) : M E string :=
  command ← lift (build_command args container);
  outcome ← (fun e =>
    let '(o, w) := w_subprocess_run command (e_world e) in
    (inr o, Env w (e_issued e ++ [command])%list));
  match outcome with
  | Completed stdout => mret stdout
  | FileNotFoundError =>
      let missing_bin := default "command" (head command) in
      raise (HTTPException 500 (py_repr missing_bin +:+ " not found on PATH."))
  | CalledProcessError stderr exc =>
      let stderr := if String.eqb stderr EmptyString then exc
                    else py_strip stderr in
      raise (HTTPException 500
        ("Command failed: " +:+ py_join " " command +:+ ": " +:+ stderr))
  | RunRaised name msg => raise (Exception name msg)
  end.

Definition nb_run (args : list string) : M E unit :=
  _ ← executor_run (cs_ovn_nbctl_bin cfg :: args) (cs_ovn_nb_container cfg);
  mret tt.

Definition dump_openflow_flows (bridge : string) : M E string :=
  executor_run [cs_ovs_ofctl_bin cfg; "dump-flows"; bridge]
    (cs_ovs_vswitchd_container cfg).

(** *** Looking for the resource *)

Definition find_named_or_uuid_row (table_name reference : string) :
    M E (option row) :=
  tables ← nb_idl;
  rows ← lift (getitem table_name tables);
  mret (List.find (fun r => String.eqb (row_uuid r) reference ||
                            is_str (getattr r "name" PyNone) reference) rows).

Definition find_named_nb_row (t : CanaryResourceType) (name : string) :
    M E (option row) :=
  find_named_or_uuid_row
    (if bool_decide (t = logical_switch) then "Logical_Switch"
     else "Logical_Router") name.

Definition require_nb_row (table_name reference : string) : M E row :=
  r ← find_named_or_uuid_row table_name reference;
  match r with
  | Some r => mret r
  | None => raise (HTTPException 404
              (table_name +:+ " " +:+ py_repr reference +:+ " not found."))
  end.

(** The row of a table with the name that the context has under [key] *)
Definition named_row (key : string) (p : PreparedProbe) (rows : list row) :
    result (option row) :=
  name ← getitem key (pp_context p);
  mret (List.find (fun r => is_str (getattr r "name" PyNone) name) rows).

Definition find_nb_row (p : PreparedProbe) : M E (option row) :=
  tables ← nb_idl;
  rows ← lift (getitem (pp_nb_table p) tables);
  let ctx key := getitem key (pp_context p) in
  lift match pp_resolved_resource_type p with
  | acl =>
      acl_name ← ctx "acl_name";
      acl_match ← ctx "acl_match";
      acl_direction ← ctx "acl_direction";
      acl_priority ← ctx "acl_priority" ≫= py_int;
      mret (List.find (fun r =>
        is_str (getattr r "name" PyNone) acl_name ||
        is_str (getattr r "match" PyNone) acl_match &&
        is_str (getattr r "direction" PyNone) acl_direction &&
        is_int_val (getattr r "priority" PyNone) acl_priority) rows)
  | nat_ =>
      nat_type ← ctx "nat_type";
      external_ip ← ctx "external_ip";
      logical_ip ← ctx "logical_ip";
      mret (List.find (fun r =>
        is_str (getattr r "type" PyNone) nat_type &&
        is_str (getattr r "external_ip" PyNone) external_ip &&
        is_str (getattr r "logical_ip" PyNone) logical_ip) rows)
  | logical_switch => named_row "switch_name" p rows
  | logical_router => named_row "router_name" p rows
  | logical_switch_port | logical_router_port => named_row "port_name" p rows
  | _ => mret None
  end.

Fixpoint datapath_binding_evidence (nb_uuid expected_type : string)
    (rows : list row) : result (list string) :=
  match rows with
  | [] => mret []
  | r :: rows =>
      let row_nb_uuid := normalize_uuid (getattr r "nb_uuid" PyNone) in
      let row_type := single_optional_string (getattr r "type" PyNone) in
      external_ids ← to_dict (getattr r "external_ids" (PyDict []));
      evidence ← datapath_binding_evidence nb_uuid expected_type rows;
      let ext := normalize_uuid
        (from_option PyStr PyNone (assoc expected_type external_ids)) in
      if negb (bool_decide (row_type = Some expected_type)) then mret evidence
      else if negb (bool_decide (row_nb_uuid = Some nb_uuid)) &&
              negb (bool_decide (ext = Some nb_uuid)) then mret evidence
      else mret (("datapath=" +:+ row_uuid r +:+ " type=" +:+ str_opt row_type
             +:+ " tunnel_key=" +:+ str_val (getattr r "tunnel_key" PyNone)
             +:+ " name=" +:+ str_opt (assoc "name" external_ids)) :: evidence)
  end.

Definition find_datapath_binding_evidence (tables : idl)
    (nb_uuid expected_type : string) : result (list string) :=
  rows ← getitem "Datapath_Binding" tables;
  datapath_binding_evidence nb_uuid expected_type rows.

Definition find_port_binding_evidence (tables : idl) (port_name : string) :
    result (list string) :=
  rows ← getitem "Port_Binding" tables;
  mret (map (fun r =>
      "port_binding=" +:+ row_uuid r +:+ " type="
      +:+ str_val (getattr r "type" (PyStr EmptyString)) +:+ " datapath="
      +:+ str_opt (row_uuid_of (getattr r "datapath" PyNone)) +:+ " chassis="
      +:+ str_opt (row_name_of (getattr r "chassis" PyNone)))
    (List.filter (fun r => is_str (getattr r "logical_port" PyNone) port_name)
       rows)).

(** The loop of [_find_logical_flow_evidence]: the exact matches and the
    matches of a token *)
Fixpoint logical_flow_evidence (nb_uuid : string) (tokens : list string)
    (rows : list row) : result (list string * list string) :=
  match rows with
  | [] => mret ([], [])
  | r :: rows =>
      external_ids ← to_dict (getattr r "external_ids" (PyDict []));
      '(exact, token) ← logical_flow_evidence nb_uuid tokens rows;
      let hint := assoc "stage-hint" external_ids in
      let stage_hint := normalize_uuid (from_option PyStr PyNone hint) in
      let match_ := str_val (getattr r "match" (PyStr EmptyString)) in
      let evidence :=
        "logical_flow=" +:+ row_uuid r +:+ " stage="
        +:+ str_opt (assoc "stage-name" external_ids) +:+ " hint="
        +:+ str_opt hint +:+ " match=" +:+ match_ in
      if bool_decide (stage_hint = Some nb_uuid) ||
         bool_decide (stage_hint = Some (uuid_prefix nb_uuid))
      then mret (evidence :: exact, token)
      else
        let haystack := py_join " "
          [match_; str_val (getattr r "actions" (PyStr EmptyString));
           py_join " " (map (fun '(k, v) => k +:+ "=" +:+ v) external_ids)] in
        if existsb (fun t => negb (String.eqb t EmptyString) &&
                             py_in t haystack) tokens
        then mret (exact, evidence :: token)
        else mret (exact, token)
  end.

Definition find_logical_flow_evidence (tables : idl) (nb_uuid : string)
    (tokens : list string) : result (list string) :=
  rows ← getitem "Logical_Flow" tables;
  '(exact, token) ← logical_flow_evidence nb_uuid tokens rows;
  mret match exact with [] => token | _ => exact end.

Definition find_sb_parent_evidence (t : CanaryResourceType) (nb_uuid : string) :
    M E (list string) :=
  tables ← sb_idl;
  lift match t with
  | logical_switch =>
      find_datapath_binding_evidence tables nb_uuid "logical-switch"
  | logical_router =>
      find_datapath_binding_evidence tables nb_uuid "logical-router"
  | _ => mret []
  end.

Definition find_sb_evidence (p : PreparedProbe) (nb_uuid : string) :
    M E (list string) :=
  tables ← sb_idl;
  let ctx key := getitem key (pp_context p) in
  lift match pp_resolved_resource_type p with
  | acl =>
      probe_ip ← ctx "probe_ip";
      find_logical_flow_evidence tables nb_uuid [probe_ip]
  | nat_ =>
      external_ip ← ctx "external_ip";
      logical_ip ← ctx "logical_ip";
      find_logical_flow_evidence tables nb_uuid [external_ip; logical_ip]
  | logical_switch =>
      find_datapath_binding_evidence tables nb_uuid "logical-switch"
  | logical_router =>
      find_datapath_binding_evidence tables nb_uuid "logical-router"
  | logical_switch_port | logical_router_port =>
      port_name ← ctx "port_name";
      find_port_binding_evidence tables port_name
  | _ => mret []
  end.

Definition find_openflow_evidence (p : PreparedProbe) : M E (list string) :=
  raw ← dump_openflow_flows (pp_bridge p);
  let ctx key := getitem key (pp_context p) in
  tokens ← lift match pp_resolved_resource_type p with
  | acl => probe_ip ← ctx "probe_ip"; mret (Some [probe_ip])
  | nat_ =>
      external_ip ← ctx "external_ip";
      logical_ip ← ctx "logical_ip";
      mret (Some [external_ip; logical_ip])
  | _ => mret None
  end;
  mret match tokens with
  | None => []
  | Some tokens =>
      map py_strip (List.filter (fun line =>
        negb (String.eqb (py_strip line) EmptyString) &&
        negb (startswith line "NXST_FLOW reply") &&
        existsb (fun t => py_in t line) tokens) (splitlines raw))
  end.

(** *** Preparing a probe *)

Definition resolve_resource_type (t : CanaryResourceType) :
    CanaryResourceType * option string :=
  match t with
  | logical_flow => (acl, Some "Logical_Flow is generated in OVN SB, so this probe uses a canary ACL to force logical-flow creation.")
  | nat_rule => (nat_, None)
  | network => (logical_switch, None)
  | logical_port => (logical_switch_port, None)
  | subnet => (logical_router_port, None)
  | _ => (t, None)
  end.

Definition resolve_openflow_expectation (resolved_type : CanaryResourceType)
    (target_name : option string) (expect_openflow : option bool) : bool :=
  if negb (OPENFLOW_CAPABLE resolved_type) then false
  else match expect_openflow with
       | Some b => b
       | None => bool_decide (is_Some target_name)
       end.

(** What [_resolve_switch_target] and [_resolve_router_target] return: the
    reference, a note, the commands that set the target up and remove it, and
    what to wait for *)
Definition target : Type :=
  string * option string * list (list string) * list (list string) *
  option (CanaryResourceType * string).

Definition resolve_switch_target (target_name : option string)
    (probe_suffix : string) : M E target :=
  match target_name with
  | Some name =>
      r ← require_nb_row "Logical_Switch" name;
      mret (row_uuid r, None, [], [], None)
  | None =>
      let switch_name := "canary-target-ls-" +:+ probe_suffix in
      mret (switch_name,
        Some ("A temporary logical switch " +:+ py_repr switch_name
              +:+ " is created as the canary target."),
        [["ls-add"; switch_name]],
        [["--if-exists"; "ls-del"; switch_name]], None)
  end.

Definition resolve_router_target (target_name : option string)
    (probe_suffix : string) : M E target :=
  match target_name with
  | Some name =>
      r ← require_nb_row "Logical_Router" name;
      mret (row_uuid r, None, [], [], None)
  | None =>
      let router_name := "canary-target-lr-" +:+ probe_suffix in
      mret (router_name,
        Some ("A temporary logical router " +:+ py_repr router_name
              +:+ " is created as the canary target."),
        [["lr-add"; router_name]],
        [["--if-exists"; "lr-del"; router_name]], None)
  end.

(** The addresses that [_build_probe] derives from the probe's octets *)
Record addresses := Addresses {
  acl_probe_ip : string;
  nat_external_ip : string;
  nat_logical_ip : string;
  router_network : string;
}.

Definition probe_addresses (octets : Z * Z * Z * Z) : addresses :=
  let '(a, b, c, d) := octets in
  {| acl_probe_ip := "198.18." +:+ str_int a +:+ "." +:+ str_int b;
     nat_external_ip := "203.0.113." +:+ str_int c;
     nat_logical_ip := "198.19." +:+ str_int a +:+ "." +:+ str_int b;
     router_network := "100.64." +:+ str_int c +:+ ".1/24" |}.

Definition resource_name_map (t : CanaryResourceType) (ad : addresses)
    (probe_suffix : string) : option string :=
  match t with
  | acl => Some ("canary-acl-" +:+ probe_suffix)
  | nat_ => Some ("nat:" +:+ nat_external_ip ad +:+ "->" +:+ nat_logical_ip ad)
  | logical_switch => Some ("canary-ls-" +:+ probe_suffix)
  | logical_router => Some ("canary-lr-" +:+ probe_suffix)
  | logical_switch_port => Some ("canary-lsp-" +:+ probe_suffix)
  | logical_router_port => Some ("canary-lrp-" +:+ probe_suffix)
  | _ => None
  end.

(** The branches of [_build_probe] on the resolved type: the probe with its
    table, context and commands, and the notes they add *)
Definition with_commands (p : PreparedProbe) (nb_table : string)
    (context : list (string * string)) (create : list string)
    (setup cleanup : list (list string))
    (wait : option (CanaryResourceType * string)) : PreparedProbe :=
  p <| pp_nb_table := nb_table |> <| pp_context := context |>
    <| pp_create_command := create |> <| pp_setup_commands := setup |>
    <| pp_cleanup_commands := cleanup |> <| pp_setup_wait := wait |>.

Definition build_acl (rq : CanaryProbeRequest) (suffix : string)
    (ad : addresses) (p : PreparedProbe) : M E (PreparedProbe * list string) :=
  '(switch_ref, setup_note, setup, cleanup, wait) ←
    resolve_switch_target (rq_target_name rq) suffix;
  let acl_match := "ip4.src==" +:+ acl_probe_ip ad in
  mret (with_commands p "ACL"
    [("switch_ref", switch_ref); ("acl_name", pp_resource_name p);
     ("acl_match", acl_match); ("acl_direction", "to-lport");
     ("acl_priority", "2001"); ("probe_ip", acl_probe_ip ad)]
    ["--type=switch"; "--name=" +:+ pp_resource_name p; "acl-add"; switch_ref;
     "to-lport"; "2001"; acl_match; "drop"]
    setup
    (["--type=switch"; "acl-del"; switch_ref; "to-lport"; "2001"; acl_match]
     :: cleanup) wait, option_list setup_note).

Definition build_nat (rq : CanaryProbeRequest) (suffix : string)
    (ad : addresses) (p : PreparedProbe) : M E (PreparedProbe * list string) :=
  '(router_ref, setup_note, setup, cleanup, wait) ←
    resolve_router_target (rq_target_name rq) suffix;
  mret (with_commands p "NAT"
    [("router_ref", router_ref); ("nat_type", "snat");
     ("external_ip", nat_external_ip ad); ("logical_ip", nat_logical_ip ad)]
    ["lr-nat-add"; router_ref; "snat"; nat_external_ip ad; nat_logical_ip ad]
    setup
    (["--if-exists"; "lr-nat-del"; router_ref; "snat"; nat_logical_ip ad]
     :: cleanup) wait, option_list setup_note).

Definition build_logical_switch (rq : CanaryProbeRequest) (suffix : string)
    (p : PreparedProbe) : PreparedProbe * list string :=
  let companion := "canary-ls-anchor-" +:+ suffix in
  let name := pp_resource_name p in
  (with_commands p "Logical_Switch"
    [("switch_name", name); ("companion_port_name", companion)]
    ["ls-add"; name; "--"; "lsp-add"; name; companion]
    (pp_setup_commands p) [["--if-exists"; "ls-del"; name]] (pp_setup_wait p),
   "A temporary logical switch port is created together with the canary switch to force southbound datapath realization."
   :: (if bool_decide (rq_resource_type rq = network)
       then ["In OVN, Neutron network maps most directly to Logical_Switch."]
       else [])).

Definition build_logical_router (suffix : string) (ad : addresses)
    (p : PreparedProbe) : result (PreparedProbe * list string) :=
  let companion := "canary-lr-anchor-" +:+ suffix in
  let name := pp_resource_name p in
  mac ← probe_mac (pp_probe_id p);
  mret (with_commands p "Logical_Router"
    [("router_name", name); ("companion_port_name", companion);
     ("companion_port_mac", mac); ("companion_port_network", router_network ad)]
    ["lr-add"; name; "--"; "lrp-add"; name; companion; mac; router_network ad]
    (pp_setup_commands p) [["--if-exists"; "lr-del"; name]] (pp_setup_wait p),
   ["A temporary logical router port is created together with the canary router to force southbound datapath realization."]).

Definition build_logical_switch_port (rq : CanaryProbeRequest)
    (suffix : string) (p : PreparedProbe) : M E (PreparedProbe * list string) :=
  '(switch_ref, setup_note, setup, cleanup, wait) ←
    resolve_switch_target (rq_target_name rq) suffix;
  let name := pp_resource_name p in
  mret (with_commands p "Logical_Switch_Port"
    [("switch_ref", switch_ref); ("port_name", name)]
    ["lsp-add"; switch_ref; name] setup
    (["--if-exists"; "lsp-del"; name] :: cleanup) wait,
    option_list setup_note).

Definition build_logical_router_port (rq : CanaryProbeRequest)
    (suffix : string) (ad : addresses) (p : PreparedProbe) :
    M E (PreparedProbe * list string) :=
  '(router_ref, setup_note, setup, cleanup, wait) ←
    resolve_router_target (rq_target_name rq) suffix;
  let name := pp_resource_name p in
  mac ← lift (probe_mac (pp_probe_id p));
  mret (with_commands p "Logical_Router_Port"
    [("router_ref", router_ref); ("port_name", name); ("port_mac", mac);
     ("port_network", router_network ad)]
    ["lrp-add"; router_ref; name; mac; router_network ad] setup
    (["--if-exists"; "lrp-del"; name] :: cleanup) wait,
    ((if bool_decide (rq_resource_type rq = subnet)
      then ["OVN has no first-class Subnet table, so the probe uses a Logical_Router_Port with CIDR as a subnet proxy."]
      else []) ++ option_list setup_note)%list).

Definition build_resource (resolved_type : CanaryResourceType)
    (rq : CanaryProbeRequest) (suffix : string) (ad : addresses)
    (p : PreparedProbe) : M E (PreparedProbe * list string) :=
  match resolved_type with
  | acl => build_acl rq suffix ad p
  | nat_ => build_nat rq suffix ad p
  | logical_switch => mret (build_logical_switch rq suffix p)
  | logical_router => lift (build_logical_router suffix ad p)
  | logical_switch_port => build_logical_switch_port rq suffix p
  | logical_router_port => build_logical_router_port rq suffix ad p
  | _ => raise (HTTPException 400
           ("Unsupported resource type: " +:+ py_repr (literal resolved_type)))
  end.

Definition truthy_opt (o : option string) : bool :=
  match o with Some s => negb (String.eqb s EmptyString) | None => false end.

(** The end of [_build_probe]: the OpenFlow notes and the joined note *)
Definition finish_probe (rq : CanaryProbeRequest) (notes : list string)
    (p : PreparedProbe) : PreparedProbe :=
  let t := pp_resolved_resource_type p in
  let '(p, notes) :=
    if negb (OPENFLOW_CAPABLE t) then
      (p <| pp_openflow_expected := false |>,
       notes ++ (if default false (rq_expect_openflow rq) then
         ["OpenFlow stage is skipped for " +:+ py_repr (literal t)
          +:+ " because it does not have a stable 1:1 canary mapping on br-int."]
         else []))%list
    else if bool_decide (rq_target_name rq = None) && pp_openflow_expected p then
      (p, notes ++ ["No target datapath was supplied, so OpenFlow detection may stay empty unless the temporary canary is realized on the local bridge."])%list
    else (p, notes) in
  let note := py_join " " notes in
  p <| pp_note := if String.eqb note EmptyString then None else Some note |>.

(** [prepare_probe], that is [_build_probe] *)
Definition prepare_probe (rq : CanaryProbeRequest) : M E PreparedProbe :=
  let '(resolved_type, alias_note) := resolve_resource_type (rq_resource_type rq) in
  let openflow_expected := resolve_openflow_expectation resolved_type
    (rq_target_name rq) (rq_expect_openflow rq) in
  let notes := (option_list alias_note ++
    if truthy_opt (rq_target_name rq) && openflow_expected then
      ["OpenFlow detection assumes the target datapath is realized on local bridge "
       +:+ py_repr (rq_bridge rq) +:+ "."]
    else [])%list in
  probe_id ← uuid4;
  let suffix := split_head "-"%char probe_id in
  octets ← lift (probe_octets probe_id);
  let ad := probe_addresses octets in
  resource_name ← match resource_name_map resolved_type ad suffix with
                  | Some n => mret n
                  | None => raise (Exception "KeyError"
                              (py_repr (literal resolved_type)))
                  end;
  let p := Prepared probe_id (rq_resource_type rq) resolved_type resource_name
    (rq_target_name rq) (rq_bridge rq) (rq_timeout_s rq)
    (Float.int_div (rq_poll_interval_ms rq) 1000) openflow_expected None
    EmptyString [] [] [] [] None in
  '(p, more) ← build_resource resolved_type rq suffix ad p;
  mret (finish_probe rq (notes ++ more) p).

(** *** Running a probe *)

(** The variables of [_execute_probe] that its polling loop changes *)
Record poll := Poll {
  po_nb_uuid : option string;
  po_sb_seen_at : option float;
  po_of_seen_at : option float;
  po_nb_stage : CanaryProbeStage;
  po_sb_stage : CanaryProbeStage;
  po_of_stage : CanaryProbeStage;
}.

#[local] Instance rebuild_poll : Rebuild poll := fun v =>
  Poll (po_nb_uuid v) (po_sb_seen_at v) (po_of_seen_at v) (po_nb_stage v)
    (po_sb_stage v) (po_of_stage v).

(** Within the loop the state is that of the variables and the environment. *)
Definition outside {A} (m : M E A) : M (poll * E) A := fun '(v, e) =>
  let '(r, e) := m e in (r, (v, e)).
Definition variables : M (poll * E) poll := fun s => (inr s.1, s).
Definition assign (f : poll -> poll) : M (poll * E) unit :=
  modify (fun '(v, e) => (f v, e)).

Definition observed_stage (at_ : string) (latency : float) (detail : string)
    (evidence : list string) : CanaryProbeStage :=
  Stage Sobserved (Some at_) (Some latency) (Some detail) evidence.

Definition poll_nb (p : PreparedProbe) (start_perf : float) :
    M (poll * E) unit :=
  v ← variables;
  match po_nb_uuid v with
  | Some _ => mret tt
  | None =>
      nb_row ← outside (find_nb_row p);
      match nb_row with
      | None => mret tt
      | Some r =>
          seen_at ← outside perf_counter;
          at_ ← outside now;
          assign (fun v => v
            <| po_nb_uuid := Some (row_uuid r) |>
            <| po_nb_stage := observed_stage at_ (elapsed_ms start_perf seen_at)
                 (pp_nb_table p +:+ " row observed in OVN NB.")
                 [pp_nb_table p +:+ ":" +:+ row_uuid r] |>)
      end
  end.

Definition poll_sb (p : PreparedProbe) (start_perf : float) :
    M (poll * E) unit :=
  v ← variables;
  match po_nb_uuid v, po_sb_seen_at v with
  | Some nb_uuid, None =>
      sb_evidence ← outside (find_sb_evidence p nb_uuid);
      match sb_evidence with
      | [] => mret tt
      | _ =>
          seen_at ← outside perf_counter;
          at_ ← outside now;
          assign (fun v => v
            <| po_sb_seen_at := Some seen_at |>
            <| po_sb_stage := observed_stage at_ (elapsed_ms start_perf seen_at)
                 "Matching southbound state observed."
                 (limited_evidence sb_evidence) |>)
      end
  | _, _ => mret tt
  end.

Definition poll_openflow (p : PreparedProbe) (start_perf : float) :
    M (poll * E) unit :=
  v ← variables;
  match pp_openflow_expected p, po_sb_seen_at v, po_of_seen_at v with
  | true, Some _, None =>
      of_evidence ← outside (find_openflow_evidence p);
      match of_evidence with
      | [] => mret tt
      | _ =>
          seen_at ← outside perf_counter;
          at_ ← outside now;
          assign (fun v => v
            <| po_of_seen_at := Some seen_at |>
            <| po_of_stage := observed_stage at_ (elapsed_ms start_perf seen_at)
                 ("Matching OpenFlow observed on bridge "
                  +:+ py_repr (pp_bridge p) +:+ ".")
                 (limited_evidence of_evidence) |>)
      end
  | _, _, _ => mret tt
  end.

(** The condition under which the loop is left *)
Definition realized (p : PreparedProbe) (v : poll) : bool :=
  bool_decide (is_Some (po_nb_uuid v)) && bool_decide (is_Some (po_sb_seen_at v))
  && (negb (pp_openflow_expected p) || bool_decide (is_Some (po_of_seen_at v))).

Definition poll_once (p : PreparedProbe) (start_perf : float) :
    M (poll * E) bool :=
  _ ← poll_nb p start_perf;
  _ ← poll_sb p start_perf;
  _ ← poll_openflow p start_perf;
  v ← variables;
  if realized p v then mret true
  else _ ← outside (sleep (pp_poll_interval_s p)); mret false.

(** [while time.perf_counter() <= deadline]: [None] when the fuel is spent *)
Fixpoint poll_loop (fuel : nat) (p : PreparedProbe) (start_perf deadline : float)
    (s : poll * E) : option (result unit * (poll * E)) :=
  match fuel with
  | O => None
  | S fuel =>
      match outside perf_counter s with
      | (inl x, s) => Some (inl x, s)
      | (inr t, s) =>
          if Float.leb t deadline then
            match poll_once p start_perf s with
            | (inl x, s) => Some (inl x, s)
            | (inr true, s) => Some (inr tt, s)
            | (inr false, s) => poll_loop fuel p start_perf deadline s
            end
          else Some (inr tt, s)
      end
  end.

Definition stage_with_elapsed_latency (s : CanaryProbeStage)
    (start_perf end_perf : float) (detail : option string) : CanaryProbeStage :=
  Stage (st_status s) (st_observed_at s)
    (Some (default (elapsed_ms start_perf end_perf) (st_latency_ms s)))
    (if truthy_opt detail then detail else st_detail s) (st_evidence s).

Definition phase_delta_ms (previous current : CanaryProbeStage) : option float :=
  if bool_decide (st_status previous = Sobserved) then
    match st_latency_ms previous, st_latency_ms current with
    | Some a, Some b => Some (Float.round3 (Float.max (Float.sub b a) Float.zero))
    | _, _ => None
    end
  else None.

Definition total_latency_ms (openflow_expected : bool)
    (nb_stage sb_stage openflow_stage : CanaryProbeStage) : option float :=
  let measured s :=
    if bool_decide (st_status s = Sskipped) then None else st_latency_ms s in
  match (if openflow_expected then measured openflow_stage else None) with
  | Some l => Some l
  | None =>
      match measured sb_stage with
      | Some l => Some l
      | None => st_latency_ms nb_stage
      end
  end.

(** The variables after a poll that raised an exception with [detail] *)
Definition stages_failed (p : PreparedProbe) (start_perf finished : float)
    (detail : string) (v : poll) : poll :=
  let fail s d := stage_with_elapsed_latency (stage s d) start_perf finished None in
  let skip_openflow d v :=
    if pp_openflow_expected p
    then v <| po_of_stage := stage Sskipped d |> else v in
  match po_nb_uuid v, po_sb_seen_at v, po_of_seen_at v with
  | None, _, _ =>
      skip_openflow
        "OpenFlow stage was not evaluated because SB stage never started."
        (v <| po_nb_stage := fail Sfailed detail |>
           <| po_sb_stage := stage Sskipped "SB stage was not evaluated because NB stage failed before commit was observed." |>)
  | Some _, None, _ =>
      skip_openflow
        "OpenFlow stage was not evaluated because SB stage failed before realization."
        (v <| po_sb_stage := fail Sfailed detail |>)
  | Some _, Some _, None =>
      if pp_openflow_expected p
      then v <| po_of_stage := fail Sfailed detail |> else v
  | Some _, Some _, Some _ => v
  end.

(** The variables after the loop ended *)
Definition stages_ended (p : PreparedProbe) (start_perf finished : float)
    (v : poll) : poll :=
  let late s d := stage_with_elapsed_latency s start_perf finished (Some d) in
  let skip_openflow d v :=
    if pp_openflow_expected p
    then v <| po_of_stage := stage Sskipped d |> else v in
  match po_nb_uuid v, po_sb_seen_at v, po_of_seen_at v with
  | None, _, _ =>
      skip_openflow
        "OpenFlow stage was not evaluated because SB stage never started."
        (v <| po_nb_stage := late (po_nb_stage v)
                "Timed out waiting for the resource to appear in OVN NB." |>
           <| po_sb_stage := stage Sskipped "SB stage was not evaluated because NB commit was not observed." |>)
  | Some _, None, _ =>
      skip_openflow
        "OpenFlow stage was not evaluated because SB stage did not realize."
        (v <| po_sb_stage := late (po_sb_stage v)
                "Timed out waiting for the resource to appear in OVN SB." |>)
  | Some _, Some _, None =>
      if pp_openflow_expected p
      then v <| po_of_stage := late (po_of_stage v)
                  ("Timed out waiting for matching OpenFlow on bridge "
                   +:+ py_repr (pp_bridge p) +:+ ".") |>
      else v
  | Some _, Some _, Some _ => v
  end.

Definition cleanup_pending : CanaryProbeStage :=
  stage Sskipped "Cleanup pending.".

(** A result of the probe [p] *)
Definition probe_result (p : PreparedProbe) (started_at : string)
    (status : CanaryTraceStatus) (nb_uuid : option string)
    (command_latency : float) (nb sb openflow : CanaryProbeStage)
    (nb_to_sb sb_to_of total : option float) : CanaryProbeResult :=
  Result (pp_probe_id p) (pp_requested_resource_type p)
    (pp_resolved_resource_type p) (pp_resource_name p) (pp_target_name p)
    started_at None status (pp_openflow_expected p) (pp_note p) nb_uuid
    command_latency nb sb openflow cleanup_pending nb_to_sb sb_to_of total.

Definition polled_result (p : PreparedProbe) (started_at : string)
    (status : CanaryTraceStatus) (command_latency : float) (v : poll) :
    CanaryProbeResult :=
  let '(nb, sb, openflow) := (po_nb_stage v, po_sb_stage v, po_of_stage v) in
  probe_result p started_at status (po_nb_uuid v) command_latency nb sb openflow
    (phase_delta_ms nb sb) (phase_delta_ms sb openflow)
    (total_latency_ms (pp_openflow_expected p) nb sb openflow).

Definition initial_openflow_stage (p : PreparedProbe) : CanaryProbeStage :=
  if pp_openflow_expected p
  then stage Stimeout "Timed out waiting for matching OpenFlow."
  else stage Sskipped "OpenFlow stage is disabled for this probe.".

Definition initial_poll (p : PreparedProbe) : poll :=
  Poll None None None
    (stage Stimeout "Timed out waiting for the resource to appear in OVN NB.")
    (stage Stimeout "Timed out waiting for the resource to appear in OVN SB.")
    (initial_openflow_stage p).

(** The result when the resource could not be created *)
Definition create_failed (p : PreparedProbe) (started_at detail : string)
    (command_latency : float) : CanaryProbeResult :=
  probe_result p started_at failed None command_latency
    (stage Sfailed detail)
    (stage Sfailed "NB creation failed; SB stage not evaluated.")
    (if pp_openflow_expected p
     then stage Sfailed "NB creation failed; OpenFlow stage not evaluated."
     else initial_openflow_stage p)
    None None None.

(** A computation that may run out of fuel *)
Definition F (A : Type) : Type := E -> option (result A * E).
Definition fbind {A B} (m : M E A) (k : A -> F B) : F B := fun e =>
  match m e with
  | (inl x, e) => Some (inl x, e)
  | (inr a, e) => k a e
  end.
Definition fret {A} (m : M E A) : F A := fun e => Some (m e).

(** The polling part of [_execute_probe] *)
Definition execute_poll (fuel : nat) (p : PreparedProbe) (started_at : string)
    (start_perf command_latency : float) : F CanaryProbeResult := fun e =>
  let deadline := Float.add start_perf (pp_timeout_s p) in
  match poll_loop fuel p start_perf deadline (initial_poll p, e) with
  | None => None
  | Some (inl (HTTPException _ detail), (v, e)) =>
      fret (finished ← perf_counter;
            mret (polled_result p started_at failed command_latency
                    (stages_failed p start_perf finished detail v))) e
  | Some (inl x, (_, e)) => Some (inl x, e)
  | Some (inr _, (v, e)) =>
      fret (finished ← perf_counter;
            mret (polled_result p started_at success command_latency
                    (stages_ended p start_perf finished v))) e
  end.

(** [_execute_probe] *)
Definition execute_probe (fuel : nat) (p : PreparedProbe) :
    F CanaryProbeResult :=
  fbind now (fun started_at =>
  fbind perf_counter (fun start_perf =>
  fbind (except_http (_ ← nb_run (pp_create_command p); mret None)
                     (fun detail => mret (Some detail)))
  (fun failure =>
  match failure with
  | Some detail =>
      fret (t ← perf_counter;
            mret (create_failed p started_at detail (elapsed_ms start_perf t)))
  | None =>
      fbind perf_counter (fun t =>
      execute_poll fuel p started_at start_perf (elapsed_ms start_perf t))
  end))).

(** [_setup_failed_result] *)
Definition setup_failed_result (p : PreparedProbe) (detail : string) :
    M E CanaryProbeResult :=
  started_at ← now;
  mret (probe_result p started_at failed None Float.zero
    (stage Sfailed ("Probe setup failed: " +:+ detail))
    (stage Sfailed "Probe setup failed before SB observation.")
    (if pp_openflow_expected p
     then stage Sfailed "Probe setup failed before OpenFlow observation."
     else stage Sskipped "OpenFlow stage is disabled for this probe.")
    None None None).

Fixpoint run_commands (commands : list (list string)) : M E unit :=
  match commands with
  | [] => mret tt
  | c :: cs => _ ← nb_run c; run_commands cs
  end.

Definition setup_ready (t : CanaryResourceType) (name : string) : M E bool :=
  nb_row ← find_named_nb_row t name;
  match nb_row with
  | None => mret false
  | Some r =>
      if SB_READY t then
        evidence ← find_sb_parent_evidence t (row_uuid r);
        mret (negb (bool_decide (evidence = [])))
      else mret false
  end.

Fixpoint setup_loop (fuel : nat) (p : PreparedProbe) (t : CanaryResourceType)
    (name : string) (deadline : float) : F unit :=
  match fuel with
  | O => fun _ => None
  | S fuel =>
      fbind perf_counter (fun time =>
      if Float.leb time deadline then
        fbind (setup_ready t name) (fun ready =>
        if ready : bool then fret (mret tt)
        else fbind (sleep (pp_poll_interval_s p)) (fun _ =>
             setup_loop fuel p t name deadline))
      else fret (raise (HTTPException 500
        ("Temporary " +:+ py_repr (literal t) +:+ " " +:+ py_repr name
         +:+ " did not become ready before the probe started."))))
  end.

(** [_run_setup] *)
Definition run_setup (fuel : nat) (p : PreparedProbe) : F unit :=
  fbind (run_commands (pp_setup_commands p)) (fun _ =>
  match pp_setup_wait p with
  | None => fret (mret tt)
  | Some (t, name) =>
      fbind perf_counter (fun time =>
      setup_loop fuel p t name (Float.add time (pp_timeout_s p)))
  end).

(** The loop of [_run_cleanup]: the errors of the commands *)
Fixpoint cleanup_errors (commands : list (list string)) : M E (list string) :=
  match commands with
  | [] => mret []
  | c :: cs =>
      error ← except_http (_ ← nb_run c; mret [])
        (fun detail => mret [py_join " " c +:+ " -> " +:+ detail]);
      errors ← cleanup_errors cs;
      mret (error ++ errors)%list
  end.

Definition run_cleanup (p : PreparedProbe) : M E CanaryProbeStage :=
  match pp_cleanup_commands p with
  | [] => mret (stage Sskipped "No cleanup required.")
  | commands =>
      errors ← cleanup_errors commands;
      match errors with
      | [] =>
          at_ ← now;
          mret (Stage Sobserved (Some at_) None (Some "Cleanup completed.") [])
      | _ =>
          mret (Stage Sfailed None None
                  (Some "One or more cleanup commands failed.")
                  (limited_evidence errors))
      end
  end.

Definition derive_status (r : CanaryProbeResult) : CanaryTraceStatus :=
  let required := (r_nb_committed r :: r_sb_realized r ::
    if r_openflow_expected r then [r_openflow_realized r] else []) in
  let any s := existsb (fun st => bool_decide (st_status st = s)) required in
  if any Sfailed then failed
  else if any Stimeout then timeout
  else if bool_decide (st_status (r_cleanup r) = Sfailed) then partial_success
  else success.

(** The [finally] clause of [run_prepared_probe]: an exception of the cleanup
    replaces what was to be returned or raised *)
Definition finally_cleanup (p : PreparedProbe) (r : result CanaryProbeResult) :
    M E CanaryProbeResult :=
  cleanup_stage ← run_cleanup p;
  match r with
  | inl x => raise x
  | inr r =>
      finished_at ← now;
      let r := r <| r_cleanup := cleanup_stage |>
                 <| r_finished_at := Some finished_at |> in
      mret (r <| r_status := derive_status r |>)
  end.

Definition run_prepared_probe (fuel : nat) (p : PreparedProbe) :
    F CanaryProbeResult := fun e =>
  match run_setup fuel p e with
  | None => None
  | Some (inl (HTTPException _ detail), e) =>
      let '(r, e) := setup_failed_result p detail e in
      Some (finally_cleanup p r e)
  | Some (inl x, e) => Some (finally_cleanup p (inl x) e)
  | Some (inr _, e) =>
      match execute_probe fuel p e with
      | None => None
      | Some (r, e) => Some (finally_cleanup p r e)
      end
  end.

Definition run_probe (fuel : nat) (rq : CanaryProbeRequest) :
    F CanaryProbeResult :=
  fbind (prepare_probe rq) (run_prepared_probe fuel).

End Service.

(** ** Capabilities *)

Record CanaryCapability := Capability {
  ca_requested_resource_type : CanaryResourceType;
  ca_resolved_resource_type : CanaryResourceType;
  ca_alias_for : option CanaryResourceType;
  ca_target_name_kind : option string;
  ca_nb_table : string;
  ca_sb_signal : string;
  ca_openflow_supported : bool;
  ca_requires_target_name_for_openflow : bool;
  ca_available_stages : list string;
  ca_notes : list string;
}.

Definition or_key_error {A} (t : CanaryResourceType) (o : option A) : result A :=
  match o with
  | Some x => mret x
  | None => inl (Exception "KeyError" (py_repr (literal t)))
  end.

Definition build_capability (t : CanaryResourceType) : result CanaryCapability :=
  let '(resolved_type, alias_note) := resolve_resource_type t in
  let openflow_supported := OPENFLOW_CAPABLE resolved_type in
  let available_stages := List.filter (fun stage_name =>
    openflow_supported || negb (String.eqb stage_name "openflow_realized"))
    PIPELINE_STAGE_NAMES in
  let notes := (option_list alias_note ++
    (if bool_decide (t = network)
     then ["Neutron network maps to OVN Logical_Switch for this canary."]
     else []) ++
    (if bool_decide (t = subnet)
     then ["Subnet uses Logical_Router_Port as a CIDR-bearing proxy because OVN has no Subnet table."]
     else []) ++
    (if openflow_supported
     then ["OpenFlow evidence is meaningful only when the target datapath is realized on the local bridge.";
           "Set target_name to an existing switch/router if you want OpenFlow enabled by default."]
     else ["OpenFlow stage is skipped because this resource has no stable 1:1 mapping to br-int flows."]))%list in
  nb_table ← or_key_error resolved_type (NB_TABLE resolved_type);
  sb_signal ← or_key_error resolved_type (SB_SIGNAL resolved_type);
  mret (Capability t resolved_type
    (if bool_decide (t <> resolved_type) then Some resolved_type else None)
    (TARGET_KIND resolved_type) nb_table sb_signal openflow_supported
    openflow_supported available_stages notes).

End Canary.
