(* ===== verification/CanaryModels.v ===== *)
(** * Canary data as JSON: src/ovn_api/app/models/traces.py

    The trace store keeps a request and a result as the text that pydantic makes
    of the models of models/traces.py, and a prepared probe as the text that the
    json module makes of its data class.  Here is how each of them becomes a JSON
    value and is made again from one, with the fields, defaults and constraints
    that the classes declare.

    The class [Json] is the text of JSON values, by the json module and by
    pydantic, and which values pydantic takes for a float, an integer, a boolean
    or a string.  Its laws are those that are documented: a value is what it was
    after it was written and read, a value of a field's own type is taken as it
    is, and null is no float. *)

From stdpp Require Import base option list strings.
From Stdlib Require Import ZArith Lia SpecFloat.
From S2P Require Import Prelude Strings Binary64 Python CanaryService.

Local Open Scope Z_scope.
Local Open Scope string_scope.

Module CanaryModels.
Import Canary.

(** ** JSON values *)

Inductive value :=
| VNull
| VBool (b : bool)
| VInt (z : Z)
| VFloat (f : float)
| VStr (s : string)
| VList (l : list value)
| VDict (d : list (string * value)).

(** [d[key]] of a dictionary *)
Fixpoint field (key : string) (d : list (string * value)) : option value :=
  match d with
  | [] => None
  | (k, v) :: d => if String.eqb k key then Some v else field key d
  end.

(** A number that JSON can write *)
Definition finite (f : float) : bool :=
  match f with S754_zero _ | S754_finite _ _ _ => true | _ => false end.

(** The keys of each dictionary differ, as they do in Python. *)
Fixpoint well_keyed (v : value) : Prop :=
  match v with
  | VList l => Forall id (map well_keyed l)
  | VDict d => NoDup d.*1 /\ Forall id (map (fun '(_, v) => well_keyed v) d)
  | _ => True
  end.

Fixpoint all_finite (v : value) : Prop :=
  match v with
  | VFloat f => finite f = true
  | VList l => Forall id (map all_finite l)
  | VDict d => Forall id (map (fun '(_, v) => all_finite v) d)
  | _ => True
  end.

(** [json.dumps] and [json.loads]; the texts that [model_dump_json] writes and
    [model_validate_json] reads; and the values that a field of each type takes *)
Class Json := {
  json_dumps : value -> string;
  json_loads : string -> result value;
  to_json : value -> string;
  from_json : string -> result value;
  as_float : value -> option float;
  as_int : value -> option Z;
  as_bool : value -> option bool;
  as_str : value -> option string;
}.

Class JsonLaws {HJ : Json} := {
  json_loads_dumps v : well_keyed v -> json_loads (json_dumps v) = inr v;
  from_to_json v : well_keyed v -> all_finite v -> from_json (to_json v) = inr v;
  as_float_float f : as_float (VFloat f) = Some f;
  as_float_null : as_float VNull = None;
  as_int_int z : as_int (VInt z) = Some z;
  as_bool_bool b : as_bool (VBool b) = Some b;
  as_str_str s : as_str (VStr s) = Some s;
}.

Definition optional {A} (f : A -> value) (o : option A) : value :=
  match o with Some x => f x | None => VNull end.

Definition strings (l : list string) : value := VList (map VStr l).

(** pydantic writes null for an infinity and for a NaN. *)
Definition dump_float (f : float) : value :=
  if finite f then VFloat f else VNull.

Definition stage_status (s : CanaryStageStatus) : string :=
  match s with
  | Sobserved => "observed" | Stimeout => "timeout" | Sskipped => "skipped"
  | Sfailed => "failed"
  end.

Definition trace_status (s : CanaryTraceStatus) : string :=
  match s with
  | success => "success" | partial_success => "partial_success"
  | timeout => "timeout" | failed => "failed"
  end.

Definition CANARY_STAGE_STATUSES : list CanaryStageStatus :=
  [Sobserved; Stimeout; Sskipped; Sfailed].
Definition CANARY_TRACE_STATUSES : list CanaryTraceStatus :=
  [success; partial_success; timeout; failed].

(** The member of a [Literal] that a string is *)
Definition member {A} (name : A -> string) (l : list A) (s : string) : option A :=
  List.find (fun x => String.eqb (name x) s) l.

Section Models.
Context {HJ : Json}.

(** ** Validation *)

Definition ValidationError (name : string) : exn := Exception "ValidationError" name.

(** A field: the value given is checked, and a missing one has a default or is
    an error. *)
Definition validated {A} (name : string) (check : value -> option A)
    (default : option A) (d : list (string * value)) : result A :=
  match field name d with
  | Some v => match check v with
              | Some x => inr x
              | None => inl (ValidationError name)
              end
  | None => match default with
            | Some x => inr x
            | None => inl (ValidationError name)
            end
  end.

(** [T | None] *)
Definition nullable {A} (check : value -> option A) (v : value) : option (option A) :=
  match v with VNull => Some None | _ => Some <$> check v end.

(** [Literal[...]] takes no other value than its strings. *)
Definition one_of {A} (name : A -> string) (l : list A) (v : value) : option A :=
  match v with VStr s => member name l s | _ => None end.

(** [Field(gt=0)] and [Field(ge=50)] *)
Definition positive_float (v : value) : option float :=
  f ← as_float v; if Float.ltb Float.zero f then Some f else None.
Definition at_least (n : Z) (v : value) : option Z :=
  z ← as_int v; if (n <=? z)%Z then Some z else None.

Definition list_of {A} (check : value -> option A) (v : value) : option (list A) :=
  match v with VList l => mapM check l | _ => None end.

Definition a_model {A} (v : value) (k : list (string * value) -> result A) : result A :=
  match v with
  | VDict d => k d
  | _ => inl (ValidationError "model_type")
  end.

(** ** Requests *)

Definition dump_request (rq : CanaryProbeRequest) : value :=
  VDict [("resource_type", VStr (literal (rq_resource_type rq)));
         ("target_name", optional VStr (rq_target_name rq));
         ("bridge", VStr (rq_bridge rq));
         ("timeout_s", dump_float (rq_timeout_s rq));
         ("poll_interval_ms", VInt (rq_poll_interval_ms rq));
         ("expect_openflow", optional VBool (rq_expect_openflow rq))].

Definition validate_request (v : value) : result CanaryProbeRequest :=
  a_model v (fun d =>
    t ← validated "resource_type" (one_of literal CANARY_RESOURCE_TYPES) None d;
    target ← validated "target_name" (nullable as_str) (Some None) d;
    bridge ← validated "bridge" as_str (Some "br-int") d;
    timeout ← validated "timeout_s" positive_float (Some (Float.of_Z 15)) d;
    poll ← validated "poll_interval_ms" (at_least 50) (Some 250) d;
    expect ← validated "expect_openflow" (nullable as_bool) (Some None) d;
    mret (Request t target bridge timeout poll expect)).

Definition request_json (rq : CanaryProbeRequest) : string :=
  to_json (dump_request rq).
Definition request_of_json (s : string) : result CanaryProbeRequest :=
  v ← from_json s; validate_request v.

(** ** Results *)

Definition dump_stage (st : CanaryProbeStage) : value :=
  VDict [("status", VStr (stage_status (st_status st)));
         ("observed_at", optional VStr (st_observed_at st));
         ("latency_ms", optional dump_float (st_latency_ms st));
         ("detail", optional VStr (st_detail st));
         ("evidence", strings (st_evidence st))].

Definition validate_stage (v : value) : result CanaryProbeStage :=
  a_model v (fun d =>
    s ← validated "status" (one_of stage_status CANARY_STAGE_STATUSES) None d;
    at_ ← validated "observed_at" (nullable as_str) (Some None) d;
    ms ← validated "latency_ms" (nullable as_float) (Some None) d;
    detail ← validated "detail" (nullable as_str) (Some None) d;
    evidence ← validated "evidence" (list_of as_str) (Some []) d;
    mret (Stage s at_ ms detail evidence)).

Definition stage_field (v : value) : option CanaryProbeStage :=
  match validate_stage v with inr st => Some st | inl _ => None end.

Definition dump_result (r : CanaryProbeResult) : value :=
  VDict [("probe_id", VStr (r_probe_id r));
         ("requested_resource_type", VStr (literal (r_requested_resource_type r)));
         ("resolved_resource_type", VStr (literal (r_resolved_resource_type r)));
         ("resource_name", VStr (r_resource_name r));
         ("target_name", optional VStr (r_target_name r));
         ("started_at", VStr (r_started_at r));
         ("finished_at", optional VStr (r_finished_at r));
         ("status", VStr (trace_status (r_status r)));
         ("openflow_expected", VBool (r_openflow_expected r));
         ("note", optional VStr (r_note r));
         ("nb_uuid", optional VStr (r_nb_uuid r));
         ("command_latency_ms", dump_float (r_command_latency_ms r));
         ("nb_committed", dump_stage (r_nb_committed r));
         ("sb_realized", dump_stage (r_sb_realized r));
         ("openflow_realized", dump_stage (r_openflow_realized r));
         ("cleanup", dump_stage (r_cleanup r));
         ("nb_to_sb_latency_ms", optional dump_float (r_nb_to_sb_latency_ms r));
         ("sb_to_openflow_latency_ms",
          optional dump_float (r_sb_to_openflow_latency_ms r));
         ("total_latency_ms", optional dump_float (r_total_latency_ms r))].

(** [resolved_resource_type] is any string to pydantic.  It is always one of the
    resource types, which is its type here. *)
Definition resource_type_field (v : value) : option CanaryResourceType :=
  s ← as_str v; member literal CANARY_RESOURCE_TYPES s.

Definition validate_result (v : value) : result CanaryProbeResult :=
  a_model v (fun d =>
    let text name := validated name as_str None d in
    let text_or_none name := validated name (nullable as_str) (Some None) d in
    let latency name := validated name (nullable as_float) (Some None) d in
    let stage name := validated name stage_field None d in
    id ← text "probe_id";
    requested ← validated "requested_resource_type"
      (one_of literal CANARY_RESOURCE_TYPES) None d;
    resolved ← validated "resolved_resource_type" resource_type_field None d;
    name ← text "resource_name";
    target ← text_or_none "target_name";
    started ← text "started_at";
    fin ← text_or_none "finished_at";
    status ← validated "status" (one_of trace_status CANARY_TRACE_STATUSES) None d;
    expected ← validated "openflow_expected" as_bool None d;
    note ← text_or_none "note";
    uuid ← text_or_none "nb_uuid";
    command ← validated "command_latency_ms" as_float None d;
    nb ← stage "nb_committed";
    sb ← stage "sb_realized";
    openflow ← stage "openflow_realized";
    cleanup ← stage "cleanup";
    nb_sb ← latency "nb_to_sb_latency_ms";
    sb_of ← latency "sb_to_openflow_latency_ms";
    total ← latency "total_latency_ms";
    mret (Result id requested resolved name target started fin status expected
      note uuid command nb sb openflow cleanup nb_sb sb_of total)).

Definition result_json (r : CanaryProbeResult) : string := to_json (dump_result r).
Definition result_of_json (s : string) : result CanaryProbeResult :=
  v ← from_json s; validate_result v.

(** ** Prepared probes *)

(** [asdict(prepared)], the tuple of [setup_wait] being written as a list *)
Definition asdict (p : PreparedProbe) : value :=
  VDict [("probe_id", VStr (pp_probe_id p));
         ("requested_resource_type", VStr (literal (pp_requested_resource_type p)));
         ("resolved_resource_type", VStr (literal (pp_resolved_resource_type p)));
         ("resource_name", VStr (pp_resource_name p));
         ("target_name", optional VStr (pp_target_name p));
         ("bridge", VStr (pp_bridge p));
         ("timeout_s", VFloat (pp_timeout_s p));
         ("poll_interval_s", VFloat (pp_poll_interval_s p));
         ("openflow_expected", VBool (pp_openflow_expected p));
         ("note", optional VStr (pp_note p));
         ("nb_table", VStr (pp_nb_table p));
         ("context", VDict (map (fun '(k, v) => (k, VStr v)) (pp_context p)));
         ("create_command", strings (pp_create_command p));
         ("setup_commands", VList (map strings (pp_setup_commands p)));
         ("cleanup_commands", VList (map strings (pp_cleanup_commands p)));
         ("setup_wait", optional (fun '(t, n) => VList [VStr (literal t); VStr n])
                          (pp_setup_wait p))].

(** The values of [PreparedProbe( **json.loads(...))].  The data class checks no
    types; the record has them, so that a value of another type is an error
    here.  [setup_wait] comes back as a list, which is read like the tuple. *)
Definition plain_str (v : value) : option string :=
  match v with VStr s => Some s | _ => None end.
Definition plain_float (v : value) : option float :=
  match v with VFloat f => Some f | _ => None end.
Definition plain_bool (v : value) : option bool :=
  match v with VBool b => Some b | _ => None end.
Definition plain_context (v : value) : option (list (string * string)) :=
  match v with
  | VDict d => mapM (fun '(k, v) => s ← plain_str v; Some (k, s)) d
  | _ => None
  end.
Definition plain_wait (v : value) : option (CanaryResourceType * string) :=
  match v with
  | VList [VStr t; VStr n] =>
      t ← member literal CANARY_RESOURCE_TYPES t; Some (t, n)
  | _ => None
  end.

Definition argument {A} (name : string) (check : value -> option A)
    (default : option A) (d : list (string * value)) : result A :=
  match field name d with
  | Some v => match check v with
              | Some x => inr x
              | None => inl (Exception "TypeError" name)
              end
  | None => match default with
            | Some x => inr x
            | None => inl (Exception "TypeError" name)
            end
  end.

Definition prepared_fields : list string :=
  ["probe_id"; "requested_resource_type"; "resolved_resource_type";
   "resource_name"; "target_name"; "bridge"; "timeout_s"; "poll_interval_s";
   "openflow_expected"; "note"; "nb_table"; "context"; "create_command";
   "setup_commands"; "cleanup_commands"; "setup_wait"].

Definition make_prepared (v : value) : result PreparedProbe :=
  match v with
  | VDict d =>
      if negb (forallb (fun '(k, _) => existsb (String.eqb k) prepared_fields) d)
      then inl (Exception "TypeError" "unexpected keyword argument")
      else
      let text name := argument name plain_str None d in
      let text_or_none name := argument name (nullable plain_str) None d in
      let type name :=
        argument name (one_of literal CANARY_RESOURCE_TYPES) None d in
      id ← text "probe_id";
      requested ← type "requested_resource_type";
      resolved ← type "resolved_resource_type";
      name ← text "resource_name";
      target ← text_or_none "target_name";
      bridge ← text "bridge";
      timeout ← argument "timeout_s" plain_float None d;
      poll ← argument "poll_interval_s" plain_float None d;
      expected ← argument "openflow_expected" plain_bool None d;
      note ← text_or_none "note";
      nb_table ← text "nb_table";
      context ← argument "context" plain_context (Some []) d;
      create ← argument "create_command" (list_of plain_str) (Some []) d;
      setup ← argument "setup_commands" (list_of (list_of plain_str)) (Some []) d;
      cleanup ← argument "cleanup_commands" (list_of (list_of plain_str)) (Some []) d;
      wait ← argument "setup_wait" (nullable plain_wait) (Some None) d;
      mret (Prepared id requested resolved name target bridge timeout poll expected
        note nb_table context create setup cleanup wait)
  | _ => inl (Exception "TypeError" "argument after ** must be a mapping")
  end.

Definition prepared_json (p : PreparedProbe) : string := json_dumps (asdict p).
Definition prepared_of_json (s : string) : result PreparedProbe :=
  v ← json_loads s; make_prepared v.

(** ** What can be stored *)

(** The constraints of [CanaryProbeRequest] *)
Definition valid_request (rq : CanaryProbeRequest) : bool :=
  Float.ltb Float.zero (rq_timeout_s rq) && (50 <=? rq_poll_interval_ms rq)%Z.

(** A request that comes back: pydantic accepts it, and its timeout, which may be
    infinite, is not. *)
Definition storable_request (rq : CanaryProbeRequest) : bool :=
  valid_request rq && finite (rq_timeout_s rq).

Definition finite_opt (o : option float) : bool :=
  match o with Some f => finite f | None => true end.

Definition storable_stage (st : CanaryProbeStage) : bool :=
  finite_opt (st_latency_ms st).

Definition storable_result (r : CanaryProbeResult) : bool :=
  finite (r_command_latency_ms r) && storable_stage (r_nb_committed r) &&
  storable_stage (r_sb_realized r) && storable_stage (r_openflow_realized r) &&
  storable_stage (r_cleanup r) && finite_opt (r_nb_to_sb_latency_ms r) &&
  finite_opt (r_sb_to_openflow_latency_ms r) && finite_opt (r_total_latency_ms r).

(** The context is a dictionary, and no tuple is waited for. *)
Definition storable_prepared (p : PreparedProbe) : Prop :=
  NoDup (pp_context p).*1 /\ pp_setup_wait p = None.

(** ** Round trips *)

Context {HJL : JsonLaws}.

Lemma dump_float_finite f : finite f = true -> dump_float f = VFloat f.
Proof. intros H. unfold dump_float. by rewrite H. Qed.

Lemma mapM_as_str l : mapM as_str (map VStr l) = Some l.
Proof. induction l as [| s l IH]; simpl; [done |]. by rewrite as_str_str, IH. Qed.

Lemma nullable_str o : nullable as_str (optional VStr o) = Some o.
Proof. destruct o; simpl; [by rewrite as_str_str | done]. Qed.

Lemma nullable_bool o : nullable as_bool (optional VBool o) = Some o.
Proof. destruct o; simpl; [by rewrite as_bool_bool | done]. Qed.

Lemma nullable_float o :
  finite_opt o = true -> nullable as_float (optional dump_float o) = Some o.
Proof.
  destruct o; simpl; [| done]. intros H. rewrite dump_float_finite by done.
  simpl. by rewrite as_float_float.
Qed.

(** The values written are well keyed and finite. *)
Lemma optional_str_ok o : well_keyed (optional VStr o) /\ all_finite (optional VStr o).
Proof. by destruct o. Qed.
Lemma dump_float_ok f : well_keyed (dump_float f) /\ all_finite (dump_float f).
Proof. unfold dump_float. by destruct (finite f) eqn:H. Qed.
Lemma optional_float_ok o :
  well_keyed (optional dump_float o) /\ all_finite (optional dump_float o).
Proof. destruct o; simpl; [apply dump_float_ok | done]. Qed.
Lemma strings_ok l : well_keyed (strings l) /\ all_finite (strings l).
Proof. induction l as [| s l [H1 H2]]; split; constructor; done. Qed.

Create HintDb models.
#[local] Hint Extern 4 (well_keyed _) =>
  first [exact I | apply optional_str_ok | apply dump_float_ok | apply optional_float_ok
        | apply strings_ok] : models.
#[local] Hint Extern 4 (all_finite _) =>
  first [exact I | apply optional_str_ok | apply dump_float_ok | apply optional_float_ok
        | apply strings_ok] : models.

Lemma well_keyed_dict d :
  NoDup d.*1 -> Forall (fun kv => well_keyed kv.2) d -> well_keyed (VDict d).
Proof.
  intros Hk Hd. split; [done |]. apply Forall_map.
  eapply Forall_impl; [exact Hd |]. by intros [k v].
Qed.

Lemma all_finite_dict d :
  Forall (fun kv => all_finite kv.2) d -> all_finite (VDict d).
Proof.
  intros Hd. apply Forall_map. eapply Forall_impl; [exact Hd |]. by intros [k v].
Qed.

(** Closed distinct keys, and the values one by one *)
Ltac each_value :=
  repeat (lazymatch goal with
          | |- Forall _ (_ :: _) => apply Forall_cons; split
          | |- Forall _ [] => apply Forall_nil
          end); cbn [snd]; eauto 2 with models.
Ltac dict_ok :=
  split; [apply well_keyed_dict; [by apply (bool_decide_unpack _) | each_value]
         | apply all_finite_dict; each_value].

Lemma dump_request_ok rq :
  well_keyed (dump_request rq) /\ all_finite (dump_request rq).
Proof. dict_ok; by destruct (rq_expect_openflow rq). Qed.

Lemma dump_stage_ok st : well_keyed (dump_stage st) /\ all_finite (dump_stage st).
Proof. dict_ok. Qed.

#[local] Hint Extern 3 (well_keyed (dump_stage _)) => apply dump_stage_ok : models.
#[local] Hint Extern 3 (all_finite (dump_stage _)) => apply dump_stage_ok : models.

Lemma dump_result_ok r : well_keyed (dump_result r) /\ all_finite (dump_result r).
Proof. dict_ok. Qed.

(** *** Reading what was written, field by field *)

Lemma validated_then {A B} name check (default : option A) d v x
    (k : A -> result B) r :
  field name d = Some v -> check v = Some x -> k x = r ->
  (validated name check default d ≫= k) = r.
Proof. intros Hv Hx Hk. unfold validated. by rewrite Hv, Hx. Qed.

Lemma argument_then {A B} name check (default : option A) d v x
    (k : A -> result B) r :
  field name d = Some v -> check v = Some x -> k x = r ->
  (argument name check default d ≫= k) = r.
Proof. intros Hv Hx Hk. unfold argument. by rewrite Hv, Hx. Qed.

Lemma one_of_literal t :
  one_of literal CANARY_RESOURCE_TYPES (VStr (literal t)) = Some t.
Proof. by destruct t. Qed.
Lemma resource_type_literal t : resource_type_field (VStr (literal t)) = Some t.
Proof. unfold resource_type_field. rewrite as_str_str. by destruct t. Qed.
Lemma one_of_stage_status s :
  one_of stage_status CANARY_STAGE_STATUSES (VStr (stage_status s)) = Some s.
Proof. by destruct s. Qed.
Lemma one_of_trace_status s :
  one_of trace_status CANARY_TRACE_STATUSES (VStr (trace_status s)) = Some s.
Proof. by destruct s. Qed.

Lemma as_dump_float f : finite f = true -> as_float (dump_float f) = Some f.
Proof. intros H. rewrite dump_float_finite by done. apply as_float_float. Qed.

Lemma positive_dump_float f :
  finite f = true -> Float.ltb Float.zero f = true ->
  positive_float (dump_float f) = Some f.
Proof. intros Hf Hp. unfold positive_float. rewrite as_dump_float by done. simpl. by rewrite Hp. Qed.

Lemma at_least_int n z : (n <=? z)%Z = true -> at_least n (VInt z) = Some z.
Proof. intros H. unfold at_least. rewrite as_int_int. simpl. by rewrite H. Qed.

Lemma list_of_str l : list_of as_str (strings l) = Some l.
Proof. apply mapM_as_str. Qed.

Lemma mapM_map {A B C} (f : B -> option C) (g : A -> B) (h : A -> C) l :
  (forall x, f (g x) = Some (h x)) -> mapM f (map g l) = Some (map h l).
Proof. intros H. induction l as [| x l IH]; simpl; [done |]. by rewrite H, IH. Qed.

Lemma list_of_plain_str l : list_of plain_str (strings l) = Some l.
Proof. simpl. rewrite (mapM_map plain_str VStr id) by done. by rewrite map_id. Qed.

Lemma list_of_commands l :
  list_of (list_of plain_str) (VList (map strings l)) = Some l.
Proof.
  simpl. rewrite (mapM_map _ _ id) by apply list_of_plain_str. by rewrite map_id.
Qed.

Lemma nullable_plain_str o : nullable plain_str (optional VStr o) = Some o.
Proof. by destruct o. Qed.

Lemma plain_context_dict l :
  plain_context (VDict (map (fun '(k, v) => (k, VStr v)) l)) = Some l.
Proof. simpl. rewrite (mapM_map _ _ id) by (by intros []). by rewrite map_id. Qed.

#[local] Hint Resolve one_of_literal resource_type_literal one_of_stage_status
  one_of_trace_status as_dump_float positive_dump_float at_least_int list_of_str
  nullable_str nullable_bool nullable_float list_of_plain_str list_of_commands
  nullable_plain_str plain_context_dict as_str_str as_bool_bool as_int_int : models.

Ltac fields :=
  repeat first [ eapply validated_then; [reflexivity | by eauto with models |]
               | eapply argument_then; [reflexivity | by eauto with models |] ].

(** A request that can be stored is what it was; one with an infinite timeout is
    refused when it is read. *)
Lemma request_roundtrip rq :
  storable_request rq = true -> request_of_json (request_json rq) = inr rq.
Proof.
  destruct rq as [t n b f p e]. unfold storable_request, valid_request. simpl.
  intros [[Hf Hp]%andb_prop Hfin]%andb_prop. unfold request_of_json, request_json.
  rewrite from_to_json by apply dump_request_ok.
  unfold mbind at 1, result_bind at 1, validate_request. cbn [a_model dump_request].
  by fields.
Qed.

Lemma request_infinite rq :
  finite (rq_timeout_s rq) = false ->
  request_of_json (request_json rq) = inl (ValidationError "timeout_s").
Proof.
  destruct rq as [t n b f p e]. simpl. intros Hf. unfold request_of_json, request_json.
  rewrite from_to_json by apply dump_request_ok.
  unfold mbind at 1, result_bind at 1, validate_request. cbn [a_model dump_request].
  fields. unfold validated. simpl. unfold dump_float, positive_float.
  by rewrite Hf, as_float_null.
Qed.

Lemma stage_roundtrip st :
  storable_stage st = true -> stage_field (dump_stage st) = Some st.
Proof.
  destruct st as [s at_ ms d ev]. unfold storable_stage, stage_field.
  cbn [st_latency_ms]. intros H.
  assert (validate_stage (dump_stage (Stage s at_ ms d ev)) = inr (Stage s at_ ms d ev))
    as ->; [| done].
  unfold validate_stage. cbn [a_model dump_stage]. by fields.
Qed.
#[local] Hint Resolve stage_roundtrip : models.

Lemma result_roundtrip r :
  storable_result r = true -> result_of_json (result_json r) = inr r.
Proof.
  destruct r. unfold storable_result. simpl. rewrite !andb_true_iff.
  intros [[[[[[[H1 H2] H3] H4] H5] H6] H7] H8]. unfold result_of_json, result_json.
  rewrite from_to_json by apply dump_result_ok.
  unfold mbind at 1, result_bind at 1, validate_result. cbn [a_model dump_result].
  by fields.
Qed.

Lemma asdict_well_keyed p : NoDup (pp_context p).*1 -> well_keyed (asdict p).
Proof.
  intros Hc. apply well_keyed_dict; [by apply (bool_decide_unpack _) |]. each_value.
  - apply well_keyed_dict.
    + rewrite <- list_fmap_compose.
      erewrite list_fmap_ext; [exact Hc |]. by intros ? [].
    + apply Forall_map. apply Forall_true. by intros [].
  - apply Forall_map, Forall_map, Forall_true. intros l. apply strings_ok.
  - apply Forall_map, Forall_map, Forall_true. intros l. apply strings_ok.
  - destruct (pp_setup_wait p) as [[t n] |]; [| done]. by repeat constructor.
Qed.

Lemma prepared_roundtrip p :
  storable_prepared p -> prepared_of_json (prepared_json p) = inr p.
Proof.
  intros [Hc Hw]. unfold prepared_of_json, prepared_json.
  rewrite json_loads_dumps by (by apply asdict_well_keyed).
  destruct p. simpl in Hw. subst. unfold mbind at 1, result_bind at 1.
  unfold make_prepared. cbn [asdict]. 
  match goal with |- (if negb ?b then _ else _) = _ =>
    replace b with true by reflexivity end.
  cbn [negb]. by fields.
Qed.
End Models.
End CanaryModels.
