(* ===== verification/CanaryExample.v ===== *)
(** * A simulated OVN for canary probes

    An instance of [World] with a clock, a northbound database in which the
    switch named [sw] exists once [ls-add] has run, and a southbound database
    that follows it after two seconds.  It shows that the hypotheses of the
    theorems about probes can be met, and runs a probe. *)

From stdpp Require Import base option list strings.
From Stdlib Require Import ZArith Lia.
From S2P Require Import Prelude Strings Binary64 Python CanaryService.

Local Open Scope Z_scope.
Local Open Scope string_scope.

Module CanaryExample.
Import Canary.

(** The time in seconds and whether the switch exists *)
Record sim := Sim {
  sim_time : Z;
  sim_created : bool;
}.

Definition switch_uuid : string := "11111111-2222-4333-8444-555555555555".

Definition has_word (c : list string) (word : string) : bool :=
  existsb (String.eqb word) c.

#[export] Instance sim_world : World sim := {
  w_perf_counter w := (Float.of_Z (Z.min 8 (Z.max 0 (sim_time w))), w);
  w_utc_now w := ("2026-01-01T00:00:00.000+00:00", w);
  w_sleep _ w := Sim (sim_time w + 1) (sim_created w);
  w_uuid4 w := (1329227995784915872903807060280344576, w);
  w_subprocess_run c w :=
    (Completed EmptyString,
     Sim (sim_time w)
       (if has_word c "ls-add" then true
        else if has_word c "ls-del" then false else sim_created w));
  w_nb_idl w :=
    (inr [("Logical_Switch",
           if sim_created w then [Row switch_uuid [("name", PyStr "sw")]]
           else [])], w);
  w_sb_idl w :=
    (inr [("Datapath_Binding",
           if sim_created w && (2 <=? sim_time w)%Z
           then [Row "66666666" [("type", PyList [PyStr "logical-switch"]);
                                 ("nb_uuid", PyUUID switch_uuid)]]
           else [])], w);
}.

#[export] Instance sim_row_str : RowStr := fun uuid => uuid.

Definition local_commands : command_settings :=
  CommandSettings "local" "docker" "ovn-nbctl" EmptyString "ovs-ofctl" EmptyString.

Definition start : env sim := Env (Sim 0 false) [].

(** A probe for the switch [sw], with a timeout of [timeout] seconds *)
Definition switch_probe (timeout : Z) : PreparedProbe :=
  {| pp_probe_id := "probe"; pp_requested_resource_type := network;
     pp_resolved_resource_type := logical_switch; pp_resource_name := "sw";
     pp_target_name := None; pp_bridge := "br-int";
     pp_timeout_s := Float.of_Z timeout; pp_poll_interval_s := Float.of_Z 1;
     pp_openflow_expected := false; pp_note := None;
     pp_nb_table := "Logical_Switch"; pp_context := [("switch_name", "sw")];
     pp_create_command := ["ls-add"; "sw"]; pp_setup_commands := [];
     pp_cleanup_commands := [["--if-exists"; "ls-del"; "sw"]];
     pp_setup_wait := None |}.

(** With five seconds the probe succeeds in its third round. *)
Lemma switch_probe_succeeds : exists r e',
  run_prepared_probe local_commands 3 (switch_probe 5) start = Some (inr r, e') /\
  r_status r = success.
Proof. do 2 eexists. split; vm_compute; reflexivity. Qed.

(** With one second it gives up. *)
Lemma switch_probe_times_out : exists r e',
  run_prepared_probe local_commands 3 (switch_probe 1) start = Some (inr r, e') /\
  r_status r = timeout /\
  e_issued e' = [["ovn-nbctl"; "ls-add"; "sw"];
                 ["ovn-nbctl"; "--if-exists"; "ls-del"; "sw"]].
Proof. do 2 eexists. split_and!; vm_compute; reflexivity. Qed.

End CanaryExample.
