(* ===== verification/CanaryServiceProofs.v ===== *)
(** * What canary probes guarantee

    Theorems about [CanaryService]: a probe cleans up whatever happens, its
    status says what was observed, it comes to an end, and what it prepares is
    well formed. *)

From stdpp Require Import base option list strings.
From Stdlib Require Import ZArith Lia Ascii.
From S2P Require Import Prelude Strings Binary64 Python CanaryService CanaryExample.

Local Open Scope Z_scope.
Local Open Scope string_scope.

Module CanaryProofs.
Import Canary CanaryExample.

Section Probe.
Context {W : Type} {HW : World W} {HR : RowStr} (cfg : command_settings).

Abbreviation E := (env W).

(** ** Cleanup *)

(** The commands that were started between two environments all satisfy [Q]. *)
Definition issues (Q : list string -> Prop) (e e' : E) : Prop :=
  exists l, e_issued e' = (e_issued e ++ l)%list /\ Forall Q l.

#[local] Instance issues_preorder Q : PreOrder (issues Q).
Proof.
  split.
  - intros e. exists []. by rewrite app_nil_r.
  - intros e1 e2 e3 (l1 & H1 & F1) (l2 & H2 & F2). exists (l1 ++ l2)%list.
    rewrite H2, H1, app_assoc. split; [done | by apply Forall_app].
Qed.

Lemma issues_tick {A} Q (f : W -> A * W) : guarantees (issues Q) (tick f).
Proof.
  intros e. unfold tick. destruct (f (e_world e)) as [x w].
  exists []. by rewrite app_nil_r.
Qed.

Lemma issues_nb_idl Q : guarantees (issues Q) nb_idl.
Proof.
  intros e. unfold nb_idl. destruct (w_nb_idl (e_world e)) as [x w].
  exists []. by rewrite app_nil_r.
Qed.

Lemma issues_sb_idl Q : guarantees (issues Q) sb_idl.
Proof.
  intros e. unfold sb_idl. destruct (w_sb_idl (e_world e)) as [x w].
  exists []. by rewrite app_nil_r.
Qed.
#[local] Hint Resolve issues_tick issues_nb_idl issues_sb_idl : guarantee.

Lemma issues_perf_counter Q : guarantees (issues Q) perf_counter.
Proof. apply issues_tick. Qed.
Lemma issues_now Q : guarantees (issues Q) now.
Proof. apply issues_tick. Qed.
Lemma issues_sleep Q d : guarantees (issues Q) (sleep d).
Proof. apply issues_tick. Qed.
#[local] Hint Resolve issues_perf_counter issues_now issues_sleep : guarantee.

(** The containers are named where the transport needs them. *)
Definition transport_ok : Prop :=
  cs_transport cfg = "local" \/
  cs_transport cfg = "docker-exec" /\ cs_ovn_nb_container cfg <> EmptyString /\
  cs_ovs_vswitchd_container cfg <> EmptyString.

Definition command_line (container : string) (args : list string) : list string :=
  if String.eqb (cs_transport cfg) "local" then args
  else ([cs_docker_bin cfg; "exec"; container] ++ args)%list.

(** The process that [nb_run args] starts, and that of a flow dump *)
Definition nbctl_line (args : list string) : list string :=
  command_line (cs_ovn_nb_container cfg) (cs_ovn_nbctl_bin cfg :: args).
Definition dump_line (bridge : string) : list string :=
  command_line (cs_ovs_vswitchd_container cfg)
    [cs_ovs_ofctl_bin cfg; "dump-flows"; bridge].

Lemma build_command_ok args container :
  cs_transport cfg = "local" \/
  cs_transport cfg = "docker-exec" /\ container <> EmptyString ->
  build_command cfg args container = inr (command_line container args).
Proof.
  unfold build_command, command_line. intros [-> | [-> Hc]]; [done |].
  simpl. by apply String.eqb_neq in Hc as ->.
Qed.

Lemma executor_run_spec args container e :
  cs_transport cfg = "local" \/
  cs_transport cfg = "docker-exec" /\ container <> EmptyString ->
  exists r e', executor_run cfg args container e = (r, e') /\
    e_issued e' = (e_issued e ++ [command_line container args])%list.
Proof.
  intros H. unfold executor_run, mbind, M_bind, lift.
  rewrite build_command_ok by done.
  destruct (w_subprocess_run _ _) as [o w].
  destruct o; unfold mret, M_ret, raise; eauto.
Qed.

Lemma nb_run_issued args e r e' :
  transport_ok -> nb_run cfg args e = (r, e') ->
  e_issued e' = (e_issued e ++ [nbctl_line args])%list.
Proof.
  intros Ht. unfold nb_run, mbind, M_bind.
  destruct (executor_run_spec (cs_ovn_nbctl_bin cfg :: args)
              (cs_ovn_nb_container cfg) e) as (r' & e'' & -> & H).
  { destruct Ht as [? | (? & ? & ?)]; auto. }
  destruct r'; simpl; unfold mret, M_ret; intros [= <- <-]; done.
Qed.

Lemma issues_nb_run (Q : list string -> Prop) args :
  transport_ok -> Q (nbctl_line args) -> guarantees (issues Q) (nb_run cfg args).
Proof.
  intros Ht HQ e. destruct (nb_run cfg args e) as [r e'] eqn:H.
  exists [nbctl_line args]. split; [by eapply nb_run_issued | by repeat constructor].
Qed.

Lemma issues_dump (Q : list string -> Prop) b :
  transport_ok -> Q (dump_line b) ->
  guarantees (issues Q) (dump_openflow_flows cfg b).
Proof.
  intros Ht HQ e. unfold dump_openflow_flows.
  destruct (executor_run_spec [cs_ovs_ofctl_bin cfg; "dump-flows"; b]
              (cs_ovs_vswitchd_container cfg) e) as (r' & e'' & -> & H).
  { destruct Ht as [? | (? & ? & ?)]; auto. }
  exists [dump_line b]. split; [done | by repeat constructor].
Qed.

(** The commands that may run before the cleanup of [p] *)
Definition probe_line (p : PreparedProbe) (c : list string) : Prop :=
  c = dump_line (pp_bridge p) \/
  exists args, args ∈ (pp_setup_commands p ++ [pp_create_command p])%list /\
               c = nbctl_line args.

Lemma run_commands_issues Q cs :
  transport_ok -> Forall (fun c => Q (nbctl_line c)) cs ->
  guarantees (issues Q) (run_commands cfg cs).
Proof.
  intros Ht. induction 1; simpl; guarantee. by apply issues_nb_run.
Qed.

(** Relations on environments, in the polling loop *)
Definition on_env (R : relation E) (s s' : poll * E) : Prop := R s.2 s'.2.

#[local] Instance on_env_preorder R : PreOrder R -> PreOrder (on_env R).
Proof.
  intros HP. split; [by intros s; red |].
  intros s1 s2 s3 H1 H2. unfold on_env in *. by etrans.
Qed.

Lemma guarantees_outside {A} R (m : M E A) :
  guarantees R m -> guarantees (on_env R) (outside m).
Proof.
  intros Hm [v e]. unfold outside, on_env. specialize (Hm e).
  by destruct (m e) as [r e'].
Qed.

Lemma guarantees_variables R `{!PreOrder R} : guarantees (on_env R) variables.
Proof. intros s. unfold on_env. simpl. done. Qed.

Lemma guarantees_assign R `{!PreOrder R} f : guarantees (on_env R) (assign f).
Proof. intros [v e]. unfold on_env. simpl. done. Qed.
#[local] Hint Resolve guarantees_outside guarantees_variables guarantees_assign
  : guarantee.

Lemma find_nb_row_issues Q p : guarantees (issues Q) (find_nb_row p).
Proof. unfold find_nb_row. guarantee. Qed.

Lemma find_sb_evidence_issues Q p u :
  guarantees (issues Q) (find_sb_evidence p u).
Proof. unfold find_sb_evidence. guarantee. Qed.

Lemma find_openflow_evidence_issues (Q : list string -> Prop) p :
  transport_ok -> Q (dump_line (pp_bridge p)) ->
  guarantees (issues Q) (find_openflow_evidence cfg p).
Proof.
  intros. unfold find_openflow_evidence. guarantee. by apply issues_dump.
Qed.
#[local] Hint Resolve find_nb_row_issues find_sb_evidence_issues
  find_openflow_evidence_issues : guarantee.

Lemma poll_loop_guarantees (R : relation (poll * E)) `{!PreOrder R}
    fuel p t d s r s' :
  guarantees R (outside perf_counter) -> guarantees R (poll_once cfg p t) ->
  poll_loop cfg fuel p t d s = Some (r, s') -> R s s'.
Proof.
  intros Hperf Honce. revert s.
  induction fuel as [| fuel IH]; intros s; simpl; [done |].
  pose proof (Hperf s) as H1.
  destruct (outside perf_counter s) as [[x | now] s1]; simpl in H1;
    [by intros [= <- <-] |].
  destruct (Float.leb now d); [| by intros [= <- <-]].
  pose proof (Honce s1) as H2.
  destruct (poll_once cfg p t s1) as [[x | []] s2]; simpl in H2;
    intros H; simplify_eq; (etrans; [exact H1 |]); try done.
  etrans; [exact H2 | by apply IH].
Qed.

Section Preserved.
(** A preorder on environments that every operation of a probe respects *)
Context (R : relation E) `{!PreOrder R}.

Class Respects (p : PreparedProbe) := {
  respects_perf : guarantees R perf_counter;
  respects_now : guarantees R now;
  respects_sleep : guarantees R (sleep (pp_poll_interval_s p));
  respects_nb_row : guarantees R (find_nb_row p);
  respects_sb u : guarantees R (find_sb_evidence p u);
  respects_openflow : guarantees R (find_openflow_evidence cfg p);
}.
#[local] Hint Resolve respects_perf respects_now respects_sleep respects_nb_row
  respects_sb respects_openflow : guarantee.

Lemma poll_nb_respects p t :
  Respects p -> guarantees (on_env R) (poll_nb p t).
Proof. intros. unfold poll_nb. guarantee. Qed.

Lemma poll_sb_respects p t :
  Respects p -> guarantees (on_env R) (poll_sb p t).
Proof. intros. unfold poll_sb. guarantee. Qed.

Lemma poll_openflow_respects p t :
  Respects p -> guarantees (on_env R) (poll_openflow cfg p t).
Proof. intros. unfold poll_openflow. guarantee. Qed.
#[local] Hint Resolve poll_nb_respects poll_sb_respects poll_openflow_respects
  : guarantee.

Lemma poll_once_respects p t :
  Respects p -> guarantees (on_env R) (poll_once cfg p t).
Proof. intros. unfold poll_once. guarantee. Qed.

Lemma poll_loop_respects fuel p t d s r s' :
  Respects p -> poll_loop cfg fuel p t d s = Some (r, s') -> on_env R s s'.
Proof.
  intros Hp Hl. eapply (poll_loop_guarantees (on_env R)); [.. | exact Hl].
  - apply guarantees_outside, respects_perf; apply _.
  - by apply poll_once_respects.
Qed.
End Preserved.

#[local] Instance issues_respects p :
  transport_ok -> Respects (issues (probe_line p)) p.
Proof.
  intros Ht. split; intros; auto with guarantee.
  apply find_openflow_evidence_issues; [done |]. by left.
Qed.

(** The last command of [done_] is one for which the operating system raised the
    exception [x], other than that there is no such program. *)
Definition raised_by (done_ : list (list string)) (x : exn) : Prop :=
  exists c w name msg, last done_ = Some c /\ x = Exception name msg /\
    (w_subprocess_run (nbctl_line c) w).1 = RunRaised name msg.

Lemma raised_by_cons c done_ x : raised_by done_ x -> raised_by (c :: done_) x.
Proof.
  intros (c' & w & n & m & Hl & H). exists c', w, n, m. split; [| done].
  by rewrite last_cons, Hl.
Qed.

Lemma nb_run_raised args e n m e' :
  transport_ok -> nb_run cfg args e = (inl (Exception n m), e') ->
  raised_by [args] (Exception n m).
Proof.
  intros Ht. unfold nb_run, executor_run, mbind, M_bind, lift.
  rewrite build_command_ok by (destruct Ht as [? | (? & ? & ?)]; auto).
  destruct (w_subprocess_run _ _) as [o w] eqn:Ho.
  destruct o; unfold mret, M_ret, raise; try done. intros [= <- <- <-].
  exists args, (e_world e), name, msg. split; [done |]. split; [done |].
  unfold nbctl_line. by rewrite Ho.
Qed.

Definition raised {A} (r : result A) : option exn :=
  match r with inl x => Some x | inr _ => None end.

(** The cleanup [commands] were run in order: all of them, or those up to one
    whose process raised an exception of its own, which is then raised. *)
Definition cleaned_up (commands : list (list string)) (e : E) (o : option exn)
    (e' : E) : Prop :=
  exists done_, done_ `prefix_of` commands /\
    e_issued e' = (e_issued e ++ map nbctl_line done_)%list /\
    (done_ = commands \/ exists x, o = Some x /\ raised_by done_ x).

Lemma cleaned_up_nil e o : cleaned_up [] e o e.
Proof. exists []. rewrite app_nil_r. auto. Qed.

Lemma cleaned_up_cons c cs e e1 o e' :
  e_issued e1 = (e_issued e ++ [nbctl_line c])%list ->
  cleaned_up cs e1 o e' -> cleaned_up (c :: cs) e o e'.
Proof.
  intros Hi (d & Hd & He & Ho). exists (c :: d). split; [by apply prefix_cons |].
  split; [by rewrite He, Hi, <- app_assoc |].
  destruct Ho as [-> | (x & Hx & ?%(raised_by_cons c))]; eauto.
Qed.

(** Without an exception all commands were run, whatever is raised later. *)
Lemma cleaned_up_all cs e o e' e'' :
  cleaned_up cs e None e' -> e_issued e'' = e_issued e' -> cleaned_up cs e o e''.
Proof.
  intros (d & Hd & He & [-> | (x & [=] & _)]) Hi. exists cs.
  rewrite Hi. auto.
Qed.

Lemma cleanup_errors_spec commands e r e' :
  transport_ok -> cleanup_errors cfg commands e = (r, e') ->
  cleaned_up commands e (raised r) e'.
Proof.
  intros Ht. revert e r e'. induction commands as [| c cs IH]; intros e r e'.
  { intros [= <- <-]. apply cleaned_up_nil. }
  simpl. unfold mbind, M_bind, except_http, mret, M_ret.
  destruct (nb_run cfg c e) as [r1 e1] eqn:H1. simpl.
  pose proof (nb_run_issued _ _ _ _ Ht H1) as Hi.
  destruct r1 as [[st d | n m] | u].
  2: { apply nb_run_raised in H1; [| done]. intros [= <- <-]. exists [c].
       split; [by apply prefix_cons, prefix_nil | simpl; eauto 10]. }
  all: destruct (cleanup_errors cfg cs e1) as [x e2] eqn:H2; apply IH in H2;
    apply (cleaned_up_cons c cs e e1) in H2; [| done];
    destruct x; intros [= <- <-]; exact H2.
Qed.

Lemma now_issued e r e' : now e = (r, e') -> e_issued e' = e_issued e.
Proof. unfold now, tick. destruct (w_utc_now (e_world e)). by intros [= <- <-]. Qed.

Lemma run_cleanup_spec p e r e' :
  transport_ok -> run_cleanup cfg p e = (r, e') ->
  cleaned_up (pp_cleanup_commands p) e (raised r) e'.
Proof.
  intros Ht. unfold run_cleanup.
  destruct (pp_cleanup_commands p) as [| c cs] eqn:Hc.
  { intros [= <- <-]. apply cleaned_up_nil. }
  unfold mbind, M_bind.
  destruct (cleanup_errors cfg (c :: cs) e) as [[x | errs] e1] eqn:H1;
    apply cleanup_errors_spec in H1; try done; [by intros [= <- <-] |].
  destruct errs; [| by intros [= <- <-]].
  destruct (now e1) as [[x | t] e2] eqn:Hn; apply now_issued in Hn;
    intros [= <- <-]; by eapply cleaned_up_all.
Qed.

Lemma finally_cleanup_spec p r e r' e' :
  transport_ok -> finally_cleanup cfg p r e = (r', e') ->
  cleaned_up (pp_cleanup_commands p) e (raised r') e'.
Proof.
  intros Ht. unfold finally_cleanup, mbind, M_bind.
  destruct (run_cleanup cfg p e) as [[x | st] e1] eqn:H1;
    apply run_cleanup_spec in H1; try done; [by intros [= <- <-] |].
  destruct r as [x | r]; [intros [= <- <-]; by eapply cleaned_up_all |].
  destruct (now e1) as [[x | t] e2] eqn:Hn; apply now_issued in Hn;
    intros [= <- <-]; by eapply cleaned_up_all.
Qed.

(** ** Computations with fuel *)

Definition fguarantees (R : relation E) {A} (m : F A) : Prop :=
  forall e r e', m e = Some (r, e') -> R e e'.

Lemma fguarantees_ret R {A} (m : M E A) :
  guarantees R m -> fguarantees R (fret m).
Proof.
  intros Hm e r e' [= H]. specialize (Hm e). by rewrite H in Hm.
Qed.

Lemma fguarantees_bind R `{!PreOrder R} {A B} (m : M E A) (k : A -> F B) :
  guarantees R m -> (forall x, fguarantees R (k x)) ->
  fguarantees R (fbind m k).
Proof.
  intros Hm Hk e r e'. unfold fbind. specialize (Hm e).
  destruct (m e) as [[x | a] e1]; simpl in Hm; [by intros [= <- <-] |].
  intros H. etrans; [done | by eapply Hk].
Qed.

Lemma execute_poll_guarantees R `{!PreOrder R} fuel p at_ t l :
  Respects R p -> fguarantees R (execute_poll cfg fuel p at_ t l).
Proof.
  intros Hp e r e'. unfold execute_poll.
  destruct (poll_loop _ _ _ _ _ _) as [[r1 [v e1]] |] eqn:Hl; [| done].
  apply (poll_loop_respects R) in Hl; [| done..]. unfold on_env in Hl; simpl in Hl.
  pose proof (respects_perf R (p:=p) e1) as Hperf.
  destruct r1 as [[st d | n m] | u]; [| by intros [= <- <-] |];
    unfold fret, mbind, M_bind, mret, M_ret;
    destruct (perf_counter e1) as [[x | f] e2]; intros [= <- <-]; by etrans.
Qed.

Lemma execute_probe_guarantees R `{!PreOrder R} fuel p :
  Respects R p -> guarantees R (nb_run cfg (pp_create_command p)) ->
  fguarantees R (execute_probe cfg fuel p).
Proof.
  intros Hp Hc. pose proof (respects_perf R (p:=p)). pose proof (respects_now R (p:=p)).
  unfold execute_probe. repeat (apply fguarantees_bind; [apply _ | | intros ?]);
    [done | done | by guarantee |].
  destruct x1; [apply fguarantees_ret; by guarantee |].
  apply fguarantees_bind; [apply _ | done | intros ?].
  by apply execute_poll_guarantees.
Qed.

Lemma setup_ready_issues Q t n : guarantees (issues Q) (setup_ready t n).
Proof.
  unfold setup_ready, find_named_nb_row, find_named_or_uuid_row,
    find_sb_parent_evidence. guarantee.
Qed.

Lemma setup_loop_issues Q fuel p t n d :
  fguarantees (issues Q) (setup_loop fuel p t n d).
Proof.
  induction fuel as [| fuel IH]; simpl; [by intros ? |].
  apply fguarantees_bind; [apply _ | auto with guarantee | intros x].
  destruct (Float.leb x d); [| by apply fguarantees_ret; guarantee].
  apply fguarantees_bind; [apply _ | apply setup_ready_issues | intros b].
  destruct b; [by apply fguarantees_ret; guarantee |].
  apply fguarantees_bind; [apply _ | auto with guarantee | done].
Qed.

Lemma run_setup_issues fuel p :
  transport_ok -> fguarantees (issues (probe_line p)) (run_setup cfg fuel p).
Proof.
  intros Ht. unfold run_setup. apply fguarantees_bind; [apply _ | | intros _].
  { apply run_commands_issues; [done |]. apply Forall_forall. intros c Hc.
    right. exists c. split; [apply elem_of_app; by left | done]. }
  destruct (pp_setup_wait p) as [[t n] |]; [| by apply fguarantees_ret; guarantee].
  apply fguarantees_bind; [apply _ | auto with guarantee | intros ?].
  apply setup_loop_issues.
Qed.

(** What ran before the cleanup: the setup, the probe, or both in part *)
Lemma run_prepared_probe_split fuel p e r e' :
  transport_ok -> run_prepared_probe cfg fuel p e = Some (r, e') ->
  exists r0 e0, issues (probe_line p) e e0 /\
    finally_cleanup cfg p r0 e0 = (r, e').
Proof.
  intros Ht. unfold run_prepared_probe.
  destruct (run_setup cfg fuel p e) as [[rs e1] |] eqn:Hs; [| done].
  apply run_setup_issues in Hs; [| done].
  destruct rs as [[st d | n m] | u].
  - unfold setup_failed_result, mbind, M_bind, now, tick.
    destruct (w_utc_now (e_world e1)) as [t w] eqn:Hw. simpl. intros [= H].
    eexists _, _. split; [| exact H]. etrans; [exact Hs |].
    exists []. by rewrite app_nil_r.
  - intros [= H]. eauto.
  - destruct (execute_probe cfg fuel p e1) as [[r1 e2] |] eqn:He; [| done].
    intros [= H]. exists r1, e2. split; [| done]. etrans; [exact Hs |].
    revert He. apply execute_probe_guarantees; [apply _ | by apply issues_respects |].
    apply issues_nb_run; [done |]. right. eexists. split; [| done].
    apply elem_of_app. right. by apply list_elem_of_singleton.
Qed.

(** ** The stages of a probe *)

Definition seen {A} (o : option A) (otherwise : CanaryStageStatus) :
    CanaryStageStatus :=
  match o with Some _ => Sobserved | None => otherwise end.

(** A stage is reported as observed only with evidence, at most five lines of
    it, and with the time that it took. *)
Definition evidenced (s : CanaryProbeStage) : Prop :=
  st_status s = Sobserved ->
  (1 <= length (st_evidence s) <= 5)%nat /\ is_Some (st_latency_ms s) /\
  is_Some (st_observed_at s).

Lemma observed_evidenced at_ l d ev :
  ev <> [] -> evidenced (observed_stage at_ l d (limited_evidence ev)).
Proof.
  intros Hev _. split; [| split; by eexists].
  destruct ev as [| x ev]; [done |]. simpl. rewrite length_take. lia.
Qed.

(** The stages in the polling loop say what has been seen so far, and stages
    are seen in their order. *)
Record poll_ok (p : PreparedProbe) (v : poll) : Prop := {
  ok_nb : st_status (po_nb_stage v) = seen (po_nb_uuid v) Stimeout;
  ok_sb : st_status (po_sb_stage v) = seen (po_sb_seen_at v) Stimeout;
  ok_of : st_status (po_of_stage v) = seen (po_of_seen_at v)
            (if pp_openflow_expected p then Stimeout else Sskipped);
  ok_sb_nb : is_Some (po_sb_seen_at v) -> is_Some (po_nb_uuid v);
  ok_of_sb : is_Some (po_of_seen_at v) ->
    is_Some (po_sb_seen_at v) /\ pp_openflow_expected p = true;
  ok_evidence : evidenced (po_nb_stage v) /\ evidenced (po_sb_stage v) /\
    evidenced (po_of_stage v);
}.

Definition keeps_ok (p : PreparedProbe) (s s' : poll * E) : Prop :=
  poll_ok p s.1 -> poll_ok p s'.1.

#[local] Instance keeps_ok_preorder p : PreOrder (keeps_ok p).
Proof. split; [intros s H; exact H | intros s1 s2 s3 H1 H2 H; apply H2, H1, H]. Qed.

Lemma keeps_ok_outside {A} p (m : M E A) : guarantees (keeps_ok p) (outside m).
Proof. intros [v e]. unfold outside, keeps_ok. by destruct (m e). Qed.

(** Runs a computation of the loop up to its assignment. *)
Ltac run_outside :=
  repeat match goal with
  | |- context [outside ?m (_, ?e)] =>
      unfold outside at 1; destruct (m e) as [[? | ?] ?]; [exact id |]
  end.

Lemma poll_nb_ok p t : guarantees (keeps_ok p) (poll_nb p t).
Proof.
  intros [v e]. unfold poll_nb, mbind, M_bind. simpl.
  destruct (po_nb_uuid v) as [u |] eqn:Hu; [exact id |].
  unfold outside at 1. destruct (find_nb_row p e) as [[x | [r |]] e1];
    [exact id | | exact id].
  run_outside. intros [H1 H2 H3 H4 H5 (H6 & H7 & H8)]. simpl in *.
  split; simpl; try done. split; [| done].
  by apply (observed_evidenced _ _ _ [_]).
Qed.

Lemma poll_sb_ok p t : guarantees (keeps_ok p) (poll_sb p t).
Proof.
  intros [v e]. unfold poll_sb, mbind, M_bind. simpl.
  destruct (po_nb_uuid v) as [u |] eqn:Hu; [| exact id].
  destruct (po_sb_seen_at v) as [u' |] eqn:Hs; [exact id |].
  unfold outside at 1. destruct (find_sb_evidence p u e) as [[x | []] e1];
    [exact id | exact id |].
  run_outside. intros [H1 H2 H3 H4 H5 (H6 & H7 & H8)]. simpl in *.
  split; simpl; try done; [intros Hof; split; [done | by apply H5] |].
  split; [done | split; [by apply (observed_evidenced _ _ _ (_ :: _)) | done]].
Qed.

Lemma poll_openflow_ok p t : guarantees (keeps_ok p) (poll_openflow cfg p t).
Proof.
  intros [v e]. unfold poll_openflow, mbind, M_bind. simpl.
  destruct (pp_openflow_expected p) eqn:Hp; [| exact id].
  destruct (po_sb_seen_at v) as [u' |] eqn:Hs; [| exact id].
  destruct (po_of_seen_at v) as [u |] eqn:Hu; [exact id |].
  unfold outside at 1. destruct (find_openflow_evidence cfg p e) as [[x | []] e1];
    [exact id | exact id |].
  run_outside. intros [H1 H2 H3 H4 H5 (H6 & H7 & H8)]. simpl in *.
  split; simpl; try done.
  split; [done | split; [done | by apply (observed_evidenced _ _ _ (_ :: _))]].
Qed.
#[local] Hint Resolve keeps_ok_outside poll_nb_ok poll_sb_ok poll_openflow_ok
  : guarantee.

Lemma keeps_ok_variables p : guarantees (keeps_ok p) variables.
Proof. by intros s. Qed.
#[local] Hint Resolve keeps_ok_variables : guarantee.

Lemma poll_once_ok p t : guarantees (keeps_ok p) (poll_once cfg p t).
Proof. unfold poll_once. guarantee. Qed.

Lemma poll_loop_ok fuel p t d s r s' :
  poll_loop cfg fuel p t d s = Some (r, s') -> keeps_ok p s s'.
Proof.
  intros Hl. eapply (poll_loop_guarantees (keeps_ok p)); [.. | exact Hl];
    [apply keeps_ok_outside | apply poll_once_ok].
Qed.

(** The statuses of a result's stages: NB is always evaluated, a stage is
    skipped only when one before it was not observed, and none is observed
    before its predecessor. *)
Record stages_ok (expected : bool) (nb sb openflow : CanaryStageStatus) : Prop := {
  so_nb : nb <> Sskipped;
  so_sb : sb = Sskipped -> nb <> Sobserved;
  so_of : expected = true -> openflow = Sskipped -> sb <> Sobserved;
  so_off : expected = false -> openflow = Sskipped;
  so_sb_nb : sb = Sobserved -> nb = Sobserved;
  so_of_sb : openflow = Sobserved -> sb = Sobserved;
}.

Definition delta_ok (d : option float) : Prop :=
  forall x, d = Some x -> Float.nonneg x.

Record result_ok (p : PreparedProbe) (r : CanaryProbeResult) : Prop := {
  ro_probe_id : r_probe_id r = pp_probe_id p;
  ro_expected : r_openflow_expected r = pp_openflow_expected p;
  ro_stages : stages_ok (pp_openflow_expected p) (st_status (r_nb_committed r))
    (st_status (r_sb_realized r)) (st_status (r_openflow_realized r));
  ro_evidence : evidenced (r_nb_committed r) /\ evidenced (r_sb_realized r) /\
    evidenced (r_openflow_realized r);
  ro_nb_to_sb : delta_ok (r_nb_to_sb_latency_ms r);
  ro_sb_to_of : delta_ok (r_sb_to_openflow_latency_ms r);
}.

Lemma phase_delta_ok a b : delta_ok (phase_delta_ms a b).
Proof.
  unfold phase_delta_ms. intros x.
  destruct (bool_decide _); [| done].
  destruct (st_latency_ms a), (st_latency_ms b); try done. intros [= <-].
  apply Float.round3_nonneg, Float.max_zero_nonneg.
Qed.

(** The same of the variables of the loop *)
Definition polled_ok (p : PreparedProbe) (v : poll) : Prop :=
  stages_ok (pp_openflow_expected p) (st_status (po_nb_stage v))
    (st_status (po_sb_stage v)) (st_status (po_of_stage v)) /\
  evidenced (po_nb_stage v) /\ evidenced (po_sb_stage v) /\
  evidenced (po_of_stage v).

Lemma unobserved_evidenced s : st_status s <> Sobserved -> evidenced s.
Proof. by intros H ?. Qed.

Ltac stage_cases v p H4 H5 :=
  destruct (po_nb_uuid v), (po_sb_seen_at v), (po_of_seen_at v),
    (pp_openflow_expected p) eqn:?; simpl in *;
  try (exfalso; by destruct H4; eauto);
  try (exfalso; by destruct H5 as [[] ?]; eauto);
  (split; [split; simpl; first [done | congruence] |]);
  split_and!; first [done | apply unobserved_evidenced; simpl; congruence].

Lemma stages_failed_ok p t f d v :
  poll_ok p v -> polled_ok p (stages_failed p t f d v).
Proof.
  intros [H1 H2 H3 H4 H5 (H6 & H7 & H8)]. unfold polled_ok, stages_failed.
  stage_cases v p H4 H5.
Qed.

Lemma stages_ended_ok p t f v :
  poll_ok p v -> polled_ok p (stages_ended p t f v).
Proof.
  intros [H1 H2 H3 H4 H5 (H6 & H7 & H8)]. unfold polled_ok, stages_ended.
  stage_cases v p H4 H5.
Qed.

Lemma initial_poll_ok p : poll_ok p (initial_poll p).
Proof.
  unfold initial_poll, initial_openflow_stage.
  split; simpl; try done; [by destruct (pp_openflow_expected p) | by intros [].. |].
  split_and!; apply unobserved_evidenced; by destruct (pp_openflow_expected p).
Qed.

Lemma polled_result_ok p at_ s l v :
  polled_ok p v -> result_ok p (polled_result p at_ s l v).
Proof. intros []. split; try done; apply phase_delta_ok. Qed.

Lemma execute_poll_ok fuel p at_ t l e r e' :
  execute_poll cfg fuel p at_ t l e = Some (inr r, e') -> result_ok p r.
Proof.
  unfold execute_poll.
  destruct (poll_loop _ _ _ _ _ _) as [[r1 [v e1]] |] eqn:Hl; [| done].
  apply poll_loop_ok in Hl. specialize (Hl (initial_poll_ok p)). simpl in Hl.
  unfold fret, mbind, M_bind, mret, M_ret, perf_counter, tick.
  destruct r1 as [[st d | n m] | u]; [| done |];
    destruct (w_perf_counter (e_world e1)) as [f w]; intros [= <- <-];
    apply polled_result_ok; [by apply stages_failed_ok | by apply stages_ended_ok].
Qed.

Lemma create_failed_ok p at_ d l : result_ok p (create_failed p at_ d l).
Proof.
  unfold create_failed, initial_openflow_stage.
  split; try done; simpl; [by split; destruct (pp_openflow_expected p) |].
  split_and!; apply unobserved_evidenced; by destruct (pp_openflow_expected p).
Qed.

Lemma execute_probe_ok fuel p e r e' :
  execute_probe cfg fuel p e = Some (inr r, e') -> result_ok p r.
Proof.
  unfold execute_probe, fbind, now, perf_counter, tick.
  destruct (w_utc_now _) as [at_ w1]. destruct (w_perf_counter _) as [t w2].
  destruct (except_http _ _ _) as [[x | [d |]] e1]; [done | |];
    destruct (w_perf_counter (e_world e1)) as [t' w3] eqn:Hw.
  - unfold fret, mbind, M_bind, mret, M_ret. rewrite Hw. intros [= <- <-].
    apply create_failed_ok.
  - apply execute_poll_ok.
Qed.

Lemma setup_failed_ok p d e r e' :
  setup_failed_result p d e = (inr r, e') -> result_ok p r.
Proof.
  unfold setup_failed_result, mbind, M_bind, mret, M_ret, now, tick.
  destruct (w_utc_now _) as [at_ w1]. intros [= <- <-].
  split; try done; simpl; [by split; destruct (pp_openflow_expected p) |].
  split_and!; apply unobserved_evidenced; by destruct (pp_openflow_expected p).
Qed.

(** What [finally] makes of a result *)
Lemma finally_cleanup_result p r0 e r e' :
  finally_cleanup cfg p r0 e = (inr r, e') ->
  exists r1 st t, r0 = inr r1 /\
    r = (r1 <| r_cleanup := st |> <| r_finished_at := Some t |>)
          <| r_status := derive_status
               (r1 <| r_cleanup := st |> <| r_finished_at := Some t |>) |>.
Proof.
  unfold finally_cleanup, mbind, M_bind, mret, M_ret, now, tick.
  destruct (run_cleanup cfg p e) as [[x | st] e1]; [done |].
  destruct r0 as [x | r1]; [done |]. destruct (w_utc_now _) as [t w].
  intros [= <- <-]. by exists r1, st, t.
Qed.

Lemma run_prepared_probe_result fuel p e r e' :
  run_prepared_probe cfg fuel p e = Some (inr r, e') ->
  result_ok p r /\ r_status r = derive_status r /\ is_Some (r_finished_at r).
Proof.
  intros H.
  assert (exists r0 e0, finally_cleanup cfg p r0 e0 = (inr r, e') /\
    forall r1, r0 = inr r1 -> result_ok p r1) as (r0 & e0 & Hf & Hok).
  { revert H. unfold run_prepared_probe.
    destruct (run_setup cfg fuel p e) as [[rs e1] |]; [| done].
    destruct rs as [[st d | n m] | u].
    - destruct (setup_failed_result p d e1) as [r1 e2] eqn:Hs. intros [= H].
      exists r1, e2. split; [done |]. intros r2 ->. by eapply setup_failed_ok.
    - intros [= H]. by eexists _, _.
    - destruct (execute_probe cfg fuel p e1) as [[r1 e2] |] eqn:He; [| done].
      intros [= H]. exists r1, e2. split; [done |]. intros r2 ->.
      by eapply execute_probe_ok. }
  apply finally_cleanup_result in Hf as (r1 & st & t & -> & ->).
  destruct (Hok r1 eq_refl). split; [by split | split; [done | by eexists]].
Qed.

(** Every stage that the status of a probe depends on was observed. *)
Definition all_observed (r : CanaryProbeResult) : Prop :=
  st_status (r_nb_committed r) = Sobserved /\
  st_status (r_sb_realized r) = Sobserved /\
  (r_openflow_expected r = true -> st_status (r_openflow_realized r) = Sobserved).

(** Whether a stage that counts has the status [s] *)
Definition any_stage (s : CanaryStageStatus) (r : CanaryProbeResult) : Prop :=
  st_status (r_nb_committed r) = s \/ st_status (r_sb_realized r) = s \/
  r_openflow_expected r = true /\ st_status (r_openflow_realized r) = s.

#[local] Instance any_stage_dec s r : Decision (any_stage s r).
Proof. unfold any_stage. apply _. Defined.

Lemma derive_status_eq r :
  derive_status r =
    if decide (any_stage Sfailed r) then failed
    else if decide (any_stage Stimeout r) then timeout
    else if decide (st_status (r_cleanup r) = Sfailed) then partial_success
    else success.
Proof.
  assert (forall s, existsb (fun st => bool_decide (st_status st = s))
    (r_nb_committed r :: r_sb_realized r ::
     if r_openflow_expected r then [r_openflow_realized r] else []) =
    bool_decide (any_stage s r)) as Hany.
  { intros s. apply eq_bool_prop_intro. rewrite bool_decide_spec. unfold any_stage.
    destruct (r_openflow_expected r); simpl;
      rewrite !orb_True, !bool_decide_spec; simpl; intuition done. }
  unfold derive_status. rewrite !Hany. by repeat case_decide; repeat case_bool_decide.
Qed.

Lemma observed_iff p r :
  result_ok p r ->
  all_observed r <-> ~ any_stage Sfailed r /\ ~ any_stage Stimeout r.
Proof.
  intros [_ He [H1 H2 H3 H4 H5 H6] _ _ _]. unfold all_observed, any_stage.
  rewrite He. split.
  { intros (Hnb & Hsb & Hof). rewrite Hnb, Hsb.
    split; intros [? | [? | [Hx ?]]]; try done; specialize (Hof Hx); congruence. }
  intros [Hf Ht].
  assert (st_status (r_nb_committed r) = Sobserved) as Hnb.
  { destruct (st_status (r_nb_committed r)); try done; exfalso; auto. }
  assert (st_status (r_sb_realized r) = Sobserved) as Hsb.
  { destruct (st_status (r_sb_realized r)); try done; exfalso; auto. by apply H2. }
  split; [done |]. split; [done |]. intros Hexp.
  destruct (st_status (r_openflow_realized r)); try done; exfalso; auto.
  by apply H3.
Qed.

Lemma derive_status_spec p r :
  result_ok p r ->
  (derive_status r = success <->
     all_observed r /\ st_status (r_cleanup r) <> Sfailed) /\
  (derive_status r = partial_success <->
     all_observed r /\ st_status (r_cleanup r) = Sfailed).
Proof.
  intros Hok. rewrite derive_status_eq, (observed_iff p r Hok).
  repeat case_decide; tauto || (split; split; (done || tauto)).
Qed.

(** ** Termination *)

(** The clock passes [deadline]: [remaining] bounds how many sleeps of the
    given length it takes; no operation turns the clock back. *)
Record clock_until (interval deadline : float) (remaining : W -> nat) : Prop := {
  cu_perf w : (remaining (w_perf_counter w).2 <= remaining w)%nat;
  cu_time w : Float.leb (w_perf_counter w).1 deadline = true ->
    (0 < remaining (w_perf_counter w).2)%nat;
  cu_sleep w : (remaining (w_sleep interval w) <= pred (remaining w))%nat;
  cu_now w : (remaining (w_utc_now w).2 <= remaining w)%nat;
  cu_run c w : (remaining (w_subprocess_run c w).2 <= remaining w)%nat;
  cu_nb w : (remaining (w_nb_idl w).2 <= remaining w)%nat;
  cu_sb w : (remaining (w_sb_idl w).2 <= remaining w)%nat;
}.

Section Clock.
Context (interval deadline : float) (remaining : W -> nat).
Context (Hclock : clock_until interval deadline remaining).

Definition no_later (e e' : E) : Prop :=
  (remaining (e_world e') <= remaining (e_world e))%nat.

#[local] Instance no_later_preorder : PreOrder no_later.
Proof. split; unfold no_later; [intros ?; lia | intros ???; lia]. Qed.

Lemma no_later_tick {A} (f : W -> A * W) :
  (forall w, (remaining (f w).2 <= remaining w)%nat) ->
  guarantees no_later (tick f).
Proof.
  intros H e. unfold tick, no_later. specialize (H (e_world e)).
  by destruct (f (e_world e)).
Qed.

Lemma no_later_nb_idl : guarantees no_later nb_idl.
Proof.
  intros e. unfold nb_idl, no_later. pose proof (cu_nb _ _ _ Hclock (e_world e)).
  by destruct (w_nb_idl (e_world e)).
Qed.

Lemma no_later_sb_idl : guarantees no_later sb_idl.
Proof.
  intros e. unfold sb_idl, no_later. pose proof (cu_sb _ _ _ Hclock (e_world e)).
  by destruct (w_sb_idl (e_world e)).
Qed.

Lemma no_later_run args container :
  guarantees no_later (executor_run cfg args container).
Proof.
  unfold executor_run. guarantee. intros e. unfold no_later.
  pose proof (cu_run _ _ _ Hclock x (e_world e)).
  by destruct (w_subprocess_run x (e_world e)).
Qed.
#[local] Hint Resolve no_later_nb_idl no_later_sb_idl no_later_run : guarantee.

Lemma no_later_respects p :
  pp_poll_interval_s p = interval -> Respects no_later p.
Proof.
  intros Hp. split; intros.
  - apply no_later_tick, (cu_perf _ _ _ Hclock).
  - apply no_later_tick, (cu_now _ _ _ Hclock).
  - apply no_later_tick. intros w. simpl. rewrite Hp.
    pose proof (cu_sleep _ _ _ Hclock w). lia.
  - unfold find_nb_row. guarantee.
  - unfold find_sb_evidence. guarantee.
  - unfold find_openflow_evidence, dump_openflow_flows. guarantee.
Qed.

Lemma bind_inv {S A B} (m : M S A) (k : A -> M S B) s y s' :
  (m ≫= k) s = (inr y, s') ->
  exists x s1, m s = (inr x, s1) /\ k x s1 = (inr y, s').
Proof.
  unfold mbind, M_bind. destruct (m s) as [[x | a] s1]; [done |]. eauto.
Qed.

Lemma guarantees_run {S A} (R : relation S) (m : M S A) s r s' :
  guarantees R m -> m s = (r, s') -> R s s'.
Proof. intros H Hm. specialize (H s). by rewrite Hm in H. Qed.

(** A round that does not end the loop sleeps. *)
Lemma poll_once_sleeps p t s s' :
  pp_poll_interval_s p = interval -> poll_once cfg p t s = (inr false, s') ->
  (remaining (e_world s'.2) <= pred (remaining (e_world s.2)))%nat.
Proof.
  intros Hp H. pose proof (no_later_respects p Hp) as Hr. unfold poll_once in H.
  apply bind_inv in H as (u1 & s1 & H1 & H).
  apply bind_inv in H as (u2 & s2 & H2 & H).
  apply bind_inv in H as (u3 & s3 & H3 & H).
  apply (guarantees_run (on_env no_later)) in H1; [| apply poll_nb_respects; apply _].
  apply (guarantees_run (on_env no_later)) in H2; [| apply poll_sb_respects; apply _].
  apply (guarantees_run (on_env no_later)) in H3;
    [| apply poll_openflow_respects; apply _].
  apply bind_inv in H as (v & s4 & [= <- <-] & H).
  destruct (realized p s3.1); [done |].
  apply bind_inv in H as (u & s5 & Hs & [= <-]). destruct s3 as [v e3].
  unfold outside, sleep, tick in Hs. injection Hs as <- <-. simpl.
  pose proof (cu_sleep _ _ _ Hclock (e_world e3)).
  unfold on_env, no_later in *. simpl in *. rewrite Hp. lia.
Qed.

Lemma poll_loop_terminates fuel p t s :
  pp_poll_interval_s p = interval -> (remaining (e_world s.2) < fuel)%nat ->
  is_Some (poll_loop cfg fuel p t deadline s).
Proof.
  intros Hp. revert s. induction fuel as [| fuel IH]; intros [v e] Hf; [lia |].
  simpl in *. unfold perf_counter, tick.
  pose proof (cu_perf _ _ _ Hclock (e_world e)) as H1.
  pose proof (cu_time _ _ _ Hclock (e_world e)) as H2.
  destruct (w_perf_counter (e_world e)) as [now w]; simpl in *.
  destruct (Float.leb now deadline); [| by eexists].
  destruct (poll_once cfg p t _) as [[x | []] s2] eqn:Ho; [by eexists.. |].
  apply poll_once_sleeps in Ho; [| done]. simpl in Ho.
  apply IH. specialize (H2 eq_refl). lia.
Qed.
End Clock.

Lemma poll_loop_more_fuel fuel fuel' p t d s x :
  (fuel <= fuel')%nat -> poll_loop cfg fuel p t d s = Some x ->
  poll_loop cfg fuel' p t d s = Some x.
Proof.
  revert fuel' s. induction fuel as [| fuel IH]; intros fuel' s Hf; [done |].
  destruct fuel' as [| fuel']; [lia |]. simpl.
  destruct (outside perf_counter s) as [[y | now] s1]; [done |].
  destruct (Float.leb now d); [| done].
  destruct (poll_once cfg p t s1) as [[y | []] s2]; try done.
  apply IH. lia.
Qed.

(** The deadline that the polling loop of a probe gets, where it gets that far *)
Definition probe_deadline (p : PreparedProbe) (e : E) : option float :=
  match run_setup cfg 0 p e with
  | Some (inr _, e1) =>
      Some (Float.add (w_perf_counter (w_utc_now (e_world e1)).2).1 (pp_timeout_s p))
  | _ => None
  end.

Lemma execute_probe_terminates p e remaining :
  clock_until (pp_poll_interval_s p)
    (Float.add (w_perf_counter (w_utc_now (e_world e)).2).1 (pp_timeout_s p))
    remaining ->
  exists fuel res, forall fuel', (fuel <= fuel')%nat ->
    execute_probe cfg fuel' p e = Some res.
Proof.
  intros Hc. unfold execute_probe, fbind, now, perf_counter, tick.
  destruct (w_utc_now (e_world e)) as [at_ w1]; simpl in *.
  destruct (w_perf_counter w1) as [t w2]; simpl in *.
  destruct (except_http _ _ _) as [[x | [d |]] e1]; [by exists O; eexists.. |].
  destruct (w_perf_counter (e_world e1)) as [t' w3].
  set (e3 := Env w3 (e_issued e1)). unfold execute_poll.
  destruct (poll_loop_terminates _ _ _ Hc (S (remaining w3)) p t (initial_poll p, e3))
    as [x Hx]; [done | simpl; lia |].
  destruct x as [r [v e4]].
  exists (S (remaining w3)).
  destruct r as [[st d | n m] | u]; eexists; intros fuel' Hf;
    rewrite (poll_loop_more_fuel _ _ _ _ _ _ _ Hf Hx); done.
Qed.

Lemma run_setup_no_wait fuel p e :
  pp_setup_wait p = None -> run_setup cfg fuel p e = run_setup cfg 0 p e.
Proof. intros H. unfold run_setup. by rewrite H. Qed.

Lemma run_prepared_probe_ends p e :
  pp_setup_wait p = None ->
  (forall d, probe_deadline p e = Some d ->
     exists remaining, clock_until (pp_poll_interval_s p) d remaining) ->
  exists fuel res, forall fuel', (fuel <= fuel')%nat ->
    run_prepared_probe cfg fuel' p e = Some res.
Proof.
  intros Hw Hc. unfold run_prepared_probe. unfold probe_deadline in Hc.
  setoid_rewrite (run_setup_no_wait _ p e Hw).
  destruct (run_setup cfg 0 p e) as [[rs e1] |] eqn:Hs.
  2: { revert Hs. unfold run_setup, fbind. rewrite Hw.
       by destruct (run_commands _ _ _) as [[x | []] ?]. }
  destruct rs as [[st d | n m] | u].
  - destruct (setup_failed_result p d e1) as [r e2]. exists O. by eexists.
  - exists O. by eexists.
  - destruct (Hc _ eq_refl) as [remaining Hr].
    destruct (execute_probe_terminates p e1 remaining Hr) as (fuel & [r e2] & Hf).
    exists fuel. eexists. intros fuel' Hle. by rewrite (Hf _ Hle).
Qed.

(** What a probe ran between [e] and [e']: first what belongs to the probe, and
    then the cleanup. *)
Definition ran_with_cleanup (p : PreparedProbe) (e : E)
    (r : result CanaryProbeResult) (e' : E) : Prop :=
  exists before done_,
    e_issued e' = (e_issued e ++ before ++ map nbctl_line done_)%list /\
    Forall (probe_line p) before /\ done_ `prefix_of` pp_cleanup_commands p /\
    (done_ = pp_cleanup_commands p \/ exists x, r = inl x /\ raised_by done_ x).

Lemma run_prepared_probe_cleans fuel p e r e' :
  transport_ok -> run_prepared_probe cfg fuel p e = Some (r, e') ->
  ran_with_cleanup p e r e'.
Proof.
  intros Ht H. apply run_prepared_probe_split in H as (r0 & e0 & (l & Hl & Hq) & H);
    [| done].
  apply finally_cleanup_spec in H as (d & Hd & He & Hr); [| done].
  exists l, d. rewrite He, Hl, app_assoc. do 3 (split; [done |]).
  destruct Hr as [? | (x & Hx & ?)]; [by left |]. right. exists x.
  destruct r; [by injection Hx as -> | done].
Qed.

(** ** Theorems *)

(** C11: However a probe ends, its cleanup commands are run last, in their order,
    and what ran before them are setup commands, the create command and dumps of
    the flow table.  Only when the operating system raises an exception for a
    cleanup command, other than that the program is not there, does the cleanup
    stop at that command, and the exception is raised.  And the probe does end,
    where it waits for no setup, when the clock passes the deadline of its
    polling loop.  The transport is local, or docker-exec with the two containers
    named, and the processes that are run end. *)
Theorem canary_always_cleans_up p e :
  transport_ok ->
  (forall fuel r e', run_prepared_probe cfg fuel p e = Some (r, e') ->
     ran_with_cleanup p e r e') /\
  (pp_setup_wait p = None ->
   (forall d, probe_deadline p e = Some d ->
      exists remaining, clock_until (pp_poll_interval_s p) d remaining) ->
   exists fuel r e', ran_with_cleanup p e r e' /\
     forall fuel', (fuel <= fuel')%nat ->
     run_prepared_probe cfg fuel' p e = Some (r, e')).
Proof.
  intros Ht. split; [intros fuel r e'; by apply run_prepared_probe_cleans |].
  intros Hw Hc. destruct (run_prepared_probe_ends p e Hw Hc) as (fuel & [r e'] & H).
  exists fuel, r, e'. split; [| done].
  by apply (run_prepared_probe_cleans fuel), H.
Qed.

(** C18: The status of a finished probe says what was observed: success and
    partial success mean that the resource was seen in every database that the
    probe looks at, and differ in the cleanup.  A stage is observed only with
    evidence and after the one before it, a stage is skipped only because one
    before it was not observed, and the latencies between stages are not
    negative. *)
Theorem canary_status_is_exact fuel p e r e' :
  run_prepared_probe cfg fuel p e = Some (inr r, e') ->
  result_ok p r /\ is_Some (r_finished_at r) /\
  (r_status r = success <->
     all_observed r /\ st_status (r_cleanup r) <> Sfailed) /\
  (r_status r = partial_success <->
     all_observed r /\ st_status (r_cleanup r) = Sfailed).
Proof.
  intros H. apply run_prepared_probe_result in H as (Hok & Hs & Hf).
  rewrite Hs. split; [done |]. split; [done | by apply (derive_status_spec p)].
Qed.

(** C27: A probe ends: when the clock passes the deadline of its polling loop,
    enough fuel gives a result, the same one for any more.  The probe waits for
    no setup, as no prepared probe does, and the processes that it runs end. *)
Theorem canary_probe_terminates p e :
  pp_setup_wait p = None ->
  (forall d, probe_deadline p e = Some d ->
     exists remaining, clock_until (pp_poll_interval_s p) d remaining) ->
  exists fuel res, forall fuel', (fuel <= fuel')%nat ->
    run_prepared_probe cfg fuel' p e = Some res.
Proof. apply run_prepared_probe_ends. Qed.
End Probe.

(** ** Witnesses *)

Lemma canary_status_is_exact_witness : exists r e',
  run_prepared_probe local_commands 3 (switch_probe 5) start = Some (inr r, e') /\
  all_observed r /\ st_status (r_cleanup r) <> Sfailed.
Proof.
  destruct switch_probe_succeeds as (r & e' & H & Hs). exists r, e'.
  split; [exact H |].
  by apply (canary_status_is_exact local_commands 3 (switch_probe 5) start r e' H).
Defined.

(** In the simulation the clock passes a deadline of five seconds. *)
Definition sim_remaining (w : sim) : nat := Z.to_nat (6 - sim_time w).

Lemma sim_clock interval : clock_until interval (Float.of_Z 5) sim_remaining.
Proof.
  split; intros; simpl; unfold sim_remaining; simpl; try lia.
  assert (0 < 6 - sim_time w \/ 6 <= sim_time w) as [? | Hlate] by lia; [lia |].
  exfalso. revert H. simpl. rewrite (Z.max_r 0) by lia.
  assert (sim_time w = 6 \/ sim_time w = 7 \/ 8 <= sim_time w)
    as [-> | [-> | ?]] by lia; [done | done |].
  by rewrite Z.min_l by lia.
Qed.

Lemma canary_always_cleans_up_witness : exists fuel r e',
  ran_with_cleanup local_commands (switch_probe 5) start r e' /\
  forall fuel', (fuel <= fuel')%nat ->
  run_prepared_probe local_commands fuel' (switch_probe 5) start = Some (r, e').
Proof.
  apply (canary_always_cleans_up local_commands (switch_probe 5) start
    (or_introl eq_refl)); [reflexivity |].
  intros d [= <-]. exists sim_remaining. apply sim_clock.
Defined.

Lemma canary_probe_terminates_witness : exists fuel res,
  forall fuel', (fuel <= fuel')%nat ->
  run_prepared_probe local_commands fuel' (switch_probe 5) start = Some res.
Proof.
  apply (canary_probe_terminates local_commands (switch_probe 5) start);
    [reflexivity |].
  intros d [= <-]. exists sim_remaining. apply sim_clock.
Defined.

End CanaryProofs.
