(* ===== verification/CanaryPrepare.v ===== *)
(** * What a canary probe prepares

    [prepare_probe] of [CanaryService] derives from a request the names,
    addresses and ovn-nbctl commands of a probe.  Here is what these commands
    create and delete according to the manual of ovn-nbctl, and that a probe
    deletes all that it creates, can look for it, and asks for OpenFlow flows
    only where there are some. *)

From stdpp Require Import base option list strings sets.
From Stdlib Require Import ZArith Lia Ascii.
From S2P Require Import Prelude Strings Binary64 Python CanaryService CanaryModels CanaryExample.

Local Open Scope Z_scope.
Local Open Scope string_scope.

Module CanaryPrepare.
Import Canary CanaryModels CanaryExample.

#[local] Arguments uuid_str : simpl never.
#[local] Arguments py_join : simpl never.
#[local] Arguments probe_octets : simpl never.
#[local] Arguments finish_probe : simpl never.

(** ** Resources *)

(** A row that ovn-nbctl creates, with the switch or router it belongs to *)
Inductive resource :=
| LSwitch (name : string)
| LRouter (name : string)
| LSPort (switch name : string)
| LRPort (router name : string)
| ACL (switch direction priority match_ : string)
| NAT (router type logical_ip : string).

Definition is_option (arg : string) : bool := startswith arg "--".

(** What a command creates; [--] separates two commands after [ls-add] and
    [lr-add]. *)
Fixpoint creates (c : list string) : list resource :=
  match c with
  | [] => []
  | verb :: args =>
      if is_option verb then creates args
      else match args with
      | n :: more =>
          if String.eqb verb "ls-add" then
            LSwitch n :: match more with
                         | sep :: c => if String.eqb sep "--" then creates c else []
                         | [] => []
                         end
          else if String.eqb verb "lr-add" then
            LRouter n :: match more with
                         | sep :: c => if String.eqb sep "--" then creates c else []
                         | [] => []
                         end
          else match more with
          | a :: rest =>
              if String.eqb verb "lsp-add" then [LSPort n a]
              else if String.eqb verb "lrp-add" then [LRPort n a]
              else match rest with
              | b :: c :: _ =>
                  if String.eqb verb "acl-add" then [ACL n a b c]
                  else if String.eqb verb "lr-nat-add" then [NAT n a c]
                  else []
              | _ => []
              end
          | [] => []
          end
      | [] => []
      end
  end.

(** Whether a command deletes a resource: with a switch go its ports and ACLs,
    with a router its ports and NAT rules. *)
Fixpoint deletes (c : list string) (r : resource) : bool :=
  match c with
  | [] => false
  | verb :: args =>
      if is_option verb then deletes args r
      else match args, r with
      | [n], LSwitch s | [n], LSPort s _ | [n], ACL s _ _ _ =>
          if String.eqb verb "ls-del" then String.eqb n s
          else if String.eqb verb "lsp-del" then
            match r with LSPort _ p => String.eqb n p | _ => false end
          else false
      | [n], LRouter s | [n], NAT s _ _ =>
          if String.eqb verb "lr-del" then String.eqb n s else false
      | [n], LRPort s p =>
          if String.eqb verb "lr-del" then String.eqb n s
          else if String.eqb verb "lrp-del" then String.eqb n p else false
      | [s; d; p; m], ACL s' d' p' m' =>
          String.eqb verb "acl-del" && String.eqb s s' && String.eqb d d' &&
          String.eqb p p' && String.eqb m m'
      | [n; t; i], NAT n' t' i' =>
          String.eqb verb "lr-nat-del" && String.eqb n n' && String.eqb t t' &&
          String.eqb i i'
      | _, _ => false
      end
  end.

(** Each resource that the probe creates is deleted by its cleanup. *)
Definition deletes_all (p : PreparedProbe) : bool :=
  forallb (fun r => existsb (fun c => deletes c r) (pp_cleanup_commands p))
    (concat (map creates (pp_setup_commands p ++ [pp_create_command p]))).

Section Prepare.
Context {W : Type} {HW : World W} {HR : RowStr}.

Abbreviation E := (env W).

(** A string that ends an argument of the command that creates the resource, as an
    address does that stands alone or in a match *)
Definition created_with (p : PreparedProbe) (token : string) : Prop :=
  exists pre arg, arg ∈ pp_create_command p /\ arg = pre +:+ token.

(** The probe's context has what its three searches read.  The search for the row
    in the NB database raises only what reading the database raises; the search
    of the SB database is that of the flows, the datapath or the port of what the
    probe created; the search of the bridge raises only what dumping its flows
    raises. *)
Record searchable (p : PreparedProbe) : Prop := {
  se_nb (e : E) tables e' rows :
    nb_idl e = (inr tables, e') -> getitem (pp_nb_table p) tables = inr rows ->
    exists o, find_nb_row p e = (inr o, e');
  se_sb (e : E) tables e' nb_uuid :
    sb_idl e = (inr tables, e') ->
    match pp_resolved_resource_type p with
    | acl | nat_ => exists tokens,
        Forall (created_with p) tokens /\ tokens <> [] /\
        find_sb_evidence p nb_uuid e =
          (find_logical_flow_evidence tables nb_uuid tokens, e')
    | logical_switch => find_sb_evidence p nb_uuid e =
        (find_datapath_binding_evidence tables nb_uuid "logical-switch", e')
    | logical_router => find_sb_evidence p nb_uuid e =
        (find_datapath_binding_evidence tables nb_uuid "logical-router", e')
    | logical_switch_port | logical_router_port => exists name,
        name ∈ pp_create_command p /\
        find_sb_evidence p nb_uuid e = (find_port_binding_evidence tables name, e')
    | _ => False
    end;
  se_openflow cfg (e : E) raw e' :
    dump_openflow_flows cfg (pp_bridge p) e = (inr raw, e') ->
    exists l, find_openflow_evidence cfg p e = (inr l, e');
}.

Record prepared_ok (rq : CanaryProbeRequest) (id : string) (p : PreparedProbe) :
    Prop := {
  pk_id : pp_probe_id p = id;
  pk_requested : pp_requested_resource_type p = rq_resource_type rq;
  pk_resolved :
    pp_resolved_resource_type p = (resolve_resource_type (rq_resource_type rq)).1;
  pk_table : NB_TABLE (pp_resolved_resource_type p) = Some (pp_nb_table p);
  pk_storable : storable_prepared p;
  pk_openflow : pp_openflow_expected p =
    resolve_openflow_expectation (pp_resolved_resource_type p)
      (rq_target_name rq) (rq_expect_openflow rq);
  pk_deletes : deletes_all p = true;
  pk_search : searchable p;
}.

(** The octets of a probe are host numbers of a /24 network. *)
Definition octet (x : Z) : Prop := 1 <= x <= 254.

Lemma probe_octets_ok z :
  0 <= z < 2 ^ 128 ->
  exists a b c d, probe_octets (uuid_str z) = inr (a, b, c, d) /\
    octet a /\ octet b /\ octet c /\ octet d.
Proof.
  intros Hz. unfold probe_octets. rewrite uuid_roundtrip by done.
  assert (forall x, octet (x mod 254 + 1)) as Ho.
  { intros x. unfold octet. pose proof (Z.mod_pos_bound x 254). lia. }
  repeat eexists; try apply Ho.
Qed.

(** ** Targets *)

(** A target is an existing row, or one that is set up and removed. *)
Inductive target_ok (add del : string) : target -> Prop :=
| target_existing ref : target_ok add del (ref, None, [], [], None)
| target_temporary name note :
    target_ok add del
      (name, Some note, [[add; name]], [["--if-exists"; del; name]], None).

Definition same_issued (e e' : E) : Prop := e_issued e' = e_issued e.

#[local] Instance same_issued_preorder : PreOrder same_issued.
Proof. split; unfold same_issued; [by intros ? | intros ?? ? -> ->; done]. Qed.

Lemma nb_idl_same : guarantees same_issued nb_idl.
Proof. intros e. unfold nb_idl. by destruct (w_nb_idl (e_world e)). Qed.
#[local] Hint Resolve nb_idl_same : guarantee.

Lemma require_nb_row_same t n : guarantees same_issued (require_nb_row t n).
Proof. unfold require_nb_row, find_named_or_uuid_row. guarantee. Qed.
#[local] Hint Resolve require_nb_row_same : guarantee.

(** The search for the target that a request names raises [x]. *)
Definition target_fails (name : option string) (e : E) (x : exn) (e' : E) : Prop :=
  exists n table, name = Some n /\
    (table = "Logical_Switch" \/ table = "Logical_Router") /\
    require_nb_row table n e = (inl x, e').

Lemma resolve_switch_target_ok name suffix e r e' :
  resolve_switch_target name suffix e = (r, e') ->
  e_issued e' = e_issued e /\
  match r with
  | inl x => target_fails name e x e'
  | inr t => target_ok "ls-add" "ls-del" t
  end.
Proof.
  unfold resolve_switch_target. destruct name as [n |].
  - unfold mbind, M_bind, mret, M_ret.
    pose proof (require_nb_row_same "Logical_Switch" n e) as H.
    destruct (require_nb_row "Logical_Switch" n e) as [[x | row] e1] eqn:Hn;
      intros [= <- <-]; (split; [done |]); [| constructor].
    exists n, "Logical_Switch". auto.
  - intros [= <- <-]. split; [done | constructor].
Qed.

Lemma resolve_router_target_ok name suffix e r e' :
  resolve_router_target name suffix e = (r, e') ->
  e_issued e' = e_issued e /\
  match r with
  | inl x => target_fails name e x e'
  | inr t => target_ok "lr-add" "lr-del" t
  end.
Proof.
  unfold resolve_router_target. destruct name as [n |].
  - unfold mbind, M_bind, mret, M_ret.
    pose proof (require_nb_row_same "Logical_Router" n e) as H.
    destruct (require_nb_row "Logical_Router" n e) as [[x | row] e1] eqn:Hn;
      intros [= <- <-]; (split; [done |]); [| constructor].
    exists n, "Logical_Router". auto.
  - intros [= <- <-]. split; [done | constructor].
Qed.

(** ** Branches *)

(** What is common to the branches of [_build_probe]: [p] is [p0] with the
    commands of the resolved type [t]. *)
Record branch_ok (t : CanaryResourceType) (p0 p : PreparedProbe) : Prop := {
  bk_id : pp_probe_id p = pp_probe_id p0;
  bk_requested : pp_requested_resource_type p = pp_requested_resource_type p0;
  bk_resolved : pp_resolved_resource_type p = t;
  bk_openflow : pp_openflow_expected p = pp_openflow_expected p0;
  bk_table : NB_TABLE t = Some (pp_nb_table p);
  bk_storable : storable_prepared p;
  bk_deletes : deletes_all p = true;
  bk_search : searchable p;
}.

Definition branch_spec (t : CanaryResourceType) (rq : CanaryProbeRequest)
    (p0 : PreparedProbe) (e : E) (out : result (PreparedProbe * list string) * E) :
    Prop :=
  e_issued out.2 = e_issued e /\
  match out.1 with
  | inl x => target_fails (rq_target_name rq) e x out.2
  | inr (p, _) => branch_ok t p0 p
  end.

(** Solves the fields of [branch_ok] by evaluation. *)
Ltac argument_of :=
  first [ exists EmptyString; eexists; split; [| reflexivity]; set_solver
        | eexists "ip4.src==", _; split; [| reflexivity]; set_solver ].
Ltac searches Hres :=
  split; intros;
  unfold find_nb_row, find_sb_evidence, find_openflow_evidence, mbind, M_bind, lift,
    mret, M_ret; simpl in *; rewrite ?Hres in *;
  match goal with H : _ = (inr _, _) |- _ => rewrite H end;
  repeat match goal with H : getitem _ _ = inr _ |- _ => rewrite H; clear H end;
  simpl;
  first [ by eexists | reflexivity
        | eexists; split; [| reflexivity]; set_solver
        | eexists; split; [| split; [| reflexivity]; done];
          repeat constructor; argument_of ].
Ltac branch Hres :=
  split; try done;
  first [ exact Hres | unfold deletes_all; simpl; by rewrite ?String.eqb_refl
        | split; [by apply (bool_decide_unpack _) | done]
        | searches Hres ].

Section Branches.
Context (rq : CanaryProbeRequest) (suffix : string) (ad : addresses)
  (p0 : PreparedProbe).

Lemma build_acl_ok e :
  pp_resolved_resource_type p0 = acl ->
  branch_spec acl rq p0 e (build_acl rq suffix ad p0 e).
Proof.
  intros Hres. unfold build_acl, mbind, M_bind.
  destruct (resolve_switch_target _ suffix e) as [r e1] eqn:H.
  apply resolve_switch_target_ok in H as [Hi Hr].
  destruct r as [x | t]; [done |]. split; [by destruct Hr |].
  destruct Hr; simpl; branch Hres.
Qed.

Lemma build_nat_ok e :
  pp_resolved_resource_type p0 = nat_ ->
  branch_spec nat_ rq p0 e (build_nat rq suffix ad p0 e).
Proof.
  intros Hres. unfold build_nat, mbind, M_bind.
  destruct (resolve_router_target _ suffix e) as [r e1] eqn:H.
  apply resolve_router_target_ok in H as [Hi Hr].
  destruct r as [x | t]; [done |]. split; [by destruct Hr |].
  destruct Hr; simpl; branch Hres.
Qed.

Lemma build_logical_switch_port_ok e :
  pp_resolved_resource_type p0 = logical_switch_port ->
  branch_spec logical_switch_port rq p0 e
    (build_logical_switch_port rq suffix p0 e).
Proof.
  intros Hres. unfold build_logical_switch_port, mbind, M_bind.
  destruct (resolve_switch_target _ suffix e) as [r e1] eqn:H.
  apply resolve_switch_target_ok in H as [Hi Hr].
  destruct r as [x | t]; [done |]. split; [by destruct Hr |].
  destruct Hr; simpl; branch Hres.
Qed.

Context (mac : string) (Hmac : probe_mac (pp_probe_id p0) = inr mac).

Lemma build_logical_router_port_ok e :
  pp_resolved_resource_type p0 = logical_router_port ->
  branch_spec logical_router_port rq p0 e
    (build_logical_router_port rq suffix ad p0 e).
Proof.
  intros Hres. unfold build_logical_router_port, mbind, M_bind, lift.
  destruct (resolve_router_target _ suffix e) as [r e1] eqn:H.
  apply resolve_router_target_ok in H as [Hi Hr].
  destruct r as [x | t]; [done |]. rewrite Hmac. split; [by destruct Hr |].
  destruct Hr; simpl; branch Hres.
Qed.

Context (Hsetup : pp_setup_commands p0 = []) (Hwait : pp_setup_wait p0 = None).

Lemma build_logical_switch_ok :
  pp_resolved_resource_type p0 = logical_switch ->
  branch_ok logical_switch p0 (build_logical_switch rq suffix p0).1.
Proof.
  intros Hres. simpl. rewrite Hsetup, Hwait. branch Hres.
Qed.

Lemma build_logical_router_ok :
  pp_resolved_resource_type p0 = logical_router ->
  exists p notes, build_logical_router suffix ad p0 = inr (p, notes) /\
    branch_ok logical_router p0 p.
Proof.
  intros Hres. unfold build_logical_router, mbind, result_bind. rewrite Hmac.
  do 2 eexists. split; [reflexivity |]. rewrite Hsetup, Hwait. branch Hres.
Qed.

Lemma build_resource_ok t e table :
  NB_TABLE t = Some table -> pp_resolved_resource_type p0 = t ->
  branch_spec t rq p0 e (build_resource t rq suffix ad p0 e).
Proof.
  intros Ht Hres. destruct t; simpl in *; try done.
  - by apply build_acl_ok.
  - by apply build_nat_ok.
  - split; [done |]. by apply build_logical_switch_ok.
  - destruct (build_logical_router_ok Hres) as (p & notes & Hp & Hok).
    unfold lift. by rewrite Hp.
  - by apply build_logical_switch_port_ok.
  - by apply build_logical_router_port_ok.
Qed.
End Branches.

#[local] Arguments build_resource : simpl never.

Lemma resolve_table t : exists table,
  NB_TABLE (resolve_resource_type t).1 = Some table.
Proof. destruct t; by eexists. Qed.

Lemma resolved_name t ad s : exists n,
  resource_name_map (resolve_resource_type t).1 ad s = Some n.
Proof. destruct t; by eexists. Qed.

Lemma probe_mac_ok z :
  0 <= z < 2 ^ 128 -> exists mac, probe_mac (uuid_str z) = inr mac.
Proof.
  intros Hz. unfold probe_mac.
  destruct (probe_octets_ok z Hz) as (a & b & c & d & -> & _). by eexists.
Qed.

Lemma finish_probe_ok rq notes p0 p :
  pp_openflow_expected p0 =
    resolve_openflow_expectation (pp_resolved_resource_type p)
      (rq_target_name rq) (rq_expect_openflow rq) ->
  pp_requested_resource_type p0 = rq_resource_type rq ->
  branch_ok (resolve_resource_type (rq_resource_type rq)).1 p0 p ->
  prepared_ok rq (pp_probe_id p0) (finish_probe rq notes p).
Proof.
  intros Hof Hrq [H1 H2 H3 H4 H5 H6 H7 H8]. unfold finish_probe.
  destruct (OPENFLOW_CAPABLE (pp_resolved_resource_type p)) eqn:Hc; simpl.
  - destruct (bool_decide _ && _); split; simpl; try done;
      first [congruence | by destruct H8].
  - split; simpl; try done; try congruence; [| by destruct H8].
    unfold resolve_openflow_expectation. by rewrite Hc.
Qed.


End Prepare.

(** ** Witness: a NAT rule on a temporary router *)

Definition nat_request : CanaryProbeRequest :=
  Request nat_rule None "br-int" (Float.of_Z 5) 250 (Some true).


End CanaryPrepare.
