(* ===== verification/CanaryStore.v ===== *)
(** * The store of canary runs: src/ovn_api/app/services/trace_store.py

    The table [canary_trace_runs] holds one row per probe.  A row is the record
    [columns]; a table maps the primary key to its row.  [engine.begin()] runs a
    transaction: it either takes effect as a whole or raises an SQLAlchemyError
    and leaves the table as it was, which is the argument [fault] here.  Of the
    SQL engine only the order of rows that were queued at the same time is
    unknown; it is the class [OrderBy].  The JSON of requests, results and
    prepared probes is that of [CanaryModels]. *)

From stdpp Require Import base option list strings gmap sorting.
From Stdlib Require Import ZArith Lia.
From S2P Require Import Prelude Strings Binary64 Python CanaryService CanaryModels.

Local Open Scope Z_scope.
Local Open Scope string_scope.

Module CanaryStore.
Import Canary CanaryModels.

(** ** Runs and rows *)

(** The status is a plain string, as in the data class. *)
Record PersistedCanaryRun := Run {
  run_probe_id : string;
  run_request : CanaryProbeRequest;
  run_prepared : PreparedProbe;
  run_status : string;
  run_queued_at : string;
  run_updated_at : string;
  run_started_at : option string;
  run_finished_at : option string;
  run_queue_depth : option Z;
  run_result : option CanaryProbeResult;
  run_error : option string;
}.

#[export] Instance rebuild_run : Rebuild PersistedCanaryRun := fun r =>
  Run (run_probe_id r) (run_request r) (run_prepared r) (run_status r)
    (run_queued_at r) (run_updated_at r) (run_started_at r) (run_finished_at r)
    (run_queue_depth r) (run_result r) (run_error r).

Record columns := Columns {
  c_probe_id : string;
  c_requested_resource_type : string;
  c_resolved_resource_type : string;
  c_resource_name : string;
  c_target_name : option string;
  c_status : string;
  c_queued_at : string;
  c_started_at : option string;
  c_updated_at : string;
  c_finished_at : option string;
  c_openflow_expected : bool;
  c_queue_depth : option Z;
  c_note : option string;
  c_request_json : string;
  c_prepared_json : string;
  c_result_json : option string;
  c_error : option string;
}.

#[export] Instance rebuild_columns : Rebuild columns := fun c =>
  Columns (c_probe_id c) (c_requested_resource_type c)
    (c_resolved_resource_type c) (c_resource_name c) (c_target_name c)
    (c_status c) (c_queued_at c) (c_started_at c) (c_updated_at c)
    (c_finished_at c) (c_openflow_expected c) (c_queue_depth c) (c_note c)
    (c_request_json c) (c_prepared_json c) (c_result_json c) (c_error c).

Abbreviation table := (gmap string columns).

(** [ORDER BY queued_at DESC] *)
Definition newer (a b : columns) : Prop :=
  String.le (c_queued_at b) (c_queued_at a).

Class OrderBy := newest_first : list columns -> list columns.
Class OrderByLaws {HO : OrderBy} := {
  newest_first_perm l : newest_first l ≡ₚ l;
  newest_first_sorted l : StronglySorted newer (newest_first l);
}.

Section Store.
Context {HJ : Json} {HO : OrderBy}.

(** ** Serialization *)

Definition serialize_run (r : PersistedCanaryRun) : columns :=
  let p := run_prepared r in
  {| c_probe_id := run_probe_id r;
     c_requested_resource_type := literal (pp_requested_resource_type p);
     c_resolved_resource_type := literal (pp_resolved_resource_type p);
     c_resource_name := pp_resource_name p;
     c_target_name := pp_target_name p;
     c_status := run_status r;
     c_queued_at := run_queued_at r;
     c_started_at := run_started_at r;
     c_updated_at := run_updated_at r;
     c_finished_at := run_finished_at r;
     c_openflow_expected := pp_openflow_expected p;
     c_queue_depth := run_queue_depth r;
     c_note := pp_note p;
     c_request_json := request_json (run_request r);
     c_prepared_json := prepared_json p;
     c_result_json := result_json <$> run_result r;
     c_error := run_error r |}.

Definition deserialize_run (c : columns) : result PersistedCanaryRun :=
  request ← request_of_json (c_request_json c);
  prepared ← prepared_of_json (c_prepared_json c);
  res ← match c_result_json c with
        | Some j => r ← result_of_json j; mret (Some r)
        | None => mret None
        end;
  mret (Run (c_probe_id c) request prepared (c_status c) (c_queued_at c)
    (c_updated_at c) (c_started_at c) (c_finished_at c) (c_queue_depth c)
    res (c_error c)).

(** ** Transactions *)

Definition sql_error (what msg : string) : exn :=
  HTTPException 500 (what +:+ ": " +:+ msg).

(** [initialize] creates the table where there is none; rows stay. *)
Definition initialize (fault : option string) : M table unit := fun t =>
  match fault with
  | Some msg => (inl (sql_error "Failed to initialize trace store" msg), t)
  | None => (inr tt, t)
  end.

(** [create_run]: a second row with the key is refused by the engine. *)
Definition create_run (fault : option string) (r : PersistedCanaryRun) :
    M table unit := fun t =>
  let raised msg := (inl (sql_error ("Failed to persist canary run "
                       +:+ py_repr (run_probe_id r)) msg), t) in
  match fault, t !! run_probe_id r with
  | Some msg, _ => raised msg
  | None, Some _ => raised "UNIQUE constraint failed"
  | None, None => (inr tt, <[run_probe_id r := serialize_run r]> t)
  end.

Definition update_run (fault : option string) (r : PersistedCanaryRun) :
    M table unit := fun t =>
  match fault, t !! run_probe_id r with
  | Some msg, _ =>
      (inl (sql_error ("Failed to update canary run "
              +:+ py_repr (run_probe_id r)) msg), t)
  | None, None =>
      (inl (HTTPException 404 ("Canary probe " +:+ py_repr (run_probe_id r)
              +:+ " not found in trace store.")), t)
  | None, Some _ => (inr tt, <[run_probe_id r := serialize_run r]> t)
  end.

Definition get_run (fault : option string) (probe_id : string) :
    M table (option PersistedCanaryRun) := fun t =>
  match fault, t !! probe_id with
  | Some msg, _ =>
      (inl (sql_error ("Failed to load canary run " +:+ py_repr probe_id) msg), t)
  | None, None => (inr None, t)
  | None, Some c => (r ← deserialize_run c; mret (Some r), t)
  end.

Fixpoint deserialize_runs (l : list columns) : result (list PersistedCanaryRun) :=
  match l with
  | [] => mret []
  | c :: l => r ← deserialize_run c; rs ← deserialize_runs l; mret (r :: rs)
  end.

Definition rows (t : table) : list columns := (map_to_list t).*2.

Definition list_runs (fault : option string) (limit : nat) :
    M table (list PersistedCanaryRun) := fun t =>
  match fault with
  | Some msg => (inl (sql_error "Failed to list canary runs" msg), t)
  | None => (deserialize_runs (take limit (newest_first (rows t))), t)
  end.

(** [status IN ('queued', 'running')] *)
Definition active (c : columns) : bool :=
  String.eqb (c_status c) "queued" || String.eqb (c_status c) "running".

Definition fail_row (reason finished_at : string) (c : columns) : columns :=
  c <| c_status := "failed" |> <| c_error := Some reason |>
    <| c_updated_at := finished_at |> <| c_finished_at := Some finished_at |>.

Definition fail_stale_runs (fault : option string) (reason finished_at : string) :
    M table nat := fun t =>
  match fault with
  | Some msg => (inl (sql_error "Failed to recover stale canary runs" msg), t)
  | None =>
      (inr (length (List.filter active (rows t))),
       (fun c => if active c then fail_row reason finished_at c else c) <$> t)
  end.

Definition removable (max_runs : nat) (t : table) : list string :=
  drop max_runs (map c_probe_id
    (newest_first (List.filter (fun c => negb (active c)) (rows t)))).

Definition prune_finished_runs (fault : option string) (max_runs : nat) :
    M table nat := fun t =>
  match fault with
  | Some msg => (inl (sql_error "Failed to prune old canary runs" msg), t)
  | None =>
      let ids := removable max_runs t in
      (inr (length ids), filter (fun '(k, _) => k ∉ ids) t)
  end.
End Store.

(** Merge sort is an order that the engine may give. *)
Section MergeSort.
#[local] Instance newer_dec : RelDecision newer.
Proof. intros a b. unfold newer. apply _. Defined.

#[local] Instance newer_trans : Transitive newer.
Proof. intros a b c. unfold newer. intros. by etrans. Qed.

#[local] Instance newer_total : Total newer.
Proof. intros a b. unfold newer. apply (total String.le). Qed.

Definition merge_order : OrderBy := merge_sort newer.

Lemma merge_order_laws : OrderByLaws (HO:=merge_order).
Proof.
  split.
  - apply merge_sort_Permutation.
  - apply (StronglySorted_merge_sort newer).
Qed.
End MergeSort.

(** ** Properties of the store *)

Section Properties.
Context {HJ : Json} {HO : OrderBy}.

(** The key of a row is its column [probe_id]. *)
Definition keyed (t : table) : Prop := map_Forall (fun k c => c_probe_id c = k) t.

Lemma keyed_insert t r :
  keyed t -> keyed (<[run_probe_id r := serialize_run r]> t).
Proof. intros H. by apply map_Forall_insert_2. Qed.

Lemma keyed_subseteq t t' : t' ⊆ t -> keyed t -> keyed t'.
Proof. intros Hs H k c Hk. apply (H k). by eapply lookup_weaken. Qed.

Lemma elem_of_rows t c :
  keyed t -> c ∈ rows t <-> t !! c_probe_id c = Some c.
Proof.
  intros Hk. unfold rows. rewrite list_elem_of_fmap. split.
  - intros ([k c'] & -> & Hin). apply elem_of_map_to_list in Hin. simpl.
    by rewrite (Hk _ _ Hin).
  - intros Hc. exists (c_probe_id c, c). by rewrite elem_of_map_to_list.
Qed.

Lemma NoDup_rows t : keyed t -> NoDup (map c_probe_id (rows t)).
Proof.
  intros Hk. unfold rows.
  assert (map c_probe_id (map_to_list t).*2 = (map_to_list t).*1) as ->.
  { change (map c_probe_id) with (fmap (M:=list) c_probe_id).
    rewrite <- list_fmap_compose.
    apply list_fmap_ext. intros i [k c] Hi. simpl.
    apply Hk, elem_of_map_to_list. by eapply list_elem_of_lookup_2. }
  apply NoDup_fst_map_to_list.
Qed.

(** The finished runs, in the order in which pruning considers them *)
Definition finished (t : table) : list columns :=
  newest_first (List.filter (fun c => negb (active c)) (rows t)).

Context {HOL : OrderByLaws}.

Lemma elem_of_finished t c :
  keyed t -> c ∈ finished t <-> t !! c_probe_id c = Some c /\ active c = false.
Proof.
  intros Hk. unfold finished. rewrite newest_first_perm.
  rewrite list_elem_of_In, filter_In, <- list_elem_of_In, elem_of_rows by done.
  by rewrite negb_true_iff.
Qed.

Lemma NoDup_finished t : keyed t -> NoDup (map c_probe_id (finished t)).
Proof.
  intros Hk. unfold finished. rewrite (newest_first_perm _).
  assert (sublist (List.filter (fun c => negb (active c)) (rows t)) (rows t)) as Hs.
  { induction (rows t) as [| c l IH]; simpl; [constructor |].
    destruct (active c); simpl; by constructor. }
  eapply sublist_NoDup; [by apply NoDup_rows |].
  by apply (fmap_sublist c_probe_id).
Qed.

(** What pruning leaves of the finished runs *)
Lemma elem_of_pruned max t k :
  keyed t -> k ∈ removable max t <->
  exists c, c ∈ drop max (finished t) /\ c_probe_id c = k.
Proof.
  intros Hk. unfold removable. fold (finished t).
  rewrite <- fmap_drop, list_elem_of_fmap. naive_solver.
Qed.

Lemma pruned_active max t k c :
  keyed t -> t !! k = Some c -> active c = true -> k ∉ removable max t.
Proof.
  intros Hk Hc Ha. rewrite elem_of_pruned by done. intros (c' & Hin & Hid).
  assert (c' ∈ finished t) as Hf by (by eapply subseteq_drop).
  apply elem_of_finished in Hf as [Hc' Ha']; [| done].
  rewrite Hid in Hc'. congruence.
Qed.

Lemma pruned_finished max t c :
  keyed t -> c ∈ finished t ->
  c_probe_id c ∉ removable max t <-> c ∈ take max (finished t).
Proof.
  intros Hk Hc. rewrite elem_of_pruned by done.
  pose proof (NoDup_finished t Hk) as Hnd.
  rewrite <- (take_drop max (finished t)) in Hc, Hnd.
  change (map c_probe_id) with (fmap (M:=list) c_probe_id) in Hnd.
  rewrite fmap_app, NoDup_app in Hnd. destruct Hnd as (_ & Hdisj & _).
  apply elem_of_app in Hc. split.
  - intros Hn. destruct Hc as [? | ?]; [done |]. naive_solver.
  - intros Hin (c' & Hd & Hid). apply (Hdisj (c_probe_id c)).
    + by apply list_elem_of_fmap_2.
    + rewrite <- Hid. by apply list_elem_of_fmap_2.
Qed.

(** The table after pruning *)
Definition pruned (max : nat) (t : table) : table :=
  filter (fun '(k, _) => k ∉ removable max t) t.

Lemma pruned_subseteq max t : pruned max t ⊆ t.
Proof. apply map_filter_subseteq. Qed.

Lemma lookup_pruned max t k c :
  pruned max t !! k = Some c <-> t !! k = Some c /\ k ∉ removable max t.
Proof. apply map_lookup_filter_Some. Qed.

Lemma finished_pruned max t :
  keyed t -> finished (pruned max t) ≡ₚ take max (finished t).
Proof.
  intros Hk. assert (keyed (pruned max t)) as Hk'.
  { eapply keyed_subseteq; [apply pruned_subseteq | done]. }
  assert (forall t, keyed t -> NoDup (finished t)) as Hnd.
  { intros ??. by eapply NoDup_fmap_1, NoDup_finished. }
  apply NoDup_Permutation.
  - by apply Hnd.
  - eapply sublist_NoDup; [by apply (Hnd t) | apply sublist_take].
  - intros c. rewrite elem_of_finished, lookup_pruned by done. split.
    + intros [[Hc Hn] Ha].
      apply pruned_finished; [done | | done]. by apply elem_of_finished.
    + intros Hin. assert (c ∈ finished t) as Hf by (by eapply subseteq_take).
      apply (pruned_finished max) in Hin as Hn; [| done..].
      apply elem_of_finished in Hf as [??]; done.
Qed.

(** A run that can be stored: its request is valid and its numbers are finite,
    the context of its probe is a dictionary and it waits for no setup. *)
Definition storable_run (r : PersistedCanaryRun) : Prop :=
  storable_request (run_request r) = true /\ storable_prepared (run_prepared r) /\
  (forall res, run_result r = Some res -> storable_result res = true).

(** A run read back is the run that was written. *)
Lemma deserialize_serialize r `{!JsonLaws} :
  storable_run r -> deserialize_run (serialize_run r) = inr r.
Proof.
  intros (Hq & Hp & Hres). unfold deserialize_run, serialize_run. simpl.
  rewrite request_roundtrip by done. simpl. rewrite prepared_roundtrip by done. simpl.
  destruct (run_result r) as [res |] eqn:Hr; simpl;
    [rewrite result_roundtrip by auto; simpl |]; rewrite <- Hr; by destruct r.
Qed.

(** The row of a request with an infinite timeout cannot be read. *)
Lemma deserialize_infinite r `{!JsonLaws} :
  finite (rq_timeout_s (run_request r)) = false ->
  deserialize_run (serialize_run r) = inl (ValidationError "timeout_s").
Proof.
  intros Hf. unfold deserialize_run, serialize_run. simpl.
  by rewrite request_infinite.
Qed.

(** ** Theorems *)

(** C37: A run that was created or updated is read back as it was written, field
    by field through the JSON of its request, its probe and its result, and no
    other row changes; creating a run twice and updating a run that is not there
    are refused and change nothing.  The run's request satisfies the constraints
    of its model, the timeout and the latencies are finite, the context of the
    probe is a dictionary, and it has no [setup_wait]; without a finite timeout
    the row cannot be read any more.  The statements of the database succeed. *)
Theorem canary_store_roundtrip r t `{!JsonLaws} :
  let t' := <[run_probe_id r := serialize_run r]> t in
  (storable_run r -> get_run None (run_probe_id r) t' = (inr (Some r), t')) /\
  (finite (rq_timeout_s (run_request r)) = false ->
   get_run None (run_probe_id r) t' = (inl (ValidationError "timeout_s"), t')) /\
  (forall k, k <> run_probe_id r -> t' !! k = t !! k) /\
  match t !! run_probe_id r with
  | None =>
      create_run None r t = (inr tt, t') /\
      exists d, update_run None r t = (inl (HTTPException 404 d), t)
  | Some _ =>
      update_run None r t = (inr tt, t') /\
      exists d, create_run None r t = (inl (HTTPException 500 d), t)
  end.
Proof.
  intros t'. split; [| split; [| split]].
  - intros Hr. unfold get_run, t'. rewrite lookup_insert_eq. simpl.
    by rewrite deserialize_serialize.
  - intros Hf. unfold get_run, t'. rewrite lookup_insert_eq. simpl.
    by rewrite deserialize_infinite.
  - intros k Hk. unfold t'. by rewrite lookup_insert_ne.
  - unfold create_run, update_run. destruct (t !! run_probe_id r); eauto.
Qed.

(** C17: Pruning removes finished runs only, keeps the [max] newest of them, and
    reports how many it removed; it leaves active runs alone. *)
Theorem canary_prune_keeps_newest max t n t' :
  keyed t -> prune_finished_runs None max t = (inr n, t') ->
  t' ⊆ t /\
  (forall k c, t !! k = Some c -> active c = true -> t' !! k = Some c) /\
  length (finished t') = Nat.min max (length (finished t)) /\
  (n + length (finished t') = length (finished t))%nat /\
  (forall k c k' c', t !! k = Some c -> t' !! k = None ->
     t' !! k' = Some c' -> active c' = false -> newer c' c).
Proof.
  intros Hk [= <- <-]. fold (pruned max t).
  pose proof (finished_pruned max t Hk) as Hp.
  split; [apply pruned_subseteq |]. split; [| split; [| split]].
  - intros k c Hc Ha. apply lookup_pruned.
    split; [done | by eapply pruned_active].
  - by rewrite Hp, length_take.
  - rewrite Hp, length_take. unfold removable. fold (finished t).
    rewrite length_drop, length_map. lia.
  - intros k c k' c' Hc Hn Hc' Ha'.
    pose proof (newest_first_sorted
      (List.filter (fun c => negb (active c)) (rows t))) as Hs.
    fold (finished t) in Hs. rewrite <- (take_drop max (finished t)) in Hs.
    apply lookup_pruned in Hc' as [Hc' Hr'].
    apply (StronglySorted_app_1_elem_of _ _ _ _ _ Hs).
    + apply pruned_finished; [done | |]; [apply elem_of_finished; [done |] |];
        by rewrite (Hk _ _ Hc').
    + destruct (decide (k ∈ removable max t)) as [Hin | Hout].
      * apply elem_of_pruned in Hin as (c0 & Hd & Hid); [| done].
        assert (c0 ∈ finished t) as Hf by (by eapply subseteq_drop).
        apply elem_of_finished in Hf as [Hl _]; [| done].
        rewrite Hid in Hl. by simplify_eq.
      * by rewrite (proj2 (lookup_pruned max t k c)) in Hn.
Qed.

(** Recovery leaves no run active: those that were are failed with the
    reason and the time given, and all other rows are as they were. *)
Theorem canary_recovery_fails_active reason at_ t n t' :
  fail_stale_runs None reason at_ t = (inr n, t') ->
  forall k,
  match t !! k with
  | None => t' !! k = None
  | Some c => exists c', t' !! k = Some c' /\ active c' = false /\
      if active c then c_status c' = "failed" /\ c_error c' = Some reason /\
                       c_finished_at c' = Some at_ /\
                       c_result_json c' = c_result_json c
      else c' = c
  end.
Proof.
  intros [= <- <-] k. rewrite lookup_fmap.
  destruct (t !! k) as [c |]; simpl; [| done].
  eexists. split; [done |]. by destruct (active c) eqn:Ha.
Qed.
End Properties.

End CanaryStore.
