(* ===== verification/CanaryJson.v ===== *)
(** * An instance of the store's encodings

    The theorems about the store are about any JSON encoding with the documented
    round trips and any order of rows queued at the same time.  This file has
    such an encoding, by way of the countability of JSON values, and
    examples of the store's operations. *)

From stdpp Require Import base option list strings gmap countable.
From Stdlib Require Import ZArith Lia Ascii SpecFloat.
From S2P Require Import Prelude Strings Binary64 Python CanaryService CanaryModels CanaryStore CanaryExample.

Local Open Scope Z_scope.
Local Open Scope string_scope.

Module CanaryJson.
Import Canary CanaryModels CanaryStore CanaryExample.

(** ** JSON values are countable *)

#[local] Instance float_eq_dec : EqDecision spec_float.
Proof. solve_decision. Defined.

#[local] Instance float_countable : Countable spec_float.
Proof.
  apply (inj_countable'
    (fun x : spec_float => match x with
     | S754_zero s => inl (inl s) | S754_infinity s => inl (inr s)
     | S754_nan => inr (inl tt) | S754_finite s m e => inr (inr (s, m, e))
     end)
    (fun y => match y with
     | inl (inl s) => S754_zero s | inl (inr s) => S754_infinity s
     | inr (inl _) => S754_nan | inr (inr (s, m, e)) => S754_finite s m e
     end)).
  by intros [].
Defined.

Definition leaf : Type := bool + Z + spec_float + string.

Fixpoint tree_of (v : value) : gen_tree leaf :=
  match v with
  | VNull => GenNode 0 []
  | VBool b => GenLeaf (inl (inl (inl b)))
  | VInt z => GenLeaf (inl (inl (inr z)))
  | VFloat f => GenLeaf (inl (inr f))
  | VStr s => GenLeaf (inr s)
  | VList l => GenNode 1 (map tree_of l)
  | VDict d => GenNode 2
      (map (fun '(k, v) => GenNode 3 [GenLeaf (inr k); tree_of v]) d)
  end.

Definition pair_of {A} (k : gen_tree leaf) (v : A) : string * A :=
  (match k with GenLeaf (inr s) => s | _ => EmptyString end, v).

Fixpoint of_tree (t : gen_tree leaf) : value :=
  match t with
  | GenLeaf (inl (inl (inl b))) => VBool b
  | GenLeaf (inl (inl (inr z))) => VInt z
  | GenLeaf (inl (inr f)) => VFloat f
  | GenLeaf (inr s) => VStr s
  | GenNode 1 l => VList (map of_tree l)
  | GenNode 2 l =>
      VDict (map (fun t => match t with
                           | GenNode _ [k; v] => pair_of k (of_tree v)
                           | _ => (EmptyString, VNull)
                           end) l)
  | GenNode _ _ => VNull
  end.

Fixpoint of_tree_of (v : value) : of_tree (tree_of v) = v.
Proof.
  destruct v as [| | | | | l | d]; simpl; try done; f_equal.
  - induction l as [| v l IH]; simpl; [done |]. by rewrite of_tree_of, IH.
  - induction d as [| [k v] d IH]; simpl; [done |].
    f_equal; [| exact IH]. unfold pair_of. by rewrite of_tree_of.
Qed.

#[local] Instance value_eq_dec : EqDecision value.
Proof.
  intros v w. destruct (decide (tree_of v = tree_of w)) as [He | Hn].
  - left. by rewrite <- (of_tree_of v), He, of_tree_of.
  - right. by intros ->.
Defined.

#[local] Instance value_countable : Countable value.
Proof. apply (inj_countable' tree_of of_tree), of_tree_of. Defined.

(** ** Strings of binary digits *)

Fixpoint pos_str (p : positive) : string :=
  match p with
  | xH => EmptyString
  | xO p => String "0"%char (pos_str p)
  | xI p => String "1"%char (pos_str p)
  end.

Fixpoint str_pos (s : string) : positive :=
  match s with
  | EmptyString => xH
  | String c s => if Ascii.eqb c "0"%char then xO (str_pos s) else xI (str_pos s)
  end.

Lemma str_pos_str p : str_pos (pos_str p) = p.
Proof. induction p; simpl; by f_equal. Qed.

Section Code.
Context {A : Type} `{Countable A}.

Definition code (x : A) : string := pos_str (encode x).
Definition uncode (s : string) : result A :=
  match decode (str_pos s) with
  | Some x => inr x
  | None => inl (Exception "ValueError" s)
  end.

Lemma uncode_code x : uncode (code x) = inr x.
Proof. unfold uncode, code. by rewrite str_pos_str, decode_encode. Qed.
End Code.

#[export] Instance code_json : Json := {
  json_dumps := code; json_loads := uncode; to_json := code; from_json := uncode;
  as_float v := match v with VFloat f => Some f | VInt z => Some (Float.of_Z z)
                | _ => None end;
  as_int v := match v with VInt z => Some z | _ => None end;
  as_bool v := match v with VBool b => Some b | _ => None end;
  as_str v := match v with VStr s => Some s | _ => None end;
}.

#[export] Instance code_json_laws : JsonLaws.
Proof. split; intros; first [apply uncode_code | reflexivity]. Qed.

#[export] Existing Instance merge_order.
#[export] Existing Instance merge_order_laws.

(** ** Examples *)

Definition switch_run (id status at_ : string) : PersistedCanaryRun :=
  Run id (Request network None "br-int" (Float.of_Z 5) 250 None) (switch_probe 5)
    status at_ at_ None None None None None.

Definition small_table : table :=
  <["a" := serialize_run (switch_run "a" "success" "1")]>
  (<["b" := serialize_run (switch_run "b" "running" "2")]>
  (<["c" := serialize_run (switch_run "c" "failed" "3")]> ∅)).

Lemma small_table_keyed : keyed small_table.
Proof.
  unfold small_table.
  apply (keyed_insert _ (switch_run "a" "success" "1")).
  apply (keyed_insert _ (switch_run "b" "running" "2")).
  apply (keyed_insert _ (switch_run "c" "failed" "3")).
  apply map_Forall_empty.
Qed.

(** A finished run, with its result *)
Definition stage_seen : CanaryProbeStage :=
  Stage Sobserved (Some "5") (Some (Float.of_Z 3)) None ["row"].

Definition finished_switch_run : PersistedCanaryRun :=
  switch_run "d" "success" "4"
    <| run_result := Some (Result "d" network logical_switch "sw" None "4"
         (Some "5") success false None (Some "uuid") (Float.of_Z 2) stage_seen
         stage_seen stage_seen stage_seen (Some (Float.of_Z 1)) None
         (Some (Float.of_Z 6))) |>.

Lemma canary_store_roundtrip_witness :
  let r := finished_switch_run in
  get_run None "d" (<["d" := serialize_run r]> small_table) =
    (inr (Some r), <["d" := serialize_run r]> small_table).
Proof.
  intros r. apply (canary_store_roundtrip r small_table).
  split; [reflexivity |]. split; [| by intros res [= <-]].
  split; [by apply (bool_decide_unpack _) | reflexivity].
Defined.

Lemma canary_prune_keeps_newest_witness : exists n t',
  prune_finished_runs None 1 small_table = (inr n, t') /\
  length (finished t') = Nat.min 1 (length (finished small_table)).
Proof.
  do 2 eexists. split; [reflexivity |].
  apply (canary_prune_keeps_newest 1 small_table _ _ small_table_keyed eq_refl).
Defined.

Lemma canary_recovery_fails_active_witness : exists n t' c,
  fail_stale_runs None "restart" "5" small_table = (inr n, t') /\
  t' !! "b" = Some c /\ active c = false /\ c_error c = Some "restart".
Proof.
  pose proof (canary_recovery_fails_active "restart" "5" small_table _ _ eq_refl
    "b") as H.
  change (small_table !! "b") with
    (Some (serialize_run (switch_run "b" "running" "2"))) in H.
  destruct H as (c & Hc & Ha & _ & He & _).
  do 2 eexists. exists c. auto.
Defined.

End CanaryJson.
