(* ===== verification/CanaryManager.v ===== *)
(** * The manager of canary runs: src/ovn_api/app/services/trace_manager.py

    [CanaryTraceManager] runs probes: at once for a synchronous request, and in
    a worker thread that takes probe ids from a queue for a submitted one.  The
    threads share the trace store, the queue and the listeners.  A thread of the
    model is the point it has reached in its method, with the method's local
    variables; one step of it is one access to what is shared: a transaction of
    the store, an operation on the queue, the notification of the listeners, or
    the run of a probe.  Steps of different threads interleave.  [start] is one
    step: the moment between the creation of the worker and [thread.start()] is
    not modelled. *)

From stdpp Require Import base option list strings gmap.
From Stdlib Require Import ZArith Lia.
From S2P Require Import Prelude Strings Binary64 Python CanaryService CanaryModels CanaryStore.

Local Open Scope Z_scope.
Local Open Scope string_scope.

Module CanaryManager.
Import Canary CanaryModels CanaryStore.

(** ** What clients see of a run *)

Record CanaryRunSummary := Summary {
  su_probe_id : string;
  su_requested_resource_type : CanaryResourceType;
  su_resolved_resource_type : CanaryResourceType;
  su_resource_name : string;
  su_target_name : option string;
  su_status : string;
  su_queued_at : string;
  su_started_at : option string;
  su_updated_at : string;
  su_finished_at : option string;
  su_openflow_expected : bool;
  su_queue_depth : option Z;
  su_note : option string;
}.

Record CanaryRunDetail := Detail {
  de_summary : CanaryRunSummary;
  de_request : CanaryProbeRequest;
  de_result : option CanaryProbeResult;
  de_error : option string;
}.

Definition to_summary (r : PersistedCanaryRun) : CanaryRunSummary :=
  let p := run_prepared r in
  {| su_probe_id := run_probe_id r;
     su_requested_resource_type := pp_requested_resource_type p;
     su_resolved_resource_type := pp_resolved_resource_type p;
     su_resource_name := pp_resource_name p;
     su_target_name := pp_target_name p;
     su_status := run_status r;
     su_queued_at := run_queued_at r;
     su_started_at := match run_result r with
                      | Some res => Some (r_started_at res)
                      | None => run_started_at r
                      end;
     su_updated_at := run_updated_at r;
     su_finished_at := match run_result r with
                       | Some res => r_finished_at res
                       | None => run_finished_at r
                       end;
     su_openflow_expected := pp_openflow_expected p;
     su_queue_depth := run_queue_depth r;
     su_note := pp_note p |}.

Definition to_detail (r : PersistedCanaryRun) : CanaryRunDetail :=
  Detail (to_summary r) (run_request r) (run_result r) (run_error r).

(** What [get_run] makes of what the store has *)
Definition found_run (id : string) (r : option PersistedCanaryRun) :
    result CanaryRunDetail :=
  match r with
  | None => inl (HTTPException 404
      ("Canary probe " +:+ py_repr id +:+ " not found."))
  | Some r => inr (to_detail r)
  end.

(** ** Shared state *)

(** The registered listeners, and what listeners have been told *)
Record shared := Shared {
  sh_table : table;
  sh_queue : list (option string);
  sh_stop : bool;
  sh_listeners : list string;
  sh_emitted : list (string * CanaryRunSummary);
}.

#[export] Instance rebuild_shared : Rebuild shared := fun s =>
  Shared (sh_table s) (sh_queue s) (sh_stop s) (sh_listeners s) (sh_emitted s).

(** What the environment decides in a step: whether a statement of the database
    fails, the time, and how a probe ends *)
Record choice := Choice {
  ch_fault : option string;
  ch_now : string;
  ch_outcome : result CanaryProbeResult;
}.

(** Each listener is told; an exception of one does not keep the others from
    being told. *)
Definition emit_run_update (r : PersistedCanaryRun) (s : shared) : shared :=
  s <| sh_emitted ::= fun l =>
    (l ++ map (fun listener => (listener, to_summary r)) (sh_listeners s))%list |>.

Definition register_listener (listener : string) (s : shared) : shared :=
  if bool_decide (listener ∈ sh_listeners s) then s
  else s <| sh_listeners ::= fun l => (l ++ [listener])%list |>.

Fixpoint remove_first (x : string) (l : list string) : list string :=
  match l with
  | [] => []
  | y :: l => if String.eqb x y then l else y :: remove_first x l
  end.

Definition unregister_listener (listener : string) (s : shared) : shared :=
  s <| sh_listeners ::= remove_first listener |>.

Definition queue_put (item : option string) (s : shared) : shared :=
  s <| sh_queue ::= fun q => (q ++ [item])%list |>.

(** ** Changes of a record *)

Definition mark_running (now : string) (r : PersistedCanaryRun) :
    PersistedCanaryRun :=
  r <| run_status := "running" |> <| run_started_at := Some now |>
    <| run_updated_at := now |>.

Definition completed_run (now : string) (res : CanaryProbeResult)
    (r : PersistedCanaryRun) : PersistedCanaryRun :=
  r <| run_result := Some res |> <| run_status := trace_status (r_status res) |>
    <| run_error := None |> <| run_updated_at := now |>
    <| run_finished_at := Some now |>.

Definition failed_run (now error : string) (r : PersistedCanaryRun) :
    PersistedCanaryRun :=
  r <| run_status := "failed" |> <| run_error := Some error |>
    <| run_updated_at := now |> <| run_finished_at := Some now |>.

(** The text recorded for an exception of a probe *)
Definition error_text (unexpected : string) (x : exn) : string :=
  match x with
  | HTTPException _ detail => detail
  | Exception name msg => unexpected +:+ ": " +:+ name +:+ ": " +:+ msg
  end.

Definition finish_run (unexpected now : string) (o : result CanaryProbeResult)
    (r : PersistedCanaryRun) : PersistedCanaryRun :=
  match o with
  | inl x => failed_run now (error_text unexpected x) r
  | inr res => completed_run now res r
  end.

Definition worker_error : string := "Unexpected trace worker error".
Definition sync_error : string := "Unexpected sync trace error".

(** The record that [submit] and [run_sync] create *)
Definition submitted_run (rq : CanaryProbeRequest) (p : PreparedProbe)
    (now : string) (queue_depth : Z) : PersistedCanaryRun :=
  Run (pp_probe_id p) rq p "queued" now now None None (Some queue_depth) None None.

Definition sync_run (rq : CanaryProbeRequest) (p : PreparedProbe)
    (now : string) : PersistedCanaryRun :=
  Run (pp_probe_id p) rq p "running" now now (Some now) None (Some 0) None None.

(** ** Threads *)

Inductive thread :=
(* _run *)
| W_get
| W_load (id : string)
| W_start (r : PersistedCanaryRun)
| W_emit (r : PersistedCanaryRun)
| W_run (r : PersistedCanaryRun)
| W_mark (id : string) (o : result CanaryProbeResult)
| W_finish (r : PersistedCanaryRun)
| W_prune (r : PersistedCanaryRun)
| W_emit_end (r : PersistedCanaryRun)
| W_exited (x : option exn)
(* submit *)
| S_create (r : PersistedCanaryRun)
| S_prune (r : PersistedCanaryRun)
| S_put (r : PersistedCanaryRun)
| S_emit (r : PersistedCanaryRun)
| S_init (id : string)
| S_read (id : string)
| S_done (d : result CanaryRunDetail)
(* run_sync *)
| Y_create (r : PersistedCanaryRun)
| Y_emit (r : PersistedCanaryRun)
| Y_run (r : PersistedCanaryRun)
| Y_update (r : PersistedCanaryRun) (o : result CanaryProbeResult)
| Y_prune (r : PersistedCanaryRun) (o : result CanaryProbeResult)
| Y_emit_end (r : PersistedCanaryRun) (o : result CanaryProbeResult)
| Y_done (o : result CanaryProbeResult).

Section Manager.
(** [max_runs] is the attribute of the manager, at least 20. *)
Context {HJ : Json} {HO : OrderBy} (max_runs : nat).

(** A transaction of the store, and where the thread goes from there: [die] when
    it raises *)
Definition transact {A} (m : M table A) (die : exn -> thread) (k : A -> thread)
    (s : shared) : shared * thread :=
  match m (sh_table s) with
  | (inl x, t) => (s <| sh_table := t |>, die x)
  | (inr a, t) => (s <| sh_table := t |>, k a)
  end.

(** One step of [_run]; an exception of the store ends the thread. *)
Definition worker_step (c : choice) (th : thread) (s : shared) : shared * thread :=
  let died x := W_exited (Some x) in
  match th with
  | W_get =>
      match sh_queue s with
      | [] => (s, if sh_stop s then W_exited None else W_get)
      | None :: q => (s <| sh_queue := q |>, W_exited None)
      | Some id :: q => (s <| sh_queue := q |>, W_load id)
      end
  | W_load id =>
      transact (get_run (ch_fault c) id) died (fun r =>
        match r with
        | None => W_get
        | Some r => W_start (mark_running (ch_now c) r)
        end) s
  | W_start r => transact (update_run (ch_fault c) r) died (fun _ => W_emit r) s
  | W_emit r => (emit_run_update r s, W_run r)
  | W_run r => (s, W_mark (run_probe_id r) (ch_outcome c))
  | W_mark id o =>
      transact (get_run (ch_fault c) id) died (fun r =>
        match r with
        | None => W_get
        | Some r => W_finish (finish_run worker_error (ch_now c) o r)
        end) s
  | W_finish r => transact (update_run (ch_fault c) r) died (fun _ => W_prune r) s
  | W_prune r =>
      transact (prune_finished_runs (ch_fault c) max_runs) died
        (fun _ => W_emit_end r) s
  | W_emit_end r => (emit_run_update r s, W_get)
  | _ => (s, th)
  end.

(** One step of [submit], after [start] and the preparation of the probe *)
Definition submit_step (c : choice) (th : thread) (s : shared) : shared * thread :=
  let raised x := S_done (inl x) in
  match th with
  | S_create r => transact (create_run (ch_fault c) r) raised (fun _ => S_prune r) s
  | S_prune r =>
      transact (prune_finished_runs (ch_fault c) max_runs) raised
        (fun _ => S_put r) s
  | S_put r => (queue_put (Some (run_probe_id r)) s, S_emit r)
  | S_emit r => (emit_run_update r s, S_init (run_probe_id r))
  | S_init id => transact (initialize (ch_fault c)) raised (fun _ => S_read id) s
  | S_read id =>
      transact (get_run (ch_fault c) id) raised (fun r => S_done (found_run id r)) s
  | _ => (s, th)
  end.

(** One step of [run_sync], after the preparation of the probe; an exception of
    the probe is raised again when it has been recorded *)
Definition sync_step (c : choice) (th : thread) (s : shared) : shared * thread :=
  let raised x := Y_done (inl x) in
  match th with
  | Y_create r => transact (create_run (ch_fault c) r) raised (fun _ => Y_emit r) s
  | Y_emit r => (emit_run_update r s, Y_run r)
  | Y_run r =>
      (s, Y_update (finish_run sync_error (ch_now c) (ch_outcome c) r)
            (ch_outcome c))
  | Y_update r o => transact (update_run (ch_fault c) r) raised (fun _ => Y_prune r o) s
  | Y_prune r o =>
      transact (prune_finished_runs (ch_fault c) max_runs) raised
        (fun _ => Y_emit_end r o) s
  | Y_emit_end r o => (emit_run_update r s, Y_done o)
  | _ => (s, th)
  end.

Definition thread_step (c : choice) (th : thread) (s : shared) : shared * thread :=
  match th with
  | W_get | W_load _ | W_start _ | W_emit _ | W_run _ | W_mark _ _ | W_finish _
  | W_prune _ | W_emit_end _ | W_exited _ => worker_step c th s
  | S_create _ | S_prune _ | S_put _ | S_emit _ | S_init _ | S_read _
  | S_done _ =>
      submit_step c th s
  | _ => sync_step c th s
  end.

(** ** The process *)

(** [po_worker] is the attribute [_thread]: which of the threads is the worker *)
Record pool := Pool {
  po_shared : shared;
  po_threads : list thread;
  po_worker : option nat;
  po_used : gset string;
}.

(** [thread.is_alive()] of the worker *)
Definition is_alive (th : thread) : bool :=
  match th with W_exited _ => false | _ => true end.

Definition worker_alive (P : pool) : bool :=
  match po_worker P ≫= fun i => po_threads P !! i with
  | Some th => is_alive th
  | None => false
  end.

(** *** Starting and stopping *)

Definition restart_reason : string :=
  "Marked failed because the API process restarted before the probe completed.".

(** [start]: where no worker is alive, stale runs fail, the queue is new, and a
    worker begins.  [init] and [ch_fault] are the errors of the two statements. *)
Definition start (init : option string) (c : choice) (P : pool) : result pool :=
  if worker_alive P then inr P
  else
    match (initialize init;; fail_stale_runs (ch_fault c) restart_reason (ch_now c))
            (sh_table (po_shared P)) with
    | (inl x, _) => inl x
    | (inr _, t) =>
        inr (Pool (po_shared P <| sh_table := t |> <| sh_queue := [] |>
                     <| sh_stop := false |>)
               (po_threads P ++ [W_get])%list (Some (length (po_threads P)))
               (po_used P))
    end.

(** [stop] tells the worker to end after what is in the queue. *)
Definition stop (P : pool) : pool :=
  let s := po_shared P <| sh_stop := true |> in
  Pool (match po_worker P with Some _ => queue_put None s | None => s end)
    (po_threads P) None (po_used P).

(** *** Requests *)

Definition spawn (th : thread) (id : string) (P : pool) : pool :=
  Pool (po_shared P) (po_threads P ++ [th]) (po_worker P) ({[id]} ∪ po_used P).

(** [submit] and [run_sync] up to the first row they write, for a request whose
    preparation gives [p] *)
Definition spawn_submit (init : option string) (c : choice)
    (rq : CanaryProbeRequest) (p : PreparedProbe) (now : string) (P : pool) :
    result pool :=
  P ← start init c P;
  let depth := Z.of_nat (length (sh_queue (po_shared P))) + 1 in
  mret (spawn (S_create (submitted_run rq p now depth)) (pp_probe_id p) P).

Definition spawn_sync (init : option string) (rq : CanaryProbeRequest)
    (p : PreparedProbe) (now : string) (P : pool) : result pool :=
  (initialize init (sh_table (po_shared P))).1;;
  mret (spawn (Y_create (sync_run rq p now)) (pp_probe_id p) P).

Definition run_thread (i : nat) (c : choice) (P : pool) : pool :=
  match po_threads P !! i with
  | Some th =>
      let '(s, th') := thread_step c th (po_shared P) in
      Pool s (<[i := th']> (po_threads P)) (po_worker P) (po_used P)
  | None => P
  end.

Definition with_shared (f : shared -> shared) (P : pool) : pool :=
  Pool (f (po_shared P)) (po_threads P) (po_worker P) (po_used P).

(** The steps of the process between the first start and the stop, with or
    without errors of the database.  [uuid4] gives a probe an id that was not
    used before.  A request satisfies the constraints of its model and has a finite
    timeout, and what it prepares can be stored ([CanaryPrepare] shows that it can;
    [CanaryFaults] shows what an infinite timeout does).  A request that raises before it writes a row changes nothing
    but what [step_start] does. *)
Inductive pool_step (faults : bool) : pool -> pool -> Prop :=
| step_thread P i c :
    faults = true \/ ch_fault c = None -> pool_step faults P (run_thread i c P)
| step_start P P' init c :
    start init c P = inr P' -> pool_step faults P P'
| step_submit P P' init c rq p now :
    pp_probe_id p ∉ po_used P ->
    storable_request rq = true -> storable_prepared p ->
    spawn_submit init c rq p now P = inr P' -> pool_step faults P P'
| step_sync P P' init rq p now :
    pp_probe_id p ∉ po_used P ->
    storable_request rq = true -> storable_prepared p ->
    spawn_sync init rq p now P = inr P' -> pool_step faults P P'
| step_register P l : pool_step faults P (with_shared (register_listener l) P)
| step_unregister P l :
    pool_step faults P (with_shared (unregister_listener l) P).

(** ** Queries *)

(** [list_runs] *)
Definition list_summaries (init fault : option string) (limit : nat) (s : shared) :
    result (list CanaryRunSummary) :=
  records ← ((initialize init;; list_runs fault limit) (sh_table s)).1;
  mret (map to_summary (take limit records)).

(** [get_run] *)
Definition get_detail (init fault : option string) (id : string) (s : shared) :
    result CanaryRunDetail :=
  r ← ((initialize init;; get_run fault id) (sh_table s)).1;
  found_run id r.

(** [get_runtime_metrics] *)
Definition runtime_metrics (P : pool) : nat * bool * nat :=
  (length (sh_queue (po_shared P)), worker_alive P, max_runs).

(** A process that has just started on the table [t] of an earlier one *)
Definition booted (t : table) (now : string) (P : pool) : Prop :=
  start None (Choice None now (inl (Exception EmptyString EmptyString)))
    (Pool (Shared t [] false [] []) [] None (dom t)) = inr P.
End Manager.

End CanaryManager.
