(* ===== verification/CanaryManagerProofs.v ===== *)
(** * The life of a canary run

    In every interleaving of requests and the worker, as long as the database
    does not fail: a run goes from queued to running to finished and not back,
    only finished runs disappear, no run is forgotten, the worker does not die,
    and it empties the queue.

    The proof is about owners.  An active run belongs to the queue or to exactly
    one thread; what a thread does to the table is one of few [effect]s on the
    row that it owns, or the removal of finished rows. *)

From stdpp Require Import base option list strings gmap.
From Stdlib Require Import ZArith Lia.
From S2P Require Import Prelude Strings Binary64 Python CanaryService CanaryModels CanaryStore CanaryManager.

Local Open Scope Z_scope.
Local Open Scope string_scope.

Module CanaryLife.
Import Canary CanaryModels CanaryStore CanaryManager.

Section Life.
Context {HJ : Json} {HJL : JsonLaws} {HO : OrderBy} {HOL : OrderByLaws}.
Context (max_runs : nat).

(** ** Owners *)

(** A run with the status of its row; [None] for a run that is not in the table
    yet *)
Definition owner : Type := string * option string.

Definition owned (th : thread) : option owner :=
  match th with
  | W_load id => Some (id, Some "queued")
  | W_start r => Some (run_probe_id r, Some "queued")
  | W_emit r | W_run r | W_finish r => Some (run_probe_id r, Some "running")
  | W_mark id _ => Some (id, Some "running")
  | S_create r | Y_create r => Some (run_probe_id r, None)
  | S_prune r | S_put r => Some (run_probe_id r, Some "queued")
  | Y_emit r | Y_run r | Y_update r _ => Some (run_probe_id r, Some "running")
  | _ => None
  end.

Definition queue_owners (q : list (option string)) : list owner :=
  map (fun id => (id, Some "queued")) (omap id q).

Definition owners (P : pool) : list owner :=
  queue_owners (sh_queue (po_shared P)) ++ omap owned (po_threads P).

(** A run that can be read back as long as it is active: it has a result only
    when it is finished. *)
Definition wf_run (r : PersistedCanaryRun) : Prop :=
  storable_request (run_request r) = true /\ storable_prepared (run_prepared r) /\
  (active (serialize_run r) = true -> run_result r = None).

Lemma wf_run_storable r :
  wf_run r -> run_status r = "queued" \/ run_status r = "running" -> storable_run r.
Proof.
  intros (Hq & Hp & Hr) Hst. split; [done |]. split; [done |]. intros res Hres.
  rewrite Hr in Hres; [done |]. unfold active. simpl. by destruct Hst as [-> | ->].
Qed.

Definition finished_run (r : PersistedCanaryRun) : Prop :=
  active (serialize_run r) = false.

(** The row of a run in the table *)
Definition row_with (t : table) (id status : string) : Prop :=
  exists r, wf_run r /\ run_probe_id r = id /\ run_status r = status /\
    t !! id = Some (serialize_run r).

Definition holds (t : table) (o : owner) : Prop :=
  match o.2 with
  | None => t !! o.1 = None
  | Some status =>
      row_with t o.1 status /\ (status = "queued" \/ status = "running")
  end.

(** What a thread knows of its variables *)
Definition local (th : thread) : Prop :=
  match th with
  | W_start r | Y_create r => wf_run r /\ run_status r = "running"
  | S_create r => wf_run r /\ run_status r = "queued"
  | W_finish r | Y_update r _ => wf_run r /\ finished_run r
  | Y_emit r | Y_run r => wf_run r
  | W_exited _ => False
  | _ => True
  end.

Definition table_ok (t : table) : Prop :=
  map_Forall (fun k c => exists r, wf_run r /\ run_probe_id r = k /\
                c = serialize_run r) t.

(** What holds of a table, the owners of its active rows and the ids in use *)
Record core (t : table) (L : list owner) (U : gset string) : Prop := {
  core_table : table_ok t;
  core_nodup : NoDup L.*1;
  core_holds : Forall (holds t) L;
  core_used : (forall o, o ∈ L -> o.1 ∈ U) /\ dom t ⊆ U;
  core_owned : forall k c, t !! k = Some c -> active c = true -> k ∈ L.*1;
}.

Record inv (P : pool) : Prop := {
  inv_core : core (sh_table (po_shared P)) (owners P) (po_used P);
  inv_local : Forall local (po_threads P);
  inv_queue : Forall is_Some (sh_queue (po_shared P));
  inv_stop : sh_stop (po_shared P) = false;
}.

(** ** Effects *)

Inductive effect : table -> list owner -> gset string ->
                   table -> list owner -> gset string -> Prop :=
| eff_same t L U L' : L ≡ₚ L' -> effect t L U t L' U
| eff_spawn t L U id L' :
    id ∉ U -> L' ≡ₚ (id, None) :: L -> effect t L U t L' ({[id]} ∪ U)
| eff_create t L U r R L' :
    wf_run r -> run_status r = "queued" \/ run_status r = "running" ->
    L ≡ₚ (run_probe_id r, None) :: R ->
    L' ≡ₚ (run_probe_id r, Some (run_status r)) :: R ->
    effect t L U (<[run_probe_id r := serialize_run r]> t) L' U
| eff_run t L U r R L' :
    wf_run r -> run_status r = "running" ->
    L ≡ₚ (run_probe_id r, Some "queued") :: R ->
    L' ≡ₚ (run_probe_id r, Some "running") :: R ->
    effect t L U (<[run_probe_id r := serialize_run r]> t) L' U
| eff_finish t L U r R L' :
    wf_run r -> finished_run r ->
    L ≡ₚ (run_probe_id r, Some "running") :: R -> L' ≡ₚ R ->
    effect t L U (<[run_probe_id r := serialize_run r]> t) L' U
| eff_prune t L U L' :
    L ≡ₚ L' -> effect t L U (pruned max_runs t) L' U.

Lemma core_perm t L L' U : L ≡ₚ L' -> core t L U -> core t L' U.
Proof.
  intros HP [H1 H2 H3 [H4 H4'] H5].
  split; [done | by rewrite <- HP | by rewrite <- HP | | ].
  - split; [| done]. intros o. rewrite <- HP. apply H4.
  - intros k c Hk Ha. rewrite <- HP. by eapply H5.
Qed.

Lemma table_keyed t : table_ok t -> keyed t.
Proof. intros H k c Hk. by destruct (H k c Hk) as (r & _ & <- & ->). Qed.

Lemma table_ok_insert t r :
  wf_run r -> table_ok t -> table_ok (<[run_probe_id r := serialize_run r]> t).
Proof. intros Hw H. apply map_Forall_insert_2; [by exists r | done]. Qed.

Lemma holds_insert_ne t o id c :
  o.1 <> id -> holds t o -> holds (<[id := c]> t) o.
Proof.
  intros Hne. unfold holds. destruct o as [k [st |]]; simpl in *.
  - intros [(r & Hw & Hid & Hs & Hl) Hst]. split; [| done].
    exists r. by rewrite lookup_insert_ne.
  - by rewrite lookup_insert_ne.
Qed.

(** Writing the row of an owner leaves the others what they had. *)
Lemma core_insert_rest t r a R U :
  wf_run r -> core t ((run_probe_id r, a) :: R) U ->
  let t' := <[run_probe_id r := serialize_run r]> t in
  table_ok t' /\ (run_probe_id r ∉ R.*1) /\ NoDup R.*1 /\ Forall (holds t') R /\
  (forall o, o ∈ R -> o.1 ∈ U) /\ run_probe_id r ∈ U /\ dom t' ⊆ U /\
  (forall k c, k <> run_probe_id r -> t' !! k = Some c -> active c = true ->
     k ∈ R.*1).
Proof.
  intros Hw [H1 H2 H3 [H4 H4'] H5]. simpl in H2.
  apply NoDup_cons in H2 as [Hn Hnd]. apply Forall_cons in H3 as [_ H3].
  assert (run_probe_id r ∈ U) as Hu.
  { apply (H4 (run_probe_id r, a)). by left. }
  split; [by apply table_ok_insert |]. split; [done |]. split; [done |]. split.
  { apply Forall_forall. intros o Ho. apply holds_insert_ne.
    - intros He. apply Hn. rewrite <- He. by apply list_elem_of_fmap_2.
    - by eapply Forall_forall in H3. }
  split; [intros o Ho; apply H4; by right |]. split; [done |]. split.
  { rewrite dom_insert. set_solver. }
  intros k c Hk. rewrite lookup_insert_ne by done. intros Hl Ha.
  by pose proof (H5 k c Hl Ha) as [? | ?]%elem_of_cons.
Qed.

Lemma core_insert t r a R U :
  wf_run r -> run_status r = "queued" \/ run_status r = "running" ->
  core t ((run_probe_id r, a) :: R) U ->
  core (<[run_probe_id r := serialize_run r]> t)
    ((run_probe_id r, Some (run_status r)) :: R) U.
Proof.
  intros Hw Hst Hc.
  destruct (core_insert_rest _ _ _ _ _ Hw Hc) as (H1 & H2 & H3 & H4 & H5 & H6 & H7 & H8).
  split; simpl; [done | by apply NoDup_cons | | |].
  - apply Forall_cons. split; [| done]. split; [| done].
    exists r. by rewrite lookup_insert_eq.
  - split; [| done]. by intros o [-> | Ho]%elem_of_cons; [| apply H5].
  - intros k c Hl Ha. destruct (decide (k = run_probe_id r)) as [-> | Hk]; [by left |].
    right. by eapply H8.
Qed.

Lemma core_finish t r a R U :
  wf_run r -> finished_run r -> core t ((run_probe_id r, a) :: R) U ->
  core (<[run_probe_id r := serialize_run r]> t) R U.
Proof.
  intros Hw Hf Hc.
  destruct (core_insert_rest _ _ _ _ _ Hw Hc) as (H1 & H2 & H3 & H4 & H5 & H6 & H7 & H8).
  split; [done | done | done | done |].
  intros k c Hl Ha. apply (H8 k c); [| done..]. intros ->.
  rewrite lookup_insert_eq in Hl. unfold finished_run in Hf. congruence.
Qed.

Lemma holds_pruned t o : keyed t -> holds t o -> holds (pruned max_runs t) o.
Proof.
  intros Hk Ho. destruct o as [k [st |]]; unfold holds in *; simpl in *.
  - destruct Ho as [(r & Hw & Hid & Hst & Hl) Hs]. split; [| done].
    exists r. do 3 (split; [done |]). apply lookup_pruned. split; [done |].
    eapply pruned_active; [done.. |]. unfold active. simpl. rewrite Hst.
    by destruct Hs as [-> | ->].
  - apply map_lookup_filter_None. by left.
Qed.

Lemma core_pruned t L U : core t L U -> core (pruned max_runs t) L U.
Proof.
  intros [H1 H2 H3 [H4 H4'] H5]. pose proof (table_keyed t H1) as Hk.
  split; try done.
  - intros k c [Hl _]%lookup_pruned. by apply H1.
  - eapply Forall_impl; [done |]. intros o. by apply holds_pruned.
  - split; [done |]. etrans; [| done]. apply subseteq_dom, pruned_subseteq.
  - intros k c [Hl _]%lookup_pruned. by apply H5.
Qed.

Lemma effect_core t L U t' L' U' :
  effect t L U t' L' U' -> core t L U -> core t' L' U'.
Proof.
  destruct 1 as [t L U L' HP | t L U id L' Hid HP | t L U r R L' Hw Hst HL HL'
    | t L U r R L' Hw Hs HL HL' | t L U r R L' Hw Hf HL HL' | t L U L' HP];
    intros Hc.
  - by eapply core_perm.
  - symmetry in HP. eapply core_perm; [exact HP |].
    destruct Hc as [H1 H2 H3 [H4 H4'] H5]. split; try done; simpl.
    + apply NoDup_cons. split; [| done].
      intros (o & -> & Ho)%list_elem_of_fmap. by apply Hid, H4.
    + apply Forall_cons. split; [| done]. apply not_elem_of_dom.
      intros Hd. by apply Hid, H4'.
    + split; [| set_solver]. intros o [-> | Ho]%elem_of_cons; set_solver.
    + intros k c Hk Ha. right. by eapply H5.
  - symmetry in HL'. eapply core_perm; [exact HL' |].
    apply (core_insert _ _ None); [done | done |]. by eapply core_perm.
  - symmetry in HL'. eapply core_perm; [exact HL' |]. rewrite <- Hs.
    apply (core_insert _ _ (Some "queued")); [done | auto |]. by eapply core_perm.
  - symmetry in HL'. eapply core_perm; [exact HL' |].
    eapply core_finish; [done | done |]. by eapply core_perm.
  - eapply core_perm; [exact HP |]. by apply core_pruned.
Qed.

(** ** The life of a row *)

Definition row_step (c c' : columns) : Prop :=
  c' = c \/ c_status c = "queued" /\ c_status c' = "running" \/
  c_status c = "running" /\ active c' = false.

(** Rows go forward; only finished rows disappear. *)
Definition lifecycle (t t' : table) : Prop :=
  forall k c, t !! k = Some c ->
  match t' !! k with
  | Some c' => row_step c c'
  | None => active c = false
  end.

Lemma lifecycle_refl t : lifecycle t t.
Proof. intros k c Hk. rewrite Hk. by left. Qed.

Lemma lifecycle_insert t id c' :
  (forall c, t !! id = Some c -> row_step c c') -> lifecycle t (<[id := c']> t).
Proof.
  intros H k c Hk. destruct (decide (k = id)) as [-> | Hne].
  - rewrite lookup_insert_eq. by apply H.
  - rewrite lookup_insert_ne, Hk by done. by left.
Qed.

Lemma core_head t L U o R :
  core t L U -> L ≡ₚ o :: R -> holds t o.
Proof.
  intros Hc HL. pose proof (core_holds _ _ _ Hc) as H. rewrite HL in H.
  by apply Forall_cons in H as [? _].
Qed.

Lemma effect_lifecycle t L U t' L' U' :
  effect t L U t' L' U' -> core t L U -> lifecycle t t'.
Proof.
  destruct 1 as [| | t L U r R L' Hw Hst HL HL' | t L U r R L' Hw Hs HL HL'
    | t L U r R L' Hw Hf HL HL' | t L U L' HP]; intros Hc.
  - apply lifecycle_refl.
  - apply lifecycle_refl.
  - apply lifecycle_insert. intros c Hl. apply (core_head _ _ _ _ _ Hc) in HL.
    unfold holds in HL. simpl in HL. congruence.
  - apply lifecycle_insert. intros c Hl. apply (core_head _ _ _ _ _ Hc) in HL.
    destruct HL as [(r0 & _ & _ & Hs0 & Hl0) _]. right. left.
    simpl in Hl0. rewrite Hl in Hl0. injection Hl0 as ->. done.
  - apply lifecycle_insert. intros c Hl. apply (core_head _ _ _ _ _ Hc) in HL.
    destruct HL as [(r0 & _ & _ & Hs0 & Hl0) _]. right. right.
    simpl in Hl0. rewrite Hl in Hl0. injection Hl0 as ->. done.
  - intros k c Hl. destruct (pruned max_runs t !! k) as [c' |] eqn:Hp.
    + apply lookup_pruned in Hp as [Hp _]. left. congruence.
    + destruct (active c) eqn:Ha; [| done]. exfalso.
      assert (pruned max_runs t !! k = Some c) as Hs; [| congruence].
      apply lookup_pruned. split; [done |]. eapply pruned_active; [| done..].
      apply table_keyed, (core_table _ _ _ Hc).
Qed.

(** ** Steps of threads *)

Lemma owned_insert i th th' (l : list thread) :
  l !! i = Some th -> exists rest,
    omap owned l ≡ₚ (option_list (owned th) ++ rest)%list /\
    omap owned (<[i := th']> l) ≡ₚ (option_list (owned th') ++ rest)%list.
Proof.
  intros Hi. pose proof (list_elem_of_split_length l i th Hi)
    as (l1 & l2 & -> & ->).
  exists (omap owned l1 ++ omap owned l2)%list.
  rewrite insert_app_r_alt, Nat.sub_diag by lia. simpl.
  rewrite !omap_app. simpl. split.
  - destruct (owned th); simpl; [by rewrite Permutation_middle | done].
  - destruct (owned th'); simpl; [by rewrite Permutation_middle | done].
Qed.

(** What is known where a thread [th] of [P] takes a step: its owner and the
    other ones *)
Lemma owners_insert P i th th' s' :
  po_threads P !! i = Some th -> exists rest,
    owners P ≡ₚ (option_list (owned th) ++
      queue_owners (sh_queue (po_shared P)) ++ rest)%list /\
    owners (Pool s' (<[i := th']> (po_threads P)) (po_worker P) (po_used P)) ≡ₚ
      (option_list (owned th') ++ queue_owners (sh_queue s') ++ rest)%list.
Proof.
  intros Hi. destruct (owned_insert i th th' _ Hi) as (rest & H1 & H2).
  exists rest. unfold owners. simpl. rewrite H1, H2.
  split; by rewrite !app_assoc, (Permutation_app_comm (queue_owners _)).
Qed.

Lemma get_run_found t id st :
  row_with t id st -> st = "queued" \/ st = "running" -> exists r, wf_run r /\ run_probe_id r = id /\
    run_status r = st /\ get_run None id t = (inr (Some r), t).
Proof.
  intros (r & Hw & Hid & Hs & Hl) Hst. exists r. unfold get_run. rewrite Hl.
  assert (storable_run r) by (apply wf_run_storable; [done | by rewrite Hs]).
  by rewrite deserialize_serialize.
Qed.

Lemma update_run_found t r st :
  row_with t (run_probe_id r) st ->
  update_run None r t = (inr tt, <[run_probe_id r := serialize_run r]> t).
Proof. intros (r0 & _ & _ & _ & Hl). unfold update_run. by rewrite Hl. Qed.

Lemma finish_run_ok u now o r :
  wf_run r -> wf_run (finish_run u now o r) /\ finished_run (finish_run u now o r) /\
  run_probe_id (finish_run u now o r) = run_probe_id r.
Proof.
  intros (Hq & Hp & _). unfold wf_run, finished_run, active.
  destruct o as [x | res]; simpl; [done |].
  by destruct (r_status res).
Qed.

Lemma mark_running_ok now r :
  wf_run r -> run_status r = "queued" -> wf_run (mark_running now r).
Proof.
  intros (Hq & Hp & Hr) Hs. split; [done |]. split; [done |]. intros _. simpl.
  apply Hr. unfold active. simpl. by rewrite Hs.
Qed.

(** The outcome of a step of the thread [i] *)
Record step_ok (P : pool) (i : nat) (out : shared * thread) : Prop := {
  so_effect : effect (sh_table (po_shared P)) (owners P) (po_used P)
    (sh_table out.1)
    (owners (Pool out.1 (<[i := out.2]> (po_threads P)) (po_worker P) (po_used P)))
    (po_used P);
  so_local : local out.2;
  so_queue : Forall is_Some (sh_queue out.1);
  so_stop : sh_stop out.1 = false;
}.

Section Step.
Context (P : pool) (i : nat) (th : thread).
Context (Hinv : inv P) (Hi : po_threads P !! i = Some th).

Abbreviation s := (po_shared P).

Lemma holds_owned o : owned th = Some o -> holds (sh_table s) o.
Proof.
  intros Ho. destruct (owners_insert P i th th s Hi) as (rest & H & _).
  rewrite Ho in H. eapply core_head; [apply (inv_core _ Hinv) | exact H].
Qed.

(** A step that leaves the table and passes its run on, if at all *)
Lemma step_same s' th' :
  sh_table s' = sh_table s ->
  (option_list (owned th) ++ queue_owners (sh_queue s))%list ≡ₚ
    (option_list (owned th') ++ queue_owners (sh_queue s'))%list ->
  local th' -> Forall is_Some (sh_queue s') -> sh_stop s' = false ->
  step_ok P i (s', th').
Proof.
  intros Ht HL Hl Hq Hs. split; [| done..]. simpl. rewrite Ht.
  destruct (owners_insert P i th th' s' Hi) as (rest & H1 & H2).
  apply eff_same. by rewrite H1, H2, !app_assoc, HL.
Qed.

Lemma step_prune th' die :
  owned th' = owned th -> local th' ->
  step_ok P i (transact (prune_finished_runs None max_runs) die (fun _ => th') s).
Proof.
  intros Ho Hl. split; [| done | apply (inv_queue _ Hinv) | apply (inv_stop _ Hinv)].
  destruct (owners_insert P i th th' (s <| sh_table := pruned max_runs (sh_table s) |>) Hi)
    as (rest & H1 & H2).
  apply eff_prune. etrans; [exact H1 |]. rewrite <- Ho. by symmetry.
Qed.

(** Steps that write the row that the thread owns *)
Lemma step_create r th' :
  owned th = Some (run_probe_id r, None) -> wf_run r ->
  run_status r = "queued" \/ run_status r = "running" ->
  owned th' = Some (run_probe_id r, Some (run_status r)) -> local th' ->
  forall die, step_ok P i (transact (create_run None r) die (fun _ => th') s).
Proof.
  intros Ho Hw Hst Ho' Hl die. pose proof (holds_owned _ Ho) as Hn.
  unfold holds in Hn. simpl in Hn. unfold transact, create_run. rewrite Hn.
  set (s' := s <| sh_table := _ |>).
  split; [| done | apply (inv_queue _ Hinv) | apply (inv_stop _ Hinv)].
  destruct (owners_insert P i th th' s' Hi) as (rest & H1 & H2).
  rewrite Ho in H1. rewrite Ho' in H2.
  eapply eff_create; [exact Hw | exact Hst | exact H1 | exact H2].
Qed.

Lemma step_run r th' :
  owned th = Some (run_probe_id r, Some "queued") -> wf_run r ->
  run_status r = "running" ->
  owned th' = Some (run_probe_id r, Some "running") -> local th' ->
  forall die, step_ok P i (transact (update_run None r) die (fun _ => th') s).
Proof.
  intros Ho Hw Hst Ho' Hl die. pose proof (holds_owned _ Ho) as [Hr _].
  unfold transact. rewrite (update_run_found _ _ _ Hr).
  set (s' := s <| sh_table := _ |>).
  split; [| done | apply (inv_queue _ Hinv) | apply (inv_stop _ Hinv)].
  destruct (owners_insert P i th th' s' Hi) as (rest & H1 & H2).
  rewrite Ho in H1. rewrite Ho' in H2.
  eapply eff_run; [exact Hw | exact Hst | exact H1 | exact H2].
Qed.

Lemma step_finish r th' :
  owned th = Some (run_probe_id r, Some "running") -> wf_run r ->
  finished_run r -> owned th' = None -> local th' ->
  forall die, step_ok P i (transact (update_run None r) die (fun _ => th') s).
Proof.
  intros Ho Hw Hf Ho' Hl die. pose proof (holds_owned _ Ho) as [Hr _].
  unfold transact. rewrite (update_run_found _ _ _ Hr).
  set (s' := s <| sh_table := _ |>).
  split; [| done | apply (inv_queue _ Hinv) | apply (inv_stop _ Hinv)].
  destruct (owners_insert P i th th' s' Hi) as (rest & H1 & H2).
  rewrite Ho in H1. rewrite Ho' in H2.
  eapply eff_finish; [exact Hw | exact Hf | exact H1 | exact H2].
Qed.

(** A step that loads the run that the thread owns *)
Lemma step_load id st (k : option PersistedCanaryRun -> thread) die :
  owned th = Some (id, Some st) ->
  (forall r, wf_run r -> run_probe_id r = id -> run_status r = st ->
     owned (k (Some r)) = Some (id, Some st) /\ local (k (Some r))) ->
  step_ok P i (transact (get_run None id) die k s).
Proof.
  intros Ho Hk. pose proof (holds_owned _ Ho) as [Hr Hrs].
  destruct (get_run_found _ _ _ Hr Hrs) as (r & Hw & Hid & Hst & Hg).
  cbn [fst] in Hg. unfold transact. rewrite Hg.
  destruct (Hk r Hw Hid Hst) as [Ho' Hl].
  apply step_same; [done | | done | apply (inv_queue _ Hinv) | apply (inv_stop _ Hinv)].
  by rewrite Ho, Ho'.
Qed.

Context (c : choice) (Hc : ch_fault c = None).

(** A step that changes neither the table nor the queue *)
Lemma step_private s' th' :
  sh_table s' = sh_table s -> sh_queue s' = sh_queue s -> sh_stop s' = sh_stop s ->
  owned th' = owned th -> local th' -> step_ok P i (s', th').
Proof.
  intros H1 H2 H3 H4 Hl. apply step_same; [done | by rewrite H2, H4 | done | |].
  - rewrite H2. apply (inv_queue _ Hinv).
  - rewrite H3. apply (inv_stop _ Hinv).
Qed.

Lemma local_th : local th.
Proof. pose proof (inv_local _ Hinv) as H. by eapply Forall_lookup_1 in H. Qed.
End Step.

Lemma worker_step_ok P i th c :
  inv P -> po_threads P !! i = Some th -> ch_fault c = None ->
  step_ok P i (worker_step max_runs c th (po_shared P)).
Proof.
  intros Hinv Hi Hc. pose proof (local_th P i th Hinv Hi) as Hl.
  destruct th; simpl in *; rewrite ?Hc; try by eapply step_private.
  - (* get *)
    pose proof (inv_queue _ Hinv) as Hq. destruct (sh_queue (po_shared P)) as [| x q] eqn:He.
    { rewrite (inv_stop _ Hinv). by eapply step_private. }
    apply Forall_cons in Hq as [[id ->] Hq].
    eapply step_same; try done; [by rewrite He | apply (inv_stop _ Hinv)].
  - eapply step_load; [done.. |]. intros r Hw <- Hs.
    split; [done |]. split; [by apply mark_running_ok | done].
  - eapply step_run; try done; apply Hl.
  - eapply step_load; [done.. |]. intros r Hw <- Hs.
    destruct (finish_run_ok worker_error (ch_now c) o r Hw) as (H1 & H2 & H3).
    simpl. by rewrite H3.
  - eapply step_finish; try done; apply Hl.
  - by eapply step_prune.
Qed.

Lemma submit_step_ok P i th c :
  inv P -> po_threads P !! i = Some th -> ch_fault c = None ->
  step_ok P i (submit_step max_runs c th (po_shared P)).
Proof.
  intros Hinv Hi Hc. pose proof (local_th P i th Hinv Hi) as Hl.
  destruct th; simpl in *; rewrite ?Hc; try by eapply step_private.
  - destruct Hl as [Hw Hs]. eapply step_create; try done; simpl; rewrite Hs; auto.
  - by eapply step_prune.
  - eapply step_same; try done; [| | apply (inv_stop _ Hinv)].
    + simpl. unfold queue_owners. rewrite omap_app, map_app. simpl.
      by rewrite Permutation_app_comm.
    + simpl. apply Forall_app. split; [apply (inv_queue _ Hinv) | by repeat constructor].
  - unfold transact, get_run.
    destruct (sh_table (po_shared P) !! id) as [row |];
      [destruct (deserialize_run row) |]; by eapply step_private.
Qed.

Lemma sync_step_ok P i th c :
  inv P -> po_threads P !! i = Some th -> ch_fault c = None ->
  step_ok P i (sync_step max_runs c th (po_shared P)).
Proof.
  intros Hinv Hi Hc. pose proof (local_th P i th Hinv Hi) as Hl.
  destruct th; simpl in *; rewrite ?Hc; try by eapply step_private.
  - destruct Hl as [Hw Hs]. eapply step_create; try done; simpl; rewrite ?Hs; auto.
  - destruct (finish_run_ok sync_error (ch_now c) (ch_outcome c) r Hl) as (H1 & H2 & H3).
    eapply step_private; try done. simpl. by rewrite H3.
  - eapply step_finish; try done; apply Hl.
  - by eapply step_prune.
Qed.

Lemma thread_step_ok P i th c :
  inv P -> po_threads P !! i = Some th -> ch_fault c = None ->
  step_ok P i (thread_step max_runs c th (po_shared P)).
Proof.
  intros Hinv Hi Hc. unfold thread_step.
  destruct th; auto using worker_step_ok, submit_step_ok, sync_step_ok.
Qed.

(** Every step of the pool is an effect and keeps the invariant. *)
Lemma run_thread_ok P i c :
  inv P -> ch_fault c = None ->
  let P' := run_thread max_runs i c P in
  inv P' /\ effect (sh_table (po_shared P)) (owners P) (po_used P)
              (sh_table (po_shared P')) (owners P') (po_used P').
Proof.
  intros Hinv Hc. unfold run_thread.
  destruct (po_threads P !! i) as [th |] eqn:Hi; [| split; [done | by apply eff_same]].
  pose proof (thread_step_ok P i th c Hinv Hi Hc) as [He Hl Hq Hs].
  destruct (thread_step max_runs c th (po_shared P)) as [s' th']. simpl in *.
  split; [| done]. split; simpl; try done.
  - eapply effect_core; [exact He | apply (inv_core _ Hinv)].
  - by apply Forall_insert; [apply (inv_local _ Hinv) |].
Qed.

Lemma spawn_ok P th id :
  inv P -> id ∉ po_used P -> owned th = Some (id, None) -> local th ->
  let P' := spawn th id P in
  inv P' /\ effect (sh_table (po_shared P)) (owners P) (po_used P)
              (sh_table (po_shared P')) (owners P') (po_used P').
Proof.
  intros Hinv Hid Ho Hl P'.
  assert (effect (sh_table (po_shared P)) (owners P) (po_used P)
            (sh_table (po_shared P')) (owners P') (po_used P')) as He.
  { apply eff_spawn; [done |]. unfold owners, P'. simpl.
    rewrite omap_app. simpl. rewrite Ho, !app_assoc.
    by rewrite Permutation_app_comm. }
  split; [| done]. split; simpl; try apply Hinv.
  - eapply effect_core; [exact He | apply Hinv].
  - apply Forall_app. split; [apply Hinv | by repeat constructor].
Qed.

(** How many steps are left of the current iteration of the worker *)
Definition worker_rank (th : thread) : option nat :=
  match th with
  | W_get => Some 0 | W_emit_end _ => Some 1 | W_prune _ => Some 2
  | W_finish _ => Some 3 | W_mark _ _ => Some 4 | W_run _ => Some 5
  | W_emit _ => Some 6 | W_start _ => Some 7 | W_load _ => Some 8
  | _ => None
  end%nat.

(** The first thread is the worker, and there is no other one. *)
Record has_worker (P : pool) : Prop := {
  hw_worker : po_worker P = Some 0%nat;
  hw_rank : exists th n, po_threads P !! 0%nat = Some th /\ worker_rank th = Some n;
  hw_single : Forall (fun th => worker_rank th = None) (tail (po_threads P));
}.

Lemma has_worker_alive P : has_worker P -> worker_alive P = true.
Proof.
  intros [Hw (th & n & Hi & Hn) _]. unfold worker_alive. rewrite Hw. simpl.
  rewrite Hi. by destruct th.
Qed.

Lemma start_alive init c P : worker_alive P = true -> start init c P = inr P.
Proof. intros Ha. unfold start. by rewrite Ha. Qed.

Lemma spawn_submit_alive init c rq p now P P' :
  has_worker P -> spawn_submit init c rq p now P = inr P' ->
  P' = spawn (S_create (submitted_run rq p now
    (Z.of_nat (length (sh_queue (po_shared P))) + 1))) (pp_probe_id p) P.
Proof.
  intros Hw. unfold spawn_submit.
  rewrite start_alive by (by apply has_worker_alive). by intros [= <-].
Qed.

Lemma spawn_sync_inv init rq p now P P' :
  spawn_sync init rq p now P = inr P' ->
  P' = spawn (Y_create (sync_run rq p now)) (pp_probe_id p) P.
Proof. unfold spawn_sync. by destruct init; intros [= <-]. Qed.

Lemma pool_step_ok P P' :
  inv P -> has_worker P -> pool_step max_runs false P P' ->
  inv P' /\ effect (sh_table (po_shared P)) (owners P) (po_used P)
              (sh_table (po_shared P')) (owners P') (po_used P').
Proof.
  intros Hinv Hwk. destruct 1 as [P i c Hc | P P' init c Hs
    | P P' init c rq p now Hid Hq Hw Hs | P P' init rq p now Hid Hq Hw Hs | P l | P l].
  - apply run_thread_ok; [done | by destruct Hc].
  - rewrite start_alive in Hs by (by apply has_worker_alive). injection Hs as <-.
    split; [done | by apply eff_same].
  - apply spawn_submit_alive in Hs as ->; [by apply spawn_ok | done].
  - apply spawn_sync_inv in Hs as ->. by apply spawn_ok.
  - unfold with_shared, register_listener.
    destruct (bool_decide _); (split; [by destruct Hinv | by apply eff_same]).
  - split; [by destruct Hinv | by apply eff_same].
Qed.

(** ** Reachable pools *)

Definition pool_system (t : table) : system pool :=
  System (fun P => table_ok t /\ exists now, booted t now P)
    (pool_step max_runs false).

Lemma fail_row_serialized reason at_ r :
  wf_run r -> exists r', wf_run r' /\ run_probe_id r' = run_probe_id r /\
    fail_row reason at_ (serialize_run r) = serialize_run r' /\ finished_run r'.
Proof. intros (Hq & Hp & _). by exists (failed_run at_ reason r). Qed.

Lemma booted_inv t now P : table_ok t -> booted t now P -> inv P.
Proof.
  intros Ht [= <-]. split; simpl; [| | done | done].
  2: { by repeat constructor. }
  assert (forall k c, ((fun c => if active c
      then fail_row restart_reason now c else c) <$> t) !! k = Some c ->
    (exists r, wf_run r /\ run_probe_id r = k /\ c = serialize_run r) /\
    active c = false) as Hrow.
  { intros k c. rewrite lookup_fmap. destruct (t !! k) as [c0 |] eqn:Hk; [| done].
    simpl. intros [= <-]. destruct (Ht k c0 Hk) as (r & Hw & <- & ->).
    destruct (active (serialize_run r)) eqn:Ha; [| by eauto].
    destruct (fail_row_serialized restart_reason now r Hw) as (r' & ? & ? & -> & ?).
    eauto. }
  split; unfold owners; simpl.
  - intros k c Hk. by apply Hrow.
  - constructor.
  - constructor.
  - split; [by intros o ?%elem_of_nil |]. by rewrite dom_fmap_L.
  - intros k c Hk Ha. apply Hrow in Hk as [_ Hf]. congruence.
Qed.

(** ** The worker *)

(** A worker keeps to its loop and gets on with its work. *)
Lemma worker_progress P th n c :
  inv P -> po_threads P !! 0%nat = Some th -> worker_rank th = Some n ->
  ch_fault c = None ->
  let out := worker_step max_runs c th (po_shared P) in
  exists n', worker_rank out.2 = Some n' /\
    ((9 * length (sh_queue out.1) + n' < 9 * length (sh_queue (po_shared P)) + n)%nat
     \/ th = W_get /\ sh_queue (po_shared P) = [] /\ out = (po_shared P, W_get)).
Proof.
  intros Hinv Hi Hn Hc. pose proof (local_th P 0 th Hinv Hi) as Hl.
  destruct th; try done; injection Hn as <-; unfold worker_step; rewrite ?Hc.
  - pose proof (inv_queue _ Hinv) as Hq.
    destruct (sh_queue (po_shared P)) as [| x q] eqn:He.
    { rewrite (inv_stop _ Hinv). exists O. split; [done | by right]. }
    apply Forall_cons in Hq as [[id ->] Hq]. exists 8%nat. split; [done |].
    left. simpl. lia.
  - destruct (holds_owned P 0 (W_load id) Hinv Hi _ eq_refl) as [Hr Hrs].
    destruct (get_run_found _ _ _ Hr Hrs) as (r & _ & _ & _ & Hg). cbn [fst] in Hg.
    unfold transact. rewrite Hg. exists 7%nat. split; [done |]. left. simpl. lia.
  - destruct (holds_owned P 0 (W_start r) Hinv Hi _ eq_refl) as [Hr _].
    unfold transact. rewrite (update_run_found _ _ _ Hr).
    exists 6%nat. split; [done |]. left. simpl. lia.
  - exists 5%nat. split; [done |]. left. simpl. lia.
  - exists 4%nat. split; [done |]. left. simpl. lia.
  - destruct (holds_owned P 0 (W_mark id o) Hinv Hi _ eq_refl) as [Hr Hrs].
    destruct (get_run_found _ _ _ Hr Hrs) as (r & _ & _ & _ & Hg). cbn [fst] in Hg.
    unfold transact. rewrite Hg. exists 3%nat. split; [done |]. left. simpl. lia.
  - destruct (holds_owned P 0 (W_finish r) Hinv Hi _ eq_refl) as [Hr _].
    unfold transact. rewrite (update_run_found _ _ _ Hr).
    exists 2%nat. split; [done |]. left. simpl. lia.
  - exists 1%nat. split; [done |]. left. simpl. lia.
  - exists 0%nat. split; [done |]. left. simpl. lia.
Qed.

Lemma thread_step_worker c th s n :
  worker_rank th = Some n -> thread_step max_runs c th s = worker_step max_runs c th s.
Proof. by destruct th. Qed.

(** Requests do not become workers. *)
Lemma thread_step_request c th s0 :
  worker_rank th = None -> worker_rank (thread_step max_runs c th s0).2 = None.
Proof.
  destruct th; simpl; try done; intros _; unfold transact;
    repeat case_match; simplify_eq/=; done.
Qed.

Lemma has_worker_run P i c :
  inv P -> has_worker P -> ch_fault c = None -> has_worker (run_thread max_runs i c P).
Proof.
  intros Hinv [Hw (th & n & Hi & Hn) Hs] Hf. unfold run_thread.
  destruct (po_threads P) as [| th0 ths] eqn:Hths; [done |]. injection Hi as ->.
  destruct i as [| i]; simpl.
  - rewrite (thread_step_worker _ _ _ _ Hn).
    destruct (worker_progress P th n c Hinv) as (n' & Hn' & _);
      [by rewrite Hths | done | done |].
    destruct (worker_step _ _ _ _) as [s' th']. by split; simpl; [| eauto |].
  - destruct (ths !! i) as [th' |] eqn:Hi;
      [| split; rewrite ?Hths; simpl; by eauto].
    pose proof (Forall_lookup_1 _ _ _ _ Hs Hi) as Hr.
    apply (thread_step_request c th' (po_shared P)) in Hr.
    destruct (thread_step _ _ _ _) as [s' th'']. split; simpl; [done | by eauto |].
    by apply Forall_insert.
Qed.

Lemma has_worker_spawn P th id :
  has_worker P -> worker_rank th = None -> has_worker (spawn th id P).
Proof.
  intros [Hw (th0 & n & Hi & Hn) Hs] Hr. unfold spawn.
  destruct (po_threads P) as [| th1 ths]; [done |].
  split; simpl; [done | by eauto |]. apply Forall_app. by split; [| constructor].
Qed.

Lemma has_worker_step P P' :
  inv P -> has_worker P -> pool_step max_runs false P P' -> has_worker P'.
Proof.
  intros Hinv Hwk. destruct 1 as [P i c Hc | P P' init c Hs
    | P P' init c rq p now Hid Hq Hw Hs | P P' init rq p now Hid Hq Hw Hs | P l | P l].
  - apply has_worker_run; [done.. | by destruct Hc].
  - rewrite start_alive in Hs by (by apply has_worker_alive). by injection Hs as <-.
  - apply spawn_submit_alive in Hs as ->; [by apply has_worker_spawn | done].
  - apply spawn_sync_inv in Hs as ->. by apply has_worker_spawn.
  - by destruct Hwk.
  - by destruct Hwk.
Qed.

#[local] Instance worker_invariant t :
  Invariant (pool_system t) (fun P => inv P /\ has_worker P).
Proof.
  split.
  - intros P [Ht [now Hb]]. split; [by eapply booted_inv |].
    injection Hb as <-. split; simpl; [done | by exists W_get, O | done].
  - intros P P' [Hinv Hw] Hs. split; [by apply pool_step_ok in Hs as [? _] |].
    by eapply has_worker_step.
Qed.

Lemma reachable_inv t P :
  reachable (pool_system t) P -> inv P /\ has_worker P.
Proof. apply (invariant_reachable (pool_system t) (fun P => inv P /\ has_worker P)). Qed.

(** The worker alone takes the given steps. *)
Fixpoint run_worker (cs : list choice) (P : pool) : pool :=
  match cs with
  | [] => P
  | c :: cs => run_worker cs (run_thread max_runs 0 c P)
  end.

(** The steps that the worker needs for all that is queued *)
Definition work (P : pool) : nat :=
  9 * length (sh_queue (po_shared P)) +
  default O (po_threads P !! 0%nat ≫= worker_rank).

Lemma run_worker_work cs P :
  inv P -> has_worker P -> Forall (fun c => ch_fault c = None) cs ->
  (work P <= length cs)%nat ->
  let P' := run_worker cs P in
  inv P' /\ sh_queue (po_shared P') = [] /\ po_threads P' !! 0%nat = Some W_get /\
  tail (po_threads P') = tail (po_threads P).
Proof.
  intros Hinv Hw Hcs. revert P Hinv Hw.
  induction Hcs as [| c cs Hc Hcs IH]; intros P Hinv Hwk Hwork;
    destruct (hw_rank _ Hwk) as (th & n & Hi & Hn);
    unfold work in Hwork; rewrite Hi in Hwork; simpl in Hwork; rewrite Hn in Hwork;
    simpl in Hwork.
  { assert (n = 0%nat /\ length (sh_queue (po_shared P)) = 0%nat) as [-> Hq] by lia.
    apply length_zero_iff_nil in Hq. by destruct th. }
  simpl. destruct (worker_progress P th n c Hinv Hi Hn Hc) as (n' & Hn' & Hless).
  assert (inv (run_thread max_runs 0 c P)) as Hinv' by (by apply run_thread_ok).
  assert (has_worker (run_thread max_runs 0 c P)) as Hw'.
  { by apply has_worker_run. }
  revert Hinv' Hw'. unfold run_thread. rewrite Hi, (thread_step_worker _ _ _ _ Hn).
  destruct (worker_step max_runs c th (po_shared P)) as [s' th']. simpl in *.
  destruct (po_threads P) as [| th0 ths] eqn:Hths; [done |]. intros Hinv' Hw'.
  destruct (IH _ Hinv' Hw') as (H1 & H2 & H3 & H4); [| done].
  unfold work. simpl. rewrite Hn'. simpl.
  destruct Hless as [? | (-> & Hq & [= -> ->])]; [lia |].
  injection Hn' as <-. rewrite Hq in *. simpl in *. lia.
Qed.

(** ** Theorems *)

(** C25: In every interleaving of requests, probes and the worker, a run goes from
    queued to running and from running to finished; a finished run does not change
    any more, and only finished runs are ever removed.  The process has started on a
    table of rows that the store has written, the database does not fail,
    and the requests satisfy the constraints of their model with finite timeouts, so
    that the store can read back what it has written. *)
Theorem canary_runs_move_forward t P P' :
  reachable (pool_system t) P -> pool_step max_runs false P P' ->
  lifecycle (sh_table (po_shared P)) (sh_table (po_shared P')).
Proof.
  intros Hr Hs. apply reachable_inv in Hr as [Hinv Hw].
  apply pool_step_ok in Hs as [_ He]; [| done..].
  eapply effect_lifecycle; [exact He | apply (inv_core _ Hinv)].
Qed.

(** C6: No run is forgotten and none is run twice: every queued or running run of the
    store is in the queue or in the hands of a thread, in exactly one place, every id
    in the queue is that of a queued run, and there is one worker, which is alive.
    The process has started on a table of rows that the store has written, the
    database does not fail, and the requests satisfy the constraints of their model
    with finite timeouts, so that the store can read back what it has written. *)
Theorem canary_no_run_forgotten t P :
  reachable (pool_system t) P ->
  NoDup (owners P).*1 /\ Forall (holds (sh_table (po_shared P))) (owners P) /\
  (forall k c, sh_table (po_shared P) !! k = Some c -> active c = true ->
     k ∈ (owners P).*1) /\
  has_worker P /\ worker_alive P = true.
Proof.
  intros Hr. apply reachable_inv in Hr as [[[H1 H2 H3 H4 H5] _ _ _] Hw].
  repeat split; try done; [apply Hw.. | by apply has_worker_alive].
Qed.

(** C26: Left alone the worker empties the queue: whatever its probes do, nine
    steps for each queued run, and those left of its current one, bring it to
    wait on an empty queue.  When no request is under way then, every run of the
    store is finished.  The process has started on a table of rows that the store has
    written, the database does not fail, before or meanwhile, and the requests
    satisfy the constraints of their model with finite timeouts. *)
Theorem canary_queue_drains t P cs :
  reachable (pool_system t) P -> Forall (fun c => ch_fault c = None) cs ->
  (work P <= length cs)%nat ->
  let P' := run_worker cs P in
  sh_queue (po_shared P') = [] /\ po_threads P' !! 0%nat = Some W_get /\
  (Forall (fun th => owned th = None) (tail (po_threads P)) ->
   map_Forall (fun _ c => active c = false) (sh_table (po_shared P'))).
Proof.
  intros Hr Hcs Hwork.
  apply reachable_inv in Hr as [Hinv Hw].
  destruct (run_worker_work cs P Hinv Hw Hcs Hwork) as (Hinv' & Hq & H0 & Htail).
  split; [done |]. split; [done |]. intros Hidle k c Hk.
  destruct (active c) eqn:Ha; [| done]. exfalso.
  pose proof (core_owned _ _ _ (inv_core _ Hinv') k c Hk Ha) as Hin.
  unfold owners in Hin. rewrite Hq in Hin.
  destruct (po_threads (run_worker cs P)) as [| th ths]; [done |].
  injection H0 as ->. simpl in Htail, Hin. subst ths.
  apply list_elem_of_fmap in Hin as (o & _ & Ho).
  apply list_elem_of_omap in Ho as (th & Hth & Ho).
  rewrite Forall_forall in Hidle. rewrite (Hidle th Hth) in Ho. done.
Qed.
End Life.
End CanaryLife.
