(* ===== verification/CanaryFaults.v ===== *)
(** * What the manager of canary runs does not guarantee

    A database error at the wrong place strands a run: it stays queued with
    nobody to run it.  Where the worker met the error it is gone, and the next
    start marks the run failed; where a request met it the worker is alive, and
    a start does nothing.  A request with an infinite timeout kills the worker.
    And a listener may be told that a run is queued after it was told that the run is running.
    Examples of the theorems about the manager are here, too. *)

From stdpp Require Import base option list strings gmap.
From Stdlib Require Import ZArith Lia.
From S2P Require Import Prelude Strings Binary64 Python CanaryService CanaryModels CanaryStore CanaryManager.
From S2P Require Import CanaryExample CanaryJson CanaryManagerProofs.

Local Open Scope Z_scope.
Local Open Scope string_scope.

Module CanaryFaults.
Import Canary CanaryModels CanaryStore CanaryManager CanaryExample CanaryJson CanaryLife.

Section Faults.
Context {HJ : Json} {HJL : JsonLaws} {HO : OrderBy} {HOL : OrderByLaws}.
Context (max_runs : nat).

(** The thread is about to use the store for the queued run [id]: the worker
    that took it from the queue, or the request that is to put it there. *)
Definition at_store (th : thread) (id : string) : Prop :=
  th = W_load id \/ exists r, th = S_prune r /\ run_probe_id r = id.

(** A thread that gives its run up leaves it without an owner. *)
Lemma owners_dropped P i th die s id st :
  inv P -> po_threads P !! i = Some th -> owned th = Some (id, st) ->
  owned die = None -> sh_queue s = sh_queue (po_shared P) ->
  id ∉ (owners (Pool s (<[i := die]> (po_threads P)) (po_worker P) (po_used P))).*1.
Proof.
  intros Hinv Hi Ho Hd Hq.
  destruct (owners_insert P i th die s Hi) as (rest & H1 & H2).
  rewrite Ho in H1. rewrite Hd, Hq in H2.
  pose proof (core_nodup _ _ _ (inv_core _ Hinv)) as Hnd.
  rewrite H1 in Hnd. apply NoDup_cons in Hnd as [Hn _]. by rewrite H2.
Qed.

Lemma alive_after P i th die s :
  has_worker P -> po_threads P !! i = Some th ->
  worker_alive (Pool s (<[i := die]> (po_threads P)) (po_worker P) (po_used P)) =
    match worker_rank th with Some _ => is_alive die | None => true end.
Proof.
  intros [Hw (th0 & n & Hi0 & Hn) Hs] Hi. unfold worker_alive. simpl.
  rewrite Hw. simpl. destruct (po_threads P) as [| th1 ths]; [done |].
  injection Hi0 as ->. destruct i as [| i]; simpl in *.
  - injection Hi as <-. by rewrite Hn.
  - rewrite (Forall_lookup_1 _ _ _ _ Hs Hi). by destruct th0.
Qed.

Lemma start_fails_row c id P P2 r :
  worker_alive P = false -> ch_fault c = None ->
  sh_table (po_shared P) !! id = Some r -> active r = true ->
  CanaryManager.start None c P = inr P2 ->
  exists row, sh_table (po_shared P2) !! id = Some row /\
    c_status row = "failed" /\ c_error row = Some restart_reason.
Proof.
  intros Ha Hc Hl Hr. unfold CanaryManager.start. rewrite Ha, Hc. simpl.
  intros [= <-]. simpl. rewrite lookup_fmap, Hl. simpl. rewrite Hr. by eexists.
Qed.

(** C39: After any schedule without database errors, of requests that can be
    stored, the first database error strands the run that is being handed over:
    the row says queued, but no queue and no thread has the run any more.  Where it
    was the worker that met the error, the worker is dead, and the next start marks
    the run as failed because of a restart.  Where it was the request, the worker is
    alive, so a start changes nothing and the row stays queued. *)
Theorem canary_store_error_strands_run t P i th id c msg :
  reachable (pool_system max_runs t) P -> po_threads P !! i = Some th ->
  at_store th id -> ch_fault c = Some msg ->
  let P' := run_thread max_runs i c P in
  row_with (sh_table (po_shared P')) id "queued" /\ (id ∉ (owners P').*1) /\
  (th = W_load id -> worker_alive P' = false /\
     forall now o P2, CanaryManager.start None (Choice None now o) P' = inr P2 ->
     exists row, sh_table (po_shared P2) !! id = Some row /\
       c_status row = "failed" /\ c_error row = Some restart_reason) /\
  (th <> W_load id -> worker_alive P' = true /\
     forall init c', CanaryManager.start init c' P' = inr P').
Proof.
  intros Hr Hi Hat Hf. apply reachable_inv in Hr as [Hinv Hwk]; [| done..].
  assert (exists die, owned th = Some (id, Some "queued") /\ owned die = None /\
    thread_step max_runs c th (po_shared P) = (po_shared P, die) /\
    (th = W_load id -> is_alive die = false))
    as (die & Ho & Hd & Hs & Hal).
  { destruct Hat as [-> | (r & -> & <-)]; simpl; rewrite Hf; unfold transact; simpl;
      eexists; (split; [done |]); (split; [| split; [by destruct (po_shared P) |]]);
      done. }
  pose proof (holds_owned P i th Hinv Hi _ Ho) as [Hrow _]. cbn [fst] in Hrow.
  unfold run_thread. rewrite Hi, Hs. cbn [po_shared po_threads].
  pose proof (alive_after P i th die (po_shared P) Hwk Hi) as Ha.
  split; [done |]. split; [by eapply owners_dropped |].
  split; intros Hth.
  - rewrite (Hal Hth) in Ha. rewrite Hth in Ha. simpl in Ha. split; [done |].
    destruct Hrow as (r & _ & _ & Hst & Hl). intros now o P2.
    eapply start_fails_row; [done | done | exact Hl |]. unfold active. simpl.
    by rewrite Hst.
  - destruct Hat as [? | (r & -> & _)]; [done |]. split; [done |].
    intros init c'. by apply start_alive.
Qed.

(** A request whose timeout is infinite satisfies the constraints of its model,
    but its row cannot be read: the worker that takes the run from the queue
    dies, the row stays queued, and no list of runs that reaches the row can be
    made, neither then nor after the next start has marked the run as failed. *)
Theorem canary_infinite_timeout_kills_worker P i id r c now reason :
  finite (rq_timeout_s (run_request r)) = false ->
  po_threads P !! i = Some (W_load id) -> ch_fault c = None ->
  sh_table (po_shared P) !! id = Some (serialize_run r) ->
  po_threads (run_thread max_runs i c P) !! i =
    Some (W_exited (Some (ValidationError "timeout_s"))) /\
  sh_table (po_shared (run_thread max_runs i c P)) = sh_table (po_shared P) /\
  get_run None id (<[id := fail_row reason now (serialize_run r)]>
      (sh_table (po_shared P))) =
    (inl (ValidationError "timeout_s"),
     <[id := fail_row reason now (serialize_run r)]> (sh_table (po_shared P))).
Proof.
  intros Hf Hi Hc Hl. unfold run_thread. rewrite Hi. simpl. unfold transact, get_run.
  rewrite Hc, Hl, deserialize_infinite by done. simpl. split.
  - by apply list_lookup_insert_eq, lookup_lt_is_Some_1.
  - split; [done |]. rewrite lookup_insert_eq.
    change (fail_row reason now (serialize_run r)) with
      (serialize_run (failed_run now reason r)).
    by rewrite deserialize_infinite.
Qed.

(** ** A schedule *)

Definition quiet : choice :=
  Choice None "now" (inl (Exception EmptyString EmptyString)).

(** The process after it has started on an empty store *)
Definition fresh : pool :=
  Pool (Shared ∅ [] false [] []) [W_get] (Some 0%nat) ∅.

Lemma fresh_booted : booted ∅ "now" fresh.
Proof.
  unfold booted, CanaryManager.start, fresh. simpl.
  by rewrite fmap_empty, dom_empty_L.
Qed.

Lemma fresh_reachable : reachable (pool_system max_runs ∅) fresh.
Proof.
  apply reachable_init. split; [apply map_Forall_empty |].
  exists "now". apply fresh_booted.
Qed.

Lemma reachable_run t P i :
  reachable (pool_system max_runs t) P ->
  reachable (pool_system max_runs t) (run_thread max_runs i quiet P).
Proof. intros H. eapply reachable_step; [exact H |]. apply step_thread. by right. Qed.

Definition switch_request : CanaryProbeRequest :=
  Request network None "br-int" (Float.of_Z 5) 250 None.

Definition queued_run : PersistedCanaryRun :=
  submitted_run switch_request (switch_probe 5) "t" 1.

(** A listener, and a request that has come to the given point *)
Definition one_request (t : table) (q : list (option string)) (w th : thread)
    (em : list (string * CanaryRunSummary)) : pool :=
  Pool (Shared t q false ["ui"] em) [w; th] (Some 0%nat) ({["probe"]} ∪ ∅).

Definition queued_table : table :=
  pruned max_runs (<["probe" := serialize_run queued_run]> ∅).

Lemma queued_row : queued_table !! "probe" = Some (serialize_run queued_run).
Proof.
  unfold queued_table. apply lookup_pruned. rewrite lookup_insert_eq.
  split; [done |].
  eapply pruned_active; [| by apply lookup_insert_eq | done].
  apply (keyed_insert ∅ queued_run), map_Forall_empty.
Qed.

Lemma queued_run_storable : storable_run queued_run.
Proof.
  split; [reflexivity |]. split; [| by intros res [=]].
  split; [by apply (bool_decide_unpack _) | reflexivity].
Qed.

(** The request has put its run into the queue. *)
Lemma queued_reachable : reachable (pool_system max_runs ∅)
  (one_request queued_table [Some "probe"] W_get (S_emit queued_run) []).
Proof.
  assert (reachable (pool_system max_runs ∅)
    (spawn (S_create queued_run) "probe"
       (with_shared (register_listener "ui") fresh))) as H.
  { eapply reachable_step; [eapply reachable_step; [apply fresh_reachable |] |].
    - apply step_register.
    - apply (step_submit _ _ _ _ None quiet switch_request (switch_probe 5) "t");
        [done | done | apply queued_run_storable | done]. }
  apply (reachable_run _ _ 1), (reachable_run _ _ 1), (reachable_run _ _ 1) in H.
  exact H.
Qed.

Definition running_run : PersistedCanaryRun := mark_running "now" queued_run.

(** The worker has taken it. *)
Lemma started_reachable : reachable (pool_system max_runs ∅)
  (one_request queued_table [] (W_start running_run) (S_emit queued_run) []).
Proof.
  pose proof queued_reachable as H.
  apply (reachable_run _ _ 0), (reachable_run _ _ 0) in H.
  unfold run_thread in H. simpl in H. unfold transact in H. simpl in H.
  by rewrite queued_row, (deserialize_serialize _ queued_run_storable) in H.
Qed.

(** It has said that it is running. *)
Lemma running_reachable : reachable (pool_system max_runs ∅)
  (one_request (<["probe" := serialize_run running_run]> queued_table) []
     (W_run running_run) (S_emit queued_run) [("ui", to_summary running_run)]).
Proof.
  pose proof started_reachable as H. apply (reachable_run _ _ 0) in H.
  unfold run_thread in H. simpl in H. unfold transact, update_run in H. simpl in H.
  rewrite queued_row in H. simpl in H.
  by apply (reachable_run _ _ 0) in H.
Qed.

(** A listener may be told that a run is queued after it was told that the
    run is running: the request puts the run into the queue before it tells the
    listeners. *)
Theorem canary_events_overtake : exists P,
  reachable (pool_system max_runs ∅) P /\
  map (fun '(_, su) => (su_probe_id su, su_status su)) (sh_emitted (po_shared P)) =
    [("probe", "running"); ("probe", "queued")].
Proof.
  pose proof running_reachable as H. apply (reachable_run _ _ 1) in H.
  eexists. split; [exact H | done].
Qed.
End Faults.

(** ** Witnesses *)

(** The worker takes the run that the store has as queued, and the store has it
    as running then. *)
Lemma canary_runs_move_forward_witness : exists c c',
  let P := one_request (queued_table 20) [] (W_start running_run)
             (S_emit queued_run) [] in
  sh_table (po_shared P) !! "probe" = Some c /\
  sh_table (po_shared (run_thread 20 0 quiet P)) !! "probe" = Some c' /\
  c_status c = "queued" /\ c_status c' = "running" /\ row_step c c'.
Proof.
  exists (serialize_run queued_run), (serialize_run running_run). intros P.
  assert (sh_table (po_shared (run_thread 20 0 quiet P)) !! "probe" =
    Some (serialize_run running_run)) as Hrow.
  { unfold run_thread, P. simpl. unfold transact, update_run. simpl.
    rewrite (queued_row 20). simpl. by rewrite lookup_insert_eq. }
  split; [apply queued_row |]. split; [exact Hrow |]. do 2 (split; [done |]).
  pose proof (canary_runs_move_forward 20 ∅ P (run_thread 20 0 quiet P)
    (started_reachable 20) (step_thread 20 false P 0 quiet (or_intror eq_refl))
    "probe" (serialize_run queued_run) (queued_row 20)) as H.
  by rewrite Hrow in H.
Defined.

Lemma canary_no_run_forgotten_witness :
  let P := one_request (queued_table 20) [Some "probe"] W_get
             (S_emit queued_run) [] in
  "probe" ∈ (owners P).*1.
Proof.
  intros P. apply (canary_no_run_forgotten 20 ∅ P (queued_reachable 20)) with
    (serialize_run queued_run); [apply queued_row | done].
Defined.

Lemma canary_queue_drains_witness :
  let P := one_request (queued_table 20) [Some "probe"] W_get
             (S_emit queued_run) [] in
  map_Forall (fun _ c => active c = false)
    (sh_table (po_shared (run_worker 20 (replicate 9 quiet) P))).
Proof.
  intros P. apply (canary_queue_drains 20 ∅ P (replicate 9 quiet)).
  - apply queued_reachable.
  - by apply Forall_replicate.
  - unfold work. simpl. lia.
  - by repeat constructor.
Defined.

Lemma canary_events_overtake_witness : exists P,
  reachable (pool_system 20 ∅) P /\
  map (fun '(_, su) => (su_probe_id su, su_status su)) (sh_emitted (po_shared P)) =
    [("probe", "running"); ("probe", "queued")].
Proof. apply (canary_events_overtake 20). Defined.

Lemma canary_store_error_strands_run_witness :
  let P := one_request (queued_table 20) [] (W_load "probe")
             (S_emit queued_run) [] in
  let P' := run_thread 20 0 (Choice (Some "database is locked") "now"
              (inl (Exception EmptyString EmptyString))) P in
  row_with (sh_table (po_shared P')) "probe" "queued" /\
  ("probe" ∉ (owners P').*1) /\ worker_alive P' = false.
Proof.
  intros P P'.
  assert (reachable (pool_system 20 ∅) P) as Hr.
  { pose proof (queued_reachable 20) as H. by apply (reachable_run 20 _ _ 0) in H. }
  destruct (canary_store_error_strands_run 20 ∅ P 0 (W_load "probe") "probe"
    (Choice (Some "database is locked") "now"
       (inl (Exception EmptyString EmptyString))) "database is locked"
    Hr eq_refl (or_introl eq_refl) eq_refl) as (H1 & H2 & H3 & _).
  destruct (H3 eq_refl) as [H4 _]. by split.
Defined.

End CanaryFaults.
